(* ===== verification/_CoqProject ===== *)
-Q . S2P
Prelude.v
PyFloat.v
LimitExact.v
PyValue.v
FloatWhole.v
Naming.v
GrouperSpec.v
Grouper.v
GrouperCorrect.v
FloatSizes.v
GrouperTyping.v
GrouperIO.v
Machine.v
Rerun.v
InputParser.v
Argparse.v
CommandLine.v
Monitor.v
InputTree.v
InputProtocol.v
