(* ===== verification/Prelude.v ===== *)
(** * md5Data_Grouper: a verification development

    The repository holds two command-line scripts that an external pipeline
    runs one after the other.

    - [src/bin/input_parser.py] reads a table of directory paths, walks every
      directory that exists and prints the absolute path of every file whose
      name ends in [.fq.gz] (or of every file, with [--scan_all]).
    - [src/bin/data_grouper.py] loads the merged manifest (path, size, MD5),
      writes it whole as [<prefix>_full_list.xlsx], then cuts it, in one
      forward pass, into consecutive groups whose cumulative size does not
      exceed [limit_tb * 1024**4] bytes and writes every group as
      [<prefix>_group_<NNN>.xlsx].

    The two scripts share no code; the checksum stage that runs between them
    is not part of the repository.

    ** Files of the development, in dependency order

    - [Prelude] (this file): the exceptions the scripts can meet ([pyexn]);
      [result], the type of an expression that may raise, with its bind in
      [py_scope]; [prog S A], the type of a statement that runs in a state
      [S] and may raise, with [get], [modify], [lift], [raise],
      [try_except], [when] and [for_each] and its notations in
      [prog_scope]; the tactics and the hint database [grouper]; sums of
      integer lists and the list lemmas the components share.
    - [PyFloat]: the binary64 numbers of Python's [float] as [spec_float] of
      the Standard Library (precision 53, [emax] 1024): conversion of an
      [int] to a [float] (raising [OverflowError] as CPython does), the
      product [limit_tb * (1024**4)] of line 22 of [data_grouper.py], and
      the exact comparison of an [int] with a [float] used by line 32. The
      class [Limit] is the interface the grouper's specification is proved
      against: a predicate on byte counts that is upward closed. Its
      instances are the float limit of the script and an integer limit.
      Two limits are equivalent ([limit_equiv], written [≈]) when the
      same byte counts exceed them.
    - [LimitExact]: the product of line 22 is exact: the rounding of
      [SFmul] followed step by step on a factor [2^40], for normal and
      subnormal floats, with the overflow to an infinity; the product is a
      well-formed binary64 value.
    - [PyValue]: the values a manifest cell can hold ([int], [float], [str])
      and Python's [+] and [>] on them, with [TypeError] where CPython raises
      it.
    - [FloatWhole]: whole numbers in a column of floats. [whole] is the
      float of a whole number and [normal] its normal form (53 digits, an
      exponent from -52 to 0); the sum of line 39 and the comparison of
      line 32 on such floats, followed through [SFadd] and [SFcompare].
    - [Naming]: the output names: Python's [{count:03d}] as [fmt_03d], a
      parser of decimal integers, the round trip, and that no group shares
      its name with another or with the full list.
    - [GrouperSpec]: what the grouper promises, for any type of rows, any
      weight and any [Limit]. Nothing in this file is a translation of
      the code: it is the specification the script is proved against. [pack] is the forward pass as a pure function;
      [greedy] is a reference that cuts the longest admissible prefix again
      and again; [greedy_groups] is the declarative specification, a
      relation between a manifest and its partition. The theorems show that
      [pack] computes [greedy], that it satisfies the relation, and that
      the relation has one solution only. [Proper] instances let
      equivalent limits be rewritten in [scan], [pack], [greedy] and
      [greedy_groups].
    - [Grouper]: [data_grouper.py]. The Record [state] holds the variables
      of the loop ([current_group], [current_size], [group_count]) and the
      log of the files written so far. [to_excel] and [save_group] (lines
      45-48) append to the log; [step] is one iteration of the loop (lines
      29-39), statement by statement; [main] is the script (lines 14-43),
      the loop being [for_each] over the rows; [run_main] runs it from the
      empty world and returns the files and the exception, if any.
      [reachable] is the step relation of the loop and [state_inv] its
      invariant; [disk_of] is the directory the log leaves behind. The
      theorems of the file hold for cells of any type.
    - [GrouperCorrect]: the refinement of [GrouperSpec] by [Grouper] on
      integer sizes and the properties of the script that follow from it,
      then the manifests and limits the specification does not speak of.
    - [FloatSizes]: the script on a [Size] column read as [float64]:
      [float_size] and [whole_row] describe a column of whole sizes,
      [float_scanned] the state of the loop on it, [as_float] the row of
      an integer column read as floats.
    - [GrouperTyping]: the Python type of the cells of the size column
      ([celltype], [typeof], [typed]) and the type [current_size] has in
      the loop over such a column ([size_typed]): preservation, progress
      on numbers, and how the script ends on each type.
    - [GrouperIO]: [data_grouper.py] when [to_excel] can raise. A
      [Writer] says which exception the write of a file raises, if any;
      [to_excel_io], [save_group_io], [step_io], [main_io] and
      [run_main_io] are the script over it. [cut] and [truncate] say what
      a failing writer leaves of a run of [Grouper]; [refines] is the
      simulation between a statement over a writer and the same statement
      of [Grouper].
    - [Machine]: [data_grouper.py] one statement at a time. [pc] is the
      line about to run with the local variables it needs, [config] a line
      and a [state], [next] the transition function (lines 14-43 over a
      [Writer]), [mstep] the transition relation, [run] its iteration,
      [weight] the measure that every transition decreases, [line_inv]
      the invariant of the lines: what holds of the rows on disk, of the
      open group and of the rows not read yet when a line is about to run.
    - [Rerun]: the directory over several runs. [write_file] is
      [to_excel] on a directory (a finite map from names to rows),
      [write_all] a log written in its order, [run_in] a run of the
      script in a directory; [disk_groups] reads the numbered group files
      back, as a consumer of the output would.
    - [InputParser]: [input_parser.py]. The Record [Env] holds the library
      functions the script calls ([read_excel], [read_csv], [path_exists],
      [walk], [path_join], [abspath]); the state is the Record [console]
      (the lines of the standard output and of the standard error).
      A [cell] of the column of folders is a string or the float NaN of a
      blank cell. [endswith] is [str.endswith], [choose_reader] and
      [read_table] are lines 16-21, [exists_cell] and [walk_cell] the
      calls of lines 28 and 31, [scan_folder] the body of the loop,
      [scan_folders] the loops of lines 27-35, [input_main] the script
      with its [try] (lines 15-24), [run_input_main] its run from an
      empty console. [scan_lines] is the reference comprehension.
    - [Argparse]: a model of the library [argparse], whose code is not
      in the repository: [parse_args] on a command line that is
      already cut into [item]s (an option with its text, a flag,
      [--help], a word that belongs to no option). A parser is a table
      of [action]s ([Store] with a type, [required] and a default, or
      [StoreTrue]); [consume] reads one item into the state [parsing]
      (the namespace, the options seen, whether a stray word was met),
      [consume_all] the whole line, [parse_command_line] adds the checks
      made at the end. [stored], [accepted] and [last_given] are the
      reference: what an item stores, the command lines that are
      accepted, and the last value given to an option. [float] on a text
      is a parameter of the section.
    - [CommandLine]: the two scripts as processes. [grouper_parser] and
      [scan_parser] are the tables of lines 7-10 and 8-11,
      [grouper_args] and [scan_args] the attributes the scripts read;
      a [process] is what a caller sees (files, standard output, kinds
      of messages on the standard error, exit status); [exit_status]
      and [finished] are the end of the interpreter, [turned_down] the
      end [argparse] makes; [grouper_script] composes the command
      line, the loader and [run_main_io], [scan_script] the command
      line and [run_input_main].
    - [Monitor]: interaction trees that follow a protocol. A protocol is
      an automaton on the events of a tree; [follows] is the greatest
      fixed point that says every event is legal where it happens,
      whatever the answers, with proof rules for [Ret], [ITree.trigger],
      [ITree.bind] and [ITree.iter], and [accepts], its reading on the
      finite traces of a tree. The file knows nothing of the scripts.
    - [InputTree]: [input_parser.py] as an interaction tree. The events
      [ioE] are the calls of the script ([ReadExcel], [ReadCsv],
      [PathExists], [WalkOpen] and [WalkNext] for [os.walk] and its
      generator, [AbsPath], [Print], [PrintError]); [ttry], [twhen],
      [tfor] and [tgen] are [try], [if], [for] over a list and [for] over
      a generator; [read_table_tree] is lines 16-21, [print_files_tree]
      lines 32-35, [scan_folder_tree] lines 28-35 and [input_tree] the
      script. [h_env] answers the events from an [Env] of [InputParser];
      [runs_as] relates a tree run by it to a program of the monad.
    - [InputProtocol]: the protocol of [input_parser.py]: [phase] is
      where the script is (before the read, in the column, between
      [os.path.exists] and [os.walk], in a listing, between
      [os.path.abspath] and [print], ended), [legal] the calls allowed
      there and [after] the phase a call and its answer lead to.

    ** How the model corresponds to the code

    Python's [int] is unbounded and is modelled as [Z]; no wrap-around is
    involved, because [DataFrame.iterrows] hands the loop Python objects.
    A [float] is a [spec_float]; arithmetic on it is the Standard Library's
    executable IEEE-754 model, so the limit is computed as CPython computes
    it, infinities and NaN included. An exception is a value of [pyexn]. A
    statement is a function from the state to the state it leaves and
    either a value or the exception raised: the state reached when an
    exception is raised is part of the result, so that what was written or
    printed before a failure stays written. Every assignment of the source
    is one [modify], in the order of the source. The files the grouper
    writes are a log (name and rows, oldest first), from which [disk_of]
    builds the final directory as a [gmap]. [input_parser.py] is modelled
    twice: as a program of the monad over an environment of functions
    ([InputParser]), and as a tree of its calls, which fixes the order of
    the calls and leaves the answers open ([InputTree]); the first is the
    second run against the environment.

    ** What the theorems show

    - order preservation and coverage: the groups written, concatenated in
      the order of their numbers, are the manifest;
    - no group is empty; a group of two or more rows does not exceed the
      limit; a group that exceeds it is a single row that exceeds it alone;
    - greediness: a group is closed only when the next row would not fit;
    - the script computes the reference partition and satisfies the
      declarative specification, which determines the partition uniquely;
    - with non-negative sizes, no grouping of the manifest in its order
      into admissible groups has fewer groups than the script writes, and
      two consecutive groups together exceed the limit (the next-fit
      bound on the group count): the script writes at most twice the
      groups, and one, of any packing of the rows, in any order, into
      bins that do not exceed the limit;
    - the invariant of the loop state, preserved by every iteration, and
      that an iteration that raises leaves the state as it was;
    - typing: [current_size] keeps the type of the column; a column of
      integers or of floats never makes the script raise, a non-empty
      column of strings makes it raise [TypeError];
    - failing writes: whatever writes fail, the run is the run without
      failures cut at the first file that cannot be written, and ended by
      the exception of that write; a manifest longer than a sheet ends
      the script at line 18, before any group is written;
    - termination: every transition of the machine decreases [weight], so
      no infinite run exists and [run] with fuel [weight] ends; the
      machine ends with the files and the exception of [main_io]; along a
      run files are only added;
    - how long a group waits: on integer sizes and writes that succeed,
      a group that is followed by another is a file nine transitions
      after the first row of the next group was read, however many rows
      follow, and every group is a file when the machine has ended;
    - the invariant of the lines, by induction on the transitions: at
      every point of a run, whatever writes fail, the rows in group files
      are the first rows of the manifest, in order, and no group file is
      empty;
    - the run depends on the limit through the sizes that exceed it only:
      equivalent limits give the same files;
    - the directory: the groups read back from a fresh directory are the
      groups written; a run changes no file but those it names; a second
      run with the same arguments changes nothing; a second run that
      writes fewer groups leaves the higher-numbered groups of the first
      in the directory;
    - error paths: a non-numeric size raises [TypeError] after the full list
      and the groups already closed have been written; a column of
      floats raises nothing; a limit of zero, a NaN or infinite limit and
      a missing size are not rejected, and what the script does with
      them (a negative integer size is a size like any other for the
      theorems on integer sizes, which ask for non-negative sizes only
      where they compare the script with other groupings);
    - a column of floats: below [2^53] the sum and the comparison of the
      loop on whole numbers are those of the integers, and the script
      writes file for file what it writes on the integer column; a
      missing size, wherever it is, joins the open group with every row
      after it; from [2^53] on the sum is rounded and a group of several
      rows can be over the limit by any amount ([2^53] bytes followed by
      any number of rows of one byte are one group);
    - the comparison of an integer size with the float limit is exact,
      the product [limit_tb * 1024**4] is exact for every finite
      [limit_tb], and the default limit is 12094627905536 bytes;
    - output names are distinct and parse back to their group number; the
      directory after a run holds every file under its own name; up to
      group 999 the names sort in the order of the numbers, and the name
      of group 1000 sorts between those of groups 100 and 101;
    - [input_parser.py] prints exactly the comprehension over existing
      folders, walk entries and kept files, in order; the filter is exact;
      [--scan_all] only adds lines; a reader that fails ends the script
      with status 1, a missing column with [KeyError], and a blank cell
      of the column with [TypeError] after the folders above it have been
      scanned;
    - the command line: an accepted command line gives every argument
      a value of its kind, the last one given or the default, and the
      required option a text; [data_grouper.py] runs on the command
      lines made of [--results], [--limit_tb] and [--prefix] with their
      texts, in which [float] reads every text of [--limit_tb] and
      [--results] is there, and on no other: any other ends the script
      before it reads or writes anything, with status 2 and the usage
      message, or with the help and status 0;
    - the exit status: status 0 of [data_grouper.py] means the help was
      asked for, or every file of the run was written and the groups
      are the manifest; status 0 of [input_parser.py] means the help
      was asked for, or the standard output is the scan of the whole
      column; an [Exception] of a reader, of a writer or of the loop
      gives a status that is not 0, and the status is 0, 1 or 2; a
      NaN or an infinite [--limit_tb] goes from the command line to
      the exit without an error;
    - the tree of [input_parser.py], run against an environment of
      functions, performs finitely many calls and ends with the output
      and the status of the program of the monad;
    - whatever the environment answers, and whether or not a walk ends,
      the calls of [input_parser.py] follow its protocol: the table is
      read once, first, by the reader its extension chooses; after a
      failed read come the report on the standard error and nothing
      else; [os.walk] is called only on a folder that [os.path.exists]
      has just found; a line is printed only for a file that the
      generator has just listed and the filter keeps, in the order of
      the listing; no call follows an exception.

    ** Bounds and fuel

    The programs of the monad use no fuel: every loop is structural
    recursion on a list (the rows of the manifest, the cells of the column,
    the entries of a walk). The reference [greedy] recurses on the rest of
    the manifest after a group and is defined by well-founded recursion on
    its length. The machine of [Machine] is the one definition with fuel:
    [run fuel c] makes [fuel] transitions from [c] and stays where it is
    once the script has ended. An iteration of the loop is nine
    transitions at most (lines 28, 29, 32, 33, 34, 35, 36, 38, 39), the
    statements before the loop are six and those after it three, so that
    [9 * length df + 9] transitions are enough from the first line; this
    is [weight], and the theorems on [run] are stated for any fuel that is
    at least the weight. [groups_from] of [Rerun] reads at most [fuel]
    group files; [disk_groups] gives it the number of files of the
    directory, which no run of consecutive group names exceeds
    ([groups_size]). Integers are unbounded, as in Python; floats are
    binary64. The theorems on whole sizes in a column of floats ask for a
    sum below [2^53], the first whole number whose successor binary64
    does not have; the last theorem of [FloatSizes] shows that the
    bound cannot be dropped. The tree of [InputTree] uses no fuel either: the
    loop over the generator is [ITree.iter], and a generator that never
    ends gives an infinite tree, of which [follows] still speaks. The
    environment [h_env] keeps the rest of a walk as a list, so that a
    walk it answers is finite.

    ** Not modelled

    [argparse], the readers and writers of [pandas] and the functions of
    [os] are libraries the scripts only call. Of [argparse] the model
    keeps what [parse_args] does with a command line once it is cut
    into options and texts: the cutting of [sys.argv] (an option named
    by a prefix of its name, [--name=text], a text that starts with a
    dash), and the texts of the help and of the usage message, are not
    modelled. The results of the other libraries are inputs of
    the model: the loaded manifest is a list of rows (or the exception of
    the reader), a directory walk is a list of [(root, dirs, files)]
    triples, and the cells of the column of folders are strings or blank
    (a cell of another type, such as an integer, which [os.stat] takes
    for a file descriptor, is not modelled). The
    contents of the [.xlsx] files are the rows handed to [to_excel], not
    the bytes of the file. Which writes fail is a parameter of [GrouperIO]
    and [Machine] (a [Writer]); a write that fails is taken to leave no
    file, so that a file left incomplete by [openpyxl] is not modelled.
    How [float] reads the text of [--limit_tb], and how [read_csv]
    chooses the type of the size column, are not modelled: the
    conversion is a parameter of [Argparse] and the typed column is an
    input. In a column of floats, sizes
    that are not whole numbers, or negative, are covered by the typing
    theorems only (the script raises nothing), not by the theorems on
    the groups. A failure of [print] is not modelled: the standard
    output is buffered when it is not a terminal, and a reader that went
    away is noticed when the buffer is written, not at the call that
    filled it. The text of an exception is not modelled, only its
    class, and of the standard error only the kind of each message. *)

From stdpp Require Export base tactics option list numbers.
From Stdlib Require Export ZArith Lia Sorted.

#[global] Open Scope Z_scope.

(** ** Python exceptions and fallible computations *)

Inductive pyexn : Type :=
| TypeError
| ValueError
| OverflowError
| OSError
| KeyError
| SystemExit (code : Z).

(** [isinstance(e, Exception)]: [SystemExit] derives from [BaseException]
    only, and an [except Exception] clause lets it through. *)
Definition is_Exception (e : pyexn) : bool :=
  match e with
  | SystemExit _ => false
  | _ => true
  end.

#[export] Instance pyexn_eq_dec : EqDecision pyexn.
Proof. solve_decision. Defined.

Inductive result (A : Type) : Type :=
| Ok (a : A)
| Raise (e : pyexn).

Arguments Ok {A} a.
Arguments Raise {A} e.

Definition bind {A B : Type} (c : result A) (k : A -> result B) : result B :=
  match c with
  | Ok a => k a
  | Raise e => Raise e
  end.

Definition is_ok {A : Type} (c : result A) : bool :=
  match c with
  | Ok _ => true
  | Raise _ => false
  end.

Declare Scope py_scope.
Delimit Scope py_scope with py.
Notation "x <- c ;; k" := (bind c (fun x => k))
  (at level 100, c at next level, right associativity) : py_scope.

(** ** Programs: state and exceptions

    A program transforms a state and either returns a value or raises; in
    both cases the state it reached is part of the result, as the effects of
    a script that dies of an exception stay in the world. *)

Definition prog (S A : Type) : Type := S -> S * result A.

Definition pret {S A : Type} (a : A) : prog S A := fun s => (s, Ok a).

Definition pbind {S A B : Type} (c : prog S A) (k : A -> prog S B) : prog S B :=
  fun s =>
    match c s with
    | (s', Ok a) => k a s'
    | (s', Raise e) => (s', Raise e)
    end.

Definition get {S : Type} : prog S S := fun s => (s, Ok s).

Definition modify {S : Type} (f : S -> S) : prog S unit := fun s => (f s, Ok tt).

Definition lift {S A : Type} (r : result A) : prog S A := fun s => (s, r).

Definition raise {S A : Type} (e : pyexn) : prog S A := fun s => (s, Raise e).

(** [try: c  except Exception as e: h(e)] *)
Definition try_except {S A : Type} (c : prog S A) (h : pyexn -> prog S A) : prog S A :=
  fun s =>
    match c s with
    | (s', Ok a) => (s', Ok a)
    | (s', Raise e) => if is_Exception e then h e s' else (s', Raise e)
    end.

(** [if b: c] *)
Definition when {S : Type} (b : bool) (c : prog S unit) : prog S unit :=
  if b then c else pret tt.

(** [for x in l: body(x)] *)
Fixpoint for_each {S A : Type} (l : list A) (body : A -> prog S unit) : prog S unit :=
  match l with
  | [] => pret tt
  | x :: l' => pbind (body x) (fun _ => for_each l' body)
  end.

Declare Scope prog_scope.
Delimit Scope prog_scope with prog.
Notation "x <- c ;; k" := (pbind c (fun x => k))
  (at level 100, c at next level, right associativity) : prog_scope.
Notation "c ;; k" := (pbind c (fun _ => k))
  (at level 100, right associativity) : prog_scope.

(** ** Truth value of a list: [bool(l)] is [len(l) != 0] *)

Definition truthy {A : Type} (l : list A) : bool :=
  match l with
  | [] => false
  | _ :: _ => true
  end.

(** ** Sums of integer lists *)

Definition sumZ (l : list Z) : Z := foldr Z.add 0 l.

(** ** Tactics and hints *)

Create HintDb grouper discriminated.
Create Rewrite HintDb grouper.

(** [case_result] splits on the outcome of the fallible computation that
    blocks the goal or a hypothesis. *)
Ltac case_result :=
  match goal with
  | |- context [bind ?c _] => destruct c eqn:?; simpl
  | H : context [bind ?c _] |- _ => destruct c eqn:?; simpl in H
  end.

(** [bool_cases] turns boolean tests of the model into propositions. *)
Ltac bool_cases :=
  repeat match goal with
  | H : andb _ _ = true |- _ => apply andb_true_iff in H as [? ?]
  | H : andb _ _ = false |- _ => apply andb_false_iff in H as [?|?]
  | H : negb _ = true |- _ => apply negb_true_iff in H
  | H : negb _ = false |- _ => apply negb_false_iff in H
  | H : (_ <? _) = true |- _ => apply Z.ltb_lt in H
  | H : (_ <? _) = false |- _ => apply Z.ltb_ge in H
  | H : (_ <=? _) = true |- _ => apply Z.leb_le in H
  | H : (_ <=? _) = false |- _ => apply Z.leb_gt in H
  end.

(** ** Shared lemmas *)

Lemma bind_ok {A B : Type} (c : result A) (k : A -> result B) (b : B) :
  bind c k = Ok b <-> exists a, c = Ok a /\ k a = Ok b.
Proof.
  destruct c as [a|e]; simpl; split.
  - intros Hk. by exists a.
  - intros (a' & Hc & Hk). by injection Hc as <-.
  - discriminate.
  - intros (a' & Hc & _). discriminate.
Qed.

Lemma bind_raise {A B : Type} (c : result A) (k : A -> result B) (e : pyexn) :
  bind c k = Raise e <-> c = Raise e \/ exists a, c = Ok a /\ k a = Raise e.
Proof.
  destruct c as [a|e']; simpl; split.
  - intros Hk. right. by exists a.
  - intros [Hc|(a' & Hc & Hk)]; [discriminate|]. by injection Hc as <-.
  - intros [= ->]. by left.
  - intros [[= ->]|(a' & Hc & _)]; [reflexivity|discriminate].
Qed.

Lemma for_each_cons {S A : Type} (x : A) (l : list A) (body : A -> prog S unit) (s : S) :
  for_each (x :: l) body s =
  match body x s with
  | (s', Ok _) => for_each l body s'
  | (s', Raise e) => (s', Raise e)
  end.
Proof. reflexivity. Qed.

Lemma for_each_app {S A : Type} (l1 l2 : list A) (body : A -> prog S unit) (s : S) :
  for_each (l1 ++ l2) body s =
  match for_each l1 body s with
  | (s', Ok _) => for_each l2 body s'
  | (s', Raise e) => (s', Raise e)
  end.
Proof.
  revert s. induction l1 as [|x l1 IH]; intros s; [done|].
  simpl. unfold pbind. destruct (body x s) as [s' [[]|e]]; [apply IH|done].
Qed.

Lemma truthy_true {A : Type} (l : list A) : truthy l = true <-> l <> [].
Proof. by destruct l. Qed.

Lemma truthy_false {A : Type} (l : list A) : truthy l = false <-> l = [].
Proof. by destruct l. Qed.

Lemma truthy_app_r {A : Type} (l : list A) (x : A) : truthy (l ++ [x]) = true.
Proof. by destruct l. Qed.

Lemma sumZ_nil : sumZ [] = 0.
Proof. reflexivity. Qed.

Lemma sumZ_cons (x : Z) (l : list Z) : sumZ (x :: l) = x + sumZ l.
Proof. reflexivity. Qed.

Lemma sumZ_app (l1 l2 : list Z) : sumZ (l1 ++ l2) = sumZ l1 + sumZ l2.
Proof. unfold sumZ. induction l1 as [|x l1 IH]; simpl; lia. Qed.

Lemma sumZ_snoc (l : list Z) (x : Z) : sumZ (l ++ [x]) = sumZ l + x.
Proof. rewrite sumZ_app, sumZ_cons, sumZ_nil. lia. Qed.

Lemma sumZ_nonneg (l : list Z) : Forall (fun x => 0 <= x) l -> 0 <= sumZ l.
Proof. induction 1; rewrite ?sumZ_nil, ?sumZ_cons; lia. Qed.

Lemma sumZ_concat (ls : list (list Z)) : sumZ (concat ls) = sumZ (map sumZ ls).
Proof.
  induction ls as [|l ls IH]; [done|].
  change (concat (l :: ls)) with (l ++ concat ls).
  change (map sumZ (l :: ls)) with (sumZ l :: map sumZ ls).
  rewrite sumZ_app, sumZ_cons. lia.
Qed.

(** A comprehension over a filtered list tests each element on the way. *)
Lemma bind_filter {A B : Type} (P : A -> Prop) `{!forall x, Decision (P x)}
    (f : A -> list B) (l : list A) :
  filter P l ≫= f = l ≫= (fun x => if decide (P x) then f x else []).
Proof.
  induction l as [|x l IH]; [done|].
  rewrite filter_cons, !bind_cons. destruct (decide (P x)); [|done].
  by rewrite bind_cons, IH.
Qed.

Lemma bind_sublist_pointwise {A B : Type} (f g : A -> list B) (l : list A) :
  (forall x, f x `sublist_of` g x) -> l ≫= f `sublist_of` l ≫= g.
Proof.
  intros Hfg. induction l as [|x l IH]; [done|].
  rewrite !bind_cons. by apply sublist_app.
Qed.

Lemma filter_sublist_impl {A : Type} (P Q : A -> Prop)
    `{!forall x, Decision (P x)} `{!forall x, Decision (Q x)} (l : list A) :
  (forall x, P x -> Q x) -> filter P l `sublist_of` filter Q l.
Proof.
  intros HPQ. induction l as [|x l IH]; [done|].
  rewrite !filter_cons.
  destruct (decide (P x)) as [HP|HP], (decide (Q x)) as [HQ|HQ].
  - by apply sublist_skip.
  - exfalso. by apply HQ, HPQ.
  - by apply sublist_cons.
  - done.
Qed.

(** A list of a concatenation is no longer than the concatenation. *)
Lemma length_concat_lookup {A : Type} (ls : list (list A)) (i : nat) (l : list A) :
  ls !! i = Some l -> (length l <= length (concat ls))%nat.
Proof.
  revert i. induction ls as [|l' ls IH]; intros [|i]; simpl; try done.
  - intros [= ->]. rewrite length_app. lia.
  - intros Hl. rewrite length_app. specialize (IH i Hl). lia.
Qed.

(** Induction on lists two elements at a time. *)
Lemma list_pair_ind {A : Type} (P : list A -> Prop) :
  P [] -> (forall a, P [a]) -> (forall a b l, P l -> P (a :: b :: l)) ->
  forall l, P l.
Proof.
  intros Hnil Hone Hstep l.
  enough (P l /\ forall a, P (a :: l)) as [? _] by done.
  induction l as [|b l [IH1 IH2]]; split; auto.
Qed.

(** [Sorted R l] says that [R] relates every two neighbours of [l]; this is
    the same fact by position. *)
Lemma Sorted_lookup {A : Type} (R : A -> A -> Prop) (l : list A) (i : nat) (a b : A) :
  Sorted R l -> l !! i = Some a -> l !! S i = Some b -> R a b.
Proof.
  intros Hs. revert i. induction Hs as [|c l Hs IH Hhd]; intros i; [done|].
  destruct i as [|i]; simpl.
  - intros [= ->] Hb. destruct l as [|d l]; [done|].
    injection Hb as ->. by inversion Hhd.
  - apply IH.
Qed.

(** If any two neighbours of a list of non-negative integers add up to at
    least [c], the list adds up to at least [c] times half its length. *)
Lemma sumZ_pairs (c : Z) (l : list Z) :
  Sorted (fun a b => c <= a + b) l -> Forall (fun a => 0 <= a) l ->
  c * Z.of_nat (length l / 2) <= sumZ l.
Proof.
  induction l as [|a|a b l IH] using list_pair_ind; intros Hs Hpos.
  - rewrite sumZ_nil. simpl. lia.
  - rewrite sumZ_cons, sumZ_nil. inversion Hpos; subst. simpl. lia.
  - inversion Hs as [|? ? Hs1 Hab]; subst. inversion Hab; subst.
    inversion Hs1 as [|? ? Hs2 _]; subst.
    inversion Hpos as [|? ? ? Hpos1]; subst. inversion Hpos1; subst.
    specialize (IH Hs2 ltac:(done)).
    rewrite !sumZ_cons.
    replace (length (a :: b :: l) / 2)%nat with (S (length l / 2)).
    + lia.
    + change (length (a :: b :: l)) with (2 + length l)%nat.
      symmetry. replace (2 + length l)%nat with (1 * 2 + length l)%nat by lia.
      rewrite Nat.div_add_l by lia. lia.
Qed.

(** The sum does not depend on the order. *)
#[export] Instance sumZ_perm : Proper ((≡ₚ) ==> (=)) sumZ.
Proof.
  intros l1 l2 H. induction H as [|x l1 l2 _ IH|x y l|l1 l2 l3 _ IH1 _ IH2].
  - done.
  - by rewrite !sumZ_cons, IH.
  - rewrite !sumZ_cons. lia.
  - by rewrite IH1.
Qed.

Lemma sumZ_bound (c : Z) (l : list Z) :
  Forall (fun x => x <= c) l -> sumZ l <= c * Z.of_nat (length l).
Proof.
  induction 1 as [|x l Hx _ IH]; [rewrite sumZ_nil; simpl; lia|].
  rewrite sumZ_cons. cbn [length]. lia.
Qed.

#[export] Hint Rewrite sumZ_nil sumZ_cons sumZ_app sumZ_snoc : grouper.
#[export] Hint Resolve sumZ_nonneg : grouper.
