(* ===== verification/PyFloat.v ===== *)
(** * PyFloat: Python's [float] and its comparison with [int]

    Python's [float] is IEEE-754 binary64. It is modelled by [spec_float] of
    the Standard Library with precision 53 and [emax] 1024, whose operations
    are executable. This file defines the three operations on floats that
    [data_grouper.py] performs: the conversion of an [int] operand (mixed
    arithmetic converts the [int] first and raises [OverflowError] when it is
    too large), the product [args.limit_tb * (1024**4)] of line 22, and the
    comparison [int > float] of line 32, which CPython decides exactly, with
    no conversion of the [int].

    The class [Limit] is the interface between the limit and the grouper:
    whatever the limit is, "exceeds" is an upward-closed predicate on byte
    counts. The grouper's theorems are proved against the class; the
    instances for floats and for integer limits discharge it. Two limits
    are equivalent ([≈]) when the same counts exceed them: finite floats
    with the same integer part, or NaN and [+inf]. *)

From Stdlib Require Export Floats.SpecFloat.
From S2P Require Import Prelude.

#[local] Open Scope Z_scope.

(** ** Definitions *)

Definition prec : Z := 53.
Definition emax : Z := 1024.

Abbreviation float := spec_float.

#[export] Instance float_eq_dec : EqDecision float.
Proof. solve_decision. Defined.

(** [float(z)] as mixed arithmetic performs it: round to nearest even, and
    [OverflowError] when the result would not be finite. *)
Definition float_of_int (z : Z) : result float :=
  match binary_normalize prec emax z 0 false with
  | S754_infinity _ => Raise OverflowError
  | f => Ok f
  end.

Definition float_add (a b : float) : float := SFadd prec emax a b.
Definition float_mul (a b : float) : float := SFmul prec emax a b.

(** [a > b] on two floats: false as soon as one of them is NaN. *)
Definition float_gt (a b : float) : bool := SFltb b a.

(** [a * b] with [a] a float and [b] an int. *)
Definition float_mul_int (a : float) (b : Z) : result float :=
  (fb <- float_of_int b ;; Ok (float_mul a fb))%py.

(** Line 22: [limit_bytes = args.limit_tb * (1024**4)]. *)
Definition limit_bytes (limit_tb : float) : result float :=
  float_mul_int limit_tb (1024 ^ 4).

(** The integer value [m * 2^e] stands in the relation [<] to [z]. The two
    cases avoid fractions: for a negative exponent, [z] is scaled instead. *)
Definition dyadic_ltb (m e z : Z) : bool :=
  if 0 <=? e then m * 2 ^ e <? z else m <? z * 2 ^ (- e).

(** [z > f] with [z] an int and [f] a float, as CPython's
    [float_richcompare] decides it: by sign and magnitude, exactly. *)
Definition int_gt_float (z : Z) (f : float) : bool :=
  match f with
  | S754_nan => false
  | S754_infinity s => s
  | S754_zero _ => 0 <? z
  | S754_finite s m e => dyadic_ltb (cond_Zopp s (Zpos m)) e z
  end.

(** The largest integer that does not exceed a finite float. *)
Definition float_floor (f : float) : option Z :=
  match f with
  | S754_nan | S754_infinity _ => None
  | S754_zero _ => Some 0
  | S754_finite s m e =>
      Some (if 0 <=? e then cond_Zopp s (Zpos m) * 2 ^ e
            else cond_Zopp s (Zpos m) / 2 ^ (- e))
  end.

(** The interface of a limit: a predicate on byte counts that, once true,
    stays true for every larger count. *)
Class Limit (L : Type) : Type := {
  exceeds : L -> Z -> bool;
  exceeds_mono : forall (l : L) (z z' : Z),
    z <= z' -> exceeds l z = true -> exceeds l z' = true
}.

(** Two limits are the same limit when the same byte counts exceed
    them. *)
Definition limit_equiv {L : Type} `{Limit L} (l1 l2 : L) : Prop :=
  forall z : Z, exceeds l1 z = exceeds l2 z.

Declare Scope limit_scope.
Infix "≈" := limit_equiv (at level 70, no associativity) : limit_scope.
#[global] Open Scope limit_scope.

(** ** Lemmas *)

#[export] Instance limit_equiv_equivalence {L : Type} `{Limit L} :
  Equivalence (limit_equiv (L := L)).
Proof.
  split.
  - by intros l z.
  - intros l1 l2 H12 z. by rewrite H12.
  - intros l1 l2 l3 H12 H23 z. by rewrite H12.
Qed.

#[export] Instance exceeds_proper {L : Type} `{Limit L} :
  Proper (limit_equiv ==> eq ==> eq) (exceeds (L := L)).
Proof. by intros l1 l2 H12 z _ <-. Qed.

Lemma dyadic_ltb_floor (m e z : Z) :
  dyadic_ltb m e z =
  ((if 0 <=? e then m * 2 ^ e else m / 2 ^ (- e)) <? z).
Proof.
  unfold dyadic_ltb. destruct (Z.leb_spec 0 e) as [He|He]; [done|].
  assert (Hp : 0 < 2 ^ (- e)) by (apply Z.pow_pos_nonneg; lia).
  pose proof (Z.div_mod m (2 ^ (- e)) ltac:(lia)) as Hdm.
  pose proof (Z.mod_pos_bound m (2 ^ (- e)) Hp) as Hb.
  destruct (Z.ltb_spec (m / 2 ^ (- e)) z) as [Hq|Hq].
  - apply Z.ltb_lt. nia.
  - apply Z.ltb_ge. nia.
Qed.

Lemma dyadic_ltb_mono (m e z z' : Z) :
  z <= z' -> dyadic_ltb m e z = true -> dyadic_ltb m e z' = true.
Proof. rewrite !dyadic_ltb_floor, !Z.ltb_lt. lia. Qed.

Lemma int_gt_float_mono (f : float) (z z' : Z) :
  z <= z' -> int_gt_float z f = true -> int_gt_float z' f = true.
Proof.
  destruct f as [s|s| |s m e]; simpl; try done.
  - rewrite !Z.ltb_lt. lia.
  - apply dyadic_ltb_mono.
Qed.

#[export] Instance float_limit : Limit float :=
  {| exceeds f z := int_gt_float z f; exceeds_mono := int_gt_float_mono |}.

Lemma Z_limit_mono (l z z' : Z) :
  z <= z' -> (l <? z) = true -> (l <? z') = true.
Proof. rewrite !Z.ltb_lt. lia. Qed.

#[export] Instance Z_limit : Limit Z :=
  {| exceeds l z := l <? z; exceeds_mono := Z_limit_mono |}.

(** A finite float limit is the same limit as its integer floor. *)
Lemma int_gt_float_floor (f : float) (l z : Z) :
  float_floor f = Some l -> int_gt_float z f = (l <? z).
Proof.
  destruct f as [s|s| |s m e]; simpl; try done.
  - by intros [= <-].
  - intros [= <-]. rewrite dyadic_ltb_floor. by destruct (0 <=? e).
Qed.

(** Finite float limits with the same integer part are the same limit. *)
Lemma float_floor_equiv (f g : float) (l : Z) :
  float_floor f = Some l -> float_floor g = Some l -> f ≈ g.
Proof.
  intros Hf Hg z. simpl. by rewrite (int_gt_float_floor f l), (int_gt_float_floor g l).
Qed.

(** A NaN limit is the limit [+inf]. *)
Lemma nan_equiv_inf : S754_nan ≈ S754_infinity false.
Proof. by intros z. Qed.

Lemma int_gt_float_nan (z : Z) : int_gt_float z S754_nan = false.
Proof. done. Qed.

Lemma int_gt_float_inf (z : Z) (s : bool) : int_gt_float z (S754_infinity s) = s.
Proof. done. Qed.

Lemma limit_bytes_eq (limit_tb : float) :
  limit_bytes limit_tb = Ok (float_mul limit_tb (S754_finite false (2 ^ 52) (-12))).
Proof. reflexivity. Qed.

(** ** Properties of the limit *)

(** Claim C24. The comparison of line 32 is exact: the running size exceeds a
    finite float limit if and only if it is greater than the largest integer
    that is not above the limit. No rounding of the size is involved. *)
Theorem float_limit_floor (f : float) (l z : Z) :
  float_floor f = Some l -> int_gt_float z f = (l <? z).
Proof. apply int_gt_float_floor. Qed.

Lemma float_limit_floor_witness :
  int_gt_float 12094627905537 (S754_finite false 6192449487634432 (-9))
  = (12094627905536 <? 12094627905537).
Proof. apply float_limit_floor. reflexivity. Defined.

(** Whatever float the limit is (NaN and the infinities included),
    once a running size exceeds it every larger size exceeds it. *)
Theorem float_limit_upward_closed (f : float) (z z' : Z) :
  z <= z' -> int_gt_float z f = true -> int_gt_float z' f = true.
Proof. apply int_gt_float_mono. Qed.

Lemma float_limit_upward_closed_witness :
  int_gt_float 12 (S754_finite false 5629499534213120 (-49)) = true.
Proof. apply (float_limit_upward_closed _ 11 12); [lia|reflexivity]. Defined.

(** A NaN limit is exceeded by no size and the infinite limits
    ignore the size: [-inf] is exceeded by every size, [+inf] by none. *)
Theorem float_limit_not_finite (f : float) (z : Z) :
  float_floor f = None ->
  int_gt_float z f = match f with S754_infinity true => true | _ => false end.
Proof. by destruct f as [s|[]| |s m e]. Qed.

Lemma float_limit_not_finite_witness :
  int_gt_float (10 ^ 30) S754_nan = false.
Proof. apply (float_limit_not_finite S754_nan). reflexivity. Defined.

#[export] Hint Resolve int_gt_float_mono dyadic_ltb_mono : grouper.

#[global] Arguments float_of_int : simpl never.
#[global] Arguments float_add : simpl never.
#[global] Arguments float_mul : simpl never.
#[global] Arguments limit_bytes : simpl never.
#[global] Arguments int_gt_float : simpl never.
