(* ===== verification/LimitExact.v ===== *)
(** * LimitExact: the product of line 22 is exact

    [limit_bytes = args.limit_tb * (1024**4)] multiplies a binary64 number
    by a power of two. This file shows that the multiplication of the
    model rounds nothing away: for every finite float [limit_tb], normal or
    subnormal, the product is [limit_tb * 2^40] exactly, or the infinity of
    its sign when the exponent leaves the range of binary64. The proof
    follows the rounding of [SFmul] step by step: the mantissa is shifted
    to the left by 52 digits, and shifted back by as many digits as the
    format asks for, all of them zeros. *)

From S2P Require Import Prelude PyFloat.

#[local] Open Scope Z_scope.

(** ** Definitions *)

(** [m * 2^n] on the binary representation: [n] zeros after the digits. *)
Definition shl (n : nat) (m : positive) : positive := Nat.iter n xO m.

(** The state of the shifter of [SFmul] when no digit was lost. *)
Definition exact (m : Z) : shr_record :=
  {| shr_m := m; shr_r := false; shr_s := false |}.

(** [f * 2^40] by the exponent alone: the float that a multiplication
    without rounding gives. The mantissa keeps as many of the 40 zeros as
    a subnormal number needs to stay at the least exponent, and an exponent
    above the range gives the infinity. *)
Definition scale40 (f : float) : float :=
  match f with
  | S754_finite s m e =>
      let e' := fexp prec emax (Zpos (digits2_pos m) + e + 40) in
      if e' <=? emax - prec
      then S754_finite s (shl (Z.to_nat (e + 40 - e')) m) e'
      else S754_infinity s
  | _ => f
  end.

(** ** Lemmas on shifts *)

Lemma iter_pos_nat {A : Type} (f : A -> A) (p : positive) (x : A) :
  iter_pos f p x = Nat.iter (Pos.to_nat p) f x.
Proof.
  revert x. induction p as [p IH|p IH|]; intros x; cbn [iter_pos]; [| |done].
  - rewrite !IH, Pos2Nat.inj_xI, <-Nat.iter_succ_r, <-Nat.iter_add.
    f_equal. lia.
  - rewrite !IH, Pos2Nat.inj_xO, <-Nat.iter_add. f_equal. lia.
Qed.

Lemma shl_S (n : nat) (m : positive) : shl (S n) m = xO (shl n m).
Proof. done. Qed.

Lemma Zpos_shl (n : nat) (m : positive) : Zpos (shl n m) = Zpos m * 2 ^ Z.of_nat n.
Proof.
  induction n as [|n IH]; [simpl; lia|].
  rewrite shl_S, Pos2Z.inj_xO, IH, Nat2Z.inj_succ, Z.pow_succ_r by lia. lia.
Qed.

Lemma mul_shl (n : nat) (m : positive) : (m * shl n 1 = shl n m)%positive.
Proof.
  induction n as [|n IH]; [apply Pos.mul_1_r|].
  by rewrite !shl_S, Pos.mul_xO_r, IH.
Qed.

Lemma digits2_shl (n : nat) (m : positive) :
  Zpos (digits2_pos (shl n m)) = Zpos (digits2_pos m) + Z.of_nat n.
Proof.
  induction n as [|n IH]; [simpl; lia|].
  rewrite shl_S. cbn [digits2_pos]. rewrite Pos2Z.inj_succ, IH. lia.
Qed.

Lemma shr_shl (n k : nat) (m : positive) :
  (n <= k)%nat ->
  Nat.iter n shr_1 (exact (Zpos (shl k m))) = exact (Zpos (shl (k - n) m)).
Proof.
  induction n as [|n IH]; intros Hn; [by rewrite Nat.sub_0_r|].
  rewrite Nat.iter_succ, IH by lia.
  replace (k - n)%nat with (S (k - S n)) by lia. by rewrite shl_S.
Qed.

(** ** The rounding of a product that needs none *)

(** Shifting to the right by no more digits than there are zeros. *)
Lemma shr_exact (k : nat) (m : positive) (ex n : Z) :
  0 <= n <= Z.of_nat k ->
  shr (exact (Zpos (shl k m))) ex n
  = (exact (Zpos (shl (k - Z.to_nat n) m)), ex + n).
Proof.
  intros Hn. destruct n as [|p|p]; [|simpl|lia].
  - by rewrite Nat.sub_0_r, Z.add_0_r.
  - rewrite iter_pos_nat, shr_shl by lia. done.
Qed.

(** Rounding [m * 2^k * 2^ex] when the exponent the format asks for is
    within [k] of [ex]: the mantissa loses zeros only. *)
Lemma binary_round_aux_shl (s : bool) (m : positive) (k : nat) (ex : Z) :
  let e' := fexp prec emax (Zpos (digits2_pos m) + Z.of_nat k + ex) in
  0 <= e' - ex <= Z.of_nat k ->
  binary_round_aux prec emax s (Zpos (shl k m)) ex loc_Exact
  = if e' <=? emax - prec
    then S754_finite s (shl (k - Z.to_nat (e' - ex)) m) e'
    else S754_infinity s.
Proof.
  intros e' Hn. unfold binary_round_aux, shr_fexp.
  cbn [shr_record_of_loc Zdigits2]. fold (exact (Zpos (shl k m))).
  rewrite digits2_shl. fold e'. rewrite shr_exact by done.
  cbn [shr_m exact loc_of_shr_record round_nearest_even shr_record_of_loc Zdigits2].
  rewrite digits2_shl.
  replace (ex + (e' - ex)) with e' by lia.
  replace (Z.pos (digits2_pos m) + Z.of_nat (k - Z.to_nat (e' - ex)) + e')
    with (Z.pos (digits2_pos m) + Z.of_nat k + ex) by lia.
  fold e'. by rewrite Z.sub_diag.
Qed.

(** [fexp] on binary64. *)
Lemma fexp_eq (x : Z) : fexp prec emax x = Z.max (x - 53) (-1074).
Proof. done. Qed.

(** The product of a finite float and [2^40], which the conversion of
    [1024**4] gives as the mantissa [2^52] with the exponent [-12]. *)
Lemma float_mul_two40 (s : bool) (m : positive) (e : Z) :
  bounded prec emax m e = true ->
  float_mul (S754_finite s m e) (S754_finite false (2 ^ 52) (-12))
  = scale40 (S754_finite s m e).
Proof.
  intros Hb. unfold bounded, canonical_mantissa in Hb.
  apply andb_true_iff in Hb as [Hc%Z.eqb_eq He%Z.leb_le].
  rewrite fexp_eq in Hc. unfold scale40. rewrite fexp_eq.
  set (e' := Z.max (Zpos (digits2_pos m) + e + 40 - 53) (-1074)).
  unfold float_mul, SFmul. rewrite xorb_false_r.
  change (2 ^ 52)%positive with (shl 52 1). rewrite mul_shl.
  rewrite binary_round_aux_shl; rewrite fexp_eq.
  all: replace (Z.max (Zpos (digits2_pos m) + Z.of_nat 52 + (e + -12) - 53) (-1074))
         with e' by lia.
  - by replace (52 - Z.to_nat (e' - (e + -12)))%nat with (Z.to_nat (e + 40 - e')) by lia.
  - lia.
Qed.

(** The same for every float of binary64, NaN, zeros and infinities
    included. *)
Lemma limit_bytes_scale40 (f : float) :
  valid_binary prec emax f = true -> limit_bytes f = Ok (scale40 f).
Proof.
  intros Hv. rewrite limit_bytes_eq. f_equal.
  destruct f as [[]|[]| |s m e]; try done. by apply float_mul_two40.
Qed.

(** Scaling the mantissa and the exponent in opposite directions leaves
    the comparison as it is. *)
Lemma dyadic_ltb_scale (a e z : Z) (k : Z) :
  0 <= k -> dyadic_ltb (a * 2 ^ k) (e - k) z = dyadic_ltb a e z.
Proof.
  intros Hk. unfold dyadic_ltb.
  assert (0 < 2 ^ k) by (apply Z.pow_pos_nonneg; lia).
  destruct (Z.leb_spec 0 (e - k)), (Z.leb_spec 0 e); try lia.
  - by rewrite <-Z.mul_assoc, <-Z.pow_add_r, Z.add_comm, Z.sub_add by lia.
  - replace (- (e - k)) with (k - e) by lia.
    replace k with (k - e + e) at 1 by lia. rewrite Z.pow_add_r by lia.
    assert (0 < 2 ^ (k - e)) by (apply Z.pow_pos_nonneg; lia).
    apply eq_iff_eq_true. rewrite !Z.ltb_lt. nia.
  - replace (- (e - k)) with (- e + k) by lia. rewrite Z.pow_add_r by lia.
    apply eq_iff_eq_true. rewrite !Z.ltb_lt. nia.
Qed.

(** Overflow of the product, by the exponent of the factor. *)
Lemma product_overflow (m : positive) (e : Z) :
  bounded prec emax m e = true ->
  (fexp prec emax (Zpos (digits2_pos m) + e + 40) <=? emax - prec)
  = (e + 40 <=? emax - prec).
Proof.
  intros Hb. unfold bounded, canonical_mantissa in Hb.
  apply andb_true_iff in Hb as [Hc%Z.eqb_eq He%Z.leb_le].
  rewrite fexp_eq in *. unfold emax, prec in *.
  apply eq_iff_eq_true. rewrite !Z.leb_le. lia.
Qed.

Lemma cond_Zopp_mul (s : bool) (a b : Z) : cond_Zopp s (a * b) = cond_Zopp s a * b.
Proof. destruct s; simpl; lia. Qed.

Lemma int_gt_scale40 (s : bool) (m : positive) (e z : Z) :
  bounded prec emax m e = true ->
  int_gt_float z (scale40 (S754_finite s m e))
  = if e + 40 <=? emax - prec
    then dyadic_ltb (cond_Zopp s (Zpos m)) (e + 40) z
    else s.
Proof.
  intros Hb. unfold scale40. rewrite (product_overflow m e Hb).
  destruct (e + 40 <=? emax - prec); [|done].
  unfold bounded, canonical_mantissa in Hb.
  apply andb_true_iff in Hb as [Hc%Z.eqb_eq He%Z.leb_le].
  rewrite fexp_eq in *.
  set (e' := Z.max (Zpos (digits2_pos m) + e + 40 - 53) (-1074)) in *.
  unfold int_gt_float. rewrite Zpos_shl, cond_Zopp_mul, Z2Nat.id by lia.
  rewrite <-(dyadic_ltb_scale _ (e + 40) z (e + 40 - e')) by lia.
  f_equal. lia.
Qed.

(** The product is a binary64 number: its mantissa is canonical and its
    exponent in range. *)
Lemma scale40_valid (f : float) :
  valid_binary prec emax f = true -> valid_binary prec emax (scale40 f) = true.
Proof.
  destruct f as [s|s| |s m e]; try done. simpl. intros Hb.
  destruct (fexp prec emax (Zpos (digits2_pos m) + e + 40) <=? emax - prec) eqn:He'; [|done].
  unfold bounded, canonical_mantissa in *.
  apply andb_true_iff in Hb as [Hc%Z.eqb_eq He%Z.leb_le].
  rewrite fexp_eq in *.
  set (e' := Z.max (Zpos (digits2_pos m) + e + 40 - 53) (-1074)) in *.
  cbn [valid_binary]. unfold bounded, canonical_mantissa.
  rewrite He', andb_true_r, digits2_shl, Z2Nat.id by lia.
  apply Z.eqb_eq. rewrite fexp_eq. unfold e'. lia.
Qed.

(** ** The limit in bytes *)

(** Claim C21. Line 22 loses nothing: for a finite [limit_tb] with mantissa
    [m] and exponent [e], the product is computed without exception, is a
    well-formed binary64 number, and is [limit_tb] with its exponent moved
    by 40; a size exceeds it if and only if it exceeds [m * 2^(e+40)], the
    exact product, and when the exponent [e + 40] is out of the range of
    binary64 the product is the infinity of the sign of [limit_tb]. *)
Theorem limit_bytes_exact (s : bool) (m : positive) (e z : Z) :
  bounded prec emax m e = true ->
  limit_bytes (S754_finite s m e) = Ok (scale40 (S754_finite s m e))
  /\ valid_binary prec emax (scale40 (S754_finite s m e)) = true
  /\ int_gt_float z (scale40 (S754_finite s m e))
     = if e + 40 <=? emax - prec
       then dyadic_ltb (cond_Zopp s (Zpos m)) (e + 40) z
       else s.
Proof.
  intros Hb. split; [by apply limit_bytes_scale40|].
  split; [by apply scale40_valid|by apply int_gt_scale40].
Qed.

Lemma limit_bytes_exact_witness :
  limit_bytes (S754_finite false 6192449487634432 (-49))
  = Ok (scale40 (S754_finite false 6192449487634432 (-49)))
  /\ valid_binary prec emax (scale40 (S754_finite false 6192449487634432 (-49))) = true
  /\ int_gt_float 12094627905537 (scale40 (S754_finite false 6192449487634432 (-49)))
     = if -49 + 40 <=? emax - prec
       then dyadic_ltb (cond_Zopp false 6192449487634432) (-49 + 40) 12094627905537
       else false.
Proof. apply limit_bytes_exact. reflexivity. Defined.
