(* ===== verification/PyValue.v ===== *)
(** * PyValue: the values of a manifest cell and Python's [+] and [>] on them

    [pd.read_csv] gives a column of integers, of floats (as soon as one cell
    is missing, which reads as NaN) or of strings, and [DataFrame.iterrows]
    hands the loop of [data_grouper.py] the cells as Python objects. The
    loop adds them to [current_size] and compares the sum with the limit;
    both operations raise [TypeError] on a string operand. *)

From stdpp Require Export strings.
From S2P Require Import Prelude PyFloat.

#[local] Open Scope Z_scope.

(** ** Definitions *)

Inductive pyval : Type :=
| VInt (z : Z)
| VFloat (f : float)
| VStr (s : string).

#[export] Instance pyval_eq_dec : EqDecision pyval.
Proof. solve_decision. Defined.

Definition is_int (v : pyval) : bool :=
  match v with VInt _ => true | _ => false end.

Definition is_number (v : pyval) : bool :=
  match v with VInt _ | VFloat _ => true | VStr _ => false end.

(** The values [current_size] takes on a column of floats: the integer
    zero it starts from, or a float. *)
Definition float_or_zero (v : pyval) : Prop :=
  v = VInt 0 \/ exists f : float, v = VFloat f.

(** [a + b]. Mixed operands convert the [int] to a [float] first. *)
Definition py_add (a b : pyval) : result pyval :=
  match a, b with
  | VInt x, VInt y => Ok (VInt (x + y))
  | VInt x, VFloat g => (f <- float_of_int x ;; Ok (VFloat (float_add f g)))%py
  | VFloat f, VInt y => (g <- float_of_int y ;; Ok (VFloat (float_add f g)))%py
  | VFloat f, VFloat g => Ok (VFloat (float_add f g))
  | VStr s, VStr t => Ok (VStr (s +:+ t))
  | _, _ => Raise TypeError
  end.

(** [a > b] where [b] is a float, as line 32 has it. *)
Definition py_gt (a : pyval) (b : float) : result bool :=
  match a with
  | VInt z => Ok (int_gt_float z b)
  | VFloat f => Ok (float_gt f b)
  | VStr _ => Raise TypeError
  end.

(** ** Lemmas *)

Lemma py_add_int (x y : Z) : py_add (VInt x) (VInt y) = Ok (VInt (x + y)).
Proof. reflexivity. Qed.

Lemma py_gt_int (z : Z) (b : float) : py_gt (VInt z) b = Ok (int_gt_float z b).
Proof. reflexivity. Qed.

Lemma py_add_str_r (a : pyval) (s : string) :
  is_number a = true -> py_add a (VStr s) = Raise TypeError.
Proof. by destruct a. Qed.

Lemma py_add_number (a b c : pyval) :
  is_number a = true -> py_add a b = Ok c -> is_number b = true /\ is_number c = true.
Proof.
  destruct a as [x|f|s], b as [y|g|t]; simpl; try done.
  - by intros _ [= <-].
  - intros _. destruct (float_of_int x); simpl; [by intros [= <-]|done].
  - intros _. destruct (float_of_int y); simpl; [by intros [= <-]|done].
  - by intros _ [= <-].
Qed.

Lemma py_gt_ok (a : pyval) (b : float) :
  is_number a = true -> exists r, py_gt a b = Ok r.
Proof. destruct a; simpl; eauto; done. Qed.

(** Adding a number to the integer zero cannot fail when adding it to any
    other number did not. *)
Lemma py_add_zero_ok (a b c : pyval) :
  is_number a = true -> py_add a b = Ok c -> exists c', py_add (VInt 0) b = Ok c'.
Proof.
  destruct a as [x|f|s], b as [y|g|t]; simpl; try done; eauto.
Qed.

(** Adding a float to the integer zero or to a float gives a float. *)
Lemma py_add_float (a : pyval) (g : float) :
  float_or_zero a -> exists f : float, py_add a (VFloat g) = Ok (VFloat f).
Proof. intros [->|[f ->]]; simpl; eauto. Qed.

Lemma py_gt_float (f limit : float) : py_gt (VFloat f) limit = Ok (float_gt f limit).
Proof. reflexivity. Qed.

(** NaN absorbs every float added to it and exceeds no limit. *)
Lemma py_add_nan (g : float) :
  py_add (VFloat S754_nan) (VFloat g) = Ok (VFloat S754_nan).
Proof. reflexivity. Qed.

Lemma py_add_zero_nan : py_add (VInt 0) (VFloat S754_nan) = Ok (VFloat S754_nan).
Proof. reflexivity. Qed.

Lemma py_gt_nan (limit : float) : py_gt (VFloat S754_nan) limit = Ok false.
Proof. by destruct limit as [[]|[]| |[] m e]. Qed.

(** What [+] and [>] raise is an [Exception]: [TypeError], or the
    [OverflowError] of the conversion of an [int]. *)
Lemma float_of_int_raises (z : Z) (e : pyexn) :
  float_of_int z = Raise e -> e = OverflowError.
Proof. unfold float_of_int. case_match; by intros [= <-]. Qed.

Lemma py_add_exception (a b : pyval) (e : pyexn) :
  py_add a b = Raise e -> is_Exception e = true.
Proof.
  destruct a as [x|f|s], b as [y|g|t]; simpl; try (by intros [= <-]).
  - destruct (float_of_int x) eqn:Hx; simpl; [done|].
    intros [= <-]. by apply float_of_int_raises in Hx as ->.
  - destruct (float_of_int y) eqn:Hy; simpl; [done|].
    intros [= <-]. by apply float_of_int_raises in Hy as ->.
Qed.

Lemma py_gt_exception (a : pyval) (b : float) (e : pyexn) :
  py_gt a b = Raise e -> is_Exception e = true.
Proof. destruct a; simpl; by intros [= <-]. Qed.

#[export] Hint Rewrite py_add_int py_gt_int : grouper.
