(* ===== verification/FloatWhole.v ===== *)
(** * FloatWhole: whole numbers in a column of floats

    [read_csv] gives the [Size] column the type [float64] as soon as one
    cell is empty or written with a decimal point; the sum of line 39 and
    the comparison of line 32 are then operations on binary64 numbers.
    This file shows where they agree with the arithmetic on integers: a
    whole number from 0 to [2^53 - 1] is a float exactly ([whole]), the
    sum of two of them is the float of their sum as long as it stays below
    [2^53], and such a float exceeds a well-formed limit exactly when the
    integer does. The proofs follow [SFadd] and [SFcompare] on the normal
    form of a whole number: 53 binary digits and an exponent from -52
    to 0. *)

From S2P Require Import Prelude PyFloat LimitExact PyValue.

#[local] Open Scope Z_scope.

(** ** Definitions *)

(** The float of a whole number: what a cell such as [1024.0] holds, and
    what [float(z)] gives. *)
Definition whole (z : Z) : float := binary_normalize prec emax z 0 false.

(** The normal form of a positive whole number below [2^53]: its digits
    followed by zeros up to 53 digits, and the exponent that gives the
    number back. *)
Definition normal (p : positive) : float :=
  let d := Zpos (digits2_pos p) in
  S754_finite false (shl (Z.to_nat (53 - d)) p) (d - 53).

(** ** Digits and shifts *)

Lemma digits2_bounds (p : positive) :
  2 ^ (Zpos (digits2_pos p) - 1) <= Zpos p < 2 ^ Zpos (digits2_pos p).
Proof.
  induction p as [p IH|p IH|]; cbn [digits2_pos]; [| |done].
  all: rewrite Pos2Z.inj_succ, Z.pow_succ_r by lia.
  all: replace (Z.succ (Zpos (digits2_pos p)) - 1) with (Z.succ (Zpos (digits2_pos p) - 1)) by lia.
  all: rewrite Z.pow_succ_r by lia; lia.
Qed.

Lemma digits2_le (p : positive) (n : Z) :
  Zpos p < 2 ^ n -> Zpos (digits2_pos p) <= n.
Proof.
  intros Hp. pose proof (digits2_bounds p) as [Hd _].
  destruct (Z.le_gt_cases (Zpos (digits2_pos p)) n) as [|Hn]; [done|].
  assert (2 ^ n <= 2 ^ (Zpos (digits2_pos p) - 1)) by (apply Z.pow_le_mono_r; lia).
  lia.
Qed.

Lemma shl_shl (n k : nat) (m : positive) : shl n (shl k m) = shl (n + k) m.
Proof. unfold shl. by rewrite Nat.iter_add. Qed.

Lemma shl_align_shl (m : positive) (ex ex' : Z) :
  shl_align m ex ex' = (shl (Z.to_nat (ex - ex')) m, Z.min ex ex').
Proof.
  unfold shl_align. destruct (ex' - ex) as [|d|d] eqn:Hd.
  - replace (Z.to_nat (ex - ex')) with 0%nat by lia. simpl. f_equal. lia.
  - replace (Z.to_nat (ex - ex')) with 0%nat by lia. simpl. f_equal. lia.
  - rewrite Pos2Nat.inj_iter. replace (Z.to_nat (ex - ex')) with (Pos.to_nat d) by lia.
    unfold shl. f_equal. lia.
Qed.

(** ** Rounding a whole number

    Rounding [p * 2^k] at the exponent [-k] gives the normal form of [p],
    whatever [k] is: the shifter moves zeros only. *)
Lemma binary_round_whole (k : nat) (p : positive) :
  Zpos p < 2 ^ 53 ->
  binary_round prec emax false (shl k p) (- Z.of_nat k) = normal p.
Proof.
  intros Hp%digits2_le. unfold binary_round.
  rewrite shl_align_shl, digits2_shl, shl_shl, fexp_eq.
  set (d := Zpos (digits2_pos p)) in *.
  set (k' := (Z.to_nat (- Z.of_nat k - Z.max (d + Z.of_nat k + - Z.of_nat k - 53) (-1074)) + k)%nat).
  assert (1 <= d) as Hd by (unfold d; lia).
  replace (Z.min _ _) with (- Z.of_nat k') by lia.
  rewrite binary_round_aux_shl; rewrite fexp_eq; fold d.
  all: replace (Z.max (d + Z.of_nat k' + - Z.of_nat k' - 53) (-1074)) with (d - 53) by lia.
  - rewrite (proj2 (Z.leb_le _ _)) by (unfold emax, prec; lia).
    unfold normal. fold d. do 2 f_equal. lia.
  - lia.
Qed.

Lemma whole_pos (p : positive) : Zpos p < 2 ^ 53 -> whole (Zpos p) = normal p.
Proof. apply (binary_round_whole 0). Qed.

Lemma normal_mantissa (p : positive) :
  Zpos p < 2 ^ 53 ->
  let d := Zpos (digits2_pos p) in
  Zpos (shl (Z.to_nat (53 - d)) p) = Zpos p * 2 ^ (53 - d)
  /\ 2 ^ 52 <= Zpos (shl (Z.to_nat (53 - d)) p) < 2 ^ 53.
Proof.
  intros Hp d. pose proof (digits2_le _ _ Hp) as Hd. fold d in Hd.
  pose proof (digits2_bounds p) as [Hl Hu]. fold d in Hl, Hu.
  rewrite Zpos_shl, Z2Nat.id by lia. split; [done|].
  assert (1 <= d) by (unfold d; lia).
  assert (2 ^ 52 = 2 ^ (d - 1) * 2 ^ (53 - d)) as ->
    by (rewrite <-Z.pow_add_r by lia; f_equal; lia).
  assert (2 ^ 53 = 2 ^ d * 2 ^ (53 - d)) as ->
    by (rewrite <-Z.pow_add_r by lia; f_equal; lia).
  assert (0 < 2 ^ (53 - d)) by (apply Z.pow_pos_nonneg; lia). nia.
Qed.

(** ** The sum *)

Lemma shl_add (k : nat) (p q : positive) :
  (shl k p + shl k q = shl k (p + q))%positive.
Proof. induction k as [|k IH]; [done|]. by rewrite !shl_S, <-IH. Qed.

Lemma float_add_normal (p q : positive) :
  Zpos p + Zpos q < 2 ^ 53 ->
  float_add (normal p) (normal q) = normal (p + q).
Proof.
  intros Hpq. unfold float_add, normal, SFadd. rewrite !shl_align_shl, !shl_shl.
  cbn [fst cond_Zopp].
  set (dp := Zpos (digits2_pos p)). set (dq := Zpos (digits2_pos q)).
  assert (dp <= 53) as Hp by (apply digits2_le; lia).
  assert (dq <= 53) as Hq by (apply digits2_le; lia).
  set (k := Z.to_nat (53 - Z.min dp dq)).
  replace (Z.to_nat (dp - 53 - _) + _)%nat with k by lia.
  replace (Z.to_nat (dq - 53 - _) + _)%nat with k by lia.
  replace (Z.min _ _) with (- Z.of_nat k) by lia.
  rewrite <-Pos2Z.inj_add, shl_add. apply binary_round_whole. lia.
Qed.

Lemma float_add_whole (x y : Z) :
  0 <= x -> 0 <= y -> x + y < 2 ^ 53 ->
  float_add (whole x) (whole y) = whole (x + y).
Proof.
  intros Hx Hy Hxy. destruct x as [|p|p], y as [|q|q]; try lia.
  - done.
  - by rewrite Z.add_0_l, whole_pos by lia.
  - by rewrite Z.add_0_r, whole_pos by lia.
  - rewrite <-Pos2Z.inj_add, !whole_pos by lia. by apply float_add_normal.
Qed.

(** ** The comparison *)

Lemma dyadic_ltb_zero (s : bool) (m : positive) (e : Z) :
  dyadic_ltb (cond_Zopp s (Zpos m)) e 0 = s.
Proof.
  unfold dyadic_ltb. destruct (Z.leb_spec 0 e) as [He|He]; [|by destruct s].
  assert (0 < 2 ^ e) by (apply Z.pow_pos_nonneg; lia).
  destruct s; simpl; [apply Z.ltb_lt|apply Z.ltb_ge]; nia.
Qed.

Lemma pow2_pos (k : Z) : 0 <= k -> 0 < 2 ^ k.
Proof. intros. by apply Z.pow_pos_nonneg. Qed.

Lemma pow2_ge (k : Z) : 1 <= k -> 2 <= 2 ^ k.
Proof. intros Hk. change 2 with (2 ^ 1) at 1. apply Z.pow_le_mono_r; lia. Qed.

Lemma pow2_split (a b : Z) : 0 <= a -> 0 <= b -> 2 ^ (a + b) = 2 ^ a * 2 ^ b.
Proof. intros. by apply Z.pow_add_r. Qed.

(** The mantissa of a canonical float: below [2^53], and at least [2^52]
    above the least exponent. *)
Lemma canonical_bounds (m : positive) (e : Z) :
  canonical_mantissa prec emax m e = true ->
  Zpos m < 2 ^ 53 /\ (-1074 < e -> 2 ^ 52 <= Zpos m).
Proof.
  unfold canonical_mantissa. rewrite fexp_eq. intros Hc%Z.eqb_eq.
  pose proof (digits2_bounds m) as [Hl Hu]. set (d := Zpos (digits2_pos m)) in *.
  split.
  - assert (2 ^ d <= 2 ^ 53) by (apply Z.pow_le_mono_r; lia). lia.
  - intros He. by replace d with 53 in Hl by lia.
Qed.

(** Comparing a canonical positive float with the normal form of a whole
    number by exponent, then by mantissa, compares their values. *)
Lemma compare_normal (m p : positive) (e : Z) :
  canonical_mantissa prec emax m e = true -> Zpos p < 2 ^ 53 ->
  let d := Zpos (digits2_pos p) in
  match match e ?= d - 53 with
        | Eq => Pos.compare_cont Eq m (shl (Z.to_nat (53 - d)) p)
        | Lt => Lt
        | Gt => Gt
        end with
  | Lt => true
  | _ => false
  end = dyadic_ltb (Zpos m) e (Zpos p).
Proof.
  intros [Hu Hl]%canonical_bounds Hp d.
  pose proof (normal_mantissa p Hp) as [Hm Hb]. cbv zeta in Hm, Hb. fold d in Hm, Hb.
  pose proof (digits2_le _ _ Hp) as Hd. fold d in Hd.
  assert (1 <= d) as Hd1 by (unfold d; lia).
  set (mz := shl (Z.to_nat (53 - d)) p) in *. unfold dyadic_ltb.
  destruct (Z.compare_spec e (d - 53)) as [He|He|He].
  - change (Pos.compare_cont Eq m mz) with (Zpos m ?= Zpos mz). subst e.
    destruct (Z.leb_spec 0 (d - 53)) as [H0|H0].
    + replace d with 53 in * by lia. rewrite Z.mul_1_r in *. rewrite <-Hm.
      by destruct (Z.compare_spec (Zpos m) (Zpos mz)), (Z.ltb_spec (Zpos m) (Zpos mz)); try lia.
    + replace (- (d - 53)) with (53 - d) by lia. rewrite <-Hm.
      by destruct (Z.compare_spec (Zpos m) (Zpos mz)), (Z.ltb_spec (Zpos m) (Zpos mz)); try lia.
  - rewrite (proj2 (Z.leb_gt 0 e)) by lia. symmetry. apply Z.ltb_lt.
    replace (- e) with ((53 - d) + (d - 53 - e)) by lia.
    rewrite pow2_split by lia.
    pose proof (pow2_ge (d - 53 - e) ltac:(lia)). nia.
  - specialize (Hl ltac:(lia)). symmetry.
    destruct (Z.leb_spec 0 e) as [H0|H0]; apply Z.ltb_ge.
    + pose proof (pow2_pos (53 - d) ltac:(lia)).
      destruct (decide (e = 0)) as [->|Hne].
      * pose proof (pow2_ge (53 - d) ltac:(lia)). nia.
      * pose proof (pow2_ge e ltac:(lia)). nia.
    + replace (53 - d) with ((- e) + (53 - d + e)) in Hm by lia.
      rewrite pow2_split in Hm by lia.
      pose proof (pow2_ge (53 - d + e) ltac:(lia)).
      pose proof (pow2_pos (- e) ltac:(lia)). nia.
Qed.

Lemma float_gt_whole (z : Z) (limit : float) :
  valid_binary prec emax limit = true -> 0 <= z < 2 ^ 53 ->
  float_gt (whole z) limit = int_gt_float z limit.
Proof.
  intros Hv Hz. destruct z as [|p|p]; [|rewrite whole_pos by lia|lia].
  - destruct limit as [[]|[]| |s m e]; try done.
    unfold int_gt_float. rewrite dyadic_ltb_zero. by destruct s.
  - unfold normal, int_gt_float, float_gt, SFltb, SFcompare.
    destruct limit as [[]|[]| |[] m e]; try done.
    + symmetry. apply (dyadic_ltb_mono _ _ 0); [lia|apply (dyadic_ltb_zero true)].
    + apply andb_true_iff in Hv as [Hc _]. apply compare_normal; [done|lia].
Qed.

(** A whole number is the integer part of its float. *)
Lemma float_floor_whole (z : Z) : 0 <= z < 2 ^ 53 -> float_floor (whole z) = Some z.
Proof.
  intros Hz. destruct z as [|p|p]; [done| |lia]. rewrite whole_pos by lia.
  pose proof (normal_mantissa p ltac:(lia)) as [Hm _]. cbv zeta in Hm.
  pose proof (digits2_le p 53 ltac:(lia)) as Hd.
  unfold normal, float_floor. cbn [cond_Zopp]. rewrite Hm. f_equal.
  set (d := Zpos (digits2_pos p)) in *.
  destruct (Z.leb_spec 0 (d - 53)) as [H0|H0].
  - replace (53 - d) with 0 by lia. replace (d - 53) with 0 by lia. simpl. lia.
  - replace (- (d - 53)) with (53 - d) by lia.
    apply Z.div_mul. pose proof (pow2_pos (53 - d) ltac:(lia)). lia.
Qed.

(** ** The sum and the comparison of the loop *)

Lemma py_add_whole (x y : Z) :
  0 <= x -> 0 <= y -> x + y < 2 ^ 53 ->
  py_add (VFloat (whole x)) (VFloat (whole y)) = Ok (VFloat (whole (x + y))).
Proof. intros Hx Hy Hxy. simpl. by rewrite float_add_whole. Qed.

(** The first row of a group is added to the integer zero. *)
Lemma py_add_zero_whole (y : Z) :
  0 <= y < 2 ^ 53 -> py_add (VInt 0) (VFloat (whole y)) = Ok (VFloat (whole y)).
Proof.
  intros Hy. change (py_add (VInt 0) (VFloat (whole y)))
    with (Ok (VFloat (float_add (whole 0) (whole y)))).
  by rewrite float_add_whole by lia.
Qed.

Lemma py_gt_whole (z : Z) (limit : float) :
  valid_binary prec emax limit = true -> 0 <= z < 2 ^ 53 ->
  py_gt (VFloat (whole z)) limit = Ok (int_gt_float z limit).
Proof. intros Hv Hz. simpl. by rewrite float_gt_whole. Qed.

(** ** Properties of the arithmetic *)

(** Claim C22. Below [2^53] the arithmetic of the loop on floats is the
    arithmetic on integers: the sum of line 39 on the floats of two whole
    numbers is the float of their sum, with no rounding, and the test of
    line 32 on that float against a well-formed limit is the test on the
    integer. *)
Theorem whole_sum_exact (x y : Z) (limit : float) :
  valid_binary prec emax limit = true ->
  0 <= x -> 0 <= y -> x + y < 2 ^ 53 ->
  py_add (VFloat (whole x)) (VFloat (whole y)) = Ok (VFloat (whole (x + y)))
  /\ py_gt (VFloat (whole (x + y))) limit = Ok (int_gt_float (x + y) limit).
Proof.
  intros Hv Hx Hy Hxy. split; [by apply py_add_whole|apply py_gt_whole; [done|lia]].
Qed.

Lemma whole_sum_exact_witness :
  py_add (VFloat (whole 4503599627370496)) (VFloat (whole 4503599627370495))
  = Ok (VFloat (whole (4503599627370496 + 4503599627370495)))
  /\ py_gt (VFloat (whole (4503599627370496 + 4503599627370495)))
        (S754_finite false 4503599627370497 1)
     = Ok (int_gt_float (4503599627370496 + 4503599627370495)
             (S754_finite false 4503599627370497 1)).
Proof. apply whole_sum_exact; [reflexivity|lia..]. Defined.
