(* ===== verification/Naming.v ===== *)
(** * Naming: the names of the output files

    [data_grouper.py] names its outputs with f-strings: the full list is
    [f"{args.prefix}_full_list.xlsx"] (line 17) and group number [count] is
    [f"{prefix}_group_{count:03d}.xlsx"] (line 47). The format [03d] pads
    the decimal digits with zeros to three characters, sign included, and
    never truncates: the names of the groups 0 to 999 sort as their
    numbers do, and the name of group 1000 does not. *)

From Stdlib Require Export Ascii.
From stdpp Require Export strings pretty.
From S2P Require Import Prelude.

#[local] Open Scope Z_scope.

(** ** Definitions *)

(** A string of [n] zeros. *)
Fixpoint zeros (n : nat) : string :=
  match n with
  | O => ""
  | S n' => String "0"%char (zeros n')
  end.

(** Padding of a string of digits with zeros on the left, up to [width]
    characters; a string that is already as long is unchanged. *)
Definition zfill (width : nat) (s : string) : string :=
  zeros (width - String.length s) +:+ s.

(** [f"{count:03d}"]. *)
Definition fmt_03d (count : Z) : string :=
  match count with
  | Zneg p => "-" +:+ zfill 2 (pretty (Npos p))
  | Z0 => zfill 3 (pretty 0%N)
  | Zpos p => zfill 3 (pretty (Npos p))
  end.

(** Line 17. *)
Definition full_list_name (prefix : string) : string :=
  prefix +:+ "_full_list.xlsx".

(** Line 47. *)
Definition output_name (prefix : string) (count : Z) : string :=
  prefix +:+ "_group_" +:+ fmt_03d count +:+ ".xlsx".

(** The value of a decimal digit: the characters from code 48 to 57. *)
Definition digit_of (c : ascii) : option N :=
  let code := N_of_ascii c in
  if ((48 <=? code) && (code <=? 57))%N then Some (code - 48)%N else None.

(** The number a string of digits denotes after the digits read so far
    denote [acc]; [None] when a character is not a digit. *)
Fixpoint digits_value (s : string) (acc : N) : option N :=
  match s with
  | "" => Some acc
  | String c s' =>
      match digit_of c with
      | Some d => digits_value s' (acc * 10 + d)
      | None => None
      end
  end.

(** [int(s)] on an optional minus sign followed by one digit or more. *)
Definition parse_int (s : string) : option Z :=
  match s with
  | "" => None
  | String "-" "" => None
  | String "-" s' => (fun n => - Z.of_N n) <$> digits_value s' 0
  | _ => Z.of_N <$> digits_value s 0
  end.

(** Each of the names of the groups [first], ..., [first + n] comes
    before the next one in the order of the characters, the order of a
    directory listing. *)
Definition listed_in_order (prefix : string) (first : Z) (n : nat) : bool :=
  forallb (fun i =>
    String.ltb (output_name prefix (first + Z.of_nat i))
               (output_name prefix (first + Z.of_nat (S i))))
    (seq 0 n).

(** ** Lemmas *)

Lemma digit_of_pretty (d : N) : (d < 10)%N -> digit_of (pretty_N_char d) = Some d.
Proof.
  intros Hd.
  assert (d = 0 \/ d = 1 \/ d = 2 \/ d = 3 \/ d = 4 \/ d = 5 \/ d = 6
          \/ d = 7 \/ d = 8 \/ d = 9)%N as Hc by lia.
  repeat (destruct Hc as [->|Hc]; [done|]); try (subst; done).
Qed.

(** The digits that [pretty] prints denote the number printed. *)
Lemma digits_value_pretty_go (x : N) :
  exists k : N, forall (s : string) (acc : N),
    digits_value (pretty_N_go x s) acc = digits_value s (acc * 10 ^ k + x)%N.
Proof.
  induction (N.lt_wf_0 x) as [x _ IH].
  destruct (decide (x = 0)%N) as [->|Hx].
  - exists 0%N. intros s acc. rewrite pretty_N_go_0. f_equal. lia.
  - destruct (IH (x `div` 10)%N) as [k Hk]; [apply N.div_lt; lia|].
    exists (N.succ k). intros s acc.
    rewrite pretty_N_go_step, Hk by lia. simpl.
    rewrite digit_of_pretty by (apply N.mod_lt; lia).
    f_equal. rewrite N.pow_succ_r'.
    pose proof (N.div_mod x 10 ltac:(lia)). lia.
Qed.

Lemma digits_value_pretty (x : N) : digits_value (pretty x) 0 = Some x.
Proof.
  unfold pretty, pretty_N. destruct (decide (x = 0)%N) as [->|Hx]; [done|].
  destruct (digits_value_pretty_go x) as [k Hk]. rewrite Hk. simpl. f_equal; lia.
Qed.

Lemma digits_value_zeros (n : nat) (s : string) :
  digits_value (zeros n +:+ s) 0 = digits_value s 0.
Proof. induction n as [|n IH]; [done|]. simpl. apply IH. Qed.

Lemma digits_value_zfill (width : nat) (x : N) :
  digits_value (zfill width (pretty x)) 0 = Some x.
Proof. unfold zfill. by rewrite digits_value_zeros, digits_value_pretty. Qed.

(** A string of digits that parses starts with a digit, hence neither is
    empty nor starts with a minus sign, unless it is empty. *)
Lemma digits_value_head (c : ascii) (s : string) (n : N) :
  digits_value (String c s) 0 = Some n -> c <> "-"%char.
Proof. intros H ->. discriminate. Qed.

Lemma pretty_N_go_length (x : N) (s : string) :
  (String.length s <= String.length (pretty_N_go x s))%nat.
Proof.
  revert s. induction (N.lt_wf_0 x) as [x _ IH]; intros s.
  destruct (decide (x = 0)%N) as [->|Hx]; [by rewrite pretty_N_go_0|].
  rewrite pretty_N_go_step by lia.
  etrans; [|apply IH, N.div_lt; lia]. simpl. lia.
Qed.

Lemma pretty_N_nonempty (x : N) : pretty x <> "".
Proof.
  unfold pretty, pretty_N. destruct (decide (x = 0)%N) as [->|Hx]; [done|].
  rewrite pretty_N_go_step by lia. intros Heq.
  pose proof (pretty_N_go_length (x `div` 10)
                (String (pretty_N_char (x `mod` 10)) "")) as Hlen.
  rewrite Heq in Hlen. simpl in Hlen. lia.
Qed.

Lemma zfill_nonempty (width : nat) (s : string) : s <> "" -> zfill width s <> "".
Proof.
  unfold zfill. destruct (width - String.length s)%nat; simpl; [done|discriminate].
Qed.

(** Parsing a padded natural number gives the number back. *)
Lemma parse_int_zfill (width : nat) (x : N) :
  parse_int (zfill width (pretty x)) = Some (Z.of_N x).
Proof.
  pose proof (digits_value_zfill width x) as Hv.
  pose proof (zfill_nonempty width (pretty x) (pretty_N_nonempty x)) as Hne.
  destruct (zfill width (pretty x)) as [|c s] eqn:E; [done|].
  pose proof (digits_value_head c s x Hv) as Hc.
  unfold parse_int. rewrite Hv.
  destruct c as [[] [] [] [] [] [] [] []]; try done.
Qed.

Lemma parse_int_neg (s : string) (x : N) :
  s <> "" -> digits_value s 0 = Some x ->
  parse_int ("-" +:+ s) = Some (- Z.of_N x).
Proof.
  intros Hs Hv. destruct s as [|c s]; [done|].
  change (parse_int ("-" +:+ String c s))
    with ((fun n => - Z.of_N n) <$> digits_value (String c s) 0).
  by rewrite Hv.
Qed.

Lemma string_app_length (s t : string) :
  String.length (s +:+ t) = (String.length s + String.length t)%nat.
Proof. induction s as [|c s IH]; simpl; [done|]. by rewrite IH. Qed.

(** Cancellation of a common suffix. *)
Lemma string_app_inj_r (t s1 s2 : string) : s1 +:+ t = s2 +:+ t -> s1 = s2.
Proof.
  revert s2. induction s1 as [|c s1 IH]; intros [|d s2] Heq; simpl in *; [done|..].
  - apply (f_equal String.length) in Heq.
    rewrite !string_app_length in Heq. simpl in Heq. lia.
  - apply (f_equal String.length) in Heq.
    rewrite !string_app_length in Heq. simpl in Heq. lia.
  - injection Heq as -> Heq. f_equal. by apply IH.
Qed.

Example fmt_03d_7 : fmt_03d 7 = "007".
Proof. reflexivity. Qed.

Example fmt_03d_1234 : fmt_03d 1234 = "1234".
Proof. reflexivity. Qed.

Example fmt_03d_neg : fmt_03d (-5) = "-05".
Proof. reflexivity. Qed.

Example output_name_12 : output_name "result" 12 = "result_group_012.xlsx".
Proof. reflexivity. Qed.

(** Parsing a formatted group number gives the number back. *)
Lemma parse_fmt_03d (count : Z) : parse_int (fmt_03d count) = Some count.
Proof.
  destruct count as [|p|p]; simpl.
  - apply (parse_int_zfill 3 0).
  - apply (parse_int_zfill 3 (Npos p)).
  - apply (parse_int_neg _ (Npos p)).
    + apply zfill_nonempty, pretty_N_nonempty.
    + apply digits_value_zfill.
Qed.

#[export] Instance fmt_03d_inj : Inj (=) (=) fmt_03d.
Proof.
  intros a b Heq. apply (f_equal parse_int) in Heq.
  rewrite !parse_fmt_03d in Heq. by injection Heq.
Qed.

#[export] Instance output_name_inj (prefix : string) : Inj (=) (=) (output_name prefix).
Proof.
  intros a b Heq. unfold output_name in Heq.
  apply String.app_inj, (String.app_inj "_group_") in Heq.
  by apply string_app_inj_r, fmt_03d_inj in Heq.
Qed.

Lemma full_list_name_not_group (prefix : string) (count : Z) :
  full_list_name prefix <> output_name prefix count.
Proof.
  unfold full_list_name, output_name. intros Heq.
  apply String.app_inj in Heq. discriminate.
Qed.

(** The names of consecutive groups are distinct, and distinct from the
    name of the full list. *)
Lemma output_names_NoDup (prefix : string) (first n : Z) :
  NoDup (full_list_name prefix :: map (output_name prefix) (seqZ first n)).
Proof.
  constructor.
  - intros Hin. apply list_elem_of_In, in_map_iff in Hin as (count & Heq & _).
    by apply (full_list_name_not_group prefix count).
  - apply (NoDup_fmap_2 (output_name prefix)), NoDup_seqZ.
Qed.

Lemma zfill_length (width : nat) (s : string) :
  (width <= String.length (zfill width s))%nat.
Proof.
  unfold zfill. rewrite string_app_length.
  assert (String.length (zeros (width - String.length s)) = (width - String.length s)%nat)
    as -> by (induction (width - String.length s)%nat; simpl; congruence).
  lia.
Qed.

Lemma zfill_long (width : nat) (s : string) :
  (width <= String.length s)%nat -> zfill width s = s.
Proof. intros H. unfold zfill. by replace (width - String.length s)%nat with 0%nat by lia. Qed.

(** ** Properties of the names *)

(** Claim C39. The group number can be read back from its formatted form:
    parsing [f"{count:03d}"] as an integer gives [count], for every integer
    (padding zeros and the sign included). *)
Theorem fmt_03d_roundtrip (count : Z) : parse_int (fmt_03d count) = Some count.
Proof. apply parse_fmt_03d. Qed.

(** Two groups with different numbers are written to different
    files, and no group is written over the full list. *)
Theorem output_names_distinct (prefix : string) (a b : Z) :
  (output_name prefix a = output_name prefix b -> a = b)
  /\ full_list_name prefix <> output_name prefix a.
Proof.
  split; [apply output_name_inj|apply full_list_name_not_group].
Qed.

(** The formatted group number has three characters at least: it
    is padded, never truncated. *)
Theorem fmt_03d_width (count : Z) : (3 <= String.length (fmt_03d count))%nat.
Proof.
  destruct count as [|p|p]; unfold fmt_03d.
  - apply zfill_length.
  - apply zfill_length.
  - pose proof (zfill_length 2 (pretty (Npos p))).
    rewrite string_app_length. simpl String.length. lia.
Qed.

(** ** The order of the names in a listing *)

Lemma ascii_compare_refl (c : ascii) : Ascii.compare c c = Eq.
Proof. unfold Ascii.compare. apply N.compare_refl. Qed.

(** A common prefix does not count in the order of two names. *)
Lemma compare_prefix (p s t : string) :
  String.compare (p +:+ s) (p +:+ t) = String.compare s t.
Proof. induction p as [|c p IH]; [done|]. simpl. by rewrite ascii_compare_refl. Qed.

Lemma output_name_ltb (prefix : string) (a b : Z) :
  String.ltb (output_name prefix a) (output_name prefix b)
  = String.ltb (output_name "" a) (output_name "" b).
Proof. unfold String.ltb, output_name. by rewrite !compare_prefix. Qed.

Lemma string_compare_trans (s t u : string) :
  String.compare s t = Lt -> String.compare t u = Lt -> String.compare s u = Lt.
Proof.
  revert t u. induction s as [|c s IH]; intros [|d t] [|e u]; simpl; try done.
  unfold Ascii.compare.
  destruct (N.compare_spec (N_of_ascii c) (N_of_ascii d)) as [Hcd|Hcd|Hcd]; [| |done];
    destruct (N.compare_spec (N_of_ascii d) (N_of_ascii e)) as [Hde|Hde|Hde]; try done.
  - rewrite Hcd, Hde, N.compare_refl. apply IH.
  - intros _ _. by rewrite Hcd, (proj2 (N.compare_lt_iff _ _) Hde).
  - intros _ _. by rewrite <-Hde, (proj2 (N.compare_lt_iff _ _) Hcd).
  - intros _ _. by rewrite (proj2 (N.compare_lt_iff _ _) (N.lt_trans _ _ _ Hcd Hde)).
Qed.

Lemma string_ltb_trans (s t u : string) :
  String.ltb s t = true -> String.ltb t u = true -> String.ltb s u = true.
Proof.
  unfold String.ltb. intros Hst Htu.
  rewrite (string_compare_trans s t u); [done| |].
  - by destruct (String.compare s t).
  - by destruct (String.compare t u).
Qed.

Lemma listed_in_order_next (prefix : string) (first : Z) (n : nat) (a : Z) :
  listed_in_order prefix first n = true -> first <= a < first + Z.of_nat n ->
  String.ltb (output_name prefix a) (output_name prefix (a + 1)) = true.
Proof.
  unfold listed_in_order. rewrite forallb_forall. intros Hall Ha.
  specialize (Hall (Z.to_nat (a - first)) ltac:(apply in_seq; lia)).
  replace (first + Z.of_nat (Z.to_nat (a - first))) with a in Hall by lia.
  by replace (first + Z.of_nat (S (Z.to_nat (a - first)))) with (a + 1) in Hall by lia.
Qed.

Lemma listed_in_order_far (prefix : string) (first : Z) (n k : nat) (a : Z) :
  listed_in_order prefix first n = true ->
  first <= a -> a + Z.of_nat k < first + Z.of_nat n ->
  String.ltb (output_name prefix a) (output_name prefix (a + 1 + Z.of_nat k)) = true.
Proof.
  intros Hall Ha. induction k as [|k IH]; intros Hk.
  - rewrite Z.add_0_r. apply (listed_in_order_next _ first n); [done|lia].
  - apply (string_ltb_trans _ (output_name prefix (a + 1 + Z.of_nat k))); [apply IH; lia|].
    replace (a + 1 + Z.of_nat (S k)) with (a + 1 + Z.of_nat k + 1) by lia.
    apply (listed_in_order_next _ first n); [done|lia].
Qed.

(** Up to group 999 a directory listing shows the groups in the order
    of their numbers, whatever the prefix: the zeros of [03d] see to
    it. *)
Theorem names_sorted_to_999 (prefix : string) (a b : Z) :
  0 <= a < b -> b <= 999 ->
  String.ltb (output_name prefix a) (output_name prefix b) = true.
Proof.
  intros Ha Hb. rewrite output_name_ltb.
  replace b with (a + 1 + Z.of_nat (Z.to_nat (b - a - 1))) by lia.
  apply (listed_in_order_far "" 0 999); [by vm_compute|lia|lia].
Qed.

(** From group 1000 on it does not: [03d] never truncates, and the name
    of group 1000 is listed between those of groups 100 and 101. *)
Theorem names_unsorted_from_1000 (prefix : string) :
  String.ltb (output_name prefix 100) (output_name prefix 1000) = true
  /\ String.ltb (output_name prefix 1000) (output_name prefix 101) = true.
Proof.
  rewrite (output_name_ltb prefix 100), (output_name_ltb prefix 1000). split; vm_compute; reflexivity.
Qed.
