(* ===== verification/GrouperSpec.v ===== *)
(** * GrouperSpec: what the size-bounded grouper promises

    This file is independent of Python. Over any type of records with a
    weight [w] and any limit of the interface [Limit], it defines

    - [scan] and [pack]: the single forward pass with its accumulator, as a
      pure function (the shape of the loop of [data_grouper.py], without
      files and exceptions);
    - [take_fit] and [greedy]: the reference definition, which cuts the
      longest admissible run again and again;
    - [greedy_groups]: the declarative specification, a relation between a
      manifest and a partition of it;

    and proves that the three agree (and that the relation has one
    solution), together with the properties every partition of the
    specification has: it is a partition, its groups are not empty, a group
    of two or more records fits the limit, and a group is closed only when
    the next record does not fit. With non-negative weights the partition
    has the fewest groups an order-preserving grouping into admissible
    groups can have. A group that is followed by another is closed as
    soon as the pass has read the first record of the next one. The definitions are [Proper] for the equivalence of
    limits: they depend on a limit through the counts that exceed it. *)

From Equations Require Import Equations.
From S2P Require Import Prelude PyFloat.

#[local] Open Scope Z_scope.

Section greedy.

Context {A L : Type} {HL : Limit L} (w : A -> Z) (lim : L).
Implicit Types (x y : A) (g cur t l r : list A) (gs : list (list A)) (sz : Z).

(** ** Definitions *)

(** Cumulative weight of a group. *)
Definition total (g : list A) : Z := sumZ (map w g).

(** The forward pass from an open group [cur] of cumulative weight [sz]:
    the groups closed while reading [l], and the group left open. *)
Fixpoint scan (cur : list A) (sz : Z) (l : list A) : list (list A) * list A :=
  match l with
  | [] => ([], cur)
  | x :: l' =>
      if exceeds lim (sz + w x) && truthy cur
      then let '(closed, open) := scan [x] (0 + w x) l' in (cur :: closed, open)
      else scan (cur ++ [x]) (sz + w x) l'
  end.

(** Closing the group left open, if it has a record. *)
Definition flush (s : list (list A) * list A) : list (list A) :=
  if truthy s.2 then s.1 ++ [s.2] else s.1.

Definition pack (l : list A) : list (list A) := flush (scan [] 0 l).

(** [fits sz t]: the records of [t] can join, one after the other, a group
    of cumulative weight [sz] without exceeding the limit. *)
Fixpoint fits (sz : Z) (t : list A) : bool :=
  match t with
  | [] => true
  | y :: t' => negb (exceeds lim (sz + w y)) && fits (sz + w y) t'
  end.

(** The longest prefix of [l] that fits after weight [sz], and the rest. *)
Fixpoint take_fit (sz : Z) (l : list A) : list A * list A :=
  match l with
  | [] => ([], [])
  | y :: l' =>
      if exceeds lim (sz + w y) then ([], l)
      else let '(g, r) := take_fit (sz + w y) l' in (y :: g, r)
  end.

Lemma take_fit_length (sz : Z) (l : list A) :
  (length (take_fit sz l).2 <= length l)%nat.
Proof.
  revert sz. induction l as [|y l IH]; intros sz; simpl; [lia|].
  destruct (exceeds lim (sz + w y)); simpl; [lia|].
  specialize (IH (sz + w y)). destruct (take_fit (sz + w y) l); simpl in *. lia.
Qed.

(** The reference: the first record opens a group, the longest run that
    fits joins it, and the rest is cut in the same way. *)
Equations? greedy (l : list A) : list (list A) by wf (length l) lt :=
  greedy [] := [];
  greedy (x :: l') := (x :: (take_fit (w x) l').1) :: greedy (take_fit (w x) l').2.
Proof. pose proof (take_fit_length (w x) l'). simpl. lia. Qed.

(** A group as the specification admits it: not empty, and every record
    after the first joined without exceeding the limit. *)
Definition admissible (g : list A) : Prop :=
  match g with
  | [] => False
  | x :: t => fits (w x) t = true
  end.

(** [g] was closed because the first record of [g'] did not fit. *)
Definition closes_late (g g' : list A) : Prop :=
  match g' with
  | [] => False
  | y :: _ => exceeds lim (total g + w y) = true
  end.

(** The declarative specification. *)
Inductive greedy_groups : list A -> list (list A) -> Prop :=
| gg_nil : greedy_groups [] []
| gg_last x t :
    fits (w x) t = true ->
    greedy_groups (x :: t) [x :: t]
| gg_cons x t y r gs :
    fits (w x) t = true ->
    exceeds lim (total (x :: t) + w y) = true ->
    greedy_groups (y :: r) gs ->
    greedy_groups (x :: t ++ y :: r) ((x :: t) :: gs).

(** ** Weights *)

Lemma total_nil : total [] = 0.
Proof. reflexivity. Qed.

Lemma total_cons x g : total (x :: g) = w x + total g.
Proof. reflexivity. Qed.

Lemma total_app g1 g2 : total (g1 ++ g2) = total g1 + total g2.
Proof. unfold total. by rewrite map_app, sumZ_app. Qed.

Lemma total_snoc g x : total (g ++ [x]) = total g + w x.
Proof. rewrite total_app, total_cons, total_nil. lia. Qed.

Lemma total_concat gs : total (concat gs) = sumZ (map total gs).
Proof.
  induction gs as [|g gs IH]; [done|].
  simpl. rewrite total_app, IH. reflexivity.
Qed.

(** ** The forward pass is a partition into non-empty groups *)

Lemma flush_cons cur closed open :
  flush (cur :: closed, open) = cur :: flush (closed, open).
Proof. unfold flush. simpl. by destruct (truthy open). Qed.

Lemma concat_flush (s : list (list A) * list A) :
  concat (flush s) = concat s.1 ++ s.2.
Proof.
  destruct s as [closed [|x open]]; unfold flush; simpl.
  - by rewrite app_nil_r.
  - by rewrite concat_app; simpl; rewrite app_nil_r.
Qed.

Lemma scan_concat l cur sz :
  concat (scan cur sz l).1 ++ (scan cur sz l).2 = cur ++ l.
Proof.
  revert cur sz. induction l as [|x l IH]; intros cur sz; simpl.
  - by rewrite app_nil_r.
  - destruct (exceeds lim (sz + w x) && truthy cur).
    + specialize (IH [x] (0 + w x)). destruct (scan [x] (0 + w x) l) as [closed open].
      simpl in *. by rewrite <-app_assoc, IH.
    + by rewrite IH, <-app_assoc.
Qed.

Lemma pack_concat l : concat (pack l) = l.
Proof. unfold pack. rewrite concat_flush. apply (scan_concat l [] 0). Qed.

Lemma scan_closed_nonempty l cur sz :
  Forall (fun g => g <> []) (scan cur sz l).1.
Proof.
  revert cur sz. induction l as [|x l IH]; intros cur sz; simpl; [constructor|].
  destruct (exceeds lim (sz + w x) && truthy cur) eqn:E; [|apply IH].
  specialize (IH [x] (0 + w x)). destruct (scan [x] (0 + w x) l) as [closed open].
  simpl in *. constructor; [|done]. bool_cases. by apply truthy_true.
Qed.

Lemma flush_nonempty (s : list (list A) * list A) :
  Forall (fun g => g <> []) s.1 -> Forall (fun g => g <> []) (flush s).
Proof.
  intros Hs. unfold flush. destruct (truthy s.2) eqn:E; [|done].
  apply Forall_app. split; [done|]. constructor; [|constructor].
  by apply truthy_true.
Qed.

Lemma pack_nonempty l : Forall (fun g => g <> []) (pack l).
Proof. apply flush_nonempty, scan_closed_nonempty. Qed.

(** ** The forward pass computes the reference *)

Lemma take_fit_app sz l : (take_fit sz l).1 ++ (take_fit sz l).2 = l.
Proof.
  revert sz. induction l as [|y l IH]; intros sz; simpl; [done|].
  destruct (exceeds lim (sz + w y)); [done|].
  specialize (IH (sz + w y)). destruct (take_fit (sz + w y) l). simpl in *.
  by rewrite IH.
Qed.

Lemma take_fit_fits sz l : fits sz (take_fit sz l).1 = true.
Proof.
  revert sz. induction l as [|y l IH]; intros sz; simpl; [done|].
  destruct (exceeds lim (sz + w y)) eqn:E; [done|].
  specialize (IH (sz + w y)). destruct (take_fit (sz + w y) l). simpl in *.
  by rewrite E, IH.
Qed.

Lemma take_fit_rest sz l y r :
  (take_fit sz l).2 = y :: r ->
  exceeds lim (sz + total (take_fit sz l).1 + w y) = true.
Proof.
  revert sz. induction l as [|z l IH]; intros sz; simpl; [done|].
  destruct (exceeds lim (sz + w z)) eqn:E; simpl.
  - intros [= -> ->]. by rewrite total_nil, Z.add_0_r.
  - specialize (IH (sz + w z)). destruct (take_fit (sz + w z) l). simpl in *.
    intros Hr. rewrite total_cons, Z.add_assoc. by apply IH.
Qed.

Lemma take_fit_all sz t : fits sz t = true -> take_fit sz t = (t, []).
Proof.
  revert sz. induction t as [|y t IH]; intros sz; simpl; [done|].
  intros Hf. bool_cases. rewrite H. by rewrite IH.
Qed.

Lemma take_fit_stop sz t y r :
  fits sz t = true -> exceeds lim (sz + total t + w y) = true ->
  take_fit sz (t ++ y :: r) = (t, y :: r).
Proof.
  revert sz. induction t as [|z t IH]; intros sz; simpl.
  - rewrite total_nil, Z.add_0_r. by intros _ ->.
  - intros Hf Hy. bool_cases. rewrite H.
    rewrite total_cons, Z.add_assoc in Hy. by rewrite IH.
Qed.

Lemma flush_scan_take_fit l cur sz :
  cur <> [] ->
  flush (scan cur sz l) = (cur ++ (take_fit sz l).1) :: pack (take_fit sz l).2.
Proof.
  revert cur sz. induction l as [|x l IH]; intros cur sz Hcur.
  - simpl. unfold flush. simpl. apply truthy_true in Hcur. rewrite Hcur.
    by rewrite app_nil_r.
  - simpl. apply truthy_true in Hcur as Ht. rewrite Ht, andb_true_r.
    destruct (exceeds lim (sz + w x)) eqn:E.
    + destruct (scan [x] (0 + w x) l) as [closed open] eqn:Es.
      rewrite flush_cons. simpl. rewrite app_nil_r. f_equal.
      unfold pack. simpl. by rewrite andb_false_r, Es.
    + rewrite IH by (by destruct cur).
      destruct (take_fit (sz + w x) l) as [g r]. simpl.
      by rewrite <-app_assoc.
Qed.

Lemma pack_cons x l :
  pack (x :: l) = (x :: (take_fit (w x) l).1) :: pack (take_fit (w x) l).2.
Proof.
  unfold pack at 1. simpl. rewrite andb_false_r, Z.add_0_l.
  by rewrite flush_scan_take_fit.
Qed.

Lemma pack_greedy l : pack l = greedy l.
Proof.
  funelim (greedy l); [done|].
  rewrite pack_cons. by f_equal.
Qed.

(** ** The reference satisfies the specification, which has one solution *)

Lemma greedy_sound l : greedy_groups l (greedy l).
Proof.
  funelim (greedy l); [constructor|].
  pose proof (take_fit_app (w x) l') as Happ.
  pose proof (take_fit_fits (w x) l') as Hfit.
  pose proof (take_fit_rest (w x) l') as Hrest.
  destruct (take_fit (w x) l') as [g [|y r]]; simpl in *.
  - rewrite app_nil_r in Happ. subst g. simp greedy. by constructor.
  - rewrite <-Happ. constructor; [done| |done].
    rewrite total_cons. by apply (Hrest y r).
Qed.

Lemma greedy_groups_unique l gs : greedy_groups l gs -> gs = greedy l.
Proof.
  induction 1 as [|x t Hf|x t y r gs Hf Hy Hgs IH]; simp greedy; [done| |].
  - rewrite take_fit_all by done. simpl. by simp greedy.
  - rewrite total_cons in Hy.
    rewrite (take_fit_stop _ _ _ _ Hf Hy). simpl. by f_equal.
Qed.

Lemma pack_spec l : greedy_groups l (pack l).
Proof. rewrite pack_greedy. apply greedy_sound. Qed.

Lemma pack_unique l gs : greedy_groups l gs -> gs = pack l.
Proof. rewrite pack_greedy. apply greedy_groups_unique. Qed.

(** ** Properties of every partition of the specification *)

Lemma greedy_groups_concat l gs : greedy_groups l gs -> concat gs = l.
Proof.
  induction 1 as [|x t Hf|x t y r gs Hf Hy Hgs IH]; simpl; [done| |].
  - by rewrite app_nil_r.
  - by rewrite IH.
Qed.

Lemma greedy_groups_admissible l gs :
  greedy_groups l gs -> Forall admissible gs.
Proof. induction 1; repeat constructor; done. Qed.

Lemma greedy_groups_closes_late l gs :
  greedy_groups l gs -> Sorted closes_late gs.
Proof.
  induction 1 as [|x t Hf|x t y r gs Hf Hy Hgs IH]; repeat constructor; [done|].
  inversion Hgs; subst; by constructor.
Qed.

Lemma fits_total sz t :
  fits sz t = true -> t <> [] -> exceeds lim (sz + total t) = false.
Proof.
  revert sz. induction t as [|y t IH]; intros sz; simpl; [done|].
  intros Hf _. bool_cases. rewrite total_cons, Z.add_assoc.
  destruct t as [|z t]; [by rewrite total_nil, Z.add_0_r|].
  by apply IH.
Qed.

Lemma fits_app sz t1 t2 :
  fits sz (t1 ++ t2) = (fits sz t1 && fits (sz + total t1) t2).
Proof.
  revert sz. induction t1 as [|y t1 IH]; intros sz; simpl.
  - by rewrite total_nil, Z.add_0_r.
  - rewrite IH, total_cons, Z.add_assoc. by rewrite andb_assoc.
Qed.

(** A group of two or more records does not exceed the limit. *)
Lemma admissible_bound g :
  admissible g -> (2 <= length g)%nat -> exceeds lim (total g) = false.
Proof.
  destruct g as [|x [|y t]]; simpl; try lia. intros Hf _.
  rewrite total_cons. by apply fits_total.
Qed.

(** A group that exceeds the limit is one record that exceeds it alone. *)
Lemma admissible_oversized g :
  admissible g -> exceeds lim (total g) = true ->
  exists x, g = [x] /\ exceeds lim (w x) = true.
Proof.
  intros Ha He. destruct g as [|x [|y t]]; [done| |].
  - exists x. split; [done|]. by rewrite total_cons, total_nil, Z.add_0_r in He.
  - rewrite admissible_bound in He; [done|done|simpl; lia].
Qed.

(** A manifest that fits is one group. *)
Lemma greedy_groups_single x t :
  fits (w x) t = true -> pack (x :: t) = [x :: t].
Proof. intros Hf. symmetry. apply pack_unique. by constructor. Qed.

(** ** The groups closed by a prefix of the pass *)

(** The group left open by a pass that has read a record holds a record. *)
Lemma scan_open_nonempty l cur sz :
  cur <> [] \/ l <> [] -> (scan cur sz l).2 <> [].
Proof.
  revert cur sz. induction l as [|x l IH]; intros cur sz Hne; simpl.
  - by destruct Hne.
  - destruct (exceeds lim (sz + w x) && truthy cur).
    + specialize (IH [x] (0 + w x) ltac:(by left)).
      by destruct (scan [x] (0 + w x) l).
    + apply IH. left. by destruct cur.
Qed.

(** The first group of a partition starts with the first record. *)
Lemma greedy_groups_head y r g gs :
  greedy_groups (y :: r) (g :: gs) -> exists t, g = y :: t.
Proof. inversion 1; eauto. Qed.

(** The groups of a partition up to one that is followed by another, with
    the first record of the next, are a partition of the records they
    hold: the records after that one play no part in them. *)
Lemma greedy_groups_upto l gs g x t more :
  greedy_groups l (gs ++ g :: (x :: t) :: more) ->
  greedy_groups (concat gs ++ g ++ [x]) (gs ++ [g; [x]]).
Proof.
  revert l. induction gs as [|g0 gs IH]; intros l Hl; simpl in *.
  - inversion Hl as [| |x0 t0 y r gs' Hf Hy Hgs]; subst.
    apply greedy_groups_head in Hgs as Hh. destruct Hh as [t' [= <- <-]].
    change (x0 :: t0 ++ [x]) with (x0 :: t0 ++ x :: []).
    constructor; [done..|]. by constructor.
  - inversion Hl as [|x0 t0 Hf Heq|x0 t0 y r gs' Hf Hy Hgs]; subst.
    { by destruct gs. }
    rewrite <-app_assoc. simpl.
    pose proof (greedy_groups_concat _ _ Hgs) as Hc.
    apply IH in Hgs.
    rewrite concat_app in Hc. simpl in Hc.
    destruct (concat gs ++ g ++ [x]) as [|y' r'] eqn:Hpre.
    { by destruct (concat gs), g. }
    assert (y' = y) as ->; [|by constructor].
    assert ((concat gs ++ g ++ [x]) ++ t ++ concat more = y :: r) as Hc'
      by (rewrite <-Hc; by rewrite <-!app_assoc).
    rewrite Hpre in Hc'. by injection Hc'.
Qed.

(** The pass over those records has closed exactly those groups. *)
Lemma scan_closed_upto l gs g x t more :
  pack l = gs ++ g :: (x :: t) :: more ->
  (scan [] 0 (concat gs ++ g ++ [x])).1 = gs ++ [g].
Proof.
  intros Hl. pose proof (pack_spec l) as Hs. rewrite Hl in Hs.
  apply greedy_groups_upto, pack_unique in Hs. unfold pack, flush in Hs.
  pose proof (scan_open_nonempty (concat gs ++ g ++ [x]) [] 0) as Hne.
  destruct (scan [] 0 (concat gs ++ g ++ [x])) as [closed open]. simpl in *.
  rewrite (proj2 (truthy_true open)) in Hs
    by (apply Hne; right; by destruct (concat gs), g).
  change [g; [x]] with ([g] ++ [[x]]) in Hs. rewrite app_assoc in Hs.
  by apply app_inj_tail in Hs as [-> _].
Qed.

End greedy.

(** ** Non-negative weights *)

Section nonneg.

Context {A L : Type} {HL : Limit L} (w : A -> Z) (lim : L).
Implicit Types (x y : A) (g cur t l r : list A) (gs : list (list A)) (sz : Z).

Definition nonneg (x : A) : Prop := 0 <= w x.

Lemma total_nonneg g : Forall nonneg g -> 0 <= total w g.
Proof.
  induction 1 as [|x g Hx _ IH]; [by rewrite total_nil|].
  rewrite total_cons. unfold nonneg in Hx. lia.
Qed.

(** No record weighs more than the group it is in. *)
Lemma total_bounds g : Forall nonneg g -> Forall (fun x => 0 <= w x <= total w g) g.
Proof.
  induction 1 as [|x g Hx Hg IH]; [done|]. unfold nonneg in Hx.
  pose proof (total_nonneg g Hg). rewrite total_cons. constructor; [lia|].
  eapply List.Forall_impl; [|exact IH]. simpl. lia.
Qed.

(** Two neighbouring groups together exceed the limit. *)
Lemma closes_late_pair g g' :
  Forall nonneg g' -> closes_late w lim g g' ->
  exceeds lim (total w g + total w g') = true.
Proof.
  destruct g' as [|y t]; simpl; [done|]. intros Hn.
  apply exceeds_mono. rewrite total_cons.
  inversion Hn as [|? ? Hy Ht]; subst. pose proof (total_nonneg t Ht). lia.
Qed.

(** When any two neighbouring records together exceed the limit, every
    group is a single record. *)
Lemma pack_singletons_pairs l :
  Sorted (fun x y => exceeds lim (w x + w y) = true) l ->
  pack w lim l = map (fun x => [x]) l.
Proof.
  intros Hl. symmetry. apply pack_unique.
  induction Hl as [|x l Hl IH Hhd]; simpl; [constructor|].
  destruct Hhd as [|y l' Hxy]; simpl in *.
  - by apply gg_last.
  - apply (gg_cons w lim x [] y l'); [done| |done].
    by rewrite total_cons, total_nil, Z.add_0_r.
Qed.

(** With a limit that every record exceeds alone, every group is a single
    record. *)
Lemma pack_singletons l :
  Forall nonneg l -> Forall (fun x => exceeds lim (w x) = true) l ->
  pack w lim l = map (fun x => [x]) l.
Proof.
  intros Hn Hl. apply pack_singletons_pairs.
  induction Hl as [|x l Hx Hl IH]; [constructor|].
  inversion Hn as [|? ? Hx0 Hn']; subst.
  constructor; [by apply IH|].
  destruct Hl as [|y l' Hy _]; constructor.
  eapply exceeds_mono; [|exact Hy]. unfold nonneg in Hx0. lia.
Qed.

(** With a limit that no count exceeds, a manifest is one group. *)
Lemma pack_unbounded l :
  (forall z, exceeds lim z = false) -> l <> [] -> pack w lim l = [l].
Proof.
  intros Hlim Hl. destruct l as [|x t]; [done|].
  apply greedy_groups_single. clear Hl. generalize (w x) as sz.
  induction t as [|y t IH]; intros sz; simpl; [done|].
  by rewrite Hlim, IH.
Qed.

End nonneg.

(** ** Non-negative weights: the forward pass writes the fewest groups *)

Section minimal.

Context {A L : Type} {HL : Limit L} (w : A -> Z) (lim : L).
Implicit Types (x y : A) (g cur t l r : list A) (gs : list (list A)) (sz : Z).

(** A run that fits after a weight fits after any smaller weight. *)
Lemma fits_mono sz sz' t :
  sz <= sz' -> fits w lim sz' t = true -> fits w lim sz t = true.
Proof.
  revert sz sz'. induction t as [|y t IH]; intros sz sz' Hle; simpl; [done|].
  intros Hf. bool_cases. apply andb_true_iff. split.
  - apply negb_true_iff. destruct (exceeds lim (sz + w y)) eqn:E; [|done].
    pose proof (exceeds_mono lim (sz + w y) (sz' + w y) ltac:(lia) E). congruence.
  - apply (IH _ (sz' + w y)); [lia|done].
Qed.

(** The end of an admissible group is admissible. *)
Lemma admissible_suffix g1 y t :
  Forall (nonneg w) g1 -> admissible w lim (g1 ++ y :: t) -> admissible w lim (y :: t).
Proof.
  intros Hn. destruct g1 as [|x g1]; [done|]. simpl.
  rewrite fits_app. intros Hf. bool_cases. simpl in H0. bool_cases.
  apply (fits_mono _ (w x + total w g1 + w y)); [|done].
  pose proof (total_nonneg w _ Hn) as Ht. rewrite total_cons in Ht. lia.
Qed.

(** The longest run that fits starts with any run that fits. *)
Lemma take_fit_fits_app sz t r :
  fits w lim sz t = true ->
  take_fit w lim sz (t ++ r)
  = (t ++ (take_fit w lim (sz + total w t) r).1, (take_fit w lim (sz + total w t) r).2).
Proof.
  revert sz. induction t as [|y t IH]; intros sz; simpl.
  - intros _. rewrite total_nil, Z.add_0_r. by destruct (take_fit w lim sz r).
  - intros Hf. bool_cases. rewrite H, IH by done.
    by rewrite total_cons, Z.add_assoc.
Qed.

(** The reference stays ahead of every partition into admissible groups:
    from any point of the manifest on, it needs no more groups than the
    partition has. *)
Lemma greedy_stays_ahead gs :
  Forall (nonneg w) (concat gs) -> Forall (admissible w lim) gs ->
  forall pre l, concat gs = pre ++ l -> (length (greedy w lim l) <= length gs)%nat.
Proof.
  induction gs as [|g gs IH]; intros Hn Ha pre l Hl; simpl in *.
  - symmetry in Hl. apply app_eq_nil in Hl as [_ ->]. by simp greedy.
  - apply Forall_app in Hn as [Hg Hn]. inversion Ha as [|? ? Hag Hags]; subst.
    specialize (IH Hn Hags).
    apply app_eq_app in Hl as [k [[-> ->]|[-> Hl]]].
    + destruct k as [|y t].
      * specialize (IH [] (concat gs) eq_refl). simpl. lia.
      * apply Forall_app in Hg as [Hpre _].
        apply (admissible_suffix _ _ _ Hpre) in Hag. simpl in Hag.
        simpl. simp greedy. rewrite (take_fit_fits_app _ _ _ Hag). simpl.
        apply le_n_S, (IH (take_fit w lim (w y + total w t) (concat gs)).1).
        by rewrite take_fit_app.
    + specialize (IH k l Hl). lia.
Qed.

(** No partition of the manifest into admissible groups, in the order of
    the manifest, has fewer groups than the forward pass writes. *)
Lemma pack_minimal l gs :
  Forall (nonneg w) l -> concat gs = l -> Forall (admissible w lim) gs ->
  (length (pack w lim l) <= length gs)%nat.
Proof.
  intros Hn <- Ha. rewrite pack_greedy. by apply (greedy_stays_ahead gs Hn Ha []).
Qed.

End minimal.

(** ** Integer limits: the next-fit bound *)

Section next_fit.

Context {A : Type} (w : A -> Z) (lim : Z).

(** The cumulative weight of a manifest is at least [lim + 1] for every
    two of its groups: the groups number at most twice what the weight
    needs, and one more. *)
Lemma greedy_groups_count (l : list A) (gs : list (list A)) :
  Forall (nonneg w) l ->
  greedy_groups w lim l gs ->
  (lim + 1) * Z.of_nat (length gs / 2) <= total w l.
Proof.
  intros Hl Hgs.
  rewrite <-(greedy_groups_concat _ _ _ _ Hgs) in Hl |- *.
  rewrite total_concat, <-(length_map (total w)).
  apply Forall_concat in Hl.
  apply greedy_groups_closes_late in Hgs.
  apply sumZ_pairs.
  - induction Hgs as [|g gs Hs IH Hhd]; simpl; [constructor|].
    inversion Hl as [|? ? _ Hl']; subst.
    constructor; [by apply IH|]. destruct Hhd as [|g' gs' Hc]; constructor.
    inversion Hl' as [|? ? Hg' _]; subst.
    apply (closes_late_pair w lim _ _ Hg') in Hc. simpl in Hc.
    apply Z.ltb_lt in Hc. lia.
  - apply Forall_map. eapply List.Forall_impl; [|exact Hl].
    intros g Hg. by apply total_nonneg.
Qed.

(** A manifest whose cumulative weight does not exceed the limit is one
    group. *)
Lemma pack_fits_all (l : list A) :
  Forall (nonneg w) l -> l <> [] -> total w l <= lim -> pack w lim l = [l].
Proof.
  intros Hn Hl Ht. destruct l as [|x t]; [done|].
  apply greedy_groups_single. clear Hl.
  rewrite total_cons in Ht. inversion Hn as [|? ? _ Hn']; subst. clear Hn.
  revert Ht. generalize (w x) as sz.
  induction Hn' as [|y t Hy Hn IH]; intros sz Ht; simpl; [done|].
  rewrite total_cons in Ht. pose proof (total_nonneg w t Hn).
  unfold nonneg in Hy.
  replace (lim <? sz + w y) with false by (symmetry; apply Z.ltb_ge; lia).
  simpl. apply IH. lia.
Qed.

(** The cumulative weight does not depend on the order of the records. *)
#[export] Instance total_perm : Proper ((≡ₚ) ==> (=)) (total w).
Proof. intros l1 l2 H. unfold total. by rewrite H. Qed.

(** Next-fit against any packing: bins that hold the records of the
    manifest in any order, none weighing more than the limit, are at
    least half as many as the groups of the pass, less one. *)
Lemma pack_twice_optimal (l : list A) (bins : list (list A)) :
  Forall (nonneg w) l -> concat bins ≡ₚ l ->
  Forall (fun b => total w b <= lim) bins ->
  (length (pack w lim l) <= 2 * length bins + 1)%nat.
Proof.
  intros Hl Hperm Hbins.
  pose proof (greedy_groups_count l _ Hl (pack_spec w lim l)) as Hcount.
  rewrite <-(total_perm _ _ Hperm), total_concat in Hcount.
  pose proof Hbins as Hsum.
  apply (Forall_map (total w) (fun t => t <= lim)), sumZ_bound in Hsum.
  rewrite length_map in Hsum.
  rewrite <-Hperm in Hl. apply Forall_concat in Hl.
  destruct bins as [|b bins].
  { apply Permutation_nil_l in Hperm. subst l. simpl. lia. }
  inversion Hl as [|? ? Hb _]; subst. apply total_nonneg in Hb.
  inversion Hbins as [|? ? Hb' _]; subst.
  set (q := Z.of_nat (length (pack w lim l) / 2)) in *.
  set (m := Z.of_nat (length (b :: bins))) in *.
  assert (0 <= m) by (unfold m; lia).
  destruct (Z.le_gt_cases q m) as [Hqm|Hqm].
  { unfold q, m in *. pose proof (Nat.div_mod_eq (length (pack w lim l)) 2).
    pose proof (Nat.mod_upper_bound (length (pack w lim l)) 2). lia. }
  assert ((lim + 1) * (m + 1) <= (lim + 1) * q) by (apply Z.mul_le_mono_nonneg_l; lia).
  lia.
Qed.

End next_fit.

(** ** Limits that exceed at the same counts *)

Section equivalent_limits.

Context {A L L' : Type} {HL : Limit L} {HL' : Limit L'} (w : A -> Z).
Context (lim : L) (lim' : L').
Context (same : forall z, exceeds lim z = exceeds lim' z).

Lemma scan_ext (cur : list A) (sz : Z) (l : list A) :
  scan w lim cur sz l = scan w lim' cur sz l.
Proof.
  revert cur sz. induction l as [|x l IH]; intros cur sz; simpl; [done|].
  by rewrite same, !IH.
Qed.

Lemma pack_ext (l : list A) : pack w lim l = pack w lim' l.
Proof. unfold pack. by rewrite scan_ext. Qed.

Lemma greedy_groups_ext (l : list A) (gs : list (list A)) :
  greedy_groups w lim l gs -> greedy_groups w lim' l gs.
Proof.
  intros Hgs. apply pack_unique in Hgs as ->. rewrite pack_ext. apply pack_spec.
Qed.

End equivalent_limits.

(** ** The grouping depends on the limit through [exceeds] only *)

Section proper.

Context {A L : Type} {HL : Limit L} (w : A -> Z).

#[export] Instance scan_proper :
  Proper (limit_equiv ==> eq ==> eq ==> eq ==> eq) (scan (L := L) w).
Proof. intros l1 l2 H12 cur _ <- sz _ <- l _ <-. by apply scan_ext. Qed.

#[export] Instance pack_proper : Proper (limit_equiv ==> eq ==> eq) (pack (L := L) w).
Proof. intros l1 l2 H12 l _ <-. by apply pack_ext. Qed.

#[export] Instance greedy_proper : Proper (limit_equiv ==> eq ==> eq) (greedy (L := L) w).
Proof. intros l1 l2 H12 l _ <-. rewrite <-!pack_greedy. by apply pack_ext. Qed.

#[export] Instance greedy_groups_proper :
  Proper (limit_equiv ==> eq ==> eq ==> iff) (greedy_groups (L := L) w).
Proof.
  intros l1 l2 H12 l _ <- gs _ <-.
  split; apply greedy_groups_ext; [done|by symmetry].
Qed.

#[export] Instance fits_proper :
  Proper (limit_equiv ==> eq ==> eq ==> eq) (fits (L := L) w).
Proof.
  intros l1 l2 H12 sz _ <- t _ <-. revert sz.
  induction t as [|y t IH]; intros sz; simpl; [done|]. by rewrite H12, IH.
Qed.

#[export] Instance admissible_proper :
  Proper (limit_equiv ==> eq ==> iff) (admissible (L := L) w).
Proof. intros l1 l2 H12 [|x t] _ <-; simpl; [done|]. by rewrite H12. Qed.

End proper.

(** ** Records of another type with the same weights *)

Section renamed.

Context {A B L : Type} {HL : Limit L} (f : A -> B) (w : A -> Z) (w' : B -> Z) (lim : L).

(** The pass sees its records through their weights: on the images of
    the records under [f], weighed by [w'] as the records are by [w], it
    closes the images of the same groups. *)
Lemma scan_fmap (cur l : list A) (sz : Z) :
  Forall (fun x => w' (f x) = w x) l ->
  scan w' lim (f <$> cur) sz (f <$> l)
  = (fmap (M := list) f <$> (scan w lim cur sz l).1, f <$> (scan w lim cur sz l).2).
Proof.
  intros Hl. revert cur sz.
  induction Hl as [|x l Hx Hl IH]; intros cur sz; [done|].
  rewrite fmap_cons. cbn [scan]. rewrite Hx.
  replace (truthy (f <$> cur)) with (truthy cur) by (by destruct cur).
  destruct (exceeds lim (sz + w x) && truthy cur).
  - rewrite (IH [x]). by destruct (scan w lim [x] (0 + w x) l).
  - by rewrite <-(IH (cur ++ [x])), fmap_app.
Qed.

Lemma pack_fmap (l : list A) :
  Forall (fun x => w' (f x) = w x) l ->
  pack w' lim (f <$> l) = fmap (M := list) f <$> pack w lim l.
Proof.
  intros Hl. pose proof (scan_fmap [] l 0 Hl) as H.
  change (f <$> []) with (@nil B) in H. unfold pack, flush. rewrite H. cbn [fst snd].
  destruct (scan w lim [] 0 l) as [closed open]. cbn [fst snd].
  replace (truthy (f <$> open)) with (truthy open) by (by destruct open).
  destruct (truthy open); [|done]. by rewrite fmap_app.
Qed.

End renamed.

(** ** Properties of the forward pass *)

(** The single forward pass with its accumulator computes the
    reference partition, which cuts the longest run that fits again and
    again. *)
Theorem pack_is_greedy {A L : Type} {HL : Limit L} (w : A -> Z) (lim : L) (l : list A) :
  pack w lim l = greedy w lim l.
Proof. apply pack_greedy. Qed.

(** The declarative specification has exactly one solution, the
    partition of the forward pass: a list of groups satisfies it if and only
    if it is the one the pass computes. *)
Theorem pack_characterised {A L : Type} {HL : Limit L} (w : A -> Z) (lim : L)
    (l : list A) (gs : list (list A)) :
  greedy_groups w lim l gs <-> gs = pack w lim l.
Proof. split; [apply pack_unique|intros ->; apply pack_spec]. Qed.
