(* ===== verification/Grouper.v ===== *)
(** * Grouper: [src/bin/data_grouper.py]

    The script loads the manifest, writes it whole, and then runs one loop
    over its rows. The loop keeps three variables ([current_group],
    [current_size], [group_count]) and writes a file every time it closes a
    group. The model keeps the three variables and the log of the files
    written so far in the Record [state]; the statements of the script are
    programs of the monad [prog state] of the prelude, composed in the order
    of the source: one iteration of the loop is [step], the script is
    [main], and [run_main] runs it from the initial world.

    An exception ends the script where it is raised: the state reached is
    part of the result, so that the files written before the failure are
    part of the outcome.

    The theorems of this file hold whatever the cells of the manifest are:
    the invariant of the loop, that a failing iteration changes nothing,
    and what follows for the files of a run (they are the manifest in
    order, no group is empty, the names are numbered without a gap and
    distinct). The theorems that need integer sizes are in
    [GrouperCorrect]. *)

From stdpp Require Import gmap.
From S2P Require Import Prelude PyFloat PyValue Naming.

#[local] Open Scope Z_scope.

(** ** Data *)

(** A row of the manifest: the three columns that line 14 names
    ['Absolute Path'], ['Size'] and ['MD5 Value']. *)
Record Row : Type := {
  row_path : pyval;
  row_size : pyval;
  row_md5 : pyval
}.

#[export] Instance Row_eq_dec : EqDecision Row.
Proof. solve_decision. Defined.

(** A file written by [to_excel]: its name and the rows it holds. *)
Definition file : Type := string * list Row.

(** The command line (lines 7-11). *)
Record Args : Type := {
  results : string;
  limit_tb : float;
  prefix : string
}.

(** [11.0], the default of [--limit_tb]. *)
Definition default_limit_tb : float := S754_finite false 6192449487634432 (-49).

(** The defaults of the optional arguments. *)
Definition parse_args (results : string) (limit_tb : option float)
    (prefix : option string) : Args :=
  {| results := results;
     limit_tb := default default_limit_tb limit_tb;
     prefix := default "result" prefix |}.

(** The variables of the loop and the files written so far, oldest first. *)
Record state : Type := {
  current_group : list Row;
  current_size : pyval;
  group_count : Z;
  files : list file
}.

(** The outcome of the script: the files it wrote and the exception that
    ended it, if any. *)
Record outcome : Type := {
  out_files : list file;
  out_exn : option pyexn
}.

(** ** Operations *)

Definition with_group (g : list Row) (st : state) : state :=
  {| current_group := g; current_size := current_size st;
     group_count := group_count st; files := files st |}.

Definition with_size (v : pyval) (st : state) : state :=
  {| current_group := current_group st; current_size := v;
     group_count := group_count st; files := files st |}.

Definition with_count (n : Z) (st : state) : state :=
  {| current_group := current_group st; current_size := current_size st;
     group_count := n; files := files st |}.

(** [df.to_excel(name, index=False)]: one more file in the log. *)
Definition to_excel (name : string) (rows : list Row) : prog state unit :=
  modify (fun st =>
    {| current_group := current_group st; current_size := current_size st;
       group_count := group_count st; files := files st ++ [(name, rows)] |}).

(** Lines 45-48: the group is written under its numbered name. *)
Definition save_group (data_list : list Row) (prefix : string) (count : Z)
    : prog state unit :=
  let output_name := output_name prefix count in
  to_excel output_name data_list.

(** Lines 33-36 as one state change: the open group is saved and the
    variables start afresh. *)
Definition close_group (prefix : string) (st : state) : state :=
  {| current_group := [];
     current_size := VInt 0;
     group_count := group_count st + 1;
     files := files st ++ [(output_name prefix (group_count st), current_group st)] |}.

(** Lines 29-39: one iteration of the loop. The test of line 32 evaluates
    the sum and the comparison first, and the truth value of the open group
    only when the comparison holds. *)
Definition step (limit_bytes : float) (prefix : string) (row : Row)
    : prog state unit :=
  (let file_size := row_size row in
   st <- get ;;
   sum <- lift (py_add (current_size st) file_size) ;;
   over <- lift (py_gt sum limit_bytes) ;;
   when (over && truthy (current_group st))
     (save_group (current_group st) prefix (group_count st) ;;
      modify (with_count (group_count st + 1)) ;;
      modify (with_group []) ;;
      modify (with_size (VInt 0))) ;;
   st <- get ;;
   modify (with_group (current_group st ++ [row])) ;;
   size' <- lift (py_add (current_size st) file_size) ;;
   modify (with_size size'))%prog.

(** Lines 14-43: the script. [read_csv] is what [pd.read_csv] returned: the
    rows of the manifest, or the exception it raised. *)
Definition main (args : Args) (read_csv : result (list Row)) : prog state unit :=
  (df <- lift read_csv ;;
   let full_list_name := full_list_name (prefix args) in
   to_excel full_list_name df ;;
   limit_bytes <- lift (limit_bytes (limit_tb args)) ;;
   modify (with_group []) ;;
   modify (with_size (VInt 0)) ;;
   modify (with_count 1) ;;
   for_each df (step limit_bytes (prefix args)) ;;
   st <- get ;;
   when (truthy (current_group st))
     (save_group (current_group st) (prefix args) (group_count st)))%prog.

(** The world before the script runs: nothing written. The variables are
    not bound yet; lines 24-26 give them their first values. *)
Definition boot : state :=
  {| current_group := []; current_size := VInt 0; group_count := 0; files := [] |}.

Definition run_main (args : Args) (read_csv : result (list Row)) : outcome :=
  let '(st, r) := main args read_csv boot in
  {| out_files := files st;
     out_exn := match r with Ok _ => None | Raise e => Some e end |}.

(** Lines 42-43 as a function of the state the loop ended in. *)
Definition finish (prefix : string) (st : state) : list file :=
  if truthy (current_group st)
  then files st ++ [(output_name prefix (group_count st), current_group st)]
  else files st.

(** The groups among the files written: every file after the full list. *)
Definition written_groups (fs : list file) : list (list Row) :=
  map snd (tail fs).

(** The names of the files written. *)
Definition written_names (fs : list file) : list string := map fst fs.

(** The directory after the run: every name holds what was written to it
    last. *)
Definition disk_of (fs : list file) : gmap string (list Row) :=
  list_to_map (reverse fs).

(** The limit in bytes that line 22 computes. *)
Definition limit_of (args : Args) : float :=
  float_mul (limit_tb args) (S754_finite false (2 ^ 52) (-12)).

(** Concrete inputs on which the theorems are exercised: rows of a given
    integer size, a row whose size is a string, and a command line whose
    limit is [10 / 1024**4] TB, that is 10 bytes. *)
Definition sized (n : Z) : Row :=
  {| row_path := VStr "/data/a.fq.gz"; row_size := VInt n;
     row_md5 := VStr "d41d8cd98f00b204e9800998ecf8427e" |}.

Definition unsized : Row :=
  {| row_path := VStr "/data/b.fq.gz"; row_size := VStr "n/a";
     row_md5 := VStr "d41d8cd98f00b204e9800998ecf8427e" |}.

Definition ten_bytes : Args :=
  {| results := "merged.csv";
     limit_tb := S754_finite false 5629499534213120 (-89);
     prefix := "out" |}.

(** ** The step relation and its invariant *)

(** The state on entry of the loop, after lines 24-26. *)
Definition init_state (fs : list file) : state :=
  {| current_group := []; current_size := VInt 0; group_count := 1; files := fs |}.

(** [reachable limit prefix fs rows st]: the loop is in state [st] after
    the rows [rows], having started with the files [fs]. *)
Inductive reachable (limit : float) (prefix : string) (fs : list file)
    : list Row -> state -> Prop :=
| reach_init : reachable limit prefix fs [] (init_state fs)
| reach_step rows st row st' :
    reachable limit prefix fs rows st ->
    step limit prefix row st = (st', Ok tt) ->
    reachable limit prefix fs (rows ++ [row]) st'.

(** The cumulative size as Python computes it: adding the sizes from left
    to right. *)
Fixpoint py_sum (acc : pyval) (sizes : list pyval) : result pyval :=
  match sizes with
  | [] => Ok acc
  | s :: rest => (acc' <- py_add acc s ;; py_sum acc' rest)%py
  end.

(** The files of the groups [gs], numbered from [first]. *)
Definition group_files (prefix : string) (first : Z) (gs : list (list Row))
    : list file :=
  imap (fun i g => (output_name prefix (first + Z.of_nat i), g)) gs.

(** What holds of the variables after the rows [rows]: [current_size] is a
    number and is the sum of the sizes of the open group; the files written
    are the initial ones followed by the groups closed so far, none of them
    empty, under their numbered names; [group_count] is the number of the
    next group; the closed groups and the open one are the rows read, in
    order. *)
Record state_inv (prefix : string) (fs : list file) (rows : list Row)
    (st : state) : Prop := {
  inv_number : is_number (current_size st) = true;
  inv_size :
    py_sum (VInt 0) (map row_size (current_group st)) = Ok (current_size st);
  inv_files : exists gs : list (list Row),
    files st = fs ++ group_files prefix 1 gs
    /\ group_count st = 1 + Z.of_nat (length gs)
    /\ Forall (fun g => g <> []) gs
    /\ concat gs ++ current_group st = rows
}.

(** ** Lemmas on one iteration *)

(** One iteration, statement by statement: the two exceptions of line 32
    leave the state as it was; line 39 runs after the row has joined the
    group. *)
Lemma step_unfold (limit : float) (prefix : string) (row : Row) (st : state) :
  step limit prefix row st =
  match py_add (current_size st) (row_size row) with
  | Raise e => (st, Raise e)
  | Ok sum =>
      match py_gt sum limit with
      | Raise e => (st, Raise e)
      | Ok over =>
          let st1 := if over && truthy (current_group st)
                     then close_group prefix st else st in
          let st2 := with_group (current_group st1 ++ [row]) st1 in
          match py_add (current_size st1) (row_size row) with
          | Raise e => (st2, Raise e)
          | Ok size' => (with_size size' st2, Ok tt)
          end
      end
  end.
Proof.
  unfold step, pbind, get, lift; simpl.
  destruct (py_add (current_size st) (row_size row)) as [sum|e]; [|done].
  destruct (py_gt sum limit) as [over|e]; [|done].
  destruct (over && truthy (current_group st)); simpl; by case_match.
Qed.

(** On integers no exception is possible and the iteration is a case
    distinction on the test of line 32. *)
Lemma step_int (limit : float) (prefix : string) (row : Row) (st : state) (c s : Z) :
  current_size st = VInt c -> row_size row = VInt s ->
  step limit prefix row st =
  (if int_gt_float (c + s) limit && truthy (current_group st)
   then {| current_group := [row]; current_size := VInt (0 + s);
           group_count := group_count st + 1;
           files := files st ++ [(output_name prefix (group_count st), current_group st)] |}
   else {| current_group := current_group st ++ [row]; current_size := VInt (c + s);
           group_count := group_count st; files := files st |}, Ok tt).
Proof.
  intros Hc Hs. rewrite step_unfold, Hc, Hs. simpl.
  destruct (int_gt_float (c + s) limit && truthy (current_group st)); simpl; [done|].
  by rewrite Hc.
Qed.

(** An iteration that raises has written nothing and changed nothing. *)
Lemma step_raise (limit : float) (prefix : string) (row : Row) (st st' : state) (e : pyexn) :
  is_number (current_size st) = true ->
  step limit prefix row st = (st', Raise e) -> st' = st.
Proof.
  intros Hn. rewrite step_unfold.
  destruct (py_add (current_size st) (row_size row)) as [sum|e1] eqn:Ea;
    [|by intros [= <- _]].
  destruct (py_gt sum limit) as [over|e2]; [|by intros [= <- _]].
  destruct (py_add_zero_ok _ _ _ Hn Ea) as [c' Hz].
  destruct (over && truthy (current_group st)); cbn -[py_add];
    [by rewrite Hz|by rewrite Ea].
Qed.

(** What an iteration raises is an [Exception]. *)
Lemma step_exception (limit : float) (prefix : string) (row : Row) (st st' : state)
    (e : pyexn) :
  step limit prefix row st = (st', Raise e) -> is_Exception e = true.
Proof.
  rewrite step_unfold. intros H.
  destruct (py_add (current_size st) (row_size row)) as [sum|e1] eqn:Ea;
    [|simplify_eq; by eapply py_add_exception].
  destruct (py_gt sum limit) as [over|e2] eqn:Eg;
    [|simplify_eq; by eapply py_gt_exception].
  cbv zeta in H. destruct (py_add _ (row_size row)) as [size'|e3] eqn:Ea' in H;
    simplify_eq. by eapply py_add_exception.
Qed.

(** A string in the size column raises [TypeError]. *)
Lemma step_str (limit : float) (prefix : string) (row : Row) (st : state) (s : string) :
  is_number (current_size st) = true -> row_size row = VStr s ->
  step limit prefix row st = (st, Raise TypeError).
Proof.
  intros Hn Hs. rewrite step_unfold, Hs. by rewrite py_add_str_r.
Qed.

(** ** The invariant *)

Lemma py_sum_snoc (acc : pyval) (sizes : list pyval) (v : pyval) :
  py_sum acc (sizes ++ [v]) = (a <- py_sum acc sizes ;; py_add a v)%py.
Proof.
  revert acc. induction sizes as [|s sizes IH]; intros acc; simpl.
  - by destruct (py_add acc v).
  - destruct (py_add acc s); simpl; [apply IH|done].
Qed.

Lemma group_files_snoc (prefix : string) (first : Z) (gs : list (list Row)) (g : list Row) :
  group_files prefix first (gs ++ [g]) =
  group_files prefix first gs ++ [(output_name prefix (first + Z.of_nat (length gs)), g)].
Proof.
  unfold group_files. rewrite imap_app. simpl. by rewrite Nat.add_0_r.
Qed.

Lemma group_files_cons (prefix : string) (first : Z) (g : list Row) (gs : list (list Row)) :
  group_files prefix first (g :: gs) =
  (output_name prefix first, g) :: group_files prefix (first + 1) gs.
Proof.
  unfold group_files. simpl. rewrite Z.add_0_r. f_equal.
  apply imap_ext. intros i x _. simpl. do 2 f_equal. lia.
Qed.

Lemma written_names_group_files (prefix : string) (first : Z) (gs : list (list Row)) :
  written_names (group_files prefix first gs)
  = map (output_name prefix) (seqZ first (Z.of_nat (length gs))).
Proof.
  revert first. induction gs as [|g gs IH]; intros first; [done|].
  rewrite group_files_cons. unfold written_names in *. simpl length.
  rewrite seqZ_cons by lia. simpl. f_equal. rewrite IH. do 2 f_equal; lia.
Qed.

Lemma written_names_files (prefix name : string) (rows : list Row) (gs : list (list Row)) :
  written_names ([(name, rows)] ++ group_files prefix 1 gs)
  = name :: map (output_name prefix) (seqZ 1 (Z.of_nat (length gs))).
Proof.
  rewrite <-written_names_group_files. reflexivity.
Qed.

Lemma group_files_length (prefix : string) (first : Z) (gs : list (list Row)) :
  length (group_files prefix first gs) = length gs.
Proof. unfold group_files. apply length_imap. Qed.

Lemma map_snd_group_files (prefix : string) (first : Z) (gs : list (list Row)) :
  map snd (group_files prefix first gs) = gs.
Proof.
  unfold group_files. revert first.
  induction gs as [|g gs IH]; intros first; [done|].
  simpl. f_equal. rewrite <-(IH (first + 1)) at 2.
  f_equal. apply imap_ext. intros i x _. simpl. do 2 f_equal. lia.
Qed.

Lemma init_state_inv (prefix : string) (fs : list file) :
  state_inv prefix fs [] (init_state fs).
Proof.
  split; [done|done|]. exists []. by rewrite app_nil_r.
Qed.

Lemma close_group_inv (prefix : string) (fs : list file) (rows : list Row) (st : state) :
  state_inv prefix fs rows st -> current_group st <> [] ->
  state_inv prefix fs rows (close_group prefix st).
Proof.
  intros [Hn Hs (gs & Hf & Hc & Hne & Hrows)] Hg. split; [done|done|].
  exists (gs ++ [current_group st]). simpl.
  rewrite group_files_snoc, Hf, Hc, <-app_assoc, length_app. simpl.
  repeat split; [lia| |].
  - apply Forall_app. split; [done|]. by constructor.
  - rewrite concat_app. simpl. by rewrite !app_nil_r.
Qed.

(** Every iteration that returns preserves the invariant. *)
Lemma step_inv (limit : float) (prefix : string) (fs : list file)
    (rows : list Row) (row : Row) (st st' : state) :
  state_inv prefix fs rows st ->
  step limit prefix row st = (st', Ok tt) ->
  state_inv prefix fs (rows ++ [row]) st'.
Proof.
  intros Hinv. rewrite step_unfold.
  destruct (py_add (current_size st) (row_size row)) as [sum|e1]; [|done].
  destruct (py_gt sum limit) as [over|e2]; [|done].
  set (st1 := if over && truthy (current_group st) then close_group prefix st else st).
  assert (Hinv1 : state_inv prefix fs rows st1).
  { subst st1. destruct (over && truthy (current_group st)) eqn:E; [|done].
    bool_cases. apply close_group_inv; [done|]. by apply truthy_true. }
  simpl. destruct (py_add (current_size st1) (row_size row)) as [size'|e3] eqn:Ea; [|done].
  intros [= <-]. destruct Hinv1 as [Hn Hs (gs & Hf & Hc & Hne & Hrows)].
  split; simpl.
  - by destruct (py_add_number _ _ _ Hn Ea).
  - rewrite map_app. cbn [map]. by rewrite py_sum_snoc, Hs.
  - exists gs. by rewrite app_assoc, Hrows.
Qed.

(** The invariant holds in every state the loop can reach. *)
Lemma reachable_inv (limit : float) (prefix : string) (fs : list file)
    (rows : list Row) (st : state) :
  reachable limit prefix fs rows st -> state_inv prefix fs rows st.
Proof.
  induction 1 as [|rows st row st' _ IH Hstep]; [apply init_state_inv|].
  by apply (step_inv limit prefix fs rows row st).
Qed.

(** The loop moves along the step relation: it ends after all the rows, or
    raises on the first row that makes an iteration raise. *)
Lemma for_each_reachable (limit : float) (prefix : string) (fs : list file)
    (rows df : list Row) (st st' : state) (r : result unit) :
  reachable limit prefix fs rows st ->
  for_each df (step limit prefix) st = (st', r) ->
  exists read rest : list Row,
    df = read ++ rest
    /\ reachable limit prefix fs (rows ++ read) st'
    /\ match r with
       | Ok _ => rest = []
       | Raise e => exists row rest', rest = row :: rest'
                    /\ step limit prefix row st' = (st', Raise e)
       end.
Proof.
  revert rows st. induction df as [|row df IH]; intros rows st Hst; simpl.
  - intros [= <- <-]. exists [], []. rewrite !app_nil_r. by repeat split.
  - unfold pbind. destruct (step limit prefix row st) as [st1 [[]|e]] eqn:Es.
    + intros Hloop.
      destruct (IH (rows ++ [row]) st1) as (read & rest & -> & Hr & Hok);
        [by apply (reach_step _ _ _ rows st row)|done|].
      exists (row :: read), rest. rewrite <-app_assoc in Hr. by repeat split.
    + intros [= <- <-]. exists [], (row :: df).
      apply reachable_inv in Hst as Hinv. destruct Hinv as [Hn _ _].
      pose proof (step_raise _ _ _ _ _ _ Hn Es) as ->. rewrite !app_nil_r.
      repeat split; [done|]. by exists row, df.
Qed.

(** ** The directory *)

(** When no name is written twice, every file of the log is in the
    directory with the rows that were written. *)
Lemma disk_of_lookup (fs : list file) (name : string) (rows : list Row) :
  NoDup (written_names fs) -> (name, rows) ∈ fs -> disk_of fs !! name = Some rows.
Proof.
  intros Hnd Hin. unfold disk_of. apply elem_of_list_to_map_1.
  - by rewrite fmap_reverse, reverse_Permutation.
  - by apply elem_of_reverse.
Qed.

Lemma group_files_lookup (prefix : string) (first : Z) (gs : list (list Row))
    (i : nat) (g : list Row) :
  gs !! i = Some g ->
  group_files prefix first gs !! i = Some (output_name prefix (first + Z.of_nat i), g).
Proof. intros Hg. unfold group_files. by rewrite list_lookup_imap, Hg. Qed.

#[export] Hint Resolve init_state_inv reachable_inv : grouper.

(** ** The script around its loop *)

(** The script around its loop: the full list is written first, the loop
    starts from fresh variables, and the open group is saved after it. *)
Lemma run_main_unfold (args : Args) (df : list Row) :
  run_main args (Ok df) =
  match for_each df (step (limit_of args) (prefix args))
          (init_state [(full_list_name (prefix args), df)]) with
  | (st, Ok _) => {| out_files := finish (prefix args) st; out_exn := None |}
  | (st, Raise e) => {| out_files := files st; out_exn := Some e |}
  end.
Proof.
  unfold run_main, main, pbind, lift, to_excel, modify, get.
  rewrite limit_bytes_eq. fold (limit_of args). cbn -[limit_of].
  change {| current_group := []; current_size := VInt 0; group_count := 1;
            files := [(full_list_name (prefix args), df)] |}
    with (init_state [(full_list_name (prefix args), df)]).
  destruct (for_each df _ _) as [st [[]|e]]; [|done].
  unfold when, finish. by destruct (truthy (current_group st)).
Qed.

(** The script on any manifest: it reads a prefix [read] of the manifest
    along the step relation and either ends, having read it all, or raises
    on the next row. *)
Lemma run_main_cases (args : Args) (df : list Row) :
  let fs := [(full_list_name (prefix args), df)] in
  exists (read rest : list Row) (st : state),
    df = read ++ rest
    /\ reachable (limit_of args) (prefix args) fs read st
    /\ ((rest = []
         /\ run_main args (Ok df)
            = {| out_files := finish (prefix args) st; out_exn := None |})
        \/ (exists e row rest',
              rest = row :: rest'
              /\ step (limit_of args) (prefix args) row st = (st, Raise e)
              /\ run_main args (Ok df)
                 = {| out_files := files st; out_exn := Some e |})).
Proof.
  intros fs. rewrite run_main_unfold. fold fs.
  destruct (for_each df _ (init_state fs)) as [st r] eqn:E.
  destruct (for_each_reachable _ _ fs [] df _ _ _ (reach_init _ _ _) E)
    as (read & rest & Hdf & Hr & Hrest).
  exists read, rest, st. repeat split; [done|done|].
  destruct r as [[]|e]; [by left|].
  right. destruct Hrest as (row & rest' & -> & Hs). by exists e, row, rest'.
Qed.

(** On a manifest that was loaded, what ends the script is an
    [Exception]. *)
Lemma run_main_exception (args : Args) (df : list Row) (e : pyexn) :
  out_exn (run_main args (Ok df)) = Some e -> is_Exception e = true.
Proof.
  destruct (run_main_cases args df) as (read & rest & st & _ & _ & [[_ ->]|Hraise]);
    [done|].
  destruct Hraise as (e' & row & rest' & _ & Hstep & ->). intros [= <-].
  by eapply step_exception.
Qed.

(** The groups written, from the invariant of the state the loop ended
    in. *)
Lemma written_groups_files (prefix : string) (f : file) (gs : list (list Row)) :
  written_groups ([f] ++ group_files prefix 1 gs) = gs.
Proof. unfold written_groups. simpl. apply map_snd_group_files. Qed.

(** A file written after the full list is one more group. *)
Lemma written_groups_snoc (fs : list file) (f : file) :
  fs <> [] -> written_groups (fs ++ [f]) = written_groups fs ++ [f.2].
Proof. destruct fs; [done|]. intros _. unfold written_groups. simpl. by rewrite map_app. Qed.

Lemma written_groups_cons (prefix : string) (f : file) (gs : list (list Row)) :
  written_groups (f :: group_files prefix 1 gs) = gs.
Proof. apply written_groups_files. Qed.

Lemma written_groups_finish (prefix : string) (f : file) (rows : list Row) (st : state) :
  state_inv prefix [f] rows st ->
  concat (written_groups (finish prefix st)) = rows
  /\ Forall (fun g => g <> []) (written_groups (finish prefix st)).
Proof.
  intros [_ _ (gs & Hf & Hc & Hne & Hrows)]. unfold finish.
  destruct (truthy (current_group st)) eqn:Ht.
  - rewrite Hf, Hc, <-app_assoc, <-group_files_snoc, written_groups_files.
    rewrite concat_app. simpl. rewrite app_nil_r. split; [done|].
    apply Forall_app. split; [done|]. constructor; [|done]. by apply truthy_true.
  - apply truthy_false in Ht. rewrite Ht, app_nil_r in Hrows.
    by rewrite Hf, written_groups_files.
Qed.

Lemma written_groups_raise (prefix : string) (f : file) (rows : list Row) (st : state) :
  state_inv prefix [f] rows st ->
  concat (written_groups (files st)) ++ current_group st = rows
  /\ Forall (fun g => g <> []) (written_groups (files st)).
Proof.
  intros [_ _ (gs & Hf & Hc & Hne & Hrows)].
  by rewrite Hf, written_groups_files.
Qed.

(** The files of any run: the full list, then groups under numbered names,
    none of them empty, which are a prefix of the manifest in order; all of
    it when the script ends without exception. *)
Lemma run_main_shape (args : Args) (df : list Row) :
  exists (gs : list (list Row)) (open rest : list Row),
    out_files (run_main args (Ok df))
    = [(full_list_name (prefix args), df)] ++ group_files (prefix args) 1 gs
    /\ Forall (fun g => g <> []) gs
    /\ df = concat gs ++ open ++ rest
    /\ (out_exn (run_main args (Ok df)) = None -> open = [] /\ rest = []).
Proof.
  destruct (run_main_cases args df)
    as (read & rest & st & Hdf & Hr & [[-> Hrun]|(e & row & rest' & -> & Hs & Hrun)]);
    apply reachable_inv in Hr as [_ _ (gs & Hf & Hc & Hne & Hrows)];
    rewrite Hrun; simpl.
  - rewrite app_nil_r in Hdf. rewrite <-Hdf in Hrows. clear Hdf read.
    unfold finish. destruct (truthy (current_group st)) eqn:Ht.
    + exists (gs ++ [current_group st]), [], [].
      rewrite Hf, Hc, <-app_assoc, <-group_files_snoc, concat_app. simpl.
      rewrite !app_nil_r. repeat split; [|done].
      apply Forall_app. split; [done|]. constructor; [|done]. by apply truthy_true.
    + exists gs, [], []. apply truthy_false in Ht.
      rewrite Ht, app_nil_r in Hrows. rewrite !app_nil_r. by rewrite Hf.
  - exists gs, (current_group st), (row :: rest').
    rewrite app_assoc, Hrows, Hf. by repeat split.
Qed.

(** A run that ends without exception has written the manifest, in
    order, as its groups. *)
Lemma run_main_partition (args : Args) (df : list Row) :
  out_exn (run_main args (Ok df)) = None ->
  concat (written_groups (out_files (run_main args (Ok df)))) = df.
Proof.
  intros Hok. destruct (run_main_shape args df) as (gs & open & rest & -> & _ & Hdf & Hend).
  destruct (Hend Hok) as [-> ->]. rewrite written_groups_files.
  by rewrite !app_nil_r in Hdf.
Qed.

Lemma main_names_unique (args : Args) (df : list Row) :
  NoDup (written_names (out_files (run_main args (Ok df)))).
Proof.
  destruct (run_main_shape args df) as (gs & open & rest & -> & _).
  rewrite written_names_files. apply output_names_NoDup.
Qed.

(** ** Properties of the script on any manifest *)

(** Claim C2. Order preservation and coverage, for cells of any type: when
    the script ends without exception, the groups it wrote, concatenated in
    the order of their numbers, are the manifest; no row is dropped,
    duplicated or moved. *)
Theorem main_partition (args : Args) (df : list Row) :
  out_exn (run_main args (Ok df)) = None ->
  concat (written_groups (out_files (run_main args (Ok df)))) = df.
Proof. apply run_main_partition. Qed.

Lemma main_partition_witness :
  concat (written_groups (out_files (run_main ten_bytes (Ok [sized 5; sized 5; sized 5]))))
  = [sized 5; sized 5; sized 5].
Proof. apply main_partition. reflexivity. Defined.

(** Claim C8. Whatever the cells hold and however the script ends, no file
    of an empty group is written. *)
Theorem main_groups_nonempty (args : Args) (df : list Row) :
  Forall (fun g => g <> []) (written_groups (out_files (run_main args (Ok df)))).
Proof.
  destruct (run_main_shape args df) as (gs & open & rest & -> & Hne & _).
  by rewrite written_groups_files.
Qed.

(** The files are written under the names the f-strings of lines
    17 and 47 give: the full list first, then the groups numbered from 1
    without a gap, whatever the cells hold and however the script ends. *)
Theorem main_file_names (args : Args) (df : list Row) :
  written_names (out_files (run_main args (Ok df)))
  = full_list_name (prefix args)
    :: map (output_name (prefix args))
         (seqZ 1 (Z.of_nat (length (written_groups (out_files (run_main args (Ok df))))))).
Proof.
  destruct (run_main_shape args df) as (gs & open & rest & -> & _).
  by rewrite written_groups_files, written_names_files.
Qed.

(** Claim C30. No file is written twice: the names of the files of a run are
    pairwise distinct, so that no group overwrites another group or the
    full list. *)
Theorem main_names_distinct (args : Args) (df : list Row) :
  NoDup (written_names (out_files (run_main args (Ok df)))).
Proof. apply main_names_unique. Qed.

(** Claim C9. The invariant of the loop: in the state the loop stops in,
    after it has read the rows [read] of the manifest, [current_size] is a
    number and the sum of the sizes of the open group, the files are the
    initial ones and the closed groups under their numbers, [group_count]
    is the number of the next group, and closed and open groups together
    are [read]. *)
Theorem loop_invariant (limit : float) (prefix : string) (fs : list file)
    (df : list Row) (st : state) (r : result unit) :
  for_each df (step limit prefix) (init_state fs) = (st, r) ->
  exists read rest, df = read ++ rest /\ state_inv prefix fs read st.
Proof.
  intros Hloop.
  destruct (for_each_reachable _ _ fs [] df _ _ _ (reach_init _ _ _) Hloop)
    as (read & rest & Hdf & Hr & _).
  exists read, rest. split; [done|]. by apply (reachable_inv limit).
Qed.

Lemma loop_invariant_witness :
  exists read rest, [sized 3; sized 8; unsized] = read ++ rest
    /\ state_inv "out" [] read
         (for_each [sized 3; sized 8; unsized] (step (limit_of ten_bytes) "out")
            (init_state [])).1.
Proof.
  apply (loop_invariant (limit_of ten_bytes) "out" [] _ _ (Raise TypeError)).
  reflexivity.
Defined.

(** Claim C11. An iteration that raises has changed nothing: in a state the
    loop can reach, the exceptions of an iteration come from line 32, before
    any file is written and before the row joins the group. *)
Theorem failing_step_changes_nothing (limit : float) (prefix : string) (fs : list file)
    (rows : list Row) (row : Row) (st st' : state) (e : pyexn) :
  reachable limit prefix fs rows st ->
  step limit prefix row st = (st', Raise e) ->
  st' = st.
Proof.
  intros Hr. apply step_raise. by destruct (reachable_inv _ _ _ _ _ Hr).
Qed.

Lemma failing_step_changes_nothing_witness :
  (step (limit_of ten_bytes) "out" unsized (init_state [])).1 = init_state [].
Proof.
  apply (failing_step_changes_nothing (limit_of ten_bytes) "out" [] [] unsized _ _ TypeError).
  - apply reach_init.
  - reflexivity.
Defined.

(** An empty manifest is not an error: the full list is written,
    empty, and no group is. *)
Theorem main_empty (args : Args) :
  run_main args (Ok [])
  = {| out_files := [(full_list_name (prefix args), [])]; out_exn := None |}.
Proof. by rewrite run_main_unfold. Qed.

(** With the default of [--limit_tb], a running size exceeds the
    limit exactly when it is greater than [11 * 1024**4] bytes. *)
Theorem default_limit (results : string) (prefix : option string) (z : Z) :
  int_gt_float z (limit_of (parse_args results None prefix)) = (11 * 1024 ^ 4 <? z).
Proof. by apply int_gt_float_floor. Qed.

(** Scenario A of the specification: sizes 5, 5, 5 under a limit
    of 10 bytes give the groups [5, 5] and [5]. *)
Example scenario_A :
  run_main ten_bytes (Ok [sized 5; sized 5; sized 5])
  = {| out_files := [("out_full_list.xlsx", [sized 5; sized 5; sized 5]);
                     ("out_group_001.xlsx", [sized 5; sized 5]);
                     ("out_group_002.xlsx", [sized 5])];
       out_exn := None |}.
Proof. reflexivity. Qed.

(** Scenario B of the specification: one row of size 15 under a
    limit of 10 bytes is written as a group of its own. *)
Example scenario_B :
  run_main ten_bytes (Ok [sized 15])
  = {| out_files := [("out_full_list.xlsx", [sized 15]);
                     ("out_group_001.xlsx", [sized 15])];
       out_exn := None |}.
Proof. reflexivity. Qed.

(** Scenario C of the specification: sizes 3, 8, 2 under a limit
    of 10 bytes give the groups [3] and [8, 2]. *)
Example scenario_C :
  run_main ten_bytes (Ok [sized 3; sized 8; sized 2])
  = {| out_files := [("out_full_list.xlsx", [sized 3; sized 8; sized 2]);
                     ("out_group_001.xlsx", [sized 3]);
                     ("out_group_002.xlsx", [sized 8; sized 2])];
       out_exn := None |}.
Proof. reflexivity. Qed.

(** What is on disk after a run: the full list under its name,
    and every group written under the name of its number; nothing was
    overwritten. *)
Theorem main_disk (args : Args) (df : list Row) :
  disk_of (out_files (run_main args (Ok df))) !! full_list_name (prefix args) = Some df
  /\ forall (i : nat) (g : list Row),
       written_groups (out_files (run_main args (Ok df))) !! i = Some g ->
       disk_of (out_files (run_main args (Ok df)))
         !! output_name (prefix args) (1 + Z.of_nat i) = Some g.
Proof.
  pose proof (main_names_unique args df) as Hnd. revert Hnd.
  destruct (run_main_shape args df) as (gs & open & rest & -> & _).
  rewrite written_groups_files. intros Hnd. split.
  - apply disk_of_lookup; [done|]. apply elem_of_app. left. by apply list_elem_of_singleton.
  - intros i g Hg. apply disk_of_lookup; [done|]. apply elem_of_app. right.
    apply list_elem_of_lookup. exists i. by apply group_files_lookup.
Qed.

