(* ===== verification/GrouperCorrect.v ===== *)
(** * GrouperCorrect: [data_grouper.py] implements the specification

    On a manifest whose sizes are integers, the script never raises, and
    the files it writes are the full list followed by the groups of the
    reference partition [pack] of [GrouperSpec], numbered from 1. Every
    property of the specification is then a property of the files written:
    the size bound, the oversized singletons, the greediness, the bound on
    the number of groups. The file ends with the manifests the
    specification does not speak of: a string or a missing value in the
    size column, a limit of zero, a limit that is not a finite number. *)

From S2P Require Import Prelude PyFloat PyValue Naming GrouperSpec Grouper.

#[local] Open Scope Z_scope.

(** ** Definitions *)

(** The size of a row as an integer (0 when the cell is not an integer;
    the theorems that use it assume integer cells). *)
Definition int_size (row : Row) : Z :=
  match row_size row with
  | VInt z => z
  | _ => 0
  end.

Definition int_row (row : Row) : Prop := is_int (row_size row) = true.

#[export] Instance int_row_dec (row : Row) : Decision (int_row row).
Proof. unfold int_row. apply _. Defined.

Definition float_row (row : Row) : Prop :=
  match row_size row with VFloat _ => True | _ => False end.

(** A row whose size is missing: [read_csv] reads the empty cell as NaN. *)
Definition missing : Row :=
  {| row_path := VStr "/data/c.fq.gz"; row_size := VFloat S754_nan;
     row_md5 := VStr "d41d8cd98f00b204e9800998ecf8427e" |}.

Definition sized_float (f : float) : Row :=
  {| row_path := VStr "/data/d.fq.gz"; row_size := VFloat f;
     row_md5 := VStr "d41d8cd98f00b204e9800998ecf8427e" |}.

(** A row whose size is a positive integer, a non-negative integer. *)
Definition positive_row (row : Row) : Prop := int_row row /\ 0 < int_size row.

Definition natural_row (row : Row) : Prop := int_row row /\ 0 <= int_size row.

(** The state the loop reaches from [st] on the rows [df], as the forward
    pass of the specification describes it. *)
Definition scanned (prefix : string) (limit : float) (st : state) (df : list Row)
    : state :=
  let '(closed, open) :=
    scan int_size limit (current_group st) (total int_size (current_group st)) df in
  {| current_group := open;
     current_size := VInt (total int_size open);
     group_count := group_count st + Z.of_nat (length closed);
     files := files st ++ group_files prefix (group_count st) closed |}.

(** ** The loop on integer sizes *)

Lemma int_row_size (row : Row) : int_row row -> row_size row = VInt (int_size row).
Proof. unfold int_row, int_size. by destruct (row_size row). Qed.

Lemma scanned_nil (prefix : string) (limit : float) (st : state) :
  current_size st = VInt (total int_size (current_group st)) ->
  scanned prefix limit st [] = st.
Proof.
  intros Hs. unfold scanned. simpl. rewrite <-Hs, Z.add_0_r, app_nil_r.
  by destruct st.
Qed.

Lemma scanned_cons (prefix : string) (limit : float) (st : state) (row : Row) (df : list Row) :
  scanned prefix limit st (row :: df) =
  scanned prefix limit
    (if int_gt_float (total int_size (current_group st) + int_size row) limit
        && truthy (current_group st)
     then {| current_group := [row]; current_size := VInt (0 + int_size row);
             group_count := group_count st + 1;
             files := files st ++ [(output_name prefix (group_count st), current_group st)] |}
     else {| current_group := current_group st ++ [row];
             current_size := VInt (total int_size (current_group st) + int_size row);
             group_count := group_count st; files := files st |}) df.
Proof.
  unfold scanned. simpl.
  destruct (int_gt_float _ limit && truthy (current_group st)); simpl.
  - replace (total int_size [row]) with (0 + int_size row)
      by (rewrite total_cons, total_nil; lia).
    destruct (scan int_size limit [row] (0 + int_size row) df) as [closed open].
    simpl. rewrite group_files_cons, <-app_assoc. simpl. f_equal. lia.
  - by rewrite total_snoc.
Qed.

(** The loop is the forward pass of the specification. *)
Lemma for_each_int (limit : float) (prefix : string) (df : list Row) (st : state) :
  Forall int_row df ->
  current_size st = VInt (total int_size (current_group st)) ->
  for_each df (step limit prefix) st = (scanned prefix limit st df, Ok tt).
Proof.
  intros Hdf. revert st. induction Hdf as [|row df Hrow Hdf IH]; intros st Hs.
  - by rewrite scanned_nil.
  - rewrite for_each_cons, (step_int _ _ _ _ _ _ Hs (int_row_size _ Hrow)).
    rewrite scanned_cons.
    destruct (int_gt_float _ limit && truthy (current_group st)); apply IH; simpl.
    + f_equal. rewrite total_cons, total_nil. lia.
    + by rewrite total_snoc.
Qed.

(** ** The script *)

(** The script on integer sizes: the full list, then the reference
    partition under numbered names, and no exception. *)
Lemma run_main_int (args : Args) (df : list Row) :
  Forall int_row df ->
  run_main args (Ok df) =
  {| out_files := (full_list_name (prefix args), df)
                  :: group_files (prefix args) 1 (pack int_size (limit_of args) df);
     out_exn := None |}.
Proof.
  intros Hdf. rewrite run_main_unfold, (for_each_int _ _ _ _ Hdf) by done.
  unfold scanned, pack, flush, finish; cbn -[limit_of].
  destruct (scan int_size (limit_of args) [] 0 df) as [closed open]; cbn.
  destruct (truthy open); cbn; [|done].
  by rewrite group_files_snoc.
Qed.

(** A string in the size column, after rows of integer size. *)
Lemma run_main_str (args : Args) (pre post : list Row) (row : Row) (s : string) :
  Forall int_row pre -> row_size row = VStr s ->
  run_main args (Ok (pre ++ row :: post)) =
  {| out_files := (full_list_name (prefix args), pre ++ row :: post)
                  :: group_files (prefix args) 1
                       (scan int_size (limit_of args) [] 0 pre).1;
     out_exn := Some TypeError |}.
Proof.
  intros Hpre Hrow. rewrite run_main_unfold, for_each_app.
  rewrite (for_each_int _ _ _ _ Hpre) by done.
  rewrite for_each_cons, (step_str _ _ _ _ s); [|by unfold scanned; case_match|done].
  unfold scanned. cbn -[limit_of]. by case_match.
Qed.

(** The script sees its limit through the comparison of line 32 only:
    limits that the same byte counts exceed give the same run. *)
Lemma run_main_limit_equiv (args args' : Args) (df : list Row) :
  Forall int_row df -> prefix args = prefix args' ->
  limit_of args ≈ limit_of args' ->
  run_main args (Ok df) = run_main args' (Ok df).
Proof.
  intros Hdf Hp Hl. rewrite !run_main_int by done. by rewrite Hp, Hl.
Qed.

(** ** Particular limits *)

Lemma limit_of_zero (args : Args) (s : bool) :
  limit_tb args = S754_zero s -> limit_of args = S754_zero s.
Proof. unfold limit_of. intros ->. by destruct s. Qed.

Lemma limit_of_nan (args : Args) :
  limit_tb args = S754_nan -> limit_of args = S754_nan.
Proof. unfold limit_of. by intros ->. Qed.

Lemma limit_of_inf (args : Args) (s : bool) :
  limit_tb args = S754_infinity s -> limit_of args = S754_infinity s.
Proof. unfold limit_of. intros ->. by destruct s. Qed.

Lemma natural_rows (df : list Row) :
  Forall natural_row df -> Forall int_row df /\ Forall (nonneg int_size) df.
Proof. intros H. split; (eapply List.Forall_impl; [|exact H]); by intros r []. Qed.

Lemma positive_rows (df : list Row) :
  Forall positive_row df -> Forall natural_row df.
Proof.
  intros H. eapply List.Forall_impl; [|exact H].
  intros r [? ?]. split; [done|lia].
Qed.

(** The groups written on integer sizes, with the float limit replaced by
    any limit that exceeds at the same counts. *)
Lemma written_groups_int {L : Type} {HL : Limit L} (lim : L) (args : Args) (df : list Row) :
  (forall z, int_gt_float z (limit_of args) = exceeds lim z) ->
  Forall int_row df ->
  written_groups (out_files (run_main args (Ok df))) = pack int_size lim df.
Proof.
  intros Hlim Hdf. rewrite (run_main_int _ _ Hdf). cbn [out_files].
  rewrite written_groups_cons. by apply pack_ext.
Qed.

(** ** A missing size *)

(** Once the running size is NaN, every row of float size joins the open
    group and nothing is written. *)
Lemma step_nan (limit : float) (prefix : string) (row : Row) (st : state) :
  current_size st = VFloat S754_nan -> float_row row ->
  step limit prefix row st = (with_group (current_group st ++ [row]) st, Ok tt).
Proof.
  intros Hs Hr. unfold float_row in Hr. rewrite step_unfold, Hs.
  destruct (row_size row) as [|g|]; try done.
  rewrite py_add_nan, py_gt_nan. cbn -[py_add]. rewrite Hs, py_add_nan.
  unfold with_size, with_group. simpl. by rewrite Hs.
Qed.

Lemma for_each_nan (limit : float) (prefix : string) (df : list Row) (st : state) :
  current_size st = VFloat S754_nan -> Forall float_row df ->
  for_each df (step limit prefix) st = (with_group (current_group st ++ df) st, Ok tt).
Proof.
  intros Hs Hdf. revert st Hs. induction Hdf as [|row df Hrow Hdf IH]; intros st Hs.
  - simpl. rewrite app_nil_r. by destruct st.
  - rewrite for_each_cons, (step_nan _ _ _ _ Hs Hrow), IH by done.
    unfold with_group. simpl. by rewrite <-app_assoc.
Qed.

(** ** A column of floats *)

(** An iteration on a float size raises nothing and leaves a float in
    [current_size]. *)
Lemma step_float (limit : float) (prefix : string) (row : Row) (st : state) :
  float_or_zero (current_size st) -> float_row row ->
  exists st', step limit prefix row st = (st', Ok tt)
              /\ float_or_zero (current_size st').
Proof.
  intros Hs Hr. unfold float_row in Hr. rewrite step_unfold.
  destruct (row_size row) as [|g|]; try done.
  destruct (py_add_float _ g Hs) as [f ->]. rewrite py_gt_float. cbn zeta.
  set (st1 := if float_gt f limit && truthy (current_group st)
              then close_group prefix st else st).
  assert (float_or_zero (current_size st1)) as Hs1
    by (unfold st1; case_match; [by left|done]).
  destruct (py_add_float _ g Hs1) as [f' ->].
  eexists. split; [done|]. right. by exists f'.
Qed.

Lemma for_each_float (limit : float) (prefix : string) (df : list Row) (st : state) :
  float_or_zero (current_size st) -> Forall float_row df ->
  exists st', for_each df (step limit prefix) st = (st', Ok tt).
Proof.
  intros Hs Hdf. revert st Hs. induction Hdf as [|row df Hrow Hdf IH]; intros st Hs.
  - by exists st.
  - destruct (step_float limit prefix row st Hs Hrow) as (st1 & Hst & Hs1).
    destruct (IH st1 Hs1) as [st' Hst']. exists st'.
    by rewrite for_each_cons, Hst.
Qed.

(** ** Properties of the script *)

(** Claim C1. On a manifest of integer sizes the script raises nothing, and
    the groups it writes, in the order of their numbers, are the reference
    partition: the first row opens a group, the longest run of rows that
    fits joins it, and the rest of the manifest is cut in the same way. *)
Theorem main_writes_reference (args : Args) (df : list Row) :
  Forall int_row df ->
  written_groups (out_files (run_main args (Ok df)))
  = greedy int_size (limit_of args) df
  /\ out_exn (run_main args (Ok df)) = None.
Proof.
  intros Hdf. rewrite (run_main_int _ _ Hdf), <-pack_greedy. split; [|done].
  apply written_groups_cons.
Qed.

Lemma main_writes_reference_witness :
  written_groups (out_files (run_main ten_bytes (Ok [sized 3; sized 8; sized 2])))
  = greedy int_size (limit_of ten_bytes) [sized 3; sized 8; sized 2]
  /\ out_exn (run_main ten_bytes (Ok [sized 3; sized 8; sized 2])) = None.
Proof. apply main_writes_reference. repeat constructor. Defined.

(** Claim C3. The size bound: on a manifest of integer sizes, every group
    written that has two rows or more has a cumulative size that does not
    exceed the limit in bytes. *)
Theorem main_size_bound (args : Args) (df : list Row) :
  Forall int_row df ->
  Forall (fun g => (2 <= length g)%nat ->
                   int_gt_float (total int_size g) (limit_of args) = false)
         (written_groups (out_files (run_main args (Ok df)))).
Proof.
  intros Hdf. rewrite (run_main_int _ _ Hdf). cbn [out_files].
  rewrite written_groups_cons.
  eapply List.Forall_impl; [|apply (greedy_groups_admissible _ _ _ _ (pack_spec _ _ df))].
  intros g Hg Hlen. exact (admissible_bound int_size (limit_of args) g Hg Hlen).
Qed.

Lemma main_size_bound_witness :
  Forall (fun g => (2 <= length g)%nat ->
                   int_gt_float (total int_size g) (limit_of ten_bytes) = false)
         (written_groups (out_files (run_main ten_bytes (Ok [sized 3; sized 8; sized 2])))).
Proof. apply main_size_bound. repeat constructor. Defined.

(** Claim C6. The oversized-singleton policy: on a manifest of integer
    sizes, a group written whose cumulative size exceeds the limit is a
    single row whose size exceeds the limit alone. *)
Theorem main_oversized_alone (args : Args) (df : list Row) (g : list Row) :
  Forall int_row df ->
  g ∈ written_groups (out_files (run_main args (Ok df))) ->
  int_gt_float (total int_size g) (limit_of args) = true ->
  exists row, g = [row] /\ int_gt_float (int_size row) (limit_of args) = true.
Proof.
  intros Hdf. rewrite (run_main_int _ _ Hdf). cbn [out_files].
  rewrite written_groups_cons. intros Hg.
  pose proof (greedy_groups_admissible _ _ _ _ (pack_spec int_size (limit_of args) df)) as Ha.
  rewrite List.Forall_forall in Ha. apply list_elem_of_In, Ha in Hg.
  exact (admissible_oversized int_size (limit_of args) g Hg).
Qed.

Lemma main_oversized_alone_witness :
  exists row, [sized 15] = [row] /\ int_gt_float (int_size row) (limit_of ten_bytes) = true.
Proof.
  apply (main_oversized_alone ten_bytes [sized 3; sized 15; sized 2]).
  - repeat constructor.
  - vm_compute. apply list_elem_of_In. simpl. tauto.
  - reflexivity.
Defined.

(** Claim C5. Greediness: on a manifest of integer sizes, a group is closed
    only because the first row of the next group would have exceeded the
    limit. *)
Theorem main_closes_late (args : Args) (df : list Row) (i : nat) (g g' : list Row) :
  Forall int_row df ->
  written_groups (out_files (run_main args (Ok df))) !! i = Some g ->
  written_groups (out_files (run_main args (Ok df))) !! S i = Some g' ->
  exists row t, g' = row :: t
    /\ int_gt_float (total int_size g + int_size row) (limit_of args) = true.
Proof.
  intros Hdf. rewrite (run_main_int _ _ Hdf). cbn [out_files].
  rewrite written_groups_cons. intros Hg Hg'.
  pose proof (greedy_groups_closes_late _ _ _ _ (pack_spec int_size (limit_of args) df)) as Hs.
  pose proof (Sorted_lookup _ _ _ _ _ Hs Hg Hg') as Hc.
  destruct g' as [|row t]; [done|]. by exists row, t.
Qed.

Lemma main_closes_late_witness :
  exists row t, [sized 8; sized 2] = row :: t
    /\ int_gt_float (total int_size [sized 3] + int_size row) (limit_of ten_bytes) = true.
Proof.
  apply (main_closes_late ten_bytes [sized 3; sized 8; sized 2] 0).
  - repeat constructor.
  - reflexivity.
  - reflexivity.
Defined.

(** Claim C4. On a manifest of integer sizes the groups written satisfy the
    declarative specification of the grouper. *)
Theorem main_satisfies_spec (args : Args) (df : list Row) :
  Forall int_row df ->
  greedy_groups int_size (limit_of args) df
    (written_groups (out_files (run_main args (Ok df)))).
Proof.
  intros Hdf. rewrite (run_main_int _ _ Hdf). cbn [out_files].
  rewrite written_groups_cons. apply pack_spec.
Qed.

Lemma main_satisfies_spec_witness :
  greedy_groups int_size (limit_of ten_bytes) [sized 5; sized 5; sized 5]
    (written_groups (out_files (run_main ten_bytes (Ok [sized 5; sized 5; sized 5])))).
Proof. apply main_satisfies_spec. repeat constructor. Defined.

(** Claim C10. A string in the size column: when the rows before it have
    integer sizes, the script raises [TypeError] at that row; the full list
    and the groups closed before it are on disk, the open group is not. *)
Theorem main_type_error (args : Args) (pre post : list Row) (row : Row) (s : string) :
  Forall int_row pre -> row_size row = VStr s ->
  out_exn (run_main args (Ok (pre ++ row :: post))) = Some TypeError
  /\ written_groups (out_files (run_main args (Ok (pre ++ row :: post))))
     = (scan int_size (limit_of args) [] 0 pre).1.
Proof.
  intros Hpre Hrow. rewrite (run_main_str _ _ _ _ _ Hpre Hrow). split; [done|].
  apply written_groups_cons.
Qed.

Lemma main_type_error_witness :
  out_exn (run_main ten_bytes (Ok ([sized 3; sized 8] ++ unsized :: [sized 2])))
  = Some TypeError
  /\ written_groups (out_files (run_main ten_bytes (Ok ([sized 3; sized 8] ++ unsized :: [sized 2]))))
     = (scan int_size (limit_of ten_bytes) [] 0 [sized 3; sized 8]).1.
Proof. apply (main_type_error ten_bytes _ _ _ "n/a"); [repeat constructor|reflexivity]. Defined.

(** Claim C33. A limit of zero is not rejected: on rows of positive integer
    size the script raises nothing and writes every row as a group of its
    own. *)
Theorem main_zero_limit (args : Args) (df : list Row) (s : bool) :
  limit_tb args = S754_zero s ->
  Forall positive_row df ->
  out_exn (run_main args (Ok df)) = None
  /\ written_groups (out_files (run_main args (Ok df))) = map (fun row => [row]) df.
Proof.
  intros Hz Hdf. destruct (natural_rows _ (positive_rows _ Hdf)) as [Hi Hn].
  split; [by rewrite (run_main_int _ _ Hi)|].
  rewrite (written_groups_int (limit_of args)) by done.
  apply pack_singletons; [done|]. rewrite (limit_of_zero _ _ Hz).
  eapply List.Forall_impl; [|exact Hdf]. intros r [_ Hr].
  exact (proj2 (Z.ltb_lt 0 (int_size r)) Hr).
Qed.

Lemma main_zero_limit_witness :
  out_exn (run_main {| results := "merged.csv"; limit_tb := S754_zero false; prefix := "out" |}
             (Ok [sized 3; sized 8; sized 2])) = None
  /\ written_groups
       (out_files (run_main {| results := "merged.csv"; limit_tb := S754_zero false;
                               prefix := "out" |}
                     (Ok [sized 3; sized 8; sized 2])))
     = map (fun row => [row]) [sized 3; sized 8; sized 2].
Proof.
  apply (main_zero_limit _ _ false); [reflexivity|].
  repeat constructor.
Defined.

(** A limit that is not a number ([--limit_tb nan]) or is
    infinite ([inf]) is not rejected: on integer sizes the script raises
    nothing and writes the whole manifest as one group. *)
Theorem main_unbounded_limit (args : Args) (df : list Row) :
  limit_tb args = S754_nan \/ limit_tb args = S754_infinity false ->
  Forall int_row df -> df <> [] ->
  out_exn (run_main args (Ok df)) = None
  /\ written_groups (out_files (run_main args (Ok df))) = [df].
Proof.
  intros Hlim Hdf Hne. split; [by rewrite (run_main_int _ _ Hdf)|].
  rewrite (written_groups_int (limit_of args)) by done.
  apply pack_unbounded; [|done]. intros z.
  destruct Hlim as [H|H]; [rewrite (limit_of_nan _ H)|rewrite (limit_of_inf _ _ H)]; done.
Qed.

Lemma main_unbounded_limit_witness :
  out_exn (run_main {| results := "merged.csv"; limit_tb := S754_nan; prefix := "out" |}
             (Ok [sized 3; sized 8; sized 2])) = None
  /\ written_groups
       (out_files (run_main {| results := "merged.csv"; limit_tb := S754_nan; prefix := "out" |}
                     (Ok [sized 3; sized 8; sized 2])))
     = [[sized 3; sized 8; sized 2]].
Proof.
  apply main_unbounded_limit; [by left|repeat constructor|done].
Defined.

(** A column of floats: when every size is a float (which is
    how a column with a missing value is read), the script raises nothing,
    whatever the floats and the limit are, and the groups it writes are the
    manifest in order. *)
Theorem main_float_sizes (args : Args) (df : list Row) :
  Forall float_row df ->
  out_exn (run_main args (Ok df)) = None
  /\ concat (written_groups (out_files (run_main args (Ok df)))) = df.
Proof.
  intros Hdf.
  assert (out_exn (run_main args (Ok df)) = None) as Hok; [|by split; [|apply run_main_partition]].
  rewrite run_main_unfold.
  by destruct (for_each_float (limit_of args) (prefix args) df
                 (init_state [(full_list_name (prefix args), df)]) (or_introl eq_refl) Hdf)
    as [st' ->].
Qed.

Lemma main_float_sizes_witness :
  out_exn (run_main ten_bytes (Ok [sized_float (S754_infinity false); missing])) = None
  /\ concat (written_groups (out_files
       (run_main ten_bytes (Ok [sized_float (S754_infinity false); missing]))))
     = [sized_float (S754_infinity false); missing].
Proof. apply main_float_sizes. repeat constructor. Defined.

(** Claim C7. Optimality: on non-negative integer sizes, no grouping of
    the manifest in its order whose groups are admissible (a group is a
    single row, or every row after its first joined without exceeding the
    limit) has fewer groups than the script writes. *)
Theorem main_minimal_groups (args : Args) (df : list Row) (gs : list (list Row)) :
  Forall natural_row df -> concat gs = df ->
  Forall (admissible int_size (limit_of args)) gs ->
  (length (written_groups (out_files (run_main args (Ok df)))) <= length gs)%nat.
Proof.
  intros Hdf Hc Ha. apply natural_rows in Hdf as [Hi Hn].
  rewrite (run_main_int _ _ Hi). cbn [out_files]. rewrite written_groups_cons.
  by apply pack_minimal.
Qed.

Lemma main_minimal_groups_witness :
  (length (written_groups (out_files (run_main ten_bytes (Ok [sized 3; sized 8; sized 2]))))
   <= length [[sized 3]; [sized 8]; [sized 2]])%nat.
Proof.
  apply main_minimal_groups; [|reflexivity|repeat constructor].
  repeat constructor; done.
Defined.

(** The next-fit bound: on non-negative integer sizes and a
    finite limit of integer part [l], any two consecutive groups weigh more
    than [l] together, so that the manifest weighs at least [l + 1] for
    every two groups written. *)
Theorem main_group_count_bound (args : Args) (df : list Row) (l : Z) :
  Forall natural_row df ->
  float_floor (limit_of args) = Some l ->
  (l + 1) * Z.of_nat (length (written_groups (out_files (run_main args (Ok df)))) / 2)
  <= total int_size df.
Proof.
  intros Hdf Hl. apply natural_rows in Hdf as [Hi Hn].
  rewrite (written_groups_int l) by (done || intros z; by apply int_gt_float_floor).
  by apply (greedy_groups_count int_size l df), pack_spec.
Qed.

Lemma main_group_count_bound_witness :
  (10 + 1) * Z.of_nat (length (written_groups (out_files
     (run_main ten_bytes (Ok [sized 6; sized 6; sized 6; sized 6])))) / 2)
  <= total int_size [sized 6; sized 6; sized 6; sized 6].
Proof.
  apply main_group_count_bound; [|reflexivity].
  repeat constructor; done.
Defined.

(** Claim C32. Next-fit against any packing: on non-negative integer sizes
    and a finite limit of integer part [l], bins that hold the rows of
    the manifest in any order, none of them weighing more than [l], are
    at least half as many as the groups the script writes, less one: the
    script never writes more than twice the groups of the best packing,
    and one. *)
Theorem main_twice_optimal (args : Args) (df : list Row) (l : Z)
    (bins : list (list Row)) :
  Forall natural_row df ->
  float_floor (limit_of args) = Some l ->
  concat bins ≡ₚ df ->
  Forall (fun b => total int_size b <= l) bins ->
  (length (written_groups (out_files (run_main args (Ok df)))) <= 2 * length bins + 1)%nat.
Proof.
  intros Hdf Hl Hperm Hbins. apply natural_rows in Hdf as [Hi Hn].
  rewrite (written_groups_int l) by (done || intros z; by apply int_gt_float_floor).
  by apply pack_twice_optimal.
Qed.

Lemma main_twice_optimal_witness :
  (length (written_groups (out_files
     (run_main ten_bytes (Ok [sized 3; sized 8; sized 2; sized 7]))))
   <= 2 * length [[sized 3; sized 7]; [sized 8; sized 2]] + 1)%nat.
Proof.
  apply (main_twice_optimal ten_bytes _ 10); [|reflexivity| |].
  - repeat constructor; done.
  - simpl. constructor. apply Permutation_cons_append.
  - repeat constructor; vm_compute; discriminate.
Defined.

(** A manifest of non-negative integer sizes whose cumulative size
    does not exceed the limit is written as one group. *)
Theorem main_fits_one_group (args : Args) (df : list Row) (l : Z) :
  Forall natural_row df -> df <> [] ->
  float_floor (limit_of args) = Some l ->
  total int_size df <= l ->
  written_groups (out_files (run_main args (Ok df))) = [df].
Proof.
  intros Hdf Hne Hl Ht. apply natural_rows in Hdf as [Hi Hn].
  rewrite (written_groups_int l) by (done || intros z; by apply int_gt_float_floor).
  by apply pack_fits_all.
Qed.

Lemma main_fits_one_group_witness :
  written_groups (out_files (run_main ten_bytes (Ok [sized 3; sized 5; sized 2])))
  = [[sized 3; sized 5; sized 2]].
Proof.
  apply (main_fits_one_group _ _ 10); [|done|reflexivity|vm_compute; discriminate].
  repeat constructor; done.
Defined.

(** A missing size is not rejected: when the first row of a
    manifest of float sizes has no size (NaN), the script raises nothing and
    writes the whole manifest as one group, whatever the limit and the other
    sizes are. *)
Theorem main_missing_size (args : Args) (row : Row) (df : list Row) :
  row_size row = VFloat S754_nan -> Forall float_row df ->
  run_main args (Ok (row :: df))
  = {| out_files := [(full_list_name (prefix args), row :: df);
                     (output_name (prefix args) 1, row :: df)];
       out_exn := None |}.
Proof.
  intros Hrow Hdf. rewrite run_main_unfold, for_each_cons, step_unfold.
  cbn -[limit_of py_add]. rewrite Hrow, py_add_zero_nan, py_gt_nan.
  cbn -[limit_of py_add]. rewrite py_add_zero_nan.
  by rewrite for_each_nan.
Qed.

Lemma main_missing_size_witness :
  run_main ten_bytes (Ok (missing :: [sized_float (S754_infinity false); missing]))
  = {| out_files :=
         [(full_list_name (prefix ten_bytes),
           missing :: [sized_float (S754_infinity false); missing]);
          (output_name (prefix ten_bytes) 1,
           missing :: [sized_float (S754_infinity false); missing])];
       out_exn := None |}.
Proof. apply main_missing_size; [reflexivity|repeat constructor]. Defined.

