(* ===== verification/FloatSizes.v ===== *)
(** * FloatSizes: the grouper on a column of floats

    When [read_csv] reads the [Size] column as [float64], the loop of
    [data_grouper.py] adds and compares floats. This file follows the
    script on such a column. While the sizes are whole numbers and their
    sum stays below [2^53] the sums are exact ([FloatWhole]) and the
    script writes the partition of the specification, file for file what
    it writes on the integers. A missing size is NaN: it joins the open
    group and takes every later row with it. From [2^53] on the sum is
    rounded and a group can be over the limit. *)

From S2P Require Import Prelude PyFloat LimitExact PyValue FloatWhole Naming GrouperSpec Grouper.
From S2P Require Import GrouperCorrect.

#[local] Open Scope Z_scope.

(** ** Definitions *)

(** The size of a row of a float column as a whole number: the integer
    part of the cell (0 for NaN and the infinities). *)
Definition float_size (row : Row) : Z :=
  match row_size row with
  | VFloat f => default 0 (float_floor f)
  | _ => 0
  end.

(** A row whose size is the float of a whole number of bytes. *)
Definition whole_row (row : Row) : Prop :=
  0 <= float_size row /\ row_size row = VFloat (whole (float_size row)).

#[export] Instance whole_row_dec (row : Row) : Decision (whole_row row).
Proof. unfold whole_row. apply _. Defined.

(** [current_size] beside the open group on a float column: the integer
    zero of lines 25 and 36 while the group is empty, the float of the
    sum afterwards. *)
Definition float_acc (g : list Row) : pyval :=
  match g with
  | [] => VInt 0
  | _ => VFloat (whole (total float_size g))
  end.

(** The state the loop reaches from [st] on the rows [df]. *)
Definition float_scanned (prefix : string) (limit : float) (st : state) (df : list Row)
    : state :=
  let '(closed, open) :=
    scan float_size limit (current_group st) (total float_size (current_group st)) df in
  {| current_group := open;
     current_size := float_acc open;
     group_count := group_count st + Z.of_nat (length closed);
     files := files st ++ group_files prefix (group_count st) closed |}.

(** A row of an integer column as [read_csv] gives it when the column is
    read as floats, and the files and the outcome of a run with every row
    so changed. *)
Definition as_float (row : Row) : Row :=
  {| row_path := row_path row; row_size := VFloat (whole (int_size row));
     row_md5 := row_md5 row |}.

Definition file_as_float (f : file) : file := (f.1, as_float <$> f.2).

Definition files_as_float (fs : list file) : list file := file_as_float <$> fs.

Definition outcome_as_float (o : outcome) : outcome :=
  {| out_files := files_as_float (out_files o); out_exn := out_exn o |}.

(** Concrete inputs: a row of a given whole size in a float column, and a
    command line whose limit is [2^53 + 2] bytes, the least limit above
    [2^53] that binary64 has. *)
Definition whole_sized (n : Z) : Row :=
  {| row_path := VStr "/data/e.fq.gz"; row_size := VFloat (whole n);
     row_md5 := VStr "d41d8cd98f00b204e9800998ecf8427e" |}.

Definition eight_pib : Args :=
  {| results := "merged.csv"; limit_tb := S754_finite false 4503599627370497 (-39);
     prefix := "result" |}.

(** ** The loop on whole sizes *)

Lemma whole_rows_nonneg (df : list Row) :
  Forall whole_row df -> Forall (nonneg float_size) df.
Proof. intros H. eapply List.Forall_impl; [|exact H]. by intros r []. Qed.

Lemma float_acc_snoc (g : list Row) (row : Row) :
  float_acc (g ++ [row]) = VFloat (whole (total float_size g + float_size row)).
Proof. rewrite <-total_snoc. by destruct g. Qed.

(** The sum of lines 32 and 39 on a whole size. *)
Lemma py_add_acc (g : list Row) (row : Row) :
  Forall whole_row g -> whole_row row ->
  total float_size g + float_size row < 2 ^ 53 ->
  py_add (float_acc g) (row_size row)
  = Ok (VFloat (whole (total float_size g + float_size row))).
Proof.
  intros Hg [Hrow ->] Hb. pose proof (total_nonneg _ _ (whole_rows_nonneg _ Hg)) as Ht.
  destruct g as [|r g].
  - rewrite total_nil in *. cbn [float_acc]. rewrite py_add_zero_whole by lia.
    by rewrite Z.add_0_l.
  - by apply py_add_whole.
Qed.

Lemma step_whole (limit : float) (prefix : string) (row : Row) (st : state) :
  valid_binary prec emax limit = true ->
  Forall whole_row (current_group st) -> whole_row row ->
  total float_size (current_group st) + float_size row < 2 ^ 53 ->
  current_size st = float_acc (current_group st) ->
  step limit prefix row st =
  (if int_gt_float (total float_size (current_group st) + float_size row) limit
      && truthy (current_group st)
   then {| current_group := [row]; current_size := float_acc [row];
           group_count := group_count st + 1;
           files := files st ++ [(output_name prefix (group_count st), current_group st)] |}
   else {| current_group := current_group st ++ [row];
           current_size := float_acc (current_group st ++ [row]);
           group_count := group_count st; files := files st |}, Ok tt).
Proof.
  intros Hv Hg Hrow Hb Hs.
  pose proof (total_nonneg _ _ (whole_rows_nonneg _ Hg)) as Ht.
  pose proof Hrow as [Hr0 _].
  rewrite step_unfold, Hs, py_add_acc, py_gt_whole by (done || lia).
  destruct (int_gt_float _ limit && truthy (current_group st)); cbn zeta.
  - cbn [close_group current_size current_group app].
    change (VInt 0) with (float_acc []).
    rewrite (py_add_acc [] row) by (rewrite ?total_nil; done || lia).
    unfold with_size, with_group. simpl. by rewrite total_cons, !total_nil, Z.add_0_r, Z.add_0_l.
  - rewrite Hs, py_add_acc by done. by rewrite float_acc_snoc.
Qed.

Lemma float_scanned_nil (prefix : string) (limit : float) (st : state) :
  current_size st = float_acc (current_group st) ->
  float_scanned prefix limit st [] = st.
Proof.
  intros Hs. unfold float_scanned. simpl. rewrite <-Hs, Z.add_0_r, app_nil_r.
  by destruct st.
Qed.

Lemma float_scanned_cons (prefix : string) (limit : float) (st : state) (row : Row)
    (df : list Row) :
  float_scanned prefix limit st (row :: df) =
  float_scanned prefix limit
    (if int_gt_float (total float_size (current_group st) + float_size row) limit
        && truthy (current_group st)
     then {| current_group := [row]; current_size := float_acc [row];
             group_count := group_count st + 1;
             files := files st ++ [(output_name prefix (group_count st), current_group st)] |}
     else {| current_group := current_group st ++ [row];
             current_size := float_acc (current_group st ++ [row]);
             group_count := group_count st; files := files st |}) df.
Proof.
  unfold float_scanned. simpl.
  destruct (int_gt_float _ limit && truthy (current_group st)); simpl.
  - replace (total float_size [row]) with (0 + float_size row)
      by (rewrite total_cons, total_nil; lia).
    destruct (scan float_size limit [row] (0 + float_size row) df) as [closed open].
    simpl. rewrite group_files_cons, <-app_assoc. simpl. f_equal. lia.
  - by rewrite total_snoc.
Qed.

(** The loop on a column of whole floats is the forward pass of the
    specification on their values. *)
Lemma for_each_whole (limit : float) (prefix : string) (df : list Row) (st : state) :
  valid_binary prec emax limit = true ->
  Forall whole_row df -> Forall whole_row (current_group st) ->
  total float_size (current_group st) + total float_size df < 2 ^ 53 ->
  current_size st = float_acc (current_group st) ->
  for_each df (step limit prefix) st = (float_scanned prefix limit st df, Ok tt).
Proof.
  intros Hv Hdf. revert st. induction Hdf as [|row df Hrow Hdf IH]; intros st Hg Hb Hs.
  - by rewrite float_scanned_nil.
  - rewrite total_cons in Hb.
    pose proof (total_nonneg _ _ (whole_rows_nonneg _ Hg)) as Ht.
    pose proof (total_nonneg _ _ (whole_rows_nonneg _ Hdf)) as Htd.
    pose proof Hrow as [Hr0 _].
    rewrite for_each_cons, step_whole, float_scanned_cons by (done || lia).
    destruct (int_gt_float _ limit && truthy (current_group st)); apply IH; simpl.
    + by constructor.
    + rewrite total_cons, total_nil. lia.
    + done.
    + by apply Forall_app; split; [|constructor].
    + rewrite total_snoc. lia.
    + done.
Qed.

Lemma limit_of_valid (args : Args) :
  valid_binary prec emax (limit_tb args) = true ->
  valid_binary prec emax (limit_of args) = true.
Proof.
  intros Hv. pose proof (limit_bytes_scale40 _ Hv) as H. rewrite limit_bytes_eq in H.
  injection H as H. unfold limit_of. rewrite H. by apply scale40_valid.
Qed.

(** The script on a column of whole floats: the full list, then the
    reference partition of the values, and no exception. *)
Lemma run_main_whole (args : Args) (df : list Row) :
  valid_binary prec emax (limit_tb args) = true ->
  Forall whole_row df -> total float_size df < 2 ^ 53 ->
  run_main args (Ok df) =
  {| out_files := (full_list_name (prefix args), df)
                  :: group_files (prefix args) 1 (pack float_size (limit_of args) df);
     out_exn := None |}.
Proof.
  intros Hv Hdf Hb.
  rewrite run_main_unfold, for_each_whole by (done || by apply limit_of_valid).
  unfold float_scanned, pack, flush, finish; cbn -[limit_of].
  destruct (scan float_size (limit_of args) [] 0 df) as [closed open]; cbn.
  destruct (truthy open); cbn; [|done].
  by rewrite group_files_snoc.
Qed.

(** ** A missing size after whole sizes *)

Lemma py_add_nan_r (a : pyval) :
  float_or_zero a -> py_add a (VFloat S754_nan) = Ok (VFloat S754_nan).
Proof. intros [->|[f ->]]; [done|]. by destruct f as [[]|[]| |[] m e]. Qed.

Lemma float_acc_cases (g : list Row) : float_or_zero (float_acc g).
Proof. destruct g; [by left|right; eauto]. Qed.

Lemma float_scanned_size (prefix : string) (limit : float) (st : state) (df : list Row) :
  float_or_zero (current_size (float_scanned prefix limit st df)).
Proof. unfold float_scanned. case_match. apply float_acc_cases. Qed.

(** The row whose size is missing joins the open group, whatever the
    group holds, and leaves NaN in [current_size]. *)
Lemma step_missing (limit : float) (prefix : string) (row : Row) (st : state) :
  float_or_zero (current_size st) -> row_size row = VFloat S754_nan ->
  step limit prefix row st
  = (with_size (VFloat S754_nan) (with_group (current_group st ++ [row]) st), Ok tt).
Proof.
  intros Hs Hrow. rewrite step_unfold, Hrow, py_add_nan_r, py_gt_nan by done.
  cbn -[py_add]. by rewrite py_add_nan_r.
Qed.

Lemma run_main_missing (args : Args) (pre post : list Row) (row : Row) :
  valid_binary prec emax (limit_tb args) = true ->
  Forall whole_row pre -> total float_size pre < 2 ^ 53 ->
  row_size row = VFloat S754_nan -> Forall float_row post ->
  run_main args (Ok (pre ++ row :: post)) =
  {| out_files :=
       (full_list_name (prefix args), pre ++ row :: post)
       :: group_files (prefix args) 1
            ((scan float_size (limit_of args) [] 0 pre).1
             ++ [(scan float_size (limit_of args) [] 0 pre).2 ++ row :: post]);
     out_exn := None |}.
Proof.
  intros Hv Hpre Hb Hrow Hpost.
  rewrite run_main_unfold, for_each_app, for_each_whole by (done || by apply limit_of_valid).
  rewrite for_each_cons, step_missing; [|apply float_scanned_size|done].
  rewrite for_each_nan, group_files_snoc by done.
  unfold float_scanned, finish; cbn -[limit_of group_files].
  destruct (scan float_size (limit_of args) [] 0 pre) as [closed open]; cbn.
  rewrite <-app_assoc. cbn [app].
  by replace (truthy (open ++ row :: post)) with true by (by destruct open).
Qed.

(** ** The same column as integers *)

Lemma float_size_as_float (row : Row) :
  0 <= int_size row < 2 ^ 53 -> float_size (as_float row) = int_size row.
Proof. intros Hr. unfold float_size. simpl. by rewrite float_floor_whole. Qed.

Lemma as_float_whole (row : Row) :
  0 <= int_size row < 2 ^ 53 -> whole_row (as_float row).
Proof. intros Hr. unfold whole_row. rewrite float_size_as_float by done. split; [lia|done]. Qed.

Lemma as_float_sizes (df : list Row) :
  Forall (nonneg int_size) df -> total int_size df < 2 ^ 53 ->
  Forall (fun row => float_size (as_float row) = int_size row) df.
Proof.
  intros Hdf%total_bounds Hb. eapply List.Forall_impl; [|exact Hdf].
  intros row Hrow. simpl in Hrow. apply float_size_as_float. lia.
Qed.

Lemma as_float_rows (df : list Row) :
  Forall (nonneg int_size) df -> total int_size df < 2 ^ 53 ->
  Forall whole_row (as_float <$> df).
Proof.
  intros Hdf%total_bounds Hb. apply Forall_fmap. eapply List.Forall_impl; [|exact Hdf].
  intros row Hrow. simpl in Hrow. apply as_float_whole. lia.
Qed.

Lemma as_float_total (df : list Row) :
  Forall (fun row => float_size (as_float row) = int_size row) df ->
  total float_size (as_float <$> df) = total int_size df.
Proof.
  induction 1 as [|row df Hrow _ IH]; [done|].
  by rewrite fmap_cons, !total_cons, Hrow, IH.
Qed.

Lemma group_files_fmap (prefix : string) (first : Z) (gs : list (list Row)) :
  group_files prefix first (fmap (M := list) as_float <$> gs)
  = files_as_float (group_files prefix first gs).
Proof.
  unfold group_files, files_as_float. by rewrite imap_fmap, fmap_imap.
Qed.

Lemma run_main_as_float (args : Args) (df : list Row) :
  valid_binary prec emax (limit_tb args) = true ->
  Forall natural_row df -> total int_size df < 2 ^ 53 ->
  run_main args (Ok (as_float <$> df)) = outcome_as_float (run_main args (Ok df)).
Proof.
  intros Hv [Hi Hn]%natural_rows Hb.
  pose proof (as_float_sizes df Hn Hb) as Hs.
  rewrite (run_main_int _ _ Hi), (run_main_whole _ _ Hv (as_float_rows df Hn Hb))
    by (by rewrite as_float_total).
  unfold outcome_as_float. cbn [out_files out_exn]. unfold files_as_float.
  rewrite fmap_cons. cbn [file_as_float fst snd].
  by rewrite (pack_fmap as_float int_size), group_files_fmap.
Qed.

(** ** Sums from [2^53] on *)

(** One more byte leaves [2^53] as it is, and [2^53] does not exceed the
    limit of [eight_pib]. *)
Lemma py_add_stuck :
  py_add (VFloat (whole (2 ^ 53))) (VFloat (whole 1)) = Ok (VFloat (whole (2 ^ 53))).
Proof. by vm_compute. Qed.

Lemma py_add_zero_stuck :
  py_add (VInt 0) (VFloat (whole (2 ^ 53))) = Ok (VFloat (whole (2 ^ 53))).
Proof. by vm_compute. Qed.

Lemma py_gt_stuck : py_gt (VFloat (whole (2 ^ 53))) (limit_of eight_pib) = Ok false.
Proof. by vm_compute. Qed.

Lemma step_stuck (row : Row) (st : state) :
  current_size st = VFloat (whole (2 ^ 53)) -> row_size row = VFloat (whole 1) ->
  step (limit_of eight_pib) (prefix eight_pib) row st
  = (with_group (current_group st ++ [row]) st, Ok tt).
Proof.
  intros Hs Hrow. rewrite step_unfold, Hs, Hrow, py_add_stuck, py_gt_stuck.
  cbn [andb]. cbv zeta. rewrite Hs, py_add_stuck.
  unfold with_size, with_group. simpl. by rewrite Hs.
Qed.

Lemma for_each_stuck (n : nat) (st : state) :
  current_size st = VFloat (whole (2 ^ 53)) ->
  for_each (replicate n (as_float (sized 1))) (step (limit_of eight_pib) (prefix eight_pib)) st
  = (with_group (current_group st ++ replicate n (as_float (sized 1))) st, Ok tt).
Proof.
  revert st. induction n as [|n IH]; intros st Hs.
  - simpl. rewrite app_nil_r. by destruct st.
  - cbn [replicate]. rewrite for_each_cons, step_stuck, IH by done.
    unfold with_group. simpl. by rewrite <-app_assoc.
Qed.

Lemma step_first_stuck (row : Row) (st : state) :
  current_size st = VInt 0 -> row_size row = VFloat (whole (2 ^ 53)) ->
  step (limit_of eight_pib) (prefix eight_pib) row st
  = (with_size (VFloat (whole (2 ^ 53))) (with_group (current_group st ++ [row]) st),
     Ok tt).
Proof.
  intros Hs Hrow. rewrite step_unfold, Hs, Hrow, py_add_zero_stuck, py_gt_stuck.
  cbn [andb]. cbv zeta. by rewrite Hs, py_add_zero_stuck.
Qed.

Lemma run_main_stuck (n : nat) :
  run_main eight_pib (Ok (as_float <$> sized (2 ^ 53) :: replicate n (sized 1)))
  = {| out_files :=
         [(full_list_name (prefix eight_pib),
           as_float <$> sized (2 ^ 53) :: replicate n (sized 1));
          (output_name (prefix eight_pib) 1,
           as_float <$> sized (2 ^ 53) :: replicate n (sized 1))];
       out_exn := None |}.
Proof.
  rewrite run_main_unfold, fmap_cons, fmap_replicate, for_each_cons.
  by rewrite step_first_stuck, for_each_stuck.
Qed.

Lemma total_stuck (n : nat) :
  total int_size (sized (2 ^ 53) :: replicate n (sized 1)) = 2 ^ 53 + Z.of_nat n.
Proof.
  rewrite total_cons. f_equal. induction n as [|n IH]; [done|].
  cbn [replicate]. rewrite total_cons, IH, Nat2Z.inj_succ.
  change (int_size (sized 1)) with 1. lia.
Qed.

Lemma eight_pib_exceeded (z : Z) :
  int_gt_float (2 ^ 53 + z) (limit_of eight_pib) = (2 <? z).
Proof.
  change (limit_of eight_pib) with (S754_finite false 4503599627370497 1).
  unfold int_gt_float, dyadic_ltb. cbn [cond_Zopp Z.leb Z.compare].
  destruct (Z.ltb_spec 2 z); [apply Z.ltb_lt|apply Z.ltb_ge]; lia.
Qed.

(** ** Properties of the script on a column of floats *)

(** Claim C25. A column of floats groups as the same column of integers
    does: on non-negative integer sizes whose sum is below [2^53], with a
    well-formed limit, the script run on the manifest with every size
    read as a float writes the same files under the same names, with the
    same rows in the same groups, and ends in the same way as the script
    run on the integers. *)
Theorem float_column_as_int (args : Args) (df : list Row) :
  valid_binary prec emax (limit_tb args) = true ->
  Forall natural_row df -> total int_size df < 2 ^ 53 ->
  run_main args (Ok (as_float <$> df)) = outcome_as_float (run_main args (Ok df)).
Proof. apply run_main_as_float. Qed.

Lemma float_column_as_int_witness :
  run_main ten_bytes (Ok (as_float <$> [sized 3; sized 8; sized 2]))
  = outcome_as_float (run_main ten_bytes (Ok [sized 3; sized 8; sized 2])).
Proof.
  apply float_column_as_int; [reflexivity| |reflexivity].
  repeat constructor; discriminate.
Defined.

(** Claim C35. A missing size anywhere in the manifest ends the grouping:
    when the rows before it hold whole sizes in a column of floats, they
    are grouped as the limit asks, and the row whose size is missing, with
    every row after it, joins the group that was open, which is written
    last whatever the sizes in it add up to; no exception is raised. *)
Theorem missing_size_absorbs (args : Args) (pre post : list Row) (row : Row) :
  valid_binary prec emax (limit_tb args) = true ->
  Forall whole_row pre -> total float_size pre < 2 ^ 53 ->
  row_size row = VFloat S754_nan -> Forall float_row post ->
  run_main args (Ok (pre ++ row :: post)) =
  {| out_files :=
       (full_list_name (prefix args), pre ++ row :: post)
       :: group_files (prefix args) 1
            ((scan float_size (limit_of args) [] 0 pre).1
             ++ [(scan float_size (limit_of args) [] 0 pre).2 ++ row :: post]);
     out_exn := None |}.
Proof. apply run_main_missing. Qed.

Lemma missing_size_absorbs_witness :
  run_main ten_bytes
    (Ok ([whole_sized 3; whole_sized 8; whole_sized 2] ++ missing :: [whole_sized 100])) =
  {| out_files :=
       (full_list_name (prefix ten_bytes),
        [whole_sized 3; whole_sized 8; whole_sized 2] ++ missing :: [whole_sized 100])
       :: group_files (prefix ten_bytes) 1
            ((scan float_size (limit_of ten_bytes) [] 0
                [whole_sized 3; whole_sized 8; whole_sized 2]).1
             ++ [(scan float_size (limit_of ten_bytes) [] 0
                    [whole_sized 3; whole_sized 8; whole_sized 2]).2
                 ++ missing :: [whole_sized 100]]);
     out_exn := None |}.
Proof.
  apply missing_size_absorbs; [reflexivity| |reflexivity|reflexivity|by repeat constructor].
  repeat constructor; discriminate.
Defined.

(** The example of the rounding with four rows, beside the integer
    column, which closes the group before the fourth row. *)
Example rounding_at_four_rows :
  written_groups (out_files (run_main eight_pib
    (Ok (as_float <$> [sized (2 ^ 53); sized 1; sized 1; sized 1]))))
  = [as_float <$> [sized (2 ^ 53); sized 1; sized 1; sized 1]]
  /\ written_groups (out_files (run_main eight_pib
       (Ok [sized (2 ^ 53); sized 1; sized 1; sized 1])))
     = [[sized (2 ^ 53); sized 1; sized 1]; [sized 1]].
Proof. by vm_compute. Qed.

(** Claim C36. From [2^53] on the sum of a column of floats is rounded, and
    the size bound is lost by any amount: on a row of size [2^53]
    followed by [n] rows of one byte, under the limit [2^53 + 2], the
    float column adds each byte to [2^53] and gets [2^53] again, never
    exceeds the limit, and writes all the rows as one group, whose sizes
    add up to [2^53 + n]: over the limit as soon as [n] is more than
    two. *)
Theorem float_column_rounds (n : nat) :
  written_groups (out_files (run_main eight_pib
    (Ok (as_float <$> sized (2 ^ 53) :: replicate n (sized 1)))))
  = [as_float <$> sized (2 ^ 53) :: replicate n (sized 1)]
  /\ total int_size (sized (2 ^ 53) :: replicate n (sized 1)) = 2 ^ 53 + Z.of_nat n
  /\ int_gt_float (2 ^ 53 + Z.of_nat n) (limit_of eight_pib) = (2 <? Z.of_nat n).
Proof.
  split; [by rewrite run_main_stuck|split; [apply total_stuck|apply eight_pib_exceeded]].
Qed.
