(* ===== verification/GrouperTyping.v ===== *)
(** * GrouperTyping: the type of the size column decides how the script ends

    A column of a manifest read in one piece holds cells of one Python
    type: [int] when every size is an integer, [float] as soon as one is
    missing or fractional, [str] as soon as one is not a number. This file
    gives the loop of [data_grouper.py] a type discipline: the type of
    [current_size] follows from the type of the column ([size_typed]), an
    iteration on a cell of the column's type preserves it, and an
    iteration on a number cannot raise. It follows that the script ends
    without exception on the two numeric types, and with [TypeError] at the
    first row of a non-empty column of strings. *)

From S2P Require Import Prelude PyFloat PyValue Naming GrouperSpec Grouper GrouperCorrect.

#[local] Open Scope Z_scope.

(** ** Definitions *)

(** The Python types of a cell. *)
Inductive celltype : Type :=
| TInt
| TFloat
| TStr.

#[export] Instance celltype_eq_dec : EqDecision celltype.
Proof. solve_decision. Defined.

(** [type(v)] *)
Definition typeof (v : pyval) : celltype :=
  match v with
  | VInt _ => TInt
  | VFloat _ => TFloat
  | VStr _ => TStr
  end.

(** A manifest whose size column has the type [ty]. *)
Definition typed (ty : celltype) (df : list Row) : Prop :=
  Forall (fun row => typeof (row_size row) = ty) df.

#[export] Instance typed_dec (ty : celltype) (df : list Row) : Decision (typed ty df).
Proof. unfold typed. apply _. Defined.

(** The values [current_size] takes in the loop over a column of type
    [ty]: an [int] over integers; the integer zero of lines 25 and 36 or a
    [float] over floats; over strings, the zero of line 25, since line 39
    is never reached. *)
Definition size_typed (ty : celltype) (v : pyval) : Prop :=
  match ty with
  | TInt => is_int v = true
  | TFloat => float_or_zero v
  | TStr => v = VInt 0
  end.

(** How the script ends on a column of type [ty]. *)
Definition expected_exn (ty : celltype) (df : list Row) : option pyexn :=
  match ty, df with
  | TStr, _ :: _ => Some TypeError
  | _, _ => None
  end.

(** ** One iteration *)

Lemma typeof_int (v : pyval) : typeof v = TInt -> exists z, v = VInt z.
Proof. destruct v; try done. by eexists. Qed.

Lemma typeof_str (v : pyval) : typeof v = TStr -> exists s, v = VStr s.
Proof. destruct v; try done. by eexists. Qed.

Lemma typed_int (df : list Row) : typed TInt df -> Forall int_row df.
Proof.
  intros H. eapply List.Forall_impl; [|exact H].
  intros row [z Hz]%typeof_int. unfold int_row. by rewrite Hz.
Qed.

Lemma typeof_float_row (row : Row) : typeof (row_size row) = TFloat -> float_row row.
Proof. unfold float_row. by destruct (row_size row). Qed.

Lemma typed_float (df : list Row) : typed TFloat df -> Forall float_row df.
Proof.
  intros H. eapply List.Forall_impl; [|exact H]. apply typeof_float_row.
Qed.

Lemma size_typed_number (ty : celltype) (v : pyval) :
  size_typed ty v -> is_number v = true.
Proof.
  destruct ty; simpl.
  - by destruct v.
  - by intros [->|[f ->]].
  - by intros ->.
Qed.

Lemma size_typed_init (ty : celltype) : size_typed ty (VInt 0).
Proof. destruct ty; simpl; [done|by left|done]. Qed.

(** Preservation: an iteration that ends leaves [current_size] in the type
    of the column. *)
Lemma step_typed (ty : celltype) (limit : float) (prefix : string) (row : Row)
    (st st' : state) :
  size_typed ty (current_size st) -> typeof (row_size row) = ty ->
  step limit prefix row st = (st', Ok tt) ->
  size_typed ty (current_size st').
Proof.
  intros Hs Hrow. destruct ty; simpl in Hs.
  - apply typeof_int in Hrow as [s Hrow].
    destruct (current_size st) as [c| |] eqn:Hc; try done.
    rewrite (step_int _ _ _ _ c s Hc Hrow). intros [= <-]. simpl.
    by destruct (_ && _).
  - destruct (step_float limit prefix row st Hs (typeof_float_row _ Hrow))
      as (st1 & -> & H1).
    by intros [= <-].
  - apply typeof_str in Hrow as [s Hrow].
    rewrite (step_str _ _ _ _ s); [done|by rewrite Hs|done].
Qed.

(** Progress: an iteration on a number ends. *)
Lemma step_number_ok (ty : celltype) (limit : float) (prefix : string) (row : Row)
    (st : state) :
  ty <> TStr ->
  size_typed ty (current_size st) -> typeof (row_size row) = ty ->
  exists st', step limit prefix row st = (st', Ok tt).
Proof.
  intros Hty Hs Hrow. destruct ty; [| |done]; simpl in Hs.
  - apply typeof_int in Hrow as [s Hrow].
    destruct (current_size st) as [c| |] eqn:Hc; try done.
    rewrite (step_int _ _ _ _ c s Hc Hrow). by eexists.
  - destruct (step_float limit prefix row st Hs (typeof_float_row _ Hrow))
      as (st1 & -> & _).
    by eexists.
Qed.

(** ** The loop *)

Lemma reachable_typed (ty : celltype) (limit : float) (prefix : string)
    (fs : list file) (rows : list Row) (st : state) :
  reachable limit prefix fs rows st -> typed ty rows ->
  size_typed ty (current_size st).
Proof.
  induction 1 as [|rows st row st' _ IH Hstep]; intros Hty.
  - apply size_typed_init.
  - apply Forall_app in Hty as [Hrows Hrow].
    apply (step_typed ty limit prefix row st st'); [by apply IH| |done].
    by inversion Hrow.
Qed.

Lemma for_each_number (ty : celltype) (limit : float) (prefix : string)
    (df : list Row) (st : state) :
  ty <> TStr -> size_typed ty (current_size st) -> typed ty df ->
  exists st', for_each df (step limit prefix) st = (st', Ok tt).
Proof.
  intros Hty Hs Hdf. revert st Hs.
  induction Hdf as [|row df Hrow Hdf IH]; intros st Hs; [by exists st|].
  destruct (step_number_ok ty limit prefix row st Hty Hs Hrow) as [st1 Hst].
  destruct (IH st1 (step_typed _ _ _ _ _ _ Hs Hrow Hst)) as [st' Hst'].
  exists st'. by rewrite for_each_cons, Hst.
Qed.

(** ** The script *)

Lemma run_main_typed (ty : celltype) (args : Args) (df : list Row) :
  typed ty df -> out_exn (run_main args (Ok df)) = expected_exn ty df.
Proof.
  intros Hdf. destruct (decide (ty = TStr)) as [->|Hty].
  - destruct df as [|row df]; [done|]. inversion Hdf as [|? ? Hrow _]; subst.
    apply typeof_str in Hrow as [s Hrow].
    change (row :: df) with ([] ++ row :: df) at 1.
    by rewrite (run_main_str args [] df row s).
  - rewrite run_main_unfold.
    destruct (for_each_number ty (limit_of args) (prefix args) df
                (init_state [(full_list_name (prefix args), df)]) Hty
                (size_typed_init ty) Hdf) as [st' ->].
    by destruct ty.
Qed.

(** ** Properties *)

(** Type preservation in the loop: after any number of iterations
    over rows whose sizes have one type, [current_size] has the type that
    goes with it: an [int] over integers, the integer zero or a [float]
    over floats. No iteration over strings ends, so that over strings the
    loop is in its first state. *)
Theorem loop_size_typed (ty : celltype) (limit : float) (prefix : string)
    (fs : list file) (rows : list Row) (st : state) :
  reachable limit prefix fs rows st -> typed ty rows ->
  size_typed ty (current_size st).
Proof. apply reachable_typed. Qed.

Lemma loop_size_typed_witness :
  size_typed TInt
    (current_size (for_each [sized 3; sized 8] (step (limit_of ten_bytes) "out")
                     (init_state [])).1).
Proof.
  apply (loop_size_typed TInt (limit_of ten_bytes) "out" [] (([] ++ [sized 3]) ++ [sized 8])).
  - eapply (reach_step _ _ _ ([] ++ [sized 3]) _ (sized 8));
      [eapply (reach_step _ _ _ [] _ (sized 3)); [apply reach_init|reflexivity]|reflexivity].
  - repeat constructor.
Defined.

(** Claim C20. Type soundness: a manifest whose sizes are all integers, or
    all floats, never makes the script raise, whatever the sizes and the
    limit are; a non-empty manifest whose sizes are all strings makes it
    raise [TypeError], and an empty one does not. *)
Theorem typed_manifest_outcome (ty : celltype) (args : Args) (df : list Row) :
  typed ty df -> out_exn (run_main args (Ok df)) = expected_exn ty df.
Proof. apply run_main_typed. Qed.

Lemma typed_manifest_outcome_witness :
  out_exn (run_main ten_bytes (Ok [sized_float (S754_infinity false); missing]))
  = expected_exn TFloat [sized_float (S754_infinity false); missing].
Proof. apply typed_manifest_outcome. repeat constructor. Defined.
