(* ===== verification/GrouperIO.v ===== *)
(** * GrouperIO: [data_grouper.py] when a write can fail

    [DataFrame.to_excel] raises when the file cannot be written: the
    directory is read-only, the disk is full, or the frame has more rows
    than a sheet of the workbook holds. [Grouper] models the script under
    the assumption that every write succeeds. This file models it without
    the assumption: the Record [Writer] says, for a name and its rows,
    which exception the write raises, if any; [to_excel_io], [step_io] and
    [main_io] are the statements of the script over such a writer.

    The two models are related by a simulation: the script does nothing
    with a file but write it, so a run over a failing writer is the run of
    [Grouper] cut at the first file that cannot be written, and ended by
    the exception of that write. The relation [refines] is proved of every
    statement and composed along the structure of the programs. *)

From S2P Require Import Prelude PyFloat PyValue Naming Grouper.

#[local] Open Scope Z_scope.

(** ** Definitions *)

(** What [to_excel] answers for a file: [None] when it writes it. *)
Record Writer : Type := {
  write_error : string -> list Row -> option pyexn
}.

(** The writer of [Grouper]: every write succeeds. *)
Definition always_writes : Writer := {| write_error := fun _ _ => None |}.

(** A writer of sheets of [max_rows] rows: [to_excel] raises [ValueError]
    for a longer frame, before it creates the file. *)
Definition sheet_writer (max_rows : nat) : Writer :=
  {| write_error := fun _ rows =>
       if (max_rows <? length rows)%nat then Some ValueError else None |}.

(** A directory in which the second group cannot be written. *)
Definition second_group_fails : Writer :=
  {| write_error := fun name _ =>
       if String.eqb name "out_group_002.xlsx" then Some OSError else None |}.

(** The files of a log up to the first that cannot be written, and the
    exception of that write. *)
Fixpoint cut (w : Writer) (fs : list file) : list file * option pyexn :=
  match fs with
  | [] => ([], None)
  | f :: fs' =>
      match write_error w f.1 f.2 with
      | Some e => ([], Some e)
      | None => let '(kept, r) := cut w fs' in (f :: kept, r)
      end
  end.

(** The outcome of a run of [Grouper] as a failing writer leaves it. *)
Definition truncate (w : Writer) (o : outcome) : outcome :=
  match cut w (out_files o) with
  | (kept, Some e) => {| out_files := kept; out_exn := Some e |}
  | (_, None) => o
  end.

Section writer.

Context (w : Writer).

(** [df.to_excel(name, index=False)] *)
Definition to_excel_io (name : string) (rows : list Row) : prog state unit :=
  match write_error w name rows with
  | Some e => raise e
  | None => to_excel name rows
  end.

(** Lines 45-48. *)
Definition save_group_io (data_list : list Row) (prefix : string) (count : Z)
    : prog state unit :=
  let output_name := output_name prefix count in
  to_excel_io output_name data_list.

(** Lines 29-39. *)
Definition step_io (limit_bytes : float) (prefix : string) (row : Row)
    : prog state unit :=
  (let file_size := row_size row in
   st <- get ;;
   sum <- lift (py_add (current_size st) file_size) ;;
   over <- lift (py_gt sum limit_bytes) ;;
   when (over && truthy (current_group st))
     (save_group_io (current_group st) prefix (group_count st) ;;
      modify (with_count (group_count st + 1)) ;;
      modify (with_group []) ;;
      modify (with_size (VInt 0))) ;;
   st <- get ;;
   modify (with_group (current_group st ++ [row])) ;;
   size' <- lift (py_add (current_size st) file_size) ;;
   modify (with_size size'))%prog.

(** Lines 14-43. *)
Definition main_io (args : Args) (read_csv : result (list Row)) : prog state unit :=
  (df <- lift read_csv ;;
   let full_list_name := full_list_name (prefix args) in
   to_excel_io full_list_name df ;;
   limit_bytes <- lift (limit_bytes (limit_tb args)) ;;
   modify (with_group []) ;;
   modify (with_size (VInt 0)) ;;
   modify (with_count 1) ;;
   for_each df (step_io limit_bytes (prefix args)) ;;
   st <- get ;;
   when (truthy (current_group st))
     (save_group_io (current_group st) (prefix args) (group_count st)))%prog.

Definition run_main_io (args : Args) (read_csv : result (list Row)) : outcome :=
  let '(st, r) := main_io args read_csv boot in
  {| out_files := files st;
     out_exn := match r with Ok _ => None | Raise e => Some e end |}.

(** [refines p_io p]: [p] only appends to the log, and from a state whose
    log was written, [p_io] does what [p] does as long as the files [p]
    appends can be written, and otherwise stops at the first that cannot,
    with the exception of that write. *)
Definition refines {A : Type} (p_io p : prog state A) : Prop :=
  forall st : state,
    (exists new, files (p st).1 = files st ++ new)
    /\ ((cut w (files st)).2 = None ->
        match (cut w (files (p st).1)).2 with
        | None => p_io st = p st
        | Some e => exists st1, p_io st = (st1, Raise e)
                                /\ files st1 = (cut w (files (p st).1)).1
        end).

(** ** The cut of a log *)

Lemma cut_writable (fs : list file) : (cut w fs).2 = None -> (cut w fs).1 = fs.
Proof.
  induction fs as [|f fs IH]; simpl; [done|].
  destruct (write_error w f.1 f.2); [done|].
  destruct (cut w fs) as [kept r]. simpl in *. intros Hr. by rewrite IH.
Qed.

Lemma cut_app (fs1 fs2 : list file) :
  cut w (fs1 ++ fs2)
  = match (cut w fs1).2 with
    | Some _ => cut w fs1
    | None => (fs1 ++ (cut w fs2).1, (cut w fs2).2)
    end.
Proof.
  induction fs1 as [|f fs1 IH]; simpl; [by destruct (cut w fs2)|].
  destruct (write_error w f.1 f.2); [done|]. rewrite IH.
  destruct (cut w fs1) as [kept [e|]]; simpl; [done|].
  by destruct (cut w fs2).
Qed.

(** Once a write has failed, what is appended to the log changes nothing. *)
Lemma cut_app_failed (fs1 fs2 : list file) (e : pyexn) :
  (cut w fs1).2 = Some e -> cut w (fs1 ++ fs2) = cut w fs1.
Proof. intros He. by rewrite cut_app, He. Qed.

Lemma cut_prefix (fs : list file) : (cut w fs).1 `prefix_of` fs.
Proof.
  induction fs as [|f fs IH]; simpl; [done|].
  destruct (write_error w f.1 f.2); [apply prefix_nil|].
  destruct (cut w fs) as [kept r]. by apply prefix_cons.
Qed.

Lemma cut_all_writable (fs : list file) :
  Forall (fun f => write_error w f.1 f.2 = None) fs -> cut w fs = (fs, None).
Proof.
  induction 1 as [|f fs Hf _ IH]; simpl; [done|]. by rewrite Hf, IH.
Qed.

(** The exception of a cut is the exception of a write. *)
Lemma cut_error (fs : list file) (e : pyexn) :
  (cut w fs).2 = Some e -> exists f, f ∈ fs /\ write_error w f.1 f.2 = Some e.
Proof.
  induction fs as [|f fs IH]; simpl; [done|].
  destruct (write_error w f.1 f.2) as [e'|] eqn:Hf; simpl.
  - intros [= <-]. exists f. split; [left|done].
  - destruct (cut w fs) as [kept r]. simpl in *. intros (f' & Hin & Hf')%IH.
    exists f'. split; [by right|done].
Qed.

(** ** The simulation, statement by statement *)

(** A statement that leaves the log as it is refines itself. *)
Lemma refines_silent {A : Type} (p : prog state A) :
  (forall st, files (p st).1 = files st) -> refines p p.
Proof.
  intros Hp st. split; [exists []; by rewrite app_nil_r, Hp|].
  intros Hst. by rewrite Hp, Hst.
Qed.

Lemma refines_get : refines get get.
Proof. by apply refines_silent. Qed.

Lemma refines_lift {A : Type} (r : result A) : refines (lift r) (lift r).
Proof. by apply refines_silent. Qed.

Lemma refines_pret {A : Type} (a : A) : refines (pret a) (pret a).
Proof. by apply refines_silent. Qed.

Lemma refines_modify (f : state -> state) :
  (forall st, files (f st) = files st) -> refines (modify f) (modify f).
Proof. intros Hf. by apply refines_silent. Qed.

Lemma refines_to_excel (name : string) (rows : list Row) :
  refines (to_excel_io name rows) (to_excel name rows).
Proof.
  intros st. split; [by exists [(name, rows)]|]. intros Hst.
  unfold to_excel_io, to_excel, modify, raise. simpl.
  rewrite cut_app, Hst. simpl.
  destruct (write_error w name rows) as [e|]; simpl; [|done].
  exists st. split; [done|]. by rewrite app_nil_r.
Qed.

Lemma refines_bind {A B : Type} (p_io p : prog state A) (k_io k : A -> prog state B) :
  refines p_io p -> (forall a, refines (k_io a) (k a)) ->
  refines (pbind p_io k_io) (pbind p k).
Proof.
  intros Hp Hk st. destruct (Hp st) as [[new1 Hnew1] Hsim1]. unfold pbind.
  destruct (p st) as [st1 [a|e1]] eqn:Ep; simpl in *.
  - destruct (Hk a st1) as [[new2 Hnew2] Hsim2]. split.
    + exists (new1 ++ new2). by rewrite Hnew2, Hnew1, app_assoc.
    + intros Hst. specialize (Hsim1 Hst).
      destruct (cut w (files st1)).2 as [e|] eqn:Ec.
      * destruct Hsim1 as (stx & -> & Hfs). rewrite Hnew2.
        rewrite (cut_app_failed _ _ _ Ec), Ec. by exists stx.
      * rewrite Hsim1. by apply Hsim2.
  - split; [by exists new1|]. intros Hst. specialize (Hsim1 Hst).
    destruct (cut w (files st1)).2 as [e|] eqn:Ec.
    + destruct Hsim1 as (stx & -> & Hfs). by exists stx.
    + by rewrite Hsim1.
Qed.

Lemma refines_seq {A : Type} (p_io p : prog state unit) (k_io k : prog state A) :
  refines p_io p -> refines k_io k ->
  refines (pbind p_io (fun _ => k_io)) (pbind p (fun _ => k)).
Proof. intros Hp Hk. by apply refines_bind. Qed.

Lemma refines_when (b : bool) (p_io p : prog state unit) :
  refines p_io p -> refines (when b p_io) (when b p).
Proof. destruct b; [done|]. intros _. apply refines_pret. Qed.

Lemma refines_for_each {A : Type} (l : list A) (body_io body : A -> prog state unit) :
  (forall a, refines (body_io a) (body a)) ->
  refines (for_each l body_io) (for_each l body).
Proof.
  intros Hbody. induction l as [|a l IH]; [apply refines_pret|].
  by apply refines_seq.
Qed.

(** [solve_refines] composes the simulation along the structure of two
    programs that differ by their writes only. *)
Ltac solve_refines :=
  repeat first
    [ apply refines_get | apply refines_lift | apply refines_pret
    | apply refines_to_excel
    | apply refines_modify; done
    | apply refines_when
    | apply refines_for_each; intros ?
    | apply refines_bind; [|intros ?] ].

(** ** The script *)

Lemma refines_save_group (data_list : list Row) (prefix : string) (count : Z) :
  refines (save_group_io data_list prefix count) (save_group data_list prefix count).
Proof. apply refines_to_excel. Qed.

Lemma refines_step (limit : float) (prefix : string) (row : Row) :
  refines (step_io limit prefix row) (step limit prefix row).
Proof. unfold step_io, step, save_group_io, save_group. solve_refines. Qed.

(** Over a writer that writes every file the two programs are one. *)
Lemma refines_writable {A : Type} (p_io p : prog state A) (st : state) :
  (forall name rows, write_error w name rows = None) ->
  refines p_io p -> p_io st = p st.
Proof.
  intros Hw Hsim. destruct (Hsim st) as [_ Heq].
  rewrite !cut_all_writable in Heq by (apply Forall_forall; intros; apply Hw).
  by apply Heq.
Qed.

Lemma refines_main (args : Args) (read_csv : result (list Row)) :
  refines (main_io args read_csv) (main args read_csv).
Proof.
  unfold main_io, main, save_group_io, save_group. solve_refines.
Qed.

(** The run over a failing writer is the run of [Grouper], cut at the first
    write that fails. *)
Lemma run_main_io_truncate (args : Args) (read_csv : result (list Row)) :
  run_main_io args read_csv = truncate w (run_main args read_csv).
Proof.
  unfold run_main_io, run_main, truncate.
  destruct (refines_main args read_csv boot) as [_ Hsim]. specialize (Hsim eq_refl).
  destruct (main args read_csv boot) as [st r]. simpl in *.
  destruct (cut w (files st)) as [kept [e|]]; simpl in *.
  - destruct Hsim as (st1 & -> & ->). done.
  - by rewrite Hsim.
Qed.

(** What was written when a write fails was written by [Grouper] too, in
    the same order. *)
Lemma run_main_io_prefix (args : Args) (read_csv : result (list Row)) :
  out_files (run_main_io args read_csv) `prefix_of` out_files (run_main args read_csv).
Proof.
  rewrite run_main_io_truncate. unfold truncate.
  pose proof (cut_prefix (out_files (run_main args read_csv))) as Hp.
  by destruct (cut w _) as [kept [e|]].
Qed.

(** A run that ends without exception met no write that fails: it is the
    run of [Grouper]. *)
Lemma run_main_io_ok (args : Args) (read_csv : result (list Row)) :
  out_exn (run_main_io args read_csv) = None ->
  run_main_io args read_csv = run_main args read_csv.
Proof.
  rewrite run_main_io_truncate. unfold truncate.
  by destruct (cut w _) as [kept [e|]].
Qed.

(** What ends a run: the exception of the loader, the exception of a
    write, or an [Exception] of the loop. *)
Lemma run_main_io_exception (args : Args) (read_csv : result (list Row)) (e : pyexn) :
  out_exn (run_main_io args read_csv) = Some e ->
  read_csv = Raise e
  \/ (exists name rows, write_error w name rows = Some e)
  \/ is_Exception e = true.
Proof.
  rewrite run_main_io_truncate. unfold truncate.
  destruct (cut w _) as [kept [e'|]] eqn:Hcut; simpl.
  - intros [= <-]. right. left.
    destruct (cut_error _ e' ltac:(by rewrite Hcut)) as (f & _ & Hf). eauto.
  - destruct read_csv as [df|e']; [|intros [= <-]; by left].
    intros He. right. right. by eapply run_main_exception.
Qed.

(** When every file of the run of [Grouper] can be written, the two runs
    are one. *)
Lemma run_main_io_writable (args : Args) (read_csv : result (list Row)) :
  Forall (fun f => write_error w f.1 f.2 = None) (out_files (run_main args read_csv)) ->
  run_main_io args read_csv = run_main args read_csv.
Proof.
  intros Hw. rewrite run_main_io_truncate. unfold truncate.
  by rewrite cut_all_writable.
Qed.

End writer.

(** ** The sheets of a workbook *)

(** No file of a run has more rows than the manifest. *)
Lemma out_files_length (args : Args) (df : list Row) :
  Forall (fun f => (length f.2 <= length df)%nat) (out_files (run_main args (Ok df))).
Proof.
  destruct (run_main_shape args df) as (gs & open & rest & -> & _ & Hdf & _).
  apply Forall_app. split; [by repeat constructor|].
  apply Forall_forall. intros [name g] Hin.
  apply list_elem_of_lookup in Hin as [i Hi].
  unfold group_files in Hi. apply list_lookup_imap_Some in Hi as (g' & Hg & [= _ ->]).
  simpl. rewrite Hdf, !length_app.
  pose proof (length_concat_lookup gs i g' Hg). lia.
Qed.

Lemma run_main_io_sheets_fit (max_rows : nat) (args : Args) (df : list Row) :
  (length df <= max_rows)%nat ->
  run_main_io (sheet_writer max_rows) args (Ok df) = run_main args (Ok df).
Proof.
  intros Hlen. apply run_main_io_writable.
  eapply List.Forall_impl; [|apply (out_files_length args df)]. intros f Hf. simpl in *.
  by replace (max_rows <? length f.2)%nat with false by (symmetry; apply Nat.ltb_ge; lia).
Qed.

Lemma run_main_io_sheets_overflow (max_rows : nat) (args : Args) (df : list Row) :
  (max_rows < length df)%nat ->
  run_main_io (sheet_writer max_rows) args (Ok df)
  = {| out_files := []; out_exn := Some ValueError |}.
Proof.
  intros Hlen. rewrite run_main_io_truncate. unfold truncate.
  destruct (run_main_shape args df) as (gs & open & rest & -> & _). simpl.
  by replace (max_rows <? length df)%nat with true by (symmetry; apply Nat.ltb_lt; lia).
Qed.

(** ** Properties of the script over a failing writer *)

(** Claim C12. A write that fails ends the script and nothing else: whatever
    the writer, the manifest and the limit, the files of the run are those
    [Grouper] writes, in its order, up to the first that cannot be
    written, and the run ends with the exception of that write; when every
    write succeeds the run is the run of [Grouper], exception included. *)
Theorem main_io_truncates (w : Writer) (args : Args) (read_csv : result (list Row)) :
  run_main_io w args read_csv = truncate w (run_main args read_csv).
Proof. apply run_main_io_truncate. Qed.

(** Claim C31. The rows of a sheet: over a writer that raises [ValueError]
    for a frame of more than [max_rows] rows, the full list decides. A
    manifest of more rows ends the script at line 18 with no file written,
    although its groups would fit; a manifest that fits is grouped as if
    the writer had no limit, because no group is longer than the
    manifest. *)
Theorem main_io_sheet_limit (max_rows : nat) (args : Args) (df : list Row) :
  run_main_io (sheet_writer max_rows) args (Ok df)
  = if (max_rows <? length df)%nat
    then {| out_files := []; out_exn := Some ValueError |}
    else run_main args (Ok df).
Proof.
  destruct (Nat.ltb_spec max_rows (length df)).
  - by apply run_main_io_sheets_overflow.
  - by apply run_main_io_sheets_fit.
Qed.

(** What a failed write leaves behind: when the second group cannot
    be written, the full list and the first group are on disk, the rows of
    the other groups are in no file, and the script ends with the error of
    the write. *)
Example second_group_lost :
  run_main_io second_group_fails ten_bytes (Ok [sized 3; sized 8; sized 2; sized 9])
  = {| out_files := [("out_full_list.xlsx", [sized 3; sized 8; sized 2; sized 9]);
                     ("out_group_001.xlsx", [sized 3])];
       out_exn := Some OSError |}.
Proof. reflexivity. Qed.
