(* ===== verification/Machine.v ===== *)
(** * Machine: [data_grouper.py] one statement at a time

    A transition system whose configurations are a line of the script
    about to run, with the local variables it needs, and the [state] of
    [Grouper]. A transition runs the statement of that line, over a
    [Writer] of [GrouperIO], and moves to the next line, or to [Died] when
    the statement raises. The transition function [next] is executable;
    [run] iterates it.

    The file proves that the machine terminates, by a measure that every
    transition decreases and that bounds the number of statements run by a
    linear function of the number of rows; that the configuration it ends
    in is the outcome of [main_io], the script as a program of the monad;
    that along a run the files only grow; and, by induction on the
    transitions, the invariant [line_inv] of the lines, which says where
    the rows of the manifest are when a line is about to run: in group
    files, in the open group, in hand, or not read yet. It follows that
    no row is ever written out of order or twice, whatever writes fail.
    The last section bounds the wait of a group: on integer sizes and
    writes that succeed, a group is a file nine transitions after the
    first row of the next group was read, and the last group when the
    machine ends. *)

From stdpp Require Import relations.
From S2P Require Import Prelude PyFloat PyValue Naming GrouperSpec Grouper GrouperCorrect.
From S2P Require Import GrouperTyping GrouperIO.

#[local] Open Scope Z_scope.

(** ** Definitions *)

(** The line about to run, with the local variables [df], [limit_bytes],
    [row] and the rows the loop has not read yet. Lines 17-18 are one
    write; [Exit] and [Died] are the two ways the script ends. *)
Inductive pc : Type :=
| L14
| L18 (df : list Row)
| L22 (df : list Row)
| L24 (df : list Row) (limit : float)
| L25 (df : list Row) (limit : float)
| L26 (df : list Row) (limit : float)
| L28 (limit : float) (rest : list Row)
| L29 (limit : float) (row : Row) (rest : list Row)
| L32 (limit : float) (row : Row) (rest : list Row)
| L33 (limit : float) (row : Row) (rest : list Row)
| L34 (limit : float) (row : Row) (rest : list Row)
| L35 (limit : float) (row : Row) (rest : list Row)
| L36 (limit : float) (row : Row) (rest : list Row)
| L38 (limit : float) (row : Row) (rest : list Row)
| L39 (limit : float) (row : Row) (rest : list Row)
| L42
| L43
| Exit
| Died (e : pyexn).

Definition config : Type := pc * state.

(** One statement: the program [p] runs in the state of the configuration
    and its value chooses the next line; an exception leads to [Died]. *)
Definition exec {A : Type} (p : prog state A) (k : A -> pc) (st : state) : config :=
  match p st with
  | (st', Ok a) => (k a, st')
  | (st', Raise e) => (Died e, st')
  end.

(** What a configuration shows of the run: the files, and the exception
    when the script died. *)
Definition outcome_of (c : config) : outcome :=
  {| out_files := files c.2;
     out_exn := match c.1 with Died e => Some e | _ => None end |}.

(** The rows in group files. *)
Definition on_disk (st : state) : list Row := concat (written_groups (files st)).

(** What holds of the manifest [df] when a line is about to run: the rows
    in group files, the open group and the rows not read yet are the
    manifest, in this order. Between lines 33 and 36 the group just
    written is still in [current_group]; line 38 has the row in hand, and
    line 39 has it in the group. *)
Definition line_inv (df : list Row) (c : config) : Prop :=
  let st := c.2 in
  Forall (fun g => g <> []) (written_groups (files st))
  /\ match c.1 with
     | L14 => files st = []
     | L18 df' => df' = df /\ files st = []
     | L22 df' | L24 df' _ =>
         df' = df /\ files st <> [] /\ on_disk st = []
     | L25 df' _ | L26 df' _ =>
         df' = df /\ files st <> [] /\ on_disk st = [] /\ current_group st = []
     | L28 _ rest | L39 _ _ rest =>
         files st <> [] /\ on_disk st ++ current_group st ++ rest = df
     | L29 _ row rest | L32 _ row rest | L38 _ row rest =>
         files st <> [] /\ on_disk st ++ current_group st ++ row :: rest = df
     | L33 _ row rest =>
         files st <> [] /\ on_disk st ++ current_group st ++ row :: rest = df
         /\ current_group st <> []
     | L34 _ row rest | L35 _ row rest =>
         files st <> [] /\ on_disk st ++ row :: rest = df
     | L36 _ row rest =>
         files st <> [] /\ on_disk st ++ row :: rest = df /\ current_group st = []
     | L42 => files st <> [] /\ on_disk st ++ current_group st = df
     | L43 =>
         files st <> [] /\ on_disk st ++ current_group st = df
         /\ current_group st <> []
     | Exit => on_disk st = df
     | Died _ => on_disk st `prefix_of` df
     end.

Section machine.

Context (w : Writer) (args : Args) (read_csv : result (list Row)).

(** The transition function: [None] when the script has ended. *)
Definition next (c : config) : option config :=
  let st := c.2 in
  match c.1 with
  | L14 => Some (exec (lift read_csv) L18 st)
  | L18 df =>
      Some (exec (to_excel_io w (full_list_name (prefix args)) df) (fun _ => L22 df) st)
  | L22 df => Some (exec (lift (limit_bytes (limit_tb args))) (L24 df) st)
  | L24 df limit => Some (exec (modify (with_group [])) (fun _ => L25 df limit) st)
  | L25 df limit => Some (exec (modify (with_size (VInt 0))) (fun _ => L26 df limit) st)
  | L26 df limit => Some (exec (modify (with_count 1)) (fun _ => L28 limit df) st)
  | L28 limit [] => Some (L42, st)
  | L28 limit (row :: rest) => Some (L29 limit row rest, st)
  | L29 limit row rest => Some (L32 limit row rest, st)
  | L32 limit row rest =>
      Some (exec (sum <- lift (py_add (current_size st) (row_size row)) ;;
                  lift (py_gt sum limit))%prog
              (fun over : bool =>
                 if over && truthy (current_group st)
                 then L33 limit row rest else L38 limit row rest) st)
  | L33 limit row rest =>
      Some (exec (save_group_io w (current_group st) (prefix args) (group_count st))
              (fun _ => L34 limit row rest) st)
  | L34 limit row rest =>
      Some (exec (modify (with_count (group_count st + 1))) (fun _ => L35 limit row rest) st)
  | L35 limit row rest =>
      Some (exec (modify (with_group [])) (fun _ => L36 limit row rest) st)
  | L36 limit row rest =>
      Some (exec (modify (with_size (VInt 0))) (fun _ => L38 limit row rest) st)
  | L38 limit row rest =>
      Some (exec (modify (with_group (current_group st ++ [row])))
              (fun _ => L39 limit row rest) st)
  | L39 limit row rest =>
      Some (exec (size' <- lift (py_add (current_size st) (row_size row)) ;;
                  modify (with_size size'))%prog
              (fun _ => L28 limit rest) st)
  | L42 => Some (if truthy (current_group st) then (L43, st) else (Exit, st))
  | L43 =>
      Some (exec (save_group_io w (current_group st) (prefix args) (group_count st))
              (fun _ => Exit) st)
  | Exit | Died _ => None
  end.

(** The transition relation. *)
Definition mstep (c c' : config) : Prop := next c = Some c'.

(** A transition, or none when the script has ended. *)
Definition advance (c : config) : config := default c (next c).

(** [fuel] transitions. *)
Definition run (fuel : nat) (c : config) : config := Nat.iter fuel advance c.

(** The configuration the script starts in. *)
Definition start : config := (L14, boot).

(** The measure: an upper bound of the number of statements still to
    run. An iteration of the loop runs nine at most. *)
Definition weight (c : config) : nat :=
  match c.1 with
  | L14 => match read_csv with Ok df => 9 * length df + 9 | Raise _ => 1 end
  | L18 df => 9 * length df + 8
  | L22 df => 9 * length df + 7
  | L24 df _ => 9 * length df + 6
  | L25 df _ => 9 * length df + 5
  | L26 df _ => 9 * length df + 4
  | L28 _ rest => 9 * length rest + 3
  | L29 _ _ rest => 9 * length rest + 11
  | L32 _ _ rest => 9 * length rest + 10
  | L33 _ _ rest => 9 * length rest + 9
  | L34 _ _ rest => 9 * length rest + 8
  | L35 _ _ rest => 9 * length rest + 7
  | L36 _ _ rest => 9 * length rest + 6
  | L38 _ _ rest => 9 * length rest + 5
  | L39 _ _ rest => 9 * length rest + 4
  | L42 => 2
  | L43 => 1
  | Exit | Died _ => 0
  end%nat.

(** The script has ended. *)
Definition terminal (c : config) : Prop := next c = None.

#[export] Instance terminal_dec (c : config) : Decision (terminal c).
Proof. unfold terminal. apply _. Defined.

(** ** Transitions *)

Lemma mstep_deterministic : deterministic mstep.
Proof. intros c c1 c2 H1 H2. unfold mstep in *. congruence. Qed.

Lemma terminal_nf (c : config) : terminal c <-> nf mstep c.
Proof.
  unfold terminal, nf, red, mstep. split.
  - intros Hc [c' Hc']. congruence.
  - intros Hc. destruct (next c) as [c'|]; [|done]. destruct Hc. by exists c'.
Qed.

Lemma advance_terminal (c : config) : terminal c -> advance c = c.
Proof. unfold terminal, advance. by intros ->. Qed.

Lemma advance_mstep (c c' : config) : mstep c c' -> advance c = c'.
Proof. unfold mstep, advance. by intros ->. Qed.

Lemma run_S (n : nat) (c : config) : run (S n) c = run n (advance c).
Proof. apply Nat.iter_succ_r. Qed.

Lemma run_add (n m : nat) (c : config) : run (n + m) c = run m (run n c).
Proof. unfold run. by rewrite Nat.add_comm, Nat.iter_add. Qed.

Lemma run_terminal (n : nat) (c : config) : terminal c -> run n c = c.
Proof.
  intros Hc. induction n as [|n IH]; [done|].
  by rewrite run_S, advance_terminal.
Qed.

Lemma run_terminal_terminal (n : nat) (c : config) : terminal c -> terminal (run n c).
Proof. intros Hc. by rewrite run_terminal. Qed.

(** Two runs that have ended have ended in the same configuration. *)
Lemma run_terminal_unique (n m : nat) (c : config) :
  terminal (run n c) -> terminal (run m c) -> run n c = run m c.
Proof.
  intros Hn Hm. destruct (Nat.le_ge_cases n m) as [Hle|Hle].
  - assert (run m c = run (m - n) (run n c)) as ->
      by (rewrite <-run_add; f_equal; lia).
    by rewrite (run_terminal _ _ Hn).
  - assert (run n c = run (n - m) (run m c)) as Heq
      by (rewrite <-run_add; f_equal; lia).
    by rewrite Heq, (run_terminal _ _ Hm).
Qed.

Lemma run_rtc (n : nat) (c : config) : rtc mstep c (run n c).
Proof.
  revert c. induction n as [|n IH]; intros c; [done|]. rewrite run_S.
  destruct (next c) as [c'|] eqn:Hc.
  - rewrite (advance_mstep c c' Hc). by eapply rtc_l.
  - by rewrite advance_terminal.
Qed.

(** ** Termination *)

Lemma exec_weight {A : Type} (p : prog state A) (k : A -> pc) (st : state) (n : nat) :
  (forall a st', weight (k a, st') < n)%nat -> (0 < n)%nat ->
  (weight (exec p k st) < n)%nat.
Proof. intros Hk Hn. unfold exec. destruct (p st) as [st' [a|e]]; [apply Hk|done]. Qed.

(** Every transition decreases the measure. *)
Lemma mstep_weight (c c' : config) : mstep c c' -> (weight c' < weight c)%nat.
Proof.
  destruct c as [l st]. unfold mstep, next. simpl.
  destruct l as [| | | | | |? rest| | | | | | | | | | | |];
    try destruct rest; intros [= <-].
  1: { unfold weight, exec, lift. simpl. destruct read_csv; simpl; lia. }
  all: try (apply exec_weight; intros); try case_match; unfold weight; simpl; lia.
Qed.

Lemma weight_0_terminal (c : config) : weight c = 0%nat -> terminal c.
Proof.
  destruct c as [[] st]; unfold weight, terminal; simpl; try lia; try done.
  destruct read_csv; simpl; intros; lia.
Qed.

(** The machine ends within [weight] transitions. *)
Lemma run_ends (n : nat) (c : config) : (weight c <= n)%nat -> terminal (run n c).
Proof.
  revert c. induction n as [|n IH]; intros c Hn.
  - change (run 0 c) with c. apply weight_0_terminal. lia.
  - rewrite run_S. destruct (next c) as [c'|] eqn:Hc.
    + rewrite (advance_mstep c c' Hc). apply IH.
      pose proof (mstep_weight c c' Hc). lia.
    + rewrite advance_terminal by done. by apply run_terminal_terminal.
Qed.

(** ** The machine runs the script *)

Lemma run_step (n : nat) (c c' : config) : mstep c c' -> run (S n) c = run n c'.
Proof. intros Hc. by rewrite run_S, (advance_mstep c c' Hc). Qed.

(** [tick] runs one transition of the machine in the goal, using the
    equations of the context for the results of the statements. *)
Ltac tick :=
  erewrite run_step;
  [|unfold mstep, next; cbn [fst snd];
    unfold exec, pbind, lift, modify, save_group_io, to_excel_io, to_excel, raise,
      with_group, with_size, with_count;
    cbn [fst snd current_group current_size group_count files];
    repeat match goal with
    | H : ?x = _ |- context [?x] => rewrite H
    end;
    reflexivity].

(** One iteration of the loop, from its head to its head, in nine
    transitions at most. *)
Lemma row_run (limit : float) (row : Row) (rest : list Row) (st : state) :
  exists n, (n <= 9)%nat
    /\ run n (L28 limit (row :: rest), st)
       = exec (step_io w limit (prefix args) row) (fun _ => L28 limit rest) st.
Proof.
  unfold step_io, exec, pbind, get, lift, when, save_group_io, to_excel_io, to_excel,
    modify, raise.
  destruct (py_add (current_size st) (row_size row)) as [sum|e1] eqn:E1;
    [|exists 3%nat; split; [lia|by do 3 tick]].
  destruct (py_gt sum limit) as [over|e2] eqn:E2;
    [|exists 3%nat; split; [lia|by do 3 tick]].
  destruct (over && truthy (current_group st)) eqn:E3.
  - destruct (write_error w (output_name (prefix args) (group_count st)) (current_group st))
      as [e3|] eqn:E4; [exists 4%nat; split; [lia|by do 4 tick]|].
    cbn -[py_add]. destruct (py_add (VInt 0) (row_size row)) as [size'|e4] eqn:E5;
      exists 9%nat; (split; [lia|by do 9 tick]).
  - cbn -[py_add]. rewrite E1. exists 5%nat. split; [lia|by do 5 tick].
Qed.

(** The first rows of the loop, from its head to its head, in nine
    transitions a row at most. *)
Lemma rows_run (limit : float) (pre rest : list Row) (st : state) :
  exists n, (n <= 9 * length pre)%nat
    /\ run n (L28 limit (pre ++ rest), st)
       = exec (for_each pre (step_io w limit (prefix args))) (fun _ => L28 limit rest) st.
Proof.
  revert st. induction pre as [|row pre IH]; intros st; [by exists 0%nat|].
  destruct (row_run limit row (pre ++ rest) st) as (n & Hle & Hn).
  unfold exec in *. rewrite for_each_cons. simpl app.
  destruct (step_io w limit (prefix args) row st) as [st1 [[]|e]].
  - destruct (IH st1) as (m & Hm & Hrun). exists (n + m)%nat.
    split; [simpl; lia|]. by rewrite run_add, Hn, Hrun.
  - exists n. split; [simpl; lia|done].
Qed.

(** The loop, from its head to line 42 or to the exception. *)
Lemma loop_run (limit : float) (rest : list Row) (st : state) :
  exists n, run n (L28 limit rest, st)
            = exec (for_each rest (step_io w limit (prefix args))) (fun _ => L42) st.
Proof.
  revert st. induction rest as [|row rest IH]; intros st.
  - exists 1%nat. by tick.
  - destruct (row_run limit row rest st) as (n & _ & Hn).
    unfold exec in *. rewrite for_each_cons.
    destruct (step_io w limit (prefix args) row st) as [st1 [[]|e]].
    + destruct (IH st1) as [m Hm]. exists (n + m)%nat. by rewrite run_add, Hn, Hm.
    + by exists n.
Qed.

(** The lines before the loop, when the manifest is loaded and the full
    list written: six transitions. *)
Lemma head_run (df : list Row) (limit : float) :
  read_csv = Ok df ->
  write_error w (full_list_name (prefix args)) df = None ->
  limit_bytes (limit_tb args) = Ok limit ->
  run 6 start = (L28 limit df, init_state [(full_list_name (prefix args), df)]).
Proof. intros E1 E2 E3. by do 6 tick. Qed.

(** The script, from its first line to its end. *)
Lemma main_run :
  exists n, run n start = exec (main_io w args read_csv) (fun _ => Exit) boot.
Proof.
  unfold main_io, exec, pbind, get, lift, when, save_group_io, to_excel_io, to_excel,
    modify, raise.
  destruct read_csv as [df|e] eqn:E1; [|exists 1%nat; by tick].
  destruct (write_error w (full_list_name (prefix args)) df) as [e2|] eqn:E2;
    [exists 2%nat; by do 2 tick|].
  destruct (limit_bytes (limit_tb args)) as [limit|e3] eqn:E3; [|exists 3%nat; by do 3 tick].
  cbn -[for_each]. set (st0 := with_count 1 _).
  assert (run 6 start = (L28 limit df, st0)) as H6 by (by do 6 tick).
  destruct (loop_run limit df st0) as [n Hn]. unfold exec in Hn.
  destruct (for_each df (step_io w limit (prefix args)) st0) as [st1 [[]|e4]] eqn:E4.
  - destruct (truthy (current_group st1)) eqn:E5.
    + destruct (write_error w (output_name (prefix args) (group_count st1)) (current_group st1))
        as [e5|] eqn:E6; exists (6 + (n + 2))%nat;
        rewrite (run_add 6), H6, run_add, Hn; by do 2 tick.
    + exists (6 + (n + 1))%nat. rewrite (run_add 6), H6, run_add, Hn. by tick.
  - exists (6 + n)%nat. by rewrite (run_add 6), H6, Hn.
Qed.

Lemma exec_exit_terminal (p : prog state unit) (st : state) :
  terminal (exec p (fun _ => Exit) st).
Proof. unfold exec. by destruct (p st) as [st' [[]|e]]. Qed.

Lemma exec_exit_outcome (p : prog state unit) (st : state) :
  outcome_of (exec p (fun _ => Exit) st)
  = {| out_files := files (p st).1;
       out_exn := match (p st).2 with Ok _ => None | Raise e => Some e end |}.
Proof. unfold exec. by destruct (p st) as [st' [[]|e]]. Qed.

(** With enough fuel, the machine ends in the outcome of the script. *)
Lemma run_outcome (fuel : nat) :
  (weight start <= fuel)%nat ->
  outcome_of (run fuel start) = run_main_io w args read_csv.
Proof.
  intros Hfuel. destruct main_run as [n Hn].
  rewrite (run_terminal_unique fuel n start).
  - rewrite Hn, exec_exit_outcome. unfold run_main_io.
    by destruct (main_io w args read_csv boot).
  - by apply run_ends.
  - rewrite Hn. apply exec_exit_terminal.
Qed.

(** The transition relation is strongly normalising: no run is infinite. *)
Lemma mstep_sn (c : config) : sn mstep c.
Proof.
  assert (forall n c, (weight c < n)%nat -> sn mstep c) as Hsn;
    [|apply (Hsn (S (weight c))); lia].
  induction n as [|n IH]; intros c0 Hc0; [lia|].
  constructor. intros c' Hc'. apply IH.
  pose proof (mstep_weight c0 c' Hc'). lia.
Qed.

(** ** The files along a run *)

(** A transition leaves the files as they are or writes one more. *)
Lemma mstep_files (c c' : config) : mstep c c' -> files c.2 `prefix_of` files c'.2.
Proof.
  destruct c as [l st]. unfold mstep, next. cbn [fst snd].
  destruct l as [| | | | | |? rest| | | | | | | | | | | |];
    try destruct rest; intros Hc; simplify_eq;
    unfold exec, pbind, lift, save_group_io, to_excel_io, to_excel, modify, raise;
    repeat case_match; simplify_eq; simpl; try done;
    by apply prefix_app_r.
Qed.

Lemma run_files (n : nat) (c : config) : files c.2 `prefix_of` files (run n c).2.
Proof.
  pose proof (run_rtc n c) as Hrun.
  induction Hrun as [|c1 c2 c3 H12 _ IH]; [done|].
  etrans; [by apply mstep_files|done].
Qed.

End machine.

(** ** The manifest along a run *)

(** What the invariant says of the files alone. *)
Lemma line_inv_on_disk (df : list Row) (c : config) :
  line_inv df c ->
  on_disk c.2 `prefix_of` df /\ Forall (fun g => g <> []) (written_groups (files c.2)).
Proof.
  destruct c as [l st]. unfold line_inv, on_disk. cbn [fst snd].
  intros [Hne Hl]. split; [|done].
  destruct l; destruct_and?; try done;
    repeat match goal with
    | H : _ = df |- _ => rewrite <-H
    | H : files _ = [] |- _ => rewrite H
    | H : concat _ = [] |- _ => rewrite H
    end; try apply prefix_nil; try done; by eexists.
Qed.

(** What it says when the script has exited. *)
Lemma line_inv_exit (df : list Row) (st : state) : line_inv df (Exit, st) -> on_disk st = df.
Proof. by intros [_ ?]. Qed.

Section invariant.

Context (w : Writer) (args : Args) (df : list Row).

(** [stmt_cases] splits the goal along the results of the statement a
    transition runs. *)
Ltac stmt_cases :=
  repeat match goal with
  | |- context [write_error ?w ?n ?r] => destruct (write_error w n r) eqn:?
  | |- context [py_add ?a ?b] => destruct (py_add a b) eqn:?
  | |- context [py_gt ?a ?b] => destruct (py_gt a b) as [[]|] eqn:?
  | |- context [limit_bytes ?a] => destruct (limit_bytes a) eqn:?
  | |- context [truthy (current_group ?st)] => destruct (current_group st) eqn:?
  end.

(** [inv_done] proves what a transition leaves of the invariant. *)
Ltac inv_done :=
  repeat match goal with
  | H : _ = df |- _ => rewrite <-H
  | H : files _ = [] |- _ => rewrite H
  | H : concat _ = [] |- _ => rewrite H
  | H : current_group _ = _ |- _ => rewrite H in *
  end;
  repeat split;
  rewrite ?written_groups_snoc, ?concat_app, ?Forall_app by done;
  simpl; rewrite ?app_nil_r, <-?app_assoc;
  try done; try (by eexists); try (by repeat constructor);
  try (by intros [_ ?]%app_eq_nil).

Lemma mstep_inv (c c' : config) :
  line_inv df c -> mstep w args (Ok df) c c' -> line_inv df c'.
Proof.
  destruct c as [l st]. unfold mstep, next, line_inv, on_disk. cbn [fst snd].
  destruct l as [| | | | | |? [|r rest]| | | | | | | | | | | |];
    intros Hinv Hc; simplify_eq;
    unfold exec, pbind, lift, save_group_io, to_excel_io, to_excel, modify, raise;
    destruct_and?; stmt_cases; cbn -[written_groups concat] in *.
  all: inv_done.
Qed.

Lemma start_inv : line_inv df start.
Proof. by split. Qed.

(** The invariant holds of every configuration a run goes through. *)
Lemma reachable_line_inv (c : config) : rtc (mstep w args (Ok df)) start c -> line_inv df c.
Proof.
  apply (rtc_ind_r (line_inv df) start); [apply start_inv|].
  intros c1 c2 _ H12 IH. by apply (mstep_inv c1).
Qed.

Lemma run_inv (n : nat) : line_inv df (run w args (Ok df) n start).
Proof. apply reachable_line_inv, run_rtc. Qed.

(** Once the script has exited, the manifest is on disk and stays there. *)
Lemma exit_on_disk (n m : nat) :
  (run w args (Ok df) n start).1 = Exit -> (n <= m)%nat ->
  on_disk (run w args (Ok df) m start).2 = df.
Proof.
  intros Hexit Hm. pose proof (run_inv n) as Hinv.
  destruct (run w args (Ok df) n start) as [l st] eqn:Hn. simpl in Hexit. subst l.
  replace m with (n + (m - n))%nat by lia.
  rewrite run_add, Hn, run_terminal by done. by apply line_inv_exit.
Qed.

(** The script ends in one of two ways. *)
Lemma terminal_cases (c : config) :
  terminal w args (Ok df) c -> c.1 = Exit \/ exists e, c.1 = Died e.
Proof.
  destruct c as [l st]. unfold terminal, next. cbn [fst snd].
  destruct l as [| | | | | |? [|r rest]| | | | | | | | | | | |]; try done; eauto.
Qed.

(** Over a writer that writes every file, a column of numbers makes the
    script exit normally. *)
Lemma numbers_exit (ty : celltype) :
  ty <> TStr -> typed ty df ->
  (forall name rows, write_error w name rows = None) ->
  (run w args (Ok df) (9 * length df + 9) start).1 = Exit.
Proof.
  intros Hty Hdf Hw.
  pose proof (run_outcome w args (Ok df) (9 * length df + 9) ltac:(done)) as Hout.
  rewrite run_main_io_writable in Hout by (apply Forall_forall; intros; apply Hw).
  pose proof (run_main_typed ty args df Hdf) as Hexn. rewrite <-Hout in Hexn.
  destruct (terminal_cases _ (run_ends w args (Ok df) (9 * length df + 9) start
                                ltac:(done))) as [Hc|[e Hc]]; [done|].
  destruct (run w args (Ok df) (9 * length df + 9) start) as [l st].
  simpl in Hc. subst l. by destruct ty.
Qed.

(** Liveness on numbers: every row of a column of numbers is in a group
    file after [9 * length df + 9] transitions, and stays there. *)
Lemma numbers_on_disk (ty : celltype) (m : nat) :
  ty <> TStr -> typed ty df ->
  (forall name rows, write_error w name rows = None) ->
  (9 * length df + 9 <= m)%nat ->
  on_disk (run w args (Ok df) m start).2 = df.
Proof.
  intros Hty Hdf Hw. apply exit_on_disk. by apply (numbers_exit ty).
Qed.

End invariant.

(** ** How long a group waits *)

Section latency.

Context (w : Writer) (args : Args).
Context (writes : forall name rows, write_error w name rows = None).

(** Files written earlier are groups written earlier. *)
Lemma written_groups_prefix (fs fs' : list file) :
  fs `prefix_of` fs' -> written_groups fs `prefix_of` written_groups fs'.
Proof.
  intros [k ->]. unfold written_groups. destruct fs as [|f fs]; simpl.
  - apply prefix_nil.
  - rewrite map_app. by apply prefix_app_r.
Qed.

(** On integer sizes, the groups closed among the first rows of the
    manifest are files once nine transitions a row, and the six before
    the loop, have been made. *)
Lemma closed_on_disk (pre rest : list Row) (m : nat) :
  Forall int_row pre -> (9 * length pre + 6 <= m)%nat ->
  (scan int_size (limit_of args) [] 0 pre).1
    `prefix_of` written_groups (files (run w args (Ok (pre ++ rest)) m start).2).
Proof.
  intros Hpre Hm.
  pose proof (head_run w args (Ok (pre ++ rest)) _ _ eq_refl (writes _ _)
                (limit_bytes_eq _)) as H6. fold (limit_of args) in H6.
  destruct (rows_run w args (Ok (pre ++ rest)) (limit_of args) pre rest
              (init_state [(full_list_name (prefix args), pre ++ rest)]))
    as (n & Hn & Hrun).
  unfold exec in Hrun.
  rewrite (refines_writable w _ _ _ writes (refines_for_each w _ _ _
             (fun row => refines_step w _ _ row))) in Hrun.
  rewrite (for_each_int _ _ _ _ Hpre) in Hrun by done.
  replace m with (6 + (n + (m - (6 + n))))%nat by lia.
  rewrite !run_add, H6, Hrun.
  etrans; [|apply written_groups_prefix, run_files].
  unfold scanned, init_state. cbn [current_group group_count files snd].
  rewrite total_nil. destruct (scan int_size (limit_of args) [] 0 pre) as [closed open].
  cbn [fst files app]. by rewrite written_groups_cons.
Qed.

(** A group that is followed by another is a file nine transitions after
    the first row of the next group was read, however many rows follow. *)
Lemma group_on_disk (df : list Row) (gs : list (list Row)) (g g' : list Row)
    (more : list (list Row)) (m : nat) :
  Forall int_row df ->
  written_groups (out_files (run_main args (Ok df))) = gs ++ g :: g' :: more ->
  (9 * (length (concat gs) + length g + 1) + 6 <= m)%nat ->
  (gs ++ [g]) `prefix_of` written_groups (files (run w args (Ok df) m start).2).
Proof.
  intros Hdf Hgs Hm. rewrite (written_groups_int (limit_of args)) in Hgs by done.
  pose proof (pack_nonempty int_size (limit_of args) df) as Hne.
  rewrite Hgs, Forall_app, !Forall_cons in Hne. destruct Hne as (_ & _ & Hg' & _).
  destruct g' as [|x t]; [done|].
  pose proof (pack_concat int_size (limit_of args) df) as Hc.
  rewrite Hgs, concat_app in Hc. simpl in Hc.
  assert (df = (concat gs ++ g ++ [x]) ++ t ++ concat more) as ->
    by (rewrite <-Hc; by rewrite <-!app_assoc).
  rewrite <-(scan_closed_upto _ _ _ _ _ _ _ _ Hgs).
  apply closed_on_disk.
  - by apply Forall_app in Hdf as [? _].
  - rewrite !length_app. simpl. lia.
Qed.

(** Every group is a file when the machine has ended. *)
Lemma groups_on_disk (df : list Row) (m : nat) :
  (9 * length df + 9 <= m)%nat ->
  written_groups (files (run w args (Ok df) m start).2)
  = written_groups (out_files (run_main args (Ok df))).
Proof.
  intros Hm. pose proof (run_outcome w args (Ok df) m Hm) as Hout.
  rewrite run_main_io_writable in Hout by (apply Forall_forall; intros; apply writes).
  by rewrite <-Hout.
Qed.

End latency.

(** ** Properties of the machine *)

(** Claim C18. Termination: from any configuration, the machine has ended
    after as many transitions as the measure of the configuration, nine
    for every row still to read and a constant; and the transition
    relation has no infinite sequence. *)
Theorem machine_terminates (w : Writer) (args : Args) (read_csv : result (list Row))
    (c : config) (fuel : nat) :
  (weight read_csv c <= fuel)%nat ->
  terminal w args read_csv (run w args read_csv fuel c)
  /\ sn (mstep w args read_csv) c.
Proof. intros Hfuel. split; [by apply run_ends|apply mstep_sn]. Qed.

Lemma machine_terminates_witness :
  terminal always_writes ten_bytes (Ok [sized 3; sized 8; sized 2])
    (run always_writes ten_bytes (Ok [sized 3; sized 8; sized 2]) 36 start)
  /\ sn (mstep always_writes ten_bytes (Ok [sized 3; sized 8; sized 2])) start.
Proof. apply machine_terminates. unfold weight, start. simpl. lia. Defined.

(** Claim C13. The machine and the program agree: run from the first line
    with fuel for nine transitions a row and nine more, the machine ends
    in the files and the exception of [main_io], the script composed of
    its statements in the monad, whatever the writer, the manifest and the
    limit are. *)
Theorem machine_runs_main (w : Writer) (args : Args) (read_csv : result (list Row))
    (fuel : nat) :
  (weight read_csv start <= fuel)%nat ->
  outcome_of (run w args read_csv fuel start) = run_main_io w args read_csv.
Proof. apply run_outcome. Qed.

Lemma machine_runs_main_witness :
  outcome_of (run second_group_fails ten_bytes (Ok [sized 3; sized 8; sized 2; sized 9]) 45 start)
  = run_main_io second_group_fails ten_bytes (Ok [sized 3; sized 8; sized 2; sized 9]).
Proof. apply machine_runs_main. unfold weight, start. simpl. lia. Defined.

(** Claim C23. Every group reaches the disk, and how soon: on integer
    sizes and a writer that writes every file, when the machine has made
    nine transitions a row and nine more, the group files are the groups
    of the run; and a group that is followed by another is a file
    earlier, nine transitions after the first row of the next group was
    read, that is after six transitions and nine for every row up to that
    one, however many rows follow. The files stay from then on. *)
Theorem rows_eventually_on_disk (w : Writer) (args : Args) (df : list Row) :
  Forall int_row df ->
  (forall name rows, write_error w name rows = None) ->
  (forall m, (9 * length df + 9 <= m)%nat ->
     written_groups (files (run w args (Ok df) m start).2)
     = written_groups (out_files (run_main args (Ok df))))
  /\ (forall gs g g' more m,
        written_groups (out_files (run_main args (Ok df))) = gs ++ g :: g' :: more ->
        (9 * (length (concat gs) + length g + 1) + 6 <= m)%nat ->
        (gs ++ [g]) `prefix_of` written_groups (files (run w args (Ok df) m start).2)).
Proof.
  intros Hdf Hw. split.
  - intros m. by apply groups_on_disk.
  - intros gs g g' more m. by apply group_on_disk.
Qed.

Lemma rows_eventually_on_disk_witness :
  (forall m, (9 * length [sized 3; sized 8; sized 2] + 9 <= m)%nat ->
     written_groups (files (run always_writes ten_bytes (Ok [sized 3; sized 8; sized 2])
                              m start).2)
     = written_groups (out_files (run_main ten_bytes (Ok [sized 3; sized 8; sized 2]))))
  /\ (forall gs g g' more m,
        written_groups (out_files (run_main ten_bytes (Ok [sized 3; sized 8; sized 2])))
        = gs ++ g :: g' :: more ->
        (9 * (length (concat gs) + length g + 1) + 6 <= m)%nat ->
        (gs ++ [g]) `prefix_of`
          written_groups (files (run always_writes ten_bytes (Ok [sized 3; sized 8; sized 2])
                                   m start).2)).
Proof. apply rows_eventually_on_disk; [repeat constructor|done]. Defined.

(** Claim C19. No row is misplaced at any point of a run, whatever writes
    fail: in every configuration the script goes through, the rows in
    group files are the first rows of the manifest, in its order, no group
    file is empty, and when the script has exited they are the whole
    manifest. *)
Theorem rows_written_in_order (w : Writer) (args : Args) (df : list Row) (c : config) :
  rtc (mstep w args (Ok df)) start c ->
  on_disk c.2 `prefix_of` df
  /\ Forall (fun g => g <> []) (written_groups (files c.2))
  /\ (c.1 = Exit -> on_disk c.2 = df).
Proof.
  intros Hc. apply (reachable_line_inv w args df c) in Hc.
  destruct (line_inv_on_disk df c Hc) as [Hp Hne].
  repeat split; [done..|]. destruct c as [l st]. simpl. intros ->.
  by apply line_inv_exit.
Qed.

Lemma rows_written_in_order_witness :
  on_disk (run second_group_fails ten_bytes (Ok [sized 3; sized 8; sized 2]) 30 start).2
    `prefix_of` [sized 3; sized 8; sized 2]
  /\ Forall (fun g => g <> [])
       (written_groups
          (files (run second_group_fails ten_bytes (Ok [sized 3; sized 8; sized 2]) 30 start).2))
  /\ ((run second_group_fails ten_bytes (Ok [sized 3; sized 8; sized 2]) 30 start).1 = Exit ->
      on_disk (run second_group_fails ten_bytes (Ok [sized 3; sized 8; sized 2]) 30 start).2
      = [sized 3; sized 8; sized 2]).
Proof. apply (rows_written_in_order second_group_fails ten_bytes), run_rtc. Defined.
