(* ===== verification/Rerun.v ===== *)
(** * Rerun: the directory over several runs of [data_grouper.py]

    [DataFrame.to_excel] creates the file it is given, or replaces it when
    the name is taken. The script never lists or deletes anything: what a
    run finds in the directory stays there unless the run writes a file of
    the same name. This file models the directory as a finite map from
    names to rows, a run in a directory ([run_in]), and the group files as
    someone who opens the directory afterwards finds them ([disk_groups]:
    the files numbered 1, 2, ... up to the first number that is missing).

    It proves that reading the groups back from a fresh directory gives
    the groups of the run; that a run touches the files it names and no
    other; that a second run with the same arguments and manifest changes
    nothing; and that after a second run with the same prefix that writes
    fewer groups, the groups of the first run that were not replaced are
    still there, after those of the second. *)

From stdpp Require Import gmap.
From S2P Require Import Prelude PyFloat PyValue Naming Grouper.

#[local] Open Scope Z_scope.

(** ** Definitions *)

(** [to_excel] in a directory, which holds the rows of every file by
    name: the file is created, or replaced. *)
Definition write_file (d : gmap string (list Row)) (f : file) : gmap string (list Row) := <[f.1 := f.2]> d.

(** The files of a log, written in their order. *)
Definition write_all (d : gmap string (list Row)) (fs : list file) : gmap string (list Row) := foldl write_file d fs.

(** A run of the script in the directory [d]. *)
Definition run_in (d : gmap string (list Row)) (args : Args) (read_csv : result (list Row)) : gmap string (list Row) :=
  write_all d (out_files (run_main args read_csv)).

(** The groups numbered [n], [n + 1], ... of a directory, up to the first
    number that has no file; [fuel] bounds how many are read. *)
Fixpoint groups_from (d : gmap string (list Row)) (prefix : string) (n : Z) (fuel : nat)
    : list (list Row) :=
  match fuel with
  | O => []
  | S fuel' =>
      match d !! output_name prefix n with
      | Some g => g :: groups_from d prefix (n + 1) fuel'
      | None => []
      end
  end.

(** The groups of a directory. A directory of [size d] files holds no more
    groups than that. *)
Definition disk_groups (d : gmap string (list Row)) (prefix : string) : list (list Row) :=
  groups_from d prefix 1 (size d).

(** A command line with a limit of [100 / 1024**4] TB, that is 100 bytes. *)
Definition hundred_bytes : Args :=
  {| results := "merged.csv";
     limit_tb := S754_finite false 25 (-38);
     prefix := "out" |}.

Implicit Types (d : gmap string (list Row)) (fs : list file) (gs : list (list Row)).

(** ** Writing a log into a directory *)

Lemma disk_of_snoc fs (f : file) : disk_of (fs ++ [f]) = write_file (disk_of fs) f.
Proof. unfold disk_of. by rewrite reverse_snoc. Qed.

Lemma write_all_snoc d fs (f : file) :
  write_all d (fs ++ [f]) = write_file (write_all d fs) f.
Proof. unfold write_all. by rewrite foldl_app. Qed.

(** The files of the log hide those of the directory that have their
    names; the others stay. *)
Lemma write_all_union d fs : write_all d fs = disk_of fs ∪ d.
Proof.
  induction fs as [|f fs IH] using rev_ind.
  - unfold disk_of. simpl. by rewrite (left_id_L ∅ (∪)).
  - rewrite write_all_snoc, disk_of_snoc, IH. unfold write_file.
    by rewrite insert_union_l.
Qed.

Lemma write_all_empty fs : write_all ∅ fs = disk_of fs.
Proof. by rewrite write_all_union, (right_id_L ∅ (∪)). Qed.

Lemma write_all_idemp d fs : write_all (write_all d fs) fs = write_all d fs.
Proof. by rewrite !write_all_union, (assoc_L (∪)), (idemp_L (∪)). Qed.

Lemma disk_of_not_written fs (name : string) :
  name ∉ written_names fs -> disk_of fs !! name = None.
Proof.
  intros Hn. unfold disk_of. apply not_elem_of_list_to_map_1.
  by rewrite fmap_reverse, elem_of_reverse.
Qed.

Lemma write_all_frame d fs (name : string) :
  name ∉ written_names fs -> write_all d fs !! name = d !! name.
Proof.
  intros Hn. rewrite write_all_union. apply lookup_union_r.
  by apply disk_of_not_written.
Qed.

(** ** The files of a run, by name *)

Lemma group_name_written (prefix : string) (rows : list Row) gs (i : nat) :
  output_name prefix (1 + Z.of_nat i)
    ∈ written_names ([(full_list_name prefix, rows)] ++ group_files prefix 1 gs)
  <-> (i < length gs)%nat.
Proof.
  rewrite written_names_files, elem_of_cons, list_elem_of_fmap. split.
  - intros [Heq|(n & Heq & Hn)].
    + by destruct (full_list_name_not_group prefix (1 + Z.of_nat i)).
    + apply (inj (output_name prefix)) in Heq as <-. apply elem_of_seqZ in Hn. lia.
  - intros Hi. right. exists (1 + Z.of_nat i). split; [done|].
    apply elem_of_seqZ. lia.
Qed.

Lemma disk_of_group_lookup (prefix : string) (rows : list Row) gs (i : nat) :
  disk_of ([(full_list_name prefix, rows)] ++ group_files prefix 1 gs)
    !! output_name prefix (1 + Z.of_nat i)
  = gs !! i.
Proof.
  destruct (gs !! i) as [g|] eqn:Hi.
  - apply disk_of_lookup.
    + rewrite written_names_files. apply output_names_NoDup.
    + apply elem_of_app. right. apply list_elem_of_lookup. exists i.
      by apply group_files_lookup.
  - apply disk_of_not_written. rewrite group_name_written.
    apply lookup_ge_None in Hi. lia.
Qed.

(** The file numbered [1 + i] of a run is its group of index [i]. *)
Lemma run_disk_lookup (args : Args) (df : list Row) (i : nat) :
  disk_of (out_files (run_main args (Ok df))) !! output_name (prefix args) (1 + Z.of_nat i)
  = written_groups (out_files (run_main args (Ok df))) !! i.
Proof.
  destruct (run_main_shape args df) as (gs & open & rest & -> & _).
  rewrite written_groups_files. apply disk_of_group_lookup.
Qed.

(** ** Reading the groups back *)

Lemma groups_from_spec d (prefix : string) (n : Z) gs (fuel : nat) :
  (forall i : nat, d !! output_name prefix (n + Z.of_nat i) = gs !! i) ->
  (length gs <= fuel)%nat ->
  groups_from d prefix n fuel = gs.
Proof.
  revert n fuel. induction gs as [|g gs IH]; intros n fuel Hd Hfuel.
  - specialize (Hd 0%nat). rewrite Z.add_0_r in Hd.
    destruct fuel; simpl; [done|]. by rewrite Hd.
  - destruct fuel as [|fuel]; simpl in Hfuel; [lia|].
    pose proof (Hd 0%nat) as H0. rewrite Z.add_0_r in H0. simpl in *. rewrite H0.
    f_equal. apply IH; [|lia].
    intros i. specialize (Hd (S i)). simpl in Hd. rewrite <-Hd. do 2 f_equal. lia.
Qed.

(** A directory holds as many files as it has consecutive groups, at
    least. *)
Lemma groups_size d (prefix : string) (n : Z) gs :
  (forall i : nat, d !! output_name prefix (n + Z.of_nat i) = gs !! i) ->
  (length gs <= size d)%nat.
Proof.
  intros Hd.
  set (names := output_name prefix <$> seqZ n (Z.of_nat (length gs))).
  assert (NoDup names) as Hnd by (apply (NoDup_fmap_2 _), NoDup_seqZ).
  assert (list_to_set names ⊆ dom d) as Hsub.
  { intros name [k [-> Hk]]%elem_of_list_to_set%list_elem_of_fmap.
    apply elem_of_seqZ in Hk. apply elem_of_dom.
    replace k with (n + Z.of_nat (Z.to_nat (k - n))) by lia.
    rewrite Hd. apply lookup_lt_is_Some. lia. }
  apply subseteq_size in Hsub.
  rewrite size_list_to_set, size_dom in Hsub by done.
  unfold names in Hsub. rewrite length_fmap, length_seqZ in Hsub. lia.
Qed.

Lemma disk_groups_spec d (prefix : string) gs :
  (forall i : nat, d !! output_name prefix (1 + Z.of_nat i) = gs !! i) ->
  disk_groups d prefix = gs.
Proof.
  intros Hd. apply groups_from_spec; [done|]. by apply (groups_size d prefix 1).
Qed.

(** ** Runs *)

(** In a fresh directory, the groups read back are the groups written. *)
Lemma run_in_fresh_groups (args : Args) (df : list Row) :
  disk_groups (run_in ∅ args (Ok df)) (prefix args)
  = written_groups (out_files (run_main args (Ok df))).
Proof.
  unfold run_in. rewrite write_all_empty. apply disk_groups_spec.
  intros i. apply run_disk_lookup.
Qed.

Lemma lookup_union_app gs1 gs2 (i : nat) :
  gs2 !! i ∪ gs1 !! i = (gs2 ++ drop (length gs2) gs1) !! i.
Proof.
  destruct (decide (i < length gs2)%nat) as [Hi|Hi].
  - rewrite lookup_app_l by done.
    destruct (lookup_lt_is_Some_2 gs2 i Hi) as [g ->]. by destruct (gs1 !! i).
  - rewrite lookup_app_r, lookup_drop by lia.
    rewrite (lookup_ge_None_2 gs2 i) by lia.
    rewrite (left_id_L None (∪)). f_equal. lia.
Qed.

(** After a second run with the same prefix: the groups of the second
    run, then the groups of the first that it did not replace. *)
Lemma run_in_twice_groups (args1 args2 : Args) (df1 df2 : list Row) :
  prefix args1 = prefix args2 ->
  disk_groups (run_in (run_in ∅ args1 (Ok df1)) args2 (Ok df2)) (prefix args2)
  = written_groups (out_files (run_main args2 (Ok df2)))
    ++ drop (length (written_groups (out_files (run_main args2 (Ok df2)))))
         (written_groups (out_files (run_main args1 (Ok df1)))).
Proof.
  intros Hp. apply disk_groups_spec. intros i. unfold run_in.
  rewrite write_all_union, write_all_empty, lookup_union, run_disk_lookup.
  rewrite <-Hp, run_disk_lookup. apply lookup_union_app.
Qed.

(** ** Properties of the directory *)

(** Claim C28. Reading back: in a fresh directory, the group files found
    after a run, read in the order of their numbers up to the first
    number that is missing, are the groups the run wrote, whatever the
    cells hold and however the run ended. *)
Theorem fresh_run_groups_roundtrip (args : Args) (df : list Row) :
  disk_groups (run_in ∅ args (Ok df)) (prefix args)
  = written_groups (out_files (run_main args (Ok df))).
Proof. apply run_in_fresh_groups. Qed.

(** A run touches the files it names and no other: a file of the
    directory whose name the run does not write is after the run what it
    was before. *)
Theorem run_in_frame (d : gmap string (list Row)) (args : Args) (read_csv : result (list Row))
    (name : string) :
  name ∉ written_names (out_files (run_main args read_csv)) ->
  run_in d args read_csv !! name = d !! name.
Proof. apply write_all_frame. Qed.

Lemma run_in_frame_witness :
  run_in {[ "notes.txt" := [] ]} ten_bytes (Ok [sized 3; sized 8]) !! "notes.txt"
  = ({[ "notes.txt" := [] ]} : gmap string (list Row)) !! "notes.txt".
Proof. apply run_in_frame. by apply (bool_decide_unpack _). Defined.

(** Safe re-runs: a second run with the same arguments on the
    same manifest leaves the directory as the first run left it. *)
Theorem rerun_idempotent (d : gmap string (list Row)) (args : Args) (read_csv : result (list Row)) :
  run_in (run_in d args read_csv) args read_csv = run_in d args read_csv.
Proof. apply write_all_idemp. Qed.

(** Claim C29. Stale groups: after a second run in the same directory with
    the same prefix, the group files are those of the second run followed
    by the groups of the first run that the second did not replace. When
    the second run writes fewer groups than the first, the directory holds
    groups of two different partitions. *)
Theorem rerun_keeps_stale_groups (args1 args2 : Args) (df1 df2 : list Row) :
  prefix args1 = prefix args2 ->
  disk_groups (run_in (run_in ∅ args1 (Ok df1)) args2 (Ok df2)) (prefix args2)
  = written_groups (out_files (run_main args2 (Ok df2)))
    ++ drop (length (written_groups (out_files (run_main args2 (Ok df2)))))
         (written_groups (out_files (run_main args1 (Ok df1)))).
Proof. apply run_in_twice_groups. Qed.

Lemma rerun_keeps_stale_groups_witness :
  disk_groups
    (run_in (run_in ∅ ten_bytes (Ok [sized 3; sized 8; sized 2; sized 9]))
       hundred_bytes (Ok [sized 3; sized 8; sized 2; sized 9])) (prefix hundred_bytes)
  = written_groups (out_files (run_main hundred_bytes (Ok [sized 3; sized 8; sized 2; sized 9])))
    ++ drop (length (written_groups
                       (out_files (run_main hundred_bytes
                                     (Ok [sized 3; sized 8; sized 2; sized 9])))))
         (written_groups
            (out_files (run_main ten_bytes (Ok [sized 3; sized 8; sized 2; sized 9])))).
Proof. by apply rerun_keeps_stale_groups. Defined.

(** A second run with a larger limit: the manifest of four rows is one
    group of the second run, and the second and third groups of the first
    run are still in the directory, so that three rows are there twice. *)
Example rerun_duplicates_rows :
  written_groups (out_files (run_main hundred_bytes (Ok [sized 3; sized 8; sized 2; sized 9])))
  = [[sized 3; sized 8; sized 2; sized 9]]
  /\ disk_groups
       (run_in (run_in ∅ ten_bytes (Ok [sized 3; sized 8; sized 2; sized 9]))
          hundred_bytes (Ok [sized 3; sized 8; sized 2; sized 9])) "out"
     = [[sized 3; sized 8; sized 2; sized 9]; [sized 8; sized 2]; [sized 9]].
Proof.
  split; [reflexivity|].
  by rewrite (run_in_twice_groups ten_bytes hundred_bytes).
Qed.
