(* ===== verification/InputParser.v ===== *)
(** * InputParser: [src/bin/input_parser.py]

    The script reads a table with the reader its file name calls for, takes
    one column of it as a list of folders, walks every folder that exists
    and prints the absolute path of the files it keeps.

    [pandas] and [os] are libraries the script only calls: their functions
    are the fields of the Record [Env], the interface between the script
    and its environment, and the theorems hold for every environment. What
    the script prints is the state of the program: the lines of the
    standard output and of the standard error, in order.

    A cell of the column of folders is a string, or the float NaN that
    [pandas] puts where the file has nothing. [os.path.exists] raises
    [TypeError] for a float, so that a blank cell ends the scan; the
    theorems say what is printed above it. Cells of other types (an
    integer is a file descriptor for [os.stat]) are not modelled. *)

From Stdlib Require Export Ascii.
From stdpp Require Import gmap.
From stdpp Require Export strings.
From S2P Require Import Prelude.

#[local] Open Scope Z_scope.

(** ** Data *)

(** A cell of a table, as the script meets it in the column of folders: a
    string, or the float NaN that [pandas] puts where the file has
    nothing. *)
Inductive cell : Type :=
| CStr (s : string)
| CNaN.

#[export] Instance cell_eq_dec : EqDecision cell.
Proof. solve_decision. Defined.

(** A table, as far as the script looks at it: its columns by name. *)
Definition table : Type := gmap string (list cell).

(** One step of [os.walk]: a directory, its sub-directories and its files. *)
Record walk_entry : Type := {
  root : string;
  dirs : list string;
  files : list string
}.

(** The environment of the script. *)
Record Env : Type := {
  read_excel : string -> result table;
  read_csv : string -> string -> result table;
  path_exists : string -> bool;
  walk : string -> list walk_entry;
  path_join : string -> string -> string;
  abspath : string -> string
}.

(** The command line (lines 8-12). *)
Record InputArgs : Type := {
  input : string;
  col : string;
  scan_all : bool
}.

(** The defaults of the optional arguments. *)
Definition parse_input_args (input : string) (col : option string) (scan_all : bool)
    : InputArgs :=
  {| input := input; col := default "Secondary Path" col; scan_all := scan_all |}.

(** What the script has printed. A line of the standard error is the
    exception whose text follows ["Error reading file: "]. *)
Record console : Type := {
  stdout : list string;
  stderr : list pyexn
}.

Inductive reader : Type :=
| Excel
| Csv
| Tsv.

#[export] Instance reader_eq_dec : EqDecision reader.
Proof. solve_decision. Defined.

(** ** Operations *)

(** [s.endswith(suffix)]: [suffix] is [s] or ends a tail of [s]. *)
Fixpoint endswith (s suffix : string) : bool :=
  String.eqb s suffix ||
  match s with
  | "" => false
  | String _ s' => endswith s' suffix
  end.

(** Lines 16-21: the reader by the end of the file name. *)
Definition choose_reader (input : string) : reader :=
  if endswith input ".xlsx" then Excel
  else if endswith input ".csv" then Csv
  else Tsv.

Definition tab : string := String (ascii_of_nat 9) "".

Definition read_table (env : Env) (input : string) : result table :=
  match choose_reader input with
  | Excel => read_excel env input
  | Csv => read_csv env input ","
  | Tsv => read_csv env input tab
  end.

(** [os.path.exists(folder_path)]: for a float [os.stat] raises
    [TypeError], which [exists] does not catch. *)
Definition exists_cell (env : Env) (folder_path : cell) : result bool :=
  match folder_path with
  | CStr s => Ok (path_exists env s)
  | CNaN => Raise TypeError
  end.

(** [os.walk(folder_path)] *)
Definition walk_cell (env : Env) (folder_path : cell) : result (list walk_entry) :=
  match folder_path with
  | CStr s => Ok (walk env s)
  | CNaN => Raise TypeError
  end.

(** [df[name]] *)
Definition column (df : table) (name : string) : result (list cell) :=
  match df !! name with
  | Some cells => Ok cells
  | None => Raise KeyError
  end.

(** [print(line)] and [print(..., file=sys.stderr)] *)
Definition print (line : string) : prog console unit :=
  modify (fun c => {| stdout := stdout c ++ [line]; stderr := stderr c |}).

Definition print_error (e : pyexn) : prog console unit :=
  modify (fun c => {| stdout := stdout c; stderr := stderr c ++ [e] |}).

(** Line 34: the test that keeps a file. *)
Definition keeps (scan_all : bool) (file : string) : bool :=
  scan_all || endswith file ".fq.gz".

(** Lines 28-35: one folder of the column. *)
Definition scan_folder (env : Env) (scan_all : bool) (folder_path : cell)
    : prog console unit :=
  (found <- lift (exists_cell env folder_path) ;;
   when found
     (entries <- lift (walk_cell env folder_path) ;;
      for_each entries (fun entry =>
        for_each (files entry) (fun file =>
          when (keeps scan_all file)
            (print (abspath env (path_join env (root entry) file)))))))%prog.

(** Lines 27-35: the scan. *)
Definition scan_folders (env : Env) (scan_all : bool) (folders : list cell)
    : prog console unit :=
  for_each folders (scan_folder env scan_all).

(** Lines 7-35: the script. *)
Definition input_main (env : Env) (args : InputArgs) : prog console unit :=
  (df <- try_except (lift (read_table env (input args)))
           (fun e => (print_error e ;; raise (SystemExit 1))%prog) ;;
   folders <- lift (column df (col args)) ;;
   scan_folders env (scan_all args) folders)%prog.

Definition run_input_main (env : Env) (args : InputArgs) : console * option pyexn :=
  let '(c, r) := input_main env args {| stdout := []; stderr := [] |} in
  (c, match r with Ok _ => None | Raise e => Some e end).

(** ** Reference *)

(** The lines of the scan, as a comprehension: the folders that exist, in
    the order of the column; their directories, in the order of the walk;
    the files kept, in the order of the listing. *)
Definition scan_lines (env : Env) (scan_all : bool) (folders : list string)
    : list string :=
  folder_path ← filter (fun f => path_exists env f = true) folders;
  entry ← walk env folder_path;
  file ← filter (fun f => keeps scan_all f = true) (files entry);
  [abspath env (path_join env (root entry) file)].

(** The folders of a column above its first cell that is not a string,
    and whether there is such a cell. *)
Fixpoint leading_paths (cells : list cell) : list string * bool :=
  match cells with
  | [] => ([], false)
  | CStr s :: cells' => let '(paths, blank) := leading_paths cells' in (s :: paths, blank)
  | CNaN :: _ => ([], true)
  end.

(** A concrete environment on which the theorems are exercised: a table
    [samples.csv] with one column of two folders, of which [/data/run1]
    exists and holds two files. *)
Definition sample_env : Env :=
  {| read_excel := fun _ => Raise OSError;
     read_csv := fun name sep =>
       if String.eqb name "samples.csv"
       then Ok {[ "Secondary Path" := [CStr "/data/run1"; CStr "/data/gone"] ]}
       else Raise OSError;
     path_exists := fun p => String.eqb p "/data/run1";
     walk := fun p => [{| root := p; dirs := []; files := ["a.fq.gz"; "notes.txt"] |}];
     path_join := fun a b => a +:+ "/" +:+ b;
     abspath := fun p => p |}.

(** The same directories, and a table whose second cell is blank. *)
Definition blank_env : Env :=
  {| read_excel := read_excel sample_env;
     read_csv := fun _ _ =>
       Ok {[ "Secondary Path" := [CStr "/data/run1"; CNaN; CStr "/data/run1"] ]};
     path_exists := path_exists sample_env;
     walk := walk sample_env;
     path_join := path_join sample_env;
     abspath := abspath sample_env |}.

(** [emits p ls]: the program [p] prints the lines [ls] on the standard
    output, in order, and does nothing else. *)
Definition emits (p : prog console unit) (ls : list string) : Prop :=
  forall c : console, p c = ({| stdout := stdout c ++ ls; stderr := stderr c |}, Ok tt).

(** ** Lemmas on strings *)

Lemma endswith_self (s : string) : endswith s s = true.
Proof. destruct s; cbn [endswith]; by rewrite String.eqb_refl. Qed.

Lemma endswith_tail (c : ascii) (s suffix : string) :
  endswith s suffix = true -> endswith (String c s) suffix = true.
Proof. intros H. cbn [endswith]. rewrite H. apply orb_true_r. Qed.

Lemma endswith_app (p suffix : string) : endswith (p +:+ suffix) suffix = true.
Proof.
  induction p as [|c p IH]; [apply endswith_self|].
  by apply endswith_tail.
Qed.

Lemma endswith_inv (s suffix : string) :
  endswith s suffix = true -> exists p, s = p +:+ suffix.
Proof.
  induction s as [|c s IH]; cbn [endswith].
  - rewrite orb_false_r. intros ->%String.eqb_eq. by exists "".
  - intros [->%String.eqb_eq|H]%orb_true_iff; [by exists ""|].
    destruct (IH H) as [p ->]. by exists (String c p).
Qed.

(** A name does not end in both [.xlsx] and [.csv]. *)
Lemma endswith_xlsx_csv (s : string) :
  endswith s ".xlsx" = true -> endswith s ".csv" = false.
Proof.
  induction s as [|c s IH]; [done|]. cbn [endswith].
  intros [Heq%String.eqb_eq|H]%orb_true_iff; [by injection Heq as -> ->|].
  rewrite (IH H), orb_false_r.
  apply String.eqb_neq. intros Heq. injection Heq as -> ->. by vm_compute in H.
Qed.

(** ** Lemmas on printing programs *)

Lemma emits_print (line : string) : emits (print line) [line].
Proof. by intros c. Qed.

Lemma emits_when (b : bool) (p : prog console unit) (ls : list string) :
  emits p ls -> emits (when b p) (if b then ls else []).
Proof.
  intros Hp c. destruct b; simpl; [apply Hp|].
  unfold pret. rewrite app_nil_r. by destruct c.
Qed.

Lemma emits_for_each {A : Type} (l : list A) (body : A -> prog console unit)
    (g : A -> list string) :
  (forall a, emits (body a) (g a)) -> emits (for_each l body) (l ≫= g).
Proof.
  intros Hbody. induction l as [|a l IH]; intros c.
  - simpl. unfold pret. rewrite app_nil_r. by destruct c.
  - rewrite for_each_cons, Hbody, IH, bind_cons. simpl. by rewrite app_assoc.
Qed.

(** The lines of one folder. *)
Lemma scan_folder_emits (env : Env) (scan_all : bool) (folder_path : string) :
  emits (scan_folder env scan_all (CStr folder_path))
    (scan_lines env scan_all [folder_path]).
Proof.
  unfold scan_folder, scan_lines. rewrite bind_filter.
  simpl. rewrite app_nil_r.
  replace (if decide (path_exists env folder_path = true) then _ else _)
    with (if path_exists env folder_path
          then walk env folder_path ≫= (fun entry =>
                 filter (fun f => keeps scan_all f = true) (files entry) ≫= (fun file =>
                   [abspath env (path_join env (root entry) file)]))
          else [])
    by (by destruct (path_exists env folder_path)).
  apply (emits_when (path_exists env folder_path)
           (for_each (walk env folder_path) _)), emits_for_each.
  intros entry. rewrite bind_filter.
  apply emits_for_each. intros file.
  replace (if decide (keeps scan_all file = true) then _ else _)
    with (if keeps scan_all file
          then [abspath env (path_join env (root entry) file)] else [])
    by (by destruct (keeps scan_all file)).
  apply emits_when, emits_print.
Qed.

Lemma scan_lines_cons (env : Env) (scan_all : bool) (folder_path : string)
    (folders : list string) :
  scan_lines env scan_all (folder_path :: folders)
  = scan_lines env scan_all [folder_path] ++ scan_lines env scan_all folders.
Proof.
  unfold scan_lines. rewrite !filter_cons, filter_nil.
  destruct (decide (path_exists env folder_path = true)); [|done].
  rewrite !bind_cons. simpl. by rewrite app_nil_r.
Qed.

Lemma leading_paths_strings (folders : list string) :
  leading_paths (CStr <$> folders) = (folders, false).
Proof.
  induction folders as [|s folders IH]; [done|].
  rewrite fmap_cons. cbn [leading_paths]. by rewrite IH.
Qed.

Lemma leading_paths_blank (pre : list string) (post : list cell) :
  leading_paths ((CStr <$> pre) ++ CNaN :: post) = (pre, true).
Proof.
  induction pre as [|s pre IH]; [done|].
  rewrite fmap_cons, <-app_comm_cons. cbn [leading_paths]. by rewrite IH.
Qed.

Lemma leading_paths_all (cells : list cell) :
  (leading_paths cells).2 = false -> cells = CStr <$> (leading_paths cells).1.
Proof.
  induction cells as [|[s|] cells IH]; simpl; [done| |done].
  destruct (leading_paths cells) as [paths blank]. simpl in *.
  intros Hb. simpl. f_equal. by apply IH.
Qed.

(** The scan prints the lines of the comprehension over the folders above
    the first blank cell, in order, and raises [TypeError] at that cell. *)
Lemma scan_folders_cells (env : Env) (scan_all : bool) (cells : list cell) (c : console) :
  scan_folders env scan_all cells c
  = ({| stdout := stdout c ++ scan_lines env scan_all (leading_paths cells).1;
        stderr := stderr c |},
     if (leading_paths cells).2 then Raise TypeError else Ok tt).
Proof.
  unfold scan_folders. revert c.
  induction cells as [|[s|] cells IH]; intros c.
  - simpl. unfold pret. rewrite app_nil_r. by destruct c.
  - rewrite for_each_cons, scan_folder_emits, IH. simpl.
    destruct (leading_paths cells) as [paths blank]. simpl.
    by rewrite (scan_lines_cons _ _ s paths), app_assoc.
  - rewrite for_each_cons. simpl. unfold scan_lines. simpl.
    rewrite app_nil_r. by destruct c.
Qed.

(** ** The script, case by case *)

Lemma run_input_main_read_error (env : Env) (args : InputArgs) (e : pyexn) :
  read_table env (input args) = Raise e -> is_Exception e = true ->
  run_input_main env args
  = ({| stdout := []; stderr := [e] |}, Some (SystemExit 1)).
Proof.
  intros Hr He. unfold run_input_main, input_main, pbind, try_except, lift.
  by rewrite Hr, He.
Qed.

Lemma run_input_main_no_column (env : Env) (args : InputArgs) (df : table) :
  read_table env (input args) = Ok df -> df !! col args = None ->
  run_input_main env args = ({| stdout := []; stderr := [] |}, Some KeyError).
Proof.
  intros Hr Hc. unfold run_input_main, input_main, pbind, try_except, lift, column.
  by rewrite Hr, Hc.
Qed.

Lemma run_input_main_cells (env : Env) (args : InputArgs) (df : table)
    (cells : list cell) :
  read_table env (input args) = Ok df -> df !! col args = Some cells ->
  run_input_main env args
  = ({| stdout := scan_lines env (scan_all args) (leading_paths cells).1; stderr := [] |},
     if (leading_paths cells).2 then Some TypeError else None).
Proof.
  intros Hr Hc. unfold run_input_main, input_main, pbind, try_except, lift, column.
  rewrite Hr, Hc, scan_folders_cells. simpl. by destruct (leading_paths cells).2.
Qed.

Lemma run_input_main_scan (env : Env) (args : InputArgs) (df : table)
    (folders : list string) :
  read_table env (input args) = Ok df -> df !! col args = Some (CStr <$> folders) ->
  run_input_main env args
  = ({| stdout := scan_lines env (scan_all args) folders; stderr := [] |}, None).
Proof.
  intros Hr Hc. by rewrite (run_input_main_cells _ _ _ _ Hr Hc), leading_paths_strings.
Qed.

Lemma run_input_main_blank (env : Env) (args : InputArgs) (df : table)
    (pre : list string) (post : list cell) :
  read_table env (input args) = Ok df ->
  df !! col args = Some ((CStr <$> pre) ++ CNaN :: post) ->
  run_input_main env args
  = ({| stdout := scan_lines env (scan_all args) pre; stderr := [] |}, Some TypeError).
Proof.
  intros Hr Hc. by rewrite (run_input_main_cells _ _ _ _ Hr Hc), leading_paths_blank.
Qed.

(** How the script ends: normally, after the whole column was scanned;
    with the exit of line 24; with [KeyError] or [TypeError]; or with
    what the reader raised, when that is no [Exception]. *)
Lemma run_input_main_ends (env : Env) (args : InputArgs) :
  (exists df folders,
     read_table env (input args) = Ok df /\ df !! col args = Some (CStr <$> folders)
     /\ run_input_main env args
        = ({| stdout := scan_lines env (scan_all args) folders; stderr := [] |}, None))
  \/ (exists c e,
        run_input_main env args = (c, Some e)
        /\ (e = SystemExit 1 \/ e = KeyError \/ e = TypeError
            \/ (read_table env (input args) = Raise e /\ is_Exception e = false))).
Proof.
  destruct (read_table env (input args)) as [df|e] eqn:Hr.
  - destruct (df !! col args) as [cells|] eqn:Hc.
    + rewrite (run_input_main_cells _ _ _ _ Hr Hc).
      destruct (leading_paths cells).2 eqn:Hb; [right; eauto 10|].
      left. exists df, (leading_paths cells).1. by rewrite <-leading_paths_all.
    + rewrite (run_input_main_no_column _ _ _ Hr Hc). right. eauto 10.
  - destruct (is_Exception e) eqn:He.
    + rewrite (run_input_main_read_error _ _ _ Hr He). right. eauto 10.
    + right. exists {| stdout := []; stderr := [] |}, e. split; [|eauto 10].
      unfold run_input_main, input_main, pbind, try_except, lift. by rewrite Hr, He.
Qed.

(** The lines of the scan, one by one. *)
Lemma elem_of_scan_lines (env : Env) (scan_all : bool) (folders : list string)
    (line : string) :
  line ∈ scan_lines env scan_all folders <->
  exists folder_path entry file,
    folder_path ∈ folders /\ path_exists env folder_path = true
    /\ entry ∈ walk env folder_path
    /\ file ∈ files entry /\ keeps scan_all file = true
    /\ line = abspath env (path_join env (root entry) file).
Proof.
  unfold scan_lines. setoid_rewrite list_elem_of_bind.
  setoid_rewrite list_elem_of_bind. setoid_rewrite list_elem_of_bind.
  setoid_rewrite list_elem_of_filter. setoid_rewrite list_elem_of_singleton.
  split.
  - intros (folder_path & (entry & (file & -> & Hk & Hf) & He) & Hp & Hin).
    by exists folder_path, entry, file.
  - intros (folder_path & entry & file & Hin & Hp & He & Hf & Hk & ->).
    exists folder_path. split; [|done]. exists entry. split; [|done]. by exists file.
Qed.

Lemma scan_lines_sublist (env : Env) (folders : list string) :
  scan_lines env false folders `sublist_of` scan_lines env true folders.
Proof.
  unfold scan_lines. apply bind_sublist_pointwise. intros folder_path.
  apply bind_sublist_pointwise. intros entry. apply bind_sublist.
  by apply filter_sublist_impl.
Qed.

(** ** Properties of the script *)

(** Claim C37. When the table is read and has the column, the script prints
    exactly the lines of the comprehension, in its order (folders of the
    column that exist, directories of the walk, files kept), prints no
    error and ends normally. *)
Theorem scan_prints_comprehension (env : Env) (args : InputArgs) (df : table)
    (folders : list string) :
  read_table env (input args) = Ok df -> df !! col args = Some (CStr <$> folders) ->
  run_input_main env args
  = ({| stdout := scan_lines env (scan_all args) folders; stderr := [] |}, None).
Proof. apply run_input_main_scan. Qed.

Lemma scan_prints_comprehension_witness :
  run_input_main sample_env (parse_input_args "samples.csv" None false)
  = ({| stdout := scan_lines sample_env false ["/data/run1"; "/data/gone"];
        stderr := [] |}, None).
Proof.
  apply (scan_prints_comprehension sample_env
           (parse_input_args "samples.csv" None false)
           {[ "Secondary Path" := [CStr "/data/run1"; CStr "/data/gone"] ]}
           ["/data/run1"; "/data/gone"]); reflexivity.
Defined.

(** Every line printed is the absolute path of a file that the
    walk of an existing folder of the column lists and that the filter
    keeps: without [--scan_all], a file whose name ends in [.fq.gz]. And
    every such file is printed. *)
Theorem scan_filter_exact (env : Env) (args : InputArgs) (df : table)
    (folders : list string) (line : string) :
  read_table env (input args) = Ok df -> df !! col args = Some (CStr <$> folders) ->
  line ∈ stdout (run_input_main env args).1 <->
  exists folder_path entry file,
    folder_path ∈ folders /\ path_exists env folder_path = true
    /\ entry ∈ walk env folder_path /\ file ∈ files entry
    /\ (scan_all args = true \/ endswith file ".fq.gz" = true)
    /\ line = abspath env (path_join env (root entry) file).
Proof.
  intros Hr Hc. rewrite (run_input_main_scan _ _ _ _ Hr Hc). cbn [fst stdout].
  rewrite elem_of_scan_lines. unfold keeps.
  by setoid_rewrite orb_true_iff.
Qed.

Lemma scan_filter_exact_witness :
  "/data/run1/a.fq.gz"
    ∈ stdout (run_input_main sample_env (parse_input_args "samples.csv" None false)).1 <->
  exists folder_path entry file,
    folder_path ∈ ["/data/run1"; "/data/gone"]
    /\ path_exists sample_env folder_path = true
    /\ entry ∈ walk sample_env folder_path /\ file ∈ files entry
    /\ (scan_all (parse_input_args "samples.csv" None false) = true
        \/ endswith file ".fq.gz" = true)
    /\ "/data/run1/a.fq.gz" = abspath sample_env (path_join sample_env (root entry) file).
Proof.
  apply (scan_filter_exact sample_env
           (parse_input_args "samples.csv" None false)
           {[ "Secondary Path" := [CStr "/data/run1"; CStr "/data/gone"] ]}
           ["/data/run1"; "/data/gone"]); reflexivity.
Defined.

(** [--scan_all] only adds lines: what the script prints without
    it is a sub-list, in the same order, of what it prints with it. *)
Theorem scan_all_prints_more (env : Env) (a1 a2 : InputArgs) :
  input a1 = input a2 -> col a1 = col a2 ->
  scan_all a1 = false -> scan_all a2 = true ->
  stdout (run_input_main env a1).1 `sublist_of` stdout (run_input_main env a2).1.
Proof.
  intros Hi Hc H1 H2.
  destruct (read_table env (input a1)) as [df|e] eqn:Hr.
  - destruct (df !! col a1) as [cells|] eqn:Hcol.
    + rewrite (run_input_main_cells _ a1 _ _ Hr Hcol).
      rewrite Hi in Hr. rewrite Hc in Hcol.
      rewrite (run_input_main_cells _ a2 _ _ Hr Hcol), H1, H2.
      apply scan_lines_sublist.
    + rewrite (run_input_main_no_column _ a1 _ Hr Hcol). apply sublist_nil_l.
  - unfold run_input_main at 1, input_main, pbind, try_except, lift. rewrite Hr.
    destruct (is_Exception e); apply sublist_nil_l.
Qed.

Lemma scan_all_prints_more_witness :
  stdout (run_input_main sample_env (parse_input_args "samples.csv" None false)).1
  `sublist_of`
  stdout (run_input_main sample_env (parse_input_args "samples.csv" None true)).1.
Proof. apply scan_all_prints_more; reflexivity. Defined.

(** [s.endswith(suffix)] holds exactly when [s] is some string
    followed by [suffix]. *)
Theorem endswith_suffix (s suffix : string) :
  endswith s suffix = true <-> exists p, s = p +:+ suffix.
Proof.
  split; [apply endswith_inv|]. intros [p ->]. apply endswith_app.
Qed.

(** The reader is chosen by the end of the file name: the Excel
    reader exactly for the names that end in [.xlsx], the comma-separated
    reader exactly for those that end in [.csv], and the tab-separated
    reader for every other name. *)
Theorem choose_reader_cases (input : string) :
  (choose_reader input = Excel <-> endswith input ".xlsx" = true)
  /\ (choose_reader input = Csv <-> endswith input ".csv" = true)
  /\ (choose_reader input = Tsv <->
      endswith input ".xlsx" = false /\ endswith input ".csv" = false).
Proof.
  unfold choose_reader.
  destruct (endswith input ".xlsx") eqn:Ex.
  - rewrite (endswith_xlsx_csv _ Ex). repeat split; intros; destruct_and?; done.
  - destruct (endswith input ".csv"); repeat split; intros; destruct_and?; done.
Qed.

(** Claim C40. When the reader raises an exception, the script prints
    nothing on the standard output, reports the exception on the standard
    error and exits with status 1. *)
Theorem read_error_exits (env : Env) (args : InputArgs) (e : pyexn) :
  read_table env (input args) = Raise e -> is_Exception e = true ->
  run_input_main env args
  = ({| stdout := []; stderr := [e] |}, Some (SystemExit 1)).
Proof. apply run_input_main_read_error. Qed.

Lemma read_error_exits_witness :
  run_input_main sample_env (parse_input_args "absent.xlsx" None false)
  = ({| stdout := []; stderr := [OSError] |}, Some (SystemExit 1)).
Proof. apply read_error_exits; reflexivity. Defined.

(** When the table has no column of the name given by [--col],
    the script ends with [KeyError], outside the [try] of the readers:
    nothing is printed, on either stream. *)
Theorem missing_column_raises (env : Env) (args : InputArgs) (df : table) :
  read_table env (input args) = Ok df -> df !! col args = None ->
  run_input_main env args = ({| stdout := []; stderr := [] |}, Some KeyError).
Proof. apply run_input_main_no_column. Qed.

Lemma missing_column_raises_witness :
  run_input_main sample_env (parse_input_args "samples.csv" (Some "Path") false)
  = ({| stdout := []; stderr := [] |}, Some KeyError).
Proof.
  apply (missing_column_raises sample_env
           (parse_input_args "samples.csv" (Some "Path") false)
           {[ "Secondary Path" := [CStr "/data/run1"; CStr "/data/gone"] ]}); reflexivity.
Defined.

(** Claim C38. A blank cell in the column of folders ends the scan: the
    script prints the files of the folders above the cell, then ends with
    [TypeError] at line 28, outside the [try] of the readers; the folders
    below the cell are not scanned. *)
Theorem blank_cell_ends_scan (env : Env) (args : InputArgs) (df : table)
    (pre : list string) (post : list cell) :
  read_table env (input args) = Ok df ->
  df !! col args = Some ((CStr <$> pre) ++ CNaN :: post) ->
  run_input_main env args
  = ({| stdout := scan_lines env (scan_all args) pre; stderr := [] |}, Some TypeError).
Proof. apply run_input_main_blank. Qed.

Lemma blank_cell_ends_scan_witness :
  run_input_main blank_env (parse_input_args "samples.csv" None false)
  = ({| stdout := scan_lines blank_env false ["/data/run1"]; stderr := [] |},
     Some TypeError).
Proof.
  apply (blank_cell_ends_scan blank_env (parse_input_args "samples.csv" None false)
           {[ "Secondary Path" := [CStr "/data/run1"; CNaN; CStr "/data/run1"] ]}
           ["/data/run1"] [CStr "/data/run1"]); reflexivity.
Defined.
