(* ===== verification/Argparse.v ===== *)
(** * Argparse: the command line as [argparse] reads it

    Both scripts build an [ArgumentParser], declare their options with
    [add_argument] and call [parse_args]. This file models what that
    call does with a command line once its words are cut into options
    and arguments: an option declared with the action [store] converts
    its text with its [type] and keeps the value of its last occurrence;
    [store_true] keeps [True]; an option that is not given keeps its
    default; [--help] ends the script with status 0 where it stands; a
    text that does not convert, an option without its argument or with
    one too many end it with status 2 where they stand; what is not
    recognised, and a required option that is missing, end it with
    status 2 once the whole line is read.

    How [argparse] cuts the words of [sys.argv] (abbreviated options,
    [--name=text], negative numbers) is not modelled: a command line is a
    list of [item]s. The texts of the help and of the usage message are
    not modelled either.

    The theorems characterise the command lines that are accepted
    ([accepted]), give the namespace of an accepted line name by name
    ([last_given]: the last occurrence wins, the default otherwise), and
    show that the namespace is well typed when the defaults of the table
    are ([sound_table]). *)

From S2P Require Import Prelude PyFloat.
From stdpp Require Import strings gmap.

#[local] Open Scope Z_scope.

(** ** Definitions *)

(** What [parse_args] stores under the name of an option. *)
Inductive argval : Type :=
| ANone
| AStr (s : string)
| AFloat (f : float)
| ABool (b : bool).

#[export] Instance argval_eq_dec : EqDecision argval.
Proof. solve_decision. Defined.

(** [type=] of [add_argument]: absent (the text is kept) or [float]. *)
Inductive argtype : Type := AsText | AsFloat.

(** One call of [add_argument]: the action [store] with its type, whether
    the option is required, and its default; or the action
    [store_true]. *)
Inductive action : Type :=
| Store (type : argtype) (required : bool) (dflt : argval)
| StoreTrue.

(** The command line as [argparse] has cut it: an option with its
    argument, an option without one, a request for help, and anything it
    does not recognise. *)
Inductive item : Type :=
| Opt (name text : string)
| Flag (name : string)
| Help
| Stray (text : string).

#[export] Instance item_eq_dec : EqDecision item.
Proof. solve_decision. Defined.

(** The action declared for a name: the first of the table. *)
Fixpoint find_action (p : list (string * action)) (name : string) : option action :=
  match p with
  | [] => None
  | (n, a) :: p' => if String.eqb n name then Some a else find_action p' name
  end.

Definition default_of (a : action) : argval :=
  match a with
  | Store _ _ dflt => dflt
  | StoreTrue => ABool false
  end.

(** The namespace before the command line is read: every name holds its
    default. *)
Definition defaults (p : list (string * action)) : gmap string argval :=
  list_to_map (prod_map id default_of <$> p).

Definition required_names (p : list (string * action)) : list string :=
  omap (fun na => match na.2 with Store _ true _ => Some na.1 | _ => None end) p.

(** The parser at work: the namespace, the names met so far, and whether
    something was not recognised. *)
Record parsing : Type := {
  values : gmap string argval;
  seen : gset string;
  extras : bool
}.

Definition store (name : string) (v : argval) (st : parsing) : parsing :=
  {| values := <[name := v]> (values st); seen := {[name]} ∪ seen st;
     extras := extras st |}.

Definition set_aside (st : parsing) : parsing :=
  {| values := values st; seen := seen st; extras := true |}.

Definition fresh (p : list (string * action)) : parsing :=
  {| values := defaults p; seen := ∅; extras := false |}.

(** The name an item gives a value to, if it names one. *)
Definition names (it : item) (name : string) : Prop :=
  match it with
  | Opt n _ | Flag n => n = name
  | _ => False
  end.

#[export] Instance names_dec (it : item) (name : string) : Decision (names it name).
Proof. destruct it; simpl; apply _. Defined.

(** A value of the kind an action stores when its option is given. *)
Definition has_type (a : action) (v : argval) : bool :=
  match a, v with
  | Store AsText _ _, AStr _ => true
  | Store AsFloat _ _, AFloat _ => true
  | StoreTrue, ABool _ => true
  | _, _ => false
  end.

(** The namespace of a parser at work: every name of the table holds a
    value, which is its default as long as the name was not met and a
    value of the kind its action stores afterwards. *)
Definition well_formed (p : list (string * action)) (st : parsing) : Prop :=
  forall (name : string) (a : action),
    find_action p name = Some a ->
    exists v : argval,
      values st !! name = Some v
      /\ if decide (name ∈ seen st) then has_type a v = true else v = default_of a.

Section argparse.

(** [float(text)]: the float, or nothing when Python raises
    [ValueError]. *)
Context (py_float : string -> option float).

(** The conversion of the text of an argument; [argparse] turns the
    [ValueError] of the conversion into an exit with status 2. *)
Definition convert (ty : argtype) (text : string) : result argval :=
  match ty with
  | AsText => Ok (AStr text)
  | AsFloat =>
      match py_float text with
      | Some f => Ok (AFloat f)
      | None => Raise (SystemExit 2)
      end
  end.

(** One item of the command line. *)
Definition consume (p : list (string * action)) (st : parsing) (it : item)
    : result parsing :=
  match it with
  | Help => Raise (SystemExit 0)
  | Stray _ => Ok (set_aside st)
  | Opt name text =>
      match find_action p name with
      | Some (Store ty _ _) => (v <- convert ty text ;; Ok (store name v st))%py
      | Some StoreTrue => Raise (SystemExit 2)
      | None => Ok (set_aside st)
      end
  | Flag name =>
      match find_action p name with
      | Some StoreTrue => Ok (store name (ABool true) st)
      | Some (Store _ _ _) => Raise (SystemExit 2)
      | None => Ok (set_aside st)
      end
  end.

Fixpoint consume_all (p : list (string * action)) (st : parsing) (items : list item)
    : result parsing :=
  match items with
  | [] => Ok st
  | it :: rest => (st' <- consume p st it ;; consume_all p st' rest)%py
  end.

(** What an item stores when the parser takes it: a name and a value. *)
Definition stored (p : list (string * action)) (it : item) : option (string * argval) :=
  match it with
  | Opt name text =>
      match find_action p name with
      | Some (Store ty _ _) =>
          match convert ty text with Ok v => Some (name, v) | Raise _ => None end
      | _ => None
      end
  | Flag name =>
      match find_action p name with
      | Some StoreTrue => Some (name, ABool true)
      | _ => None
      end
  | _ => None
  end.

(** [parser.parse_args()] *)
Definition parse_command_line (p : list (string * action)) (items : list item)
    : result (gmap string argval) :=
  (st <- consume_all p (fresh p) items ;;
   if bool_decide (Forall (fun name => name ∈ seen st) (required_names p))
   then if extras st then Raise (SystemExit 2) else Ok (values st)
   else Raise (SystemExit 2))%py.

End argparse.

(** A command line that [argparse] accepts: every item stores something,
    and every required option is there. *)
Definition accepted (py_float : string -> option float) (p : list (string * action))
    (items : list item) : Prop :=
  Forall (fun it => is_Some (stored py_float p it)) items
  /\ Forall (fun name => Exists (fun it => names it name) items) (required_names p).

#[export] Instance accepted_dec (py_float : string -> option float)
    (p : list (string * action)) (items : list item) :
  Decision (accepted py_float p items).
Proof. unfold accepted. apply _. Defined.

(** A table whose defaults are of the kind their actions store. *)
Definition sound_table (p : list (string * action)) : Prop :=
  Forall (fun na => match na.2 with
                    | Store _ false dflt => has_type na.2 dflt = true
                    | _ => True
                    end) p.

(** The parser after it has stored the pairs of a list, in order. *)
Definition store_all (l : list (string * argval)) (st : parsing) : parsing :=
  foldl (fun st' nv => store nv.1 nv.2 st') st l.

(** The value the last item that names [name] stores, if there is one,
    read off the command line. *)
Definition last_given (py_float : string -> option float) (p : list (string * action))
    (name : string) (items : list item) : option argval :=
  snd <$> last (filter (fun nv : string * argval => nv.1 = name)
                 (omap (stored py_float p) items)).

(** ** Lemmas on the parser *)

Section argparse_lemmas.

Context (py_float : string -> option float) (p : list (string * action)).

Lemma defaults_lookup (name : string) (a : action) :
  find_action p name = Some a -> defaults p !! name = Some (default_of a).
Proof.
  unfold defaults. induction p as [|[n b] p' IH]; simpl; [done|].
  destruct (String.eqb_spec n name) as [->|Hne].
  - intros [= ->]. by rewrite lookup_insert_eq.
  - intros Ha. rewrite lookup_insert_ne by done. by apply IH.
Qed.

Lemma fresh_well_formed : well_formed p (fresh p).
Proof.
  intros name a Ha. exists (default_of a). split; [by apply defaults_lookup|].
  by rewrite decide_False by set_solver.
Qed.

Lemma store_well_formed (name : string) (v : argval) (a : action) (st : parsing) :
  find_action p name = Some a -> has_type a v = true ->
  well_formed p st -> well_formed p (store name v st).
Proof.
  intros Ha Hv Hst name' a' Ha'. unfold store; simpl.
  destruct (decide (name = name')) as [<-|Hne].
  - exists v. rewrite lookup_insert_eq, decide_True by set_solver.
    split; [done|congruence].
  - destruct (Hst name' a' Ha') as (v' & Hv' & Hty). exists v'.
    rewrite lookup_insert_ne by done. split; [done|].
    destruct (decide (name' ∈ seen st)).
    + by rewrite decide_True by set_solver.
    + by rewrite decide_False by set_solver.
Qed.

Lemma convert_has_type (ty : argtype) (req : bool) (d v : argval) (text : string) :
  convert py_float ty text = Ok v -> has_type (Store ty req d) v = true.
Proof.
  destruct ty; simpl; [by intros [= <-]|].
  destruct (py_float text); [by intros [= <-]|done].
Qed.

(** What an item does to the parser, case by case. *)
Lemma consume_cases (st : parsing) (it : item) :
  match consume py_float p st it with
  | Ok st' =>
      match stored py_float p it with
      | Some (name, v) =>
          st' = store name v st
          /\ exists a, find_action p name = Some a /\ has_type a v = true
      | None => st' = set_aside st
      end
  | Raise e => stored py_float p it = None /\ (e = SystemExit 0 <-> it = Help)
               /\ (e = SystemExit 0 \/ e = SystemExit 2)
  end.
Proof.
  destruct it as [name text|name| |text]; simpl; [| | |done].
  - destruct (find_action p name) as [[ty req d|]|] eqn:Ha; simpl; [| |done].
    + destruct (convert py_float ty text) as [v|e] eqn:Hc; simpl.
      * split; [done|]. eexists. split; [done|]. by eapply convert_has_type.
      * destruct ty; simpl in Hc; [done|]. destruct (py_float text); simplify_eq.
        repeat split; try done. by right.
    + repeat split; try done. by right.
  - destruct (find_action p name) as [[ty req d|]|] eqn:Ha; simpl; [| |done].
    + repeat split; try done. by right.
    + split; [done|]. by exists StoreTrue.
  - repeat split; try done. by left.
Qed.

Lemma consume_well_formed (st st' : parsing) (it : item) :
  consume py_float p st it = Ok st' -> well_formed p st -> well_formed p st'.
Proof.
  intros Hc Hst. pose proof (consume_cases st it) as H. rewrite Hc in H.
  destruct (stored py_float p it) as [[name v]|].
  - destruct H as (-> & a & Ha & Hv). by eapply store_well_formed.
  - by subst st'.
Qed.

Lemma consume_all_well_formed (items : list item) (st st' : parsing) :
  consume_all py_float p st items = Ok st' -> well_formed p st -> well_formed p st'.
Proof.
  revert st. induction items as [|it items IH]; intros st; simpl; [by intros [= <-]|].
  destruct (consume py_float p st it) as [st1|e] eqn:Hc; simpl; [|done].
  intros Hall Hst. eapply IH; [done|]. by eapply consume_well_formed.
Qed.

Lemma consume_all_app (items1 items2 : list item) (st : parsing) :
  consume_all py_float p st (items1 ++ items2)
  = (st' <- consume_all py_float p st items1 ;; consume_all py_float p st' items2)%py.
Proof.
  revert st. induction items1 as [|it items1 IH]; intros st; simpl; [done|].
  destruct (consume py_float p st it); simpl; [apply IH|done].
Qed.

(** A command line of which every item stores something is taken
    whole. *)
Lemma consume_all_accepted (items : list item) (st : parsing) :
  Forall (fun it => is_Some (stored py_float p it)) items ->
  consume_all py_float p st items
  = Ok (store_all (omap (stored py_float p) items) st).
Proof.
  intros Hall. revert st. induction Hall as [|it items [[name v] Hit] _ IH]; intros st.
  - done.
  - pose proof (consume_cases st it) as Hc. cbn [consume_all omap list_omap].
    rewrite Hit in Hc |- *. destruct (consume py_float p st it) as [st1|e]; simpl.
    + destruct Hc as [-> _]. apply IH.
    + by destruct Hc.
Qed.

(** The parser sets aside what stores nothing, and does not forget that
    it did. *)
Lemma consume_all_extras (items : list item) (st st' : parsing) :
  consume_all py_float p st items = Ok st' -> extras st' = false ->
  extras st = false /\ Forall (fun it => is_Some (stored py_float p it)) items.
Proof.
  revert st. induction items as [|it items IH]; intros st; simpl.
  - by intros [= <-].
  - pose proof (consume_cases st it) as Hc.
    destruct (consume py_float p st it) as [st1|e]; simpl; [|done].
    intros Hall Hex. destruct (IH st1 Hall Hex) as [Hex1 Hitems].
    destruct (stored py_float p it) as [[name v]|] eqn:Hit.
    + destruct Hc as [-> _]. split; [exact Hex1|]. constructor; [by rewrite Hit|done].
    + by subst st1.
Qed.

Lemma store_all_seen (l : list (string * argval)) (st : parsing) (name : string) :
  name ∈ seen (store_all l st) <-> name ∈ seen st \/ name ∈ l.*1.
Proof.
  revert st. induction l as [|[n v] l IH]; intros st; simpl; [set_solver|].
  rewrite IH. simpl. set_solver.
Qed.

Lemma store_all_extras (l : list (string * argval)) (st : parsing) :
  extras (store_all l st) = extras st.
Proof. revert st. induction l as [|[n v] l IH]; intros st; simpl; [done|by rewrite IH]. Qed.

Lemma store_all_app (l1 l2 : list (string * argval)) (st : parsing) :
  store_all (l1 ++ l2) st = store_all l2 (store_all l1 st).
Proof. apply foldl_app. Qed.

Lemma stored_names (it : item) (name : string) (v : argval) :
  stored py_float p it = Some (name, v) -> names it name.
Proof.
  destruct it as [n text|n| |text]; simpl; try done.
  - destruct (find_action p n) as [[ty req d|]|]; try done.
    destruct (convert py_float ty text); [by intros [= <- _]|done].
  - destruct (find_action p n) as [[ty req d|]|]; try done. by intros [= <- _].
Qed.

Lemma stored_elem (items : list item) (name : string) :
  name ∈ (omap (stored py_float p) items).*1 -> Exists (fun it => names it name) items.
Proof.
  rewrite list_elem_of_fmap. intros ([n v] & -> & Hin).
  apply list_elem_of_omap in Hin as (it & Hit & Hst).
  apply Exists_exists. exists it. split; [done|]. by eapply stored_names.
Qed.

Lemma names_stored (it : item) (name n : string) (v : argval) :
  names it name -> stored py_float p it = Some (n, v) -> n = name.
Proof. intros Hn Hs%stored_names. destruct it; simpl in *; try done; congruence. Qed.

Lemma find_action_elem (name : string) (a : action) :
  find_action p name = Some a -> (name, a) ∈ p.
Proof.
  induction p as [|[n b] p' IH]; simpl; [done|].
  destruct (String.eqb_spec n name) as [->|Hne]; [intros [= ->]; left|right; auto].
Qed.

Lemma find_action_required (name : string) (ty : argtype) (d : argval) :
  find_action p name = Some (Store ty true d) -> name ∈ required_names p.
Proof.
  intros Ha%find_action_elem. apply list_elem_of_omap. by exists (name, Store ty true d).
Qed.

Lemma store_all_lookup (l : list (string * argval)) (st : parsing) (name : string) :
  values (store_all l st) !! name
  = match last (filter (fun nv => nv.1 = name) l) with
    | Some nv => Some nv.2
    | None => values st !! name
    end.
Proof.
  revert st. induction l as [|[n v] l IH]; intros st; [done|].
  change (store_all ((n, v) :: l) st) with (store_all l (store n v st)).
  rewrite IH. destruct (decide (n = name)) as [->|Hne].
  - rewrite filter_cons_True, last_cons by done.
    destruct (last (filter _ l)); [done|]. simpl. apply lookup_insert_eq.
  - rewrite filter_cons_False by done.
    destruct (last (filter _ l)); [done|]. simpl. by apply lookup_insert_ne.
Qed.

(** ** The result of [parse_args] *)

(** An accepted command line gives the namespace of its items, stored in
    their order over the defaults. *)
Lemma parse_accepted (items : list item) :
  accepted py_float p items ->
  parse_command_line py_float p items
  = Ok (values (store_all (omap (stored py_float p) items) (fresh p))).
Proof.
  intros [Hst Hreq]. unfold parse_command_line.
  rewrite (consume_all_accepted _ _ Hst). simpl.
  rewrite store_all_extras, bool_decide_true; [done|].
  eapply List.Forall_impl; [|exact Hreq]. intros name Hex. simpl.
  apply store_all_seen. right. apply Exists_exists in Hex as (it & Hin & Hname).
  rewrite Forall_forall in Hst. destruct (Hst it Hin) as [[n v] Hit].
  rewrite (names_stored it name n v Hname Hit) in Hit.
  apply list_elem_of_fmap. exists (name, v). split; [done|].
  apply list_elem_of_omap. by exists it.
Qed.

(** Nothing else is accepted. *)
Lemma parse_ok (items : list item) (ns : gmap string argval) :
  parse_command_line py_float p items = Ok ns -> accepted py_float p items.
Proof.
  unfold parse_command_line.
  destruct (consume_all py_float p (fresh p) items) as [st|e] eqn:Hall; simpl; [|done].
  case_bool_decide as Hreq; [|done]. destruct (extras st) eqn:Hex; [done|]. intros _.
  destruct (consume_all_extras _ _ _ Hall Hex) as [_ Hst]. split; [done|].
  rewrite (consume_all_accepted _ _ Hst) in Hall. injection Hall as <-.
  eapply List.Forall_impl; [|exact Hreq]. intros name [Hin|Hin]%store_all_seen.
  - simpl in Hin. set_solver.
  - by apply stored_elem.
Qed.

Lemma parse_turned_down (items : list item) :
  ~ accepted py_float p items ->
  exists e : pyexn, parse_command_line py_float p items = Raise e.
Proof.
  intros Hno. destruct (parse_command_line py_float p items) as [ns|e] eqn:Hns; [|eauto].
  by apply parse_ok in Hns.
Qed.

(** The namespace of an accepted command line is well formed, and the
    required names were met. *)
Lemma parse_well_formed (items : list item) (ns : gmap string argval) :
  parse_command_line py_float p items = Ok ns ->
  exists st : parsing,
    ns = values st /\ well_formed p st
    /\ Forall (fun name => name ∈ seen st) (required_names p).
Proof.
  unfold parse_command_line.
  destruct (consume_all py_float p (fresh p) items) as [st|e] eqn:Hall; simpl; [|done].
  case_bool_decide as Hreq; [|done]. destruct (extras st); [done|]. intros [= <-].
  exists st. split; [done|]. split; [|done].
  eapply consume_all_well_formed; [done|apply fresh_well_formed].
Qed.

(** Last wins: a name of the table holds what the last item that names
    it stored, and its default when no item names it. *)
Lemma parse_lookup (items : list item) (ns : gmap string argval) (name : string)
    (a : action) :
  parse_command_line py_float p items = Ok ns -> find_action p name = Some a ->
  ns !! name = Some (default (default_of a) (last_given py_float p name items)).
Proof.
  intros Hns Ha. pose proof (parse_accepted items (parse_ok items ns Hns)) as Heq.
  rewrite Hns in Heq. injection Heq as ->. rewrite store_all_lookup. unfold last_given.
  destruct (last (filter _ _)) as [[n v]|]; [done|]. by apply defaults_lookup.
Qed.

(** Type soundness of the namespace: with a sound table, every name of
    the table holds a value of the kind its action stores. *)
Lemma parse_typed (items : list item) (ns : gmap string argval) (name : string)
    (a : action) :
  sound_table p -> parse_command_line py_float p items = Ok ns ->
  find_action p name = Some a ->
  exists v : argval, ns !! name = Some v /\ has_type a v = true.
Proof.
  intros Hp (st & -> & Hst & Hreq)%parse_well_formed Ha.
  destruct (Hst name a Ha) as (v & Hv & Hty). exists v. split; [done|].
  destruct (decide (name ∈ seen st)) as [|Hseen]; [done|]. subst v.
  destruct a as [ty [] d|]; [|simpl|done].
  - rewrite Forall_forall in Hreq. by apply find_action_required, Hreq in Ha.
  - unfold sound_table in Hp. rewrite Forall_forall in Hp.
    by apply find_action_elem, Hp in Ha.
Qed.

(** A rejected command line ends the script with status 0, after the
    help, or with status 2. *)
Lemma consume_all_raises (items : list item) (st : parsing) (e : pyexn) :
  consume_all py_float p st items = Raise e ->
  (e = SystemExit 0 -> Help ∈ items) /\ (e = SystemExit 0 \/ e = SystemExit 2).
Proof.
  revert st. induction items as [|it items IH]; intros st; simpl; [done|].
  pose proof (consume_cases st it) as Hc.
  destruct (consume py_float p st it) as [st1|e1]; simpl.
  - intros [H0 H2]%IH. split; [|done]. intros He. right. auto.
  - intros [= ->]. destruct Hc as (_ & Hhelp & H02). split; [|done].
    intros ->%Hhelp. left.
Qed.

Lemma parse_raises (items : list item) (e : pyexn) :
  parse_command_line py_float p items = Raise e ->
  (e = SystemExit 0 -> Help ∈ items) /\ (e = SystemExit 0 \/ e = SystemExit 2).
Proof.
  unfold parse_command_line.
  destruct (consume_all py_float p (fresh p) items) as [st|e1] eqn:Hall; simpl.
  - case_bool_decide; [destruct (extras st)|]; intros [= <-]; by split; [|right].
  - intros [= ->]. by eapply consume_all_raises.
Qed.

End argparse_lemmas.
