(* ===== verification/CommandLine.v ===== *)
(** * CommandLine: the two scripts from their command line to their exit

    [Grouper] and [InputParser] start from the parsed arguments. This
    file puts the first lines of the two [main] functions before them:
    the tables of options that lines 7-10 of [data_grouper.py] and lines
    8-11 of [input_parser.py] declare, read by the parser of [Argparse],
    and the attributes the scripts take from the namespace. It puts the
    end of the interpreter after them: the exit status (0 when [main]
    returns, the code of [SystemExit], 1 for an exception nothing
    caught), the traceback, and what is left on the two standard
    streams. A [process] is what the pipeline that calls a script sees
    of it.

    The theorems say which arguments a command line gives the scripts,
    on which command lines [data_grouper.py] runs ([grouper_line]) and
    that any other ends it before it reads or writes anything, and what
    status 0 promises: every row in a
    group file for [data_grouper.py], every folder of the column scanned
    for [input_parser.py], or nothing but the help. They also bound the
    statuses (0, 1 or 2) and follow a limit that is NaN or infinite
    from the text of [--limit_tb] to the files written. *)

From stdpp Require Import gmap.
From S2P Require Import Prelude PyFloat PyValue Naming InputParser Argparse.
From S2P Require Import GrouperSpec Grouper GrouperCorrect GrouperIO.

#[local] Open Scope Z_scope.

(** ** Definitions *)

(** Lines 7-10 of [data_grouper.py]. *)
Definition grouper_parser : list (string * action) :=
  [("results", Store AsText true ANone);
   ("limit_tb", Store AsFloat false (AFloat default_limit_tb));
   ("prefix", Store AsText false (AStr "result"))].

(** Lines 8-11 of [input_parser.py]. *)
Definition scan_parser : list (string * action) :=
  [("input", Store AsText true ANone);
   ("col", Store AsText false (AStr "Secondary Path"));
   ("scan_all", StoreTrue)].

(** The attributes [data_grouper.py] reads from the namespace:
    [args.results], [args.limit_tb] and [args.prefix]. *)
Definition grouper_args (ns : gmap string argval) : option Args :=
  match ns !! "results", ns !! "limit_tb", ns !! "prefix" with
  | Some (AStr r), Some (AFloat l), Some (AStr pfx) =>
      Some {| results := r; limit_tb := l; prefix := pfx |}
  | _, _, _ => None
  end.

(** The attributes [input_parser.py] reads: [args.input], [args.col] and
    [args.scan_all]. *)
Definition scan_args (ns : gmap string argval) : option InputArgs :=
  match ns !! "input", ns !! "col", ns !! "scan_all" with
  | Some (AStr i), Some (AStr c), Some (ABool b) =>
      Some {| input := i; col := c; scan_all := b |}
  | _, _, _ => None
  end.

(** What the interpreter leaves on the standard error: the usage
    message of [argparse], a line the script printed for an exception,
    or the traceback of an exception nothing caught. *)
Inductive errline : Type :=
| Usage
| Reported (e : pyexn)
| Traceback (e : pyexn).

(** What a caller sees of a run: the files written, the lines of the
    standard output, the standard error, and the exit status. *)
Record process : Type := {
  proc_files : list file;
  proc_stdout : list string;
  proc_stderr : list errline;
  proc_status : Z
}.

(** The exit status of the interpreter: 0 when [main] returns, the code
    of [SystemExit], and 1 for any other exception. *)
Definition exit_status (r : option pyexn) : Z :=
  match r with
  | None => 0
  | Some (SystemExit code) => code
  | Some _ => 1
  end.

(** The end of [main], lines 50-51 and 37-38: an exception that is not
    [SystemExit] is shown with its traceback. *)
Definition finished (fs : list file) (out : list string) (reported : list pyexn)
    (r : option pyexn) : process :=
  {| proc_files := fs; proc_stdout := out;
     proc_stderr := (Reported <$> reported)
                    ++ match r with
                       | Some e => if is_Exception e then [Traceback e] else []
                       | None => []
                       end;
     proc_status := exit_status r |}.

(** The command lines [data_grouper.py] runs on, read off lines 8-10:
    every item is one of the three options with a text, the text of
    [--limit_tb] is one [float] reads, and [--results] is there. *)
Definition grouper_item (py_float : string -> option float) (it : item) : bool :=
  match it with
  | Opt name text =>
      if String.eqb "limit_tb" name then bool_decide (is_Some (py_float text))
      else String.eqb "results" name || String.eqb "prefix" name
  | _ => false
  end.

Definition gives_results (it : item) : bool :=
  match it with
  | Opt name _ => String.eqb "results" name
  | _ => false
  end.

Definition grouper_line (py_float : string -> option float) (items : list item) : bool :=
  forallb (grouper_item py_float) items && existsb gives_results items.

(** Concrete inputs: a [float] that knows two texts, a loader that finds
    one manifest, and two command lines. *)
Definition sample_float (text : string) : option float :=
  if String.eqb text "0.5" then Some (S754_finite false 4503599627370496 (-53))
  else if String.eqb text "nan" then Some S754_nan
  else None.

Definition sample_load (name : string) : result (list Row) :=
  if String.eqb name "merged.csv" then Ok [sized 3; sized 8; sized 2] else Raise OSError.

Definition half_tb : list item :=
  [Opt "limit_tb" "nan"; Opt "results" "merged.csv"; Opt "limit_tb" "0.5"].

Definition scan_samples : list item := [Opt "input" "samples.csv"; Flag "scan_all"].

Section scripts.

Context (py_float : string -> option float).

(** The help of [argparse], which [--help] prints on the standard
    output. *)
Context (help_text : list string).

(** A command line [argparse] does not accept: the help and status 0, or
    the usage message and the status of the exit. *)
Definition turned_down (e : pyexn) : process :=
  match e with
  | SystemExit 0 =>
      {| proc_files := []; proc_stdout := help_text; proc_stderr := []; proc_status := 0 |}
  | _ =>
      {| proc_files := []; proc_stdout := []; proc_stderr := [Usage];
         proc_status := exit_status (Some e) |}
  end.

(** [data_grouper.py] from its command line to its exit. [load] is
    [pd.read_csv] as a function of the name of the file. The namespace of
    an accepted command line has the three attributes
    ([grouper_args_accepted]): the last case is never reached from
    [grouper_parser], and stands for the [TypeError] of a call on
    [None]. *)
Definition grouper_script (w : Writer) (load : string -> result (list Row))
    (items : list item) : process :=
  match parse_command_line py_float grouper_parser items with
  | Raise e => turned_down e
  | Ok ns =>
      match grouper_args ns with
      | Some args =>
          let o := run_main_io w args (load (results args)) in
          finished (out_files o) [] [] (out_exn o)
      | None => finished [] [] [] (Some TypeError)
      end
  end.

(** [input_parser.py] from its command line to its exit. *)
Definition scan_script (env : Env) (items : list item) : process :=
  match parse_command_line py_float scan_parser items with
  | Raise e => turned_down e
  | Ok ns =>
      match scan_args ns with
      | Some args =>
          let '(c, r) := run_input_main env args in
          finished [] (stdout c) (stderr c) r
      | None => finished [] [] [] (Some TypeError)
      end
  end.

End scripts.

(** ** The scripts from the command line *)

Section script_lemmas.

Context (py_float : string -> option float) (help_text : list string).

Lemma grouper_parser_sound : sound_table grouper_parser.
Proof. by repeat constructor. Qed.

Lemma scan_parser_sound : sound_table scan_parser.
Proof. by repeat constructor. Qed.

Lemma exit_status_zero (r : option pyexn) :
  exit_status r = 0 -> r = None \/ r = Some (SystemExit 0).
Proof. destruct r as [[| | | | |code]|]; simpl; try done; [intros ->|]; auto. Qed.

(** The arguments of an accepted command line: the last text of each
    option, and the defaults of lines 9 and 10. *)
Lemma grouper_args_accepted (items : list item) (ns : gmap string argval) :
  parse_command_line py_float grouper_parser items = Ok ns ->
  exists (r pfx : string) (l : float),
    grouper_args ns = Some {| results := r; limit_tb := l; prefix := pfx |}
    /\ last_given py_float grouper_parser "results" items = Some (AStr r)
    /\ default (AFloat default_limit_tb) (last_given py_float grouper_parser "limit_tb" items)
       = AFloat l
    /\ default (AStr "result") (last_given py_float grouper_parser "prefix" items)
       = AStr pfx.
Proof.
  intros Hns. unfold grouper_args.
  pose proof (parse_typed py_float _ items ns "results" _ grouper_parser_sound Hns eq_refl)
    as (vr & Hr & Htr).
  pose proof (parse_typed py_float _ items ns "limit_tb" _ grouper_parser_sound Hns eq_refl)
    as (vl & Hl & Htl).
  pose proof (parse_typed py_float _ items ns "prefix" _ grouper_parser_sound Hns eq_refl)
    as (vp & Hp & Htp).
  rewrite Hr, Hl, Hp.
  rewrite (parse_lookup py_float _ items ns "results" _ Hns eq_refl) in Hr.
  rewrite (parse_lookup py_float _ items ns "limit_tb" _ Hns eq_refl) in Hl.
  rewrite (parse_lookup py_float _ items ns "prefix" _ Hns eq_refl) in Hp.
  destruct vr as [|r| |]; try done. destruct vl as [| |l|]; try done.
  destruct vp as [|pfx| |]; try done. exists r, pfx, l. simplify_eq.
  repeat split; try done.
  destruct (last_given py_float grouper_parser "results" items) as [v|]; simpl in Hr;
    by simplify_eq.
Qed.

Lemma scan_args_accepted (items : list item) (ns : gmap string argval) :
  parse_command_line py_float scan_parser items = Ok ns ->
  exists (i c : string) (b : bool),
    scan_args ns = Some {| input := i; col := c; scan_all := b |}
    /\ last_given py_float scan_parser "input" items = Some (AStr i)
    /\ default (AStr "Secondary Path") (last_given py_float scan_parser "col" items)
       = AStr c
    /\ default (ABool false) (last_given py_float scan_parser "scan_all" items)
       = ABool b.
Proof.
  intros Hns. unfold scan_args.
  pose proof (parse_typed py_float _ items ns "input" _ scan_parser_sound Hns eq_refl)
    as (vi & Hi & Hti).
  pose proof (parse_typed py_float _ items ns "col" _ scan_parser_sound Hns eq_refl)
    as (vc & Hc & Htc).
  pose proof (parse_typed py_float _ items ns "scan_all" _ scan_parser_sound Hns eq_refl)
    as (vb & Hb & Htb).
  rewrite Hi, Hc, Hb.
  rewrite (parse_lookup py_float _ items ns "input" _ Hns eq_refl) in Hi.
  rewrite (parse_lookup py_float _ items ns "col" _ Hns eq_refl) in Hc.
  rewrite (parse_lookup py_float _ items ns "scan_all" _ Hns eq_refl) in Hb.
  destruct vi as [|i| |]; try done. destruct vc as [|c| |]; try done.
  destruct vb as [| | |b]; try done. exists i, c, b. simplify_eq.
  repeat split; try done.
  destruct (last_given py_float scan_parser "input" items) as [v|]; simpl in Hi;
    by simplify_eq.
Qed.

(** A command line that is turned down: the help on the standard output
    and status 0, or the usage message and status 2; no file, and no
    line of the script. *)
Lemma turned_down_cases (p : list (string * action)) (items : list item) (e : pyexn) :
  parse_command_line py_float p items = Raise e ->
  (Help ∈ items /\ turned_down help_text e
     = {| proc_files := []; proc_stdout := help_text; proc_stderr := [];
          proc_status := 0 |})
  \/ turned_down help_text e
     = {| proc_files := []; proc_stdout := []; proc_stderr := [Usage];
          proc_status := 2 |}.
Proof.
  intros [Hhelp [->| ->]]%parse_raises; [left|right]; [|done]. split; [auto|done].
Qed.

#[local] Arguments String.eqb : simpl never.

(** What the table of lines 8-10 makes the parser store. *)
Lemma stored_grouper_item (it : item) :
  is_Some (stored py_float grouper_parser it) <-> grouper_item py_float it = true.
Proof.
  destruct it as [name text|name| |text]; simpl; try by split; [intros []|].
  - destruct (String.eqb_spec "results" name) as [H1|H1],
      (String.eqb_spec "limit_tb" name) as [H2|H2],
      (String.eqb_spec "prefix" name) as [H3|H3]; simplify_eq; simpl;
      rewrite ?bool_decide_eq_true; try destruct (py_float text); try done;
      by split; [intros []|].
  - destruct (String.eqb "results" name), (String.eqb "limit_tb" name),
      (String.eqb "prefix" name); simpl; by split; [intros []|].
Qed.

(** The command lines the parser accepts with that table. *)
Lemma grouper_accepted_iff (items : list item) :
  accepted py_float grouper_parser items <-> grouper_line py_float items = true.
Proof.
  unfold accepted, grouper_line.
  change (required_names grouper_parser) with ["results"].
  rewrite andb_true_iff, forallb_forall, existsb_exists, Forall_singleton,
    Forall_forall, Exists_exists.
  setoid_rewrite stored_grouper_item. setoid_rewrite list_elem_of_In.
  split; intros [Hall (it & Hin & Hit)]; (split; [done|]); exists it; (split; [done|]).
  - apply Hall in Hin. destruct it; simpl in *; try done. subst. apply String.eqb_refl.
  - destruct it; try done. by apply String.eqb_eq in Hit.
Qed.

Lemma grouper_script_turned_down (w : Writer) (load : string -> result (list Row))
    (items : list item) (e : pyexn) :
  parse_command_line py_float grouper_parser items = Raise e ->
  grouper_script py_float help_text w load items = turned_down help_text e.
Proof. unfold grouper_script. by intros ->. Qed.

Lemma grouper_script_accepted (w : Writer) (load : string -> result (list Row))
    (items : list item) (ns : gmap string argval) :
  parse_command_line py_float grouper_parser items = Ok ns ->
  exists args : Args,
    grouper_args ns = Some args
    /\ grouper_script py_float help_text w load items
       = finished (out_files (run_main_io w args (load (results args)))) [] []
           (out_exn (run_main_io w args (load (results args)))).
Proof.
  intros Hns. destruct (grouper_args_accepted items ns Hns) as (r & pfx & l & Ha & _).
  eexists. split; [done|]. unfold grouper_script. by rewrite Hns, Ha.
Qed.

(** The script runs on the command lines of [grouper_line] and on no
    other. *)
Lemma grouper_script_decided (w : Writer) (load : string -> result (list Row))
    (items : list item) :
  if grouper_line py_float items
  then exists args : Args,
         last_given py_float grouper_parser "results" items = Some (AStr (results args))
         /\ grouper_script py_float help_text w load items
            = finished (out_files (run_main_io w args (load (results args)))) [] []
                (out_exn (run_main_io w args (load (results args))))
  else (Help ∈ items
        /\ grouper_script py_float help_text w load items
           = {| proc_files := []; proc_stdout := help_text; proc_stderr := [];
                proc_status := 0 |})
       \/ grouper_script py_float help_text w load items
          = {| proc_files := []; proc_stdout := []; proc_stderr := [Usage];
               proc_status := 2 |}.
Proof.
  destruct (grouper_line py_float items) eqn:Hline.
  - apply grouper_accepted_iff, parse_accepted in Hline.
    destruct (grouper_args_accepted items _ Hline) as (r & pfx & l & Ha & Hr & _).
    exists {| results := r; limit_tb := l; prefix := pfx |}. split; [exact Hr|].
    unfold grouper_script. by rewrite Hline, Ha.
  - assert (~ accepted py_float grouper_parser items) as [e He]%parse_turned_down
      by (rewrite grouper_accepted_iff; congruence).
    rewrite (grouper_script_turned_down _ _ _ _ He). by eapply turned_down_cases.
Qed.

Lemma scan_script_turned_down (env : Env) (items : list item) (e : pyexn) :
  parse_command_line py_float scan_parser items = Raise e ->
  scan_script py_float help_text env items = turned_down help_text e.
Proof. unfold scan_script. by intros ->. Qed.

Lemma scan_script_accepted (env : Env) (items : list item) (ns : gmap string argval) :
  parse_command_line py_float scan_parser items = Ok ns ->
  exists args : InputArgs,
    scan_args ns = Some args
    /\ scan_script py_float help_text env items
       = finished [] (stdout (run_input_main env args).1)
           (stderr (run_input_main env args).1) (run_input_main env args).2.
Proof.
  intros Hns. destruct (scan_args_accepted items ns Hns) as (i & c & b & Ha & _).
  eexists. split; [done|]. unfold scan_script. rewrite Hns, Ha.
  by destruct (run_input_main env _).
Qed.

(** Status 0 of [data_grouper.py], when the loader and the writer raise
    nothing but [Exception]s: the help was asked for, or every row is in
    a group file. *)
Lemma grouper_script_status_zero (w : Writer) (load : string -> result (list Row))
    (items : list item) :
  (forall name e, load name = Raise e -> is_Exception e = true) ->
  (forall name rows e, write_error w name rows = Some e -> is_Exception e = true) ->
  proc_status (grouper_script py_float help_text w load items) = 0 ->
  (Help ∈ items
   /\ proc_files (grouper_script py_float help_text w load items) = [])
  \/ exists (ns : gmap string argval) (args : Args) (df : list Row),
       parse_command_line py_float grouper_parser items = Ok ns
       /\ grouper_args ns = Some args
       /\ load (results args) = Ok df
       /\ grouper_script py_float help_text w load items
          = finished (out_files (run_main args (Ok df))) [] [] None
       /\ concat (written_groups (out_files (run_main args (Ok df)))) = df.
Proof.
  intros Hload Hw.
  destruct (parse_command_line py_float grouper_parser items) as [ns|e] eqn:Hns.
  - destruct (grouper_script_accepted w load items ns Hns) as (args & Ha & ->).
    simpl. intros [Hnone|Hexit]%exit_status_zero.
    + right. destruct (load (results args)) as [df|e] eqn:Hl;
        [|by rewrite run_main_io_ok in Hnone].
      exists ns, args, df. rewrite Hnone, run_main_io_ok by done.
      repeat split; try done. apply run_main_partition.
      by rewrite <-(run_main_io_ok w) by done.
    + apply run_main_io_exception in Hexit as [Hl|[(name & rows & Hf)|He]]; [| |done].
      * by apply Hload in Hl.
      * by apply Hw in Hf.
  - rewrite (grouper_script_turned_down _ _ _ _ Hns).
    destruct (turned_down_cases _ _ _ Hns) as [[Hhelp ->]| ->]; [by left|done].
Qed.

(** Status 0 of [input_parser.py], when the readers raise nothing but
    [Exception]s: the help was asked for and is what was printed, or
    every folder of the column was scanned. *)
Lemma scan_script_status_zero (env : Env) (items : list item) :
  (forall name e, read_table env name = Raise e -> is_Exception e = true) ->
  proc_status (scan_script py_float help_text env items) = 0 ->
  (Help ∈ items
   /\ proc_stdout (scan_script py_float help_text env items) = help_text)
  \/ exists (ns : gmap string argval) (args : InputArgs) (df : table)
         (folders : list string),
       parse_command_line py_float scan_parser items = Ok ns
       /\ scan_args ns = Some args
       /\ read_table env (input args) = Ok df
       /\ df !! col args = Some (CStr <$> folders)
       /\ scan_script py_float help_text env items
          = finished [] (scan_lines env (scan_all args) folders) [] None.
Proof.
  intros Hread.
  destruct (parse_command_line py_float scan_parser items) as [ns|e] eqn:Hns.
  - destruct (scan_script_accepted env items ns Hns) as (args & Ha & ->).
    destruct (run_input_main_ends env args)
      as [(df & folders & Hr & Hc & ->)|(c & e & -> & He)]; cbn [fst snd proc_status finished].
    + intros _. right. by exists ns, args, df, folders.
    + intros [Hnone|Hexit]%exit_status_zero; [done|]. simplify_eq.
      destruct He as [|[|[|[Hr He]]]]; try done. by apply Hread in Hr.
  - rewrite (scan_script_turned_down _ _ _ Hns).
    destruct (turned_down_cases _ _ _ Hns) as [[Hhelp ->]| ->]; [by left|done].
Qed.

(** The exit status of an [Exception] nobody caught is 1. *)
Lemma exit_status_exception (e : pyexn) :
  is_Exception e = true -> exit_status (Some e) = 1.
Proof. by destruct e. Qed.

(** The statuses of [data_grouper.py] are 0, 1 and 2. *)
Lemma grouper_script_statuses (w : Writer) (load : string -> result (list Row))
    (items : list item) :
  (forall name e, load name = Raise e -> is_Exception e = true) ->
  (forall name rows e, write_error w name rows = Some e -> is_Exception e = true) ->
  proc_status (grouper_script py_float help_text w load items) ∈ [0; 1; 2].
Proof.
  intros Hload Hw.
  destruct (parse_command_line py_float grouper_parser items) as [ns|e] eqn:Hns.
  - destruct (grouper_script_accepted w load items ns Hns) as (args & _ & ->).
    cbn [proc_status finished].
    destruct (out_exn _) as [e|] eqn:He; [|set_solver].
    rewrite exit_status_exception; [set_solver|].
    apply run_main_io_exception in He as [He|[(name & rows & He)|He]]; eauto.
  - rewrite (grouper_script_turned_down _ _ _ _ Hns).
    destruct (turned_down_cases _ _ _ Hns) as [[_ ->]| ->]; set_solver.
Qed.

(** A table that cannot be read: the report of line 23 on the standard
    error, and status 1. *)
Lemma scan_script_read_error (env : Env) (items : list item) (ns : gmap string argval)
    (args : InputArgs) (e : pyexn) :
  parse_command_line py_float scan_parser items = Ok ns ->
  scan_args ns = Some args ->
  read_table env (input args) = Raise e -> is_Exception e = true ->
  scan_script py_float help_text env items
  = {| proc_files := []; proc_stdout := []; proc_stderr := [Reported e];
       proc_status := 1 |}.
Proof.
  intros Hns Ha Hr He. unfold scan_script.
  by rewrite Hns, Ha, (run_input_main_read_error _ _ _ Hr He).
Qed.

(** The statuses of [input_parser.py] are 0, 1 and 2. *)
Lemma scan_script_statuses (env : Env) (items : list item) :
  (forall name e, read_table env name = Raise e -> is_Exception e = true) ->
  proc_status (scan_script py_float help_text env items) ∈ [0; 1; 2].
Proof.
  intros Hread.
  destruct (parse_command_line py_float scan_parser items) as [ns|e] eqn:Hns.
  - destruct (scan_script_accepted env items ns Hns) as (args & _ & ->).
    cbn [proc_status finished].
    destruct (run_input_main_ends env args) as [(df & fs & _ & _ & ->)|(c & e & -> & He)];
      [set_solver|].
    cbn [snd]. destruct He as [->|[->|[->|[Hr He]]]]; try set_solver.
    by rewrite (Hread _ _ Hr) in He.
  - unfold scan_script. rewrite Hns.
    destruct (turned_down_cases _ _ _ Hns) as [[_ ->]| ->]; set_solver.
Qed.

(** Whatever [float] makes of the text of [--limit_tb] is the limit of
    the run: the command line checks that the text is a float, and
    nothing else. *)
Lemma any_float_is_a_limit (r text : string) (l : float) :
  py_float text = Some l ->
  exists ns : gmap string argval,
    parse_command_line py_float grouper_parser [Opt "results" r; Opt "limit_tb" text] = Ok ns
    /\ grouper_args ns = Some {| results := r; limit_tb := l; prefix := "result" |}.
Proof.
  intros Hl. eexists.
  split; [unfold parse_command_line; simpl; rewrite Hl; reflexivity|reflexivity].
Qed.

(** [--limit_tb nan] and [--limit_tb inf] from the command line to the
    exit: on integer sizes the process ends with status 0, the full list
    and one group that is the whole manifest. *)
Lemma unbounded_limit_runs (w : Writer) (load : string -> result (list Row))
    (r text : string) (l : float) (df : list Row) :
  py_float text = Some l ->
  l = S754_nan \/ l = S754_infinity false ->
  (forall name rows, write_error w name rows = None) ->
  load r = Ok df -> Forall int_row df -> df <> [] ->
  grouper_script py_float help_text w load [Opt "results" r; Opt "limit_tb" text]
  = {| proc_files := [("result_full_list.xlsx", df); ("result_group_001.xlsx", df)];
       proc_stdout := []; proc_stderr := []; proc_status := 0 |}.
Proof.
  intros Hl Hlim Hw Hload Hdf Hne.
  destruct (any_float_is_a_limit r text l Hl) as (ns & Hns & Hargs).
  unfold grouper_script. rewrite Hns, Hargs. cbn [results]. rewrite Hload.
  rewrite run_main_io_writable by (apply Forall_forall; intros [??] _; apply Hw).
  rewrite (run_main_int _ _ Hdf). cbn [out_files out_exn prefix].
  rewrite pack_unbounded; [done| |done].
  intros z. by destruct Hlim as [-> | ->].
Qed.

End script_lemmas.

(** ** Properties of the scripts as processes *)

(** Claim C27. The arguments of [data_grouper.py]: a command line that
    [argparse] accepts gives the script a file name, a limit and a
    prefix, never [None]: [--results] was given, and the name is the
    text of its last occurrence; the limit is the float of the text of
    the last [--limit_tb], and 11.0 when there is none; the prefix is the
    text of the last [--prefix], and [result] when there is none. *)
Theorem grouper_arguments (py_float : string -> option float) (items : list item)
    (ns : gmap string argval) :
  parse_command_line py_float grouper_parser items = Ok ns ->
  exists (r pfx : string) (l : float),
    grouper_args ns = Some {| results := r; limit_tb := l; prefix := pfx |}
    /\ last_given py_float grouper_parser "results" items = Some (AStr r)
    /\ default (AFloat default_limit_tb) (last_given py_float grouper_parser "limit_tb" items)
       = AFloat l
    /\ default (AStr "result") (last_given py_float grouper_parser "prefix" items)
       = AStr pfx.
Proof. apply grouper_args_accepted. Qed.

Lemma grouper_arguments_witness :
  exists (r pfx : string) (l : float),
    grouper_args (<["limit_tb" := AFloat (S754_finite false 4503599627370496 (-53))]>
                    (<["results" := AStr "merged.csv"]> (defaults grouper_parser)))
    = Some {| results := r; limit_tb := l; prefix := pfx |}
    /\ last_given sample_float grouper_parser "results" [Opt "results" "merged.csv";
                                                        Opt "limit_tb" "0.5"]
       = Some (AStr r)
    /\ default (AFloat default_limit_tb)
         (last_given sample_float grouper_parser "limit_tb" [Opt "results" "merged.csv";
                                                             Opt "limit_tb" "0.5"])
       = AFloat l
    /\ default (AStr "result")
         (last_given sample_float grouper_parser "prefix" [Opt "results" "merged.csv";
                                                           Opt "limit_tb" "0.5"])
       = AStr pfx.
Proof. apply (grouper_arguments sample_float). reflexivity. Defined.

(** Claim C17. The command lines [data_grouper.py] runs on, and what it
    does with the others. When every item of the command line is
    [--results], [--limit_tb] or [--prefix] with a text, the text of
    every [--limit_tb] is one that [float] reads, and [--results] is
    there, the script loads the manifest that [--results] names and its
    files and its end are those of the run on it. On any other command
    line it loads and writes nothing, whatever the loader and the writer
    are: it prints the help and ends with status 0 when [--help] comes
    before what is wrong, and otherwise prints the usage message on the
    standard error and ends with status 2. *)
Theorem grouper_command_line_decides (py_float : string -> option float)
    (help_text : list string) (w : Writer) (load : string -> result (list Row))
    (items : list item) :
  if grouper_line py_float items
  then exists args : Args,
         last_given py_float grouper_parser "results" items = Some (AStr (results args))
         /\ grouper_script py_float help_text w load items
            = finished (out_files (run_main_io w args (load (results args)))) [] []
                (out_exn (run_main_io w args (load (results args))))
  else (Help ∈ items
        /\ grouper_script py_float help_text w load items
           = {| proc_files := []; proc_stdout := help_text; proc_stderr := [];
                proc_status := 0 |})
       \/ grouper_script py_float help_text w load items
          = {| proc_files := []; proc_stdout := []; proc_stderr := [Usage];
               proc_status := 2 |}.
Proof. apply grouper_script_decided. Qed.

(** Claim C16. What status 0 of [data_grouper.py] promises to the pipeline
    that called it, when the loader and the writer raise nothing but
    [Exception]s: either the command line asked for the help and no file
    was written, or the command line was accepted, the manifest it names
    was loaded, every write succeeded, nothing is on the standard error,
    and the files are the full list and the groups of the run, which
    concatenated in the order of their numbers are the manifest. *)
Theorem grouper_status_zero (py_float : string -> option float) (help_text : list string)
    (w : Writer) (load : string -> result (list Row)) (items : list item) :
  (forall name e, load name = Raise e -> is_Exception e = true) ->
  (forall name rows e, write_error w name rows = Some e -> is_Exception e = true) ->
  proc_status (grouper_script py_float help_text w load items) = 0 ->
  (Help ∈ items
   /\ proc_files (grouper_script py_float help_text w load items) = [])
  \/ exists (ns : gmap string argval) (args : Args) (df : list Row),
       parse_command_line py_float grouper_parser items = Ok ns
       /\ grouper_args ns = Some args
       /\ load (results args) = Ok df
       /\ grouper_script py_float help_text w load items
          = finished (out_files (run_main args (Ok df))) [] [] None
       /\ concat (written_groups (out_files (run_main args (Ok df)))) = df.
Proof. apply grouper_script_status_zero. Qed.

Lemma grouper_status_zero_witness :
  (Help ∈ half_tb
   /\ proc_files (grouper_script sample_float [] always_writes sample_load half_tb) = [])
  \/ exists (ns : gmap string argval) (args : Args) (df : list Row),
       parse_command_line sample_float grouper_parser half_tb = Ok ns
       /\ grouper_args ns = Some args
       /\ sample_load (results args) = Ok df
       /\ grouper_script sample_float [] always_writes sample_load half_tb
          = finished (out_files (run_main args (Ok df))) [] [] None
       /\ concat (written_groups (out_files (run_main args (Ok df)))) = df.
Proof.
  apply grouper_status_zero; [|done|reflexivity].
  intros name e. unfold sample_load. by case_match; intros [= <-].
Defined.

(** Claim C26. What status 0 of [input_parser.py] promises, when the readers
    raise nothing but [Exception]s: either the command line asked for
    the help, and the help is what is on the standard output, or the
    command line was accepted, the table it names was read, it has the
    column, every cell of the column is a string, nothing is on the
    standard error, and the standard output is the scan of the whole
    column, line for line. *)
Theorem scan_status_zero (py_float : string -> option float) (help_text : list string)
    (env : Env) (items : list item) :
  (forall name e, read_table env name = Raise e -> is_Exception e = true) ->
  proc_status (scan_script py_float help_text env items) = 0 ->
  (Help ∈ items
   /\ proc_stdout (scan_script py_float help_text env items) = help_text)
  \/ exists (ns : gmap string argval) (args : InputArgs) (df : table)
         (folders : list string),
       parse_command_line py_float scan_parser items = Ok ns
       /\ scan_args ns = Some args
       /\ read_table env (input args) = Ok df
       /\ df !! col args = Some (CStr <$> folders)
       /\ scan_script py_float help_text env items
          = finished [] (scan_lines env (scan_all args) folders) [] None.
Proof. apply scan_script_status_zero. Qed.

Lemma scan_status_zero_witness :
  (Help ∈ scan_samples
   /\ proc_stdout (scan_script sample_float [] sample_env scan_samples) = [])
  \/ exists (ns : gmap string argval) (args : InputArgs) (df : table)
         (folders : list string),
       parse_command_line sample_float scan_parser scan_samples = Ok ns
       /\ scan_args ns = Some args
       /\ read_table sample_env (input args) = Ok df
       /\ df !! col args = Some (CStr <$> folders)
       /\ scan_script sample_float [] sample_env scan_samples
          = finished [] (scan_lines sample_env (scan_all args) folders) [] None.
Proof.
  apply scan_status_zero; [|reflexivity].
  intros name e. unfold read_table, sample_env. simpl. by repeat case_match; intros [= <-].
Defined.

(** Claim C34. A limit that is not a number or is infinite is not
    rejected anywhere between the command line and the exit: when
    [float] reads the text of [--limit_tb] as NaN or as the positive
    infinity, the manifest is loaded, its sizes are integers and every
    write succeeds, [data_grouper.py] ends with status 0 and nothing on
    the standard error, having written the full list and one group that
    is the whole manifest. *)
Theorem unbounded_limit_from_command_line (py_float : string -> option float)
    (help_text : list string) (w : Writer) (load : string -> result (list Row))
    (r text : string) (l : float) (df : list Row) :
  py_float text = Some l ->
  l = S754_nan \/ l = S754_infinity false ->
  (forall name rows, write_error w name rows = None) ->
  load r = Ok df -> Forall int_row df -> df <> [] ->
  grouper_script py_float help_text w load [Opt "results" r; Opt "limit_tb" text]
  = {| proc_files := [("result_full_list.xlsx", df); ("result_group_001.xlsx", df)];
       proc_stdout := []; proc_stderr := []; proc_status := 0 |}.
Proof. apply unbounded_limit_runs. Qed.

Lemma unbounded_limit_from_command_line_witness :
  grouper_script sample_float [] always_writes sample_load
    [Opt "results" "merged.csv"; Opt "limit_tb" "nan"]
  = {| proc_files := [("result_full_list.xlsx", [sized 3; sized 8; sized 2]);
                      ("result_group_001.xlsx", [sized 3; sized 8; sized 2])];
       proc_stdout := []; proc_stderr := []; proc_status := 0 |}.
Proof.
  apply (unbounded_limit_from_command_line _ _ _ _ _ _ S754_nan);
    [reflexivity|by left|done|reflexivity|repeat constructor|done].
Defined.
