(* ===== verification/Monitor.v ===== *)
(** * Monitor: interaction trees that follow a protocol

    A protocol is an automaton on the events of a tree: a state [M], the
    events that are legal in a state, and the state after an event and
    its answer. A tree follows the protocol from a state when the event
    it performs is legal there and, whatever the answer is, the rest of
    the tree follows the protocol from the next state; when it ends, the
    state and the result satisfy a postcondition. The tree may be
    infinite, so the predicate is a greatest fixed point ([follows]),
    built with the parameterized coinduction of Paco.

    The file gives the proof rules of the predicate for the constructs
    trees are made of ([Ret], [ITree.trigger], [ITree.bind],
    [ITree.iter] with an invariant), and its reading on finite runs: every
    trace of a tree that follows the protocol is accepted by the
    automaton ([accepts]). Nothing in this file is particular to the
    scripts. *)

From Paco Require Import paco.
From ITree Require Import ITree ITreeFacts Interp.Traces.
From S2P Require Import Prelude.

(** ** Definitions *)

Section monitor.

Context {E : Type -> Type} {M : Type}.

(** The events that are legal in a state, and the state after an event
    and its answer. *)
Context (legal : M -> forall X : Type, E X -> Prop).
Context (next : M -> forall X : Type, E X -> X -> M).

(** One step of the predicate, on the head of a tree. *)
Variant followsF {R : Type} (Q : M -> R -> Prop) (rec : M -> itree E R -> Prop)
    (m : M) : itree' E R -> Prop :=
| follows_ret (r : R) : Q m r -> followsF Q rec m (RetF r)
| follows_tau (t : itree E R) : rec m t -> followsF Q rec m (TauF t)
| follows_vis (X : Type) (e : E X) (k : X -> itree E R) :
    legal m X e -> (forall x : X, rec (next m X e x) (k x)) ->
    followsF Q rec m (VisF e k).

Definition follows_ {R : Type} (Q : M -> R -> Prop) (rec : M -> itree E R -> Prop)
    (m : M) (t : itree E R) : Prop :=
  followsF Q rec m (observe t).

(** [follows Q m t]: from the state [m], the tree [t] performs legal
    events only, and ends in a state and with a result that satisfy
    [Q]. *)
Definition follows {R : Type} (Q : M -> R -> Prop) (m : M) (t : itree E R) : Prop :=
  paco2 (follows_ Q) bot2 m t.

(** The automaton on a finite run: every event of the trace is legal in
    the state the events before it lead to, and the result, when the
    trace has one, satisfies [Q]. *)
Fixpoint accepts {R : Type} (Q : M -> R -> Prop) (m : M) (tr : @trace E R) : Prop :=
  match tr with
  | TEnd => True
  | TRet r => Q m r
  | TEventEnd e => legal m _ e
  | TEventResponse e x tr' => legal m _ e /\ accepts Q (next m _ e x) tr'
  end.

(** ** The predicate is a fixed point *)

Lemma follows_mon {R : Type} (Q : M -> R -> Prop) : monotone2 (follows_ Q).
Proof.
  intros m t rec rec' Ht Hrec. unfold follows_ in *.
  destruct Ht; constructor; auto.
Qed.

#[local] Hint Resolve follows_mon : paco.

Lemma follows_unfold {R : Type} (Q : M -> R -> Prop) (m : M) (t : itree E R) :
  follows Q m t -> followsF Q (follows Q) m (observe t).
Proof.
  intros Ht. punfold Ht. unfold follows_ in Ht.
  destruct Ht as [r Hr|t' Ht'|X e k He Hk]; constructor; auto.
  - by pclearbot.
  - intros x. specialize (Hk x). by pclearbot.
Qed.

(** What follows the protocol with some coinduction hypothesis in hand. *)
Lemma follows_step {R : Type} (Q : M -> R -> Prop) (rec : M -> itree E R -> Prop)
    (m : M) (t : itree E R) :
  follows Q m t -> followsF Q (upaco2 (follows_ Q) rec) m (observe t).
Proof.
  intros Ht. apply follows_unfold in Ht.
  destruct Ht as [r Hr|t' Ht'|X e k He Hk]; constructor; auto.
  - left. eapply paco2_mon_bot; eauto.
  - intros x. left. eapply paco2_mon_bot; eauto. apply Hk.
Qed.

(** ** Proof rules *)

Lemma follows_Ret {R : Type} (Q : M -> R -> Prop) (m : M) (r : R) :
  Q m r -> follows Q m (Ret r).
Proof. intros Hr. pfold. by constructor. Qed.

Lemma follows_trigger {X : Type} (Q : M -> X -> Prop) (m : M) (e : E X) :
  legal m X e -> (forall x : X, Q (next m X e x) x) ->
  follows Q m (ITree.trigger e).
Proof.
  intros He Hx. pfold. constructor; [done|].
  intros x. left. pfold. constructor. apply Hx.
Qed.

Lemma follows_conseq {R : Type} (Q Q' : M -> R -> Prop) (m : M) (t : itree E R) :
  (forall m' r, Q m' r -> Q' m' r) -> follows Q m t -> follows Q' m t.
Proof.
  intros HQ. revert m t. pcofix CIH. intros m t Ht.
  apply follows_unfold in Ht. pfold. unfold follows_.
  destruct Ht as [a Ha|t' Ht'|X e k He Hk]; constructor; auto.
Qed.

Lemma follows_bind {A B : Type} (Q1 : M -> A -> Prop) (Q2 : M -> B -> Prop)
    (m : M) (t : itree E A) (k : A -> itree E B) :
  follows Q1 m t -> (forall m' a, Q1 m' a -> follows Q2 m' (k a)) ->
  follows Q2 m (ITree.bind t k).
Proof.
  intros Ht Hk. revert m t Ht. pcofix CIH. intros m t Ht.
  apply follows_unfold in Ht. pfold. unfold follows_. rewrite observe_bind.
  destruct Ht as [a Ha|t' Ht'|X e k' He Hk'].
  - by apply follows_step, Hk.
  - constructor. right. by apply CIH.
  - constructor; [done|]. intros x. right. by apply CIH.
Qed.

(** The rule of the loop: [Inv] holds of the state and of the
    accumulator at the head of every round. *)
Lemma follows_iter {I R : Type} (Inv : M -> I -> Prop) (Q : M -> R -> Prop)
    (body : I -> itree E (I + R)) :
  (forall m i, Inv m i ->
     follows (fun m' lr => match lr with inl i' => Inv m' i' | inr r => Q m' r end)
       m (body i)) ->
  forall m i, Inv m i -> follows Q m (ITree.iter body i).
Proof.
  intros Hbody.
  set (cont := fun lr : I + R => ITree.on_left lr l (Tau (ITree.iter body l))).
  set (P := fun (m' : M) (lr : I + R) =>
              match lr with inl i' => Inv m' i' | inr r => Q m' r end).
  assert (forall m t T, follows P m t -> observe T = observe (ITree.bind t cont) ->
                        follows Q m T) as Hgen.
  { pcofix CIH. intros m t T Ht HT. apply follows_unfold in Ht.
    pfold. unfold follows_. rewrite HT, observe_bind.
    destruct Ht as [[i'|r0] Hr|t' Ht'|X e k He Hk]; simpl.
    - constructor. right. apply (CIH m (body i')); [by apply Hbody|done].
    - by constructor.
    - constructor. right. by apply (CIH m t').
    - constructor; [done|]. intros x. right. by apply (CIH _ (k x)). }
  intros m i Hi. apply (Hgen m (body i)); [by apply Hbody|reflexivity].
Qed.

(** ** Finite runs *)

(** Every trace of a tree that follows the protocol is accepted. *)
Lemma follows_accepts {R : Type} (Q : M -> R -> Prop) (m : M) (t : itree E R)
    (tr : @trace E R) :
  follows Q m t -> is_trace t tr -> accepts Q m tr.
Proof.
  intros Ht Htr. unfold is_trace in Htr.
  remember (observe t) as ot eqn:Hot. revert m t Ht Hot.
  induction Htr as [ot|r|t' tr Htr IH|X e k|X e x k tr Htr IH];
    intros m t Ht Hot; apply follows_unfold in Ht; rewrite <-Hot in Ht; simpl.
  - done.
  - by inversion Ht.
  - inversion Ht; subst. apply (IH m t'); [assumption|reflexivity].
  - remember (VisF e k) as ot' eqn:Heq in Ht.
    destruct Ht as [a Ha|t' Ht'|X' e' k' He Hk]; inv_Vis. assumption.
  - remember (VisF e k) as ot' eqn:Heq in Ht.
    destruct Ht as [a Ha|t' Ht'|X' e' k' He Hk]; inv_Vis.
    split; [assumption|]. apply (IH _ (k' x)); [apply Hk|reflexivity].
Qed.

End monitor.

#[export] Hint Resolve follows_mon : paco.
