(* ===== verification/InputTree.v ===== *)
(** * InputTree: [input_parser.py] as a tree of interactions

    [InputParser] takes the answers of the environment from functions: a
    folder exists or not, a walk is a list. The script asks one question
    at a time, and [os.walk] is a generator: the directories of a folder
    are listed one by one, between the lines printed for the files of the
    directory before. This file models the script as an interaction tree
    whose events are the calls into [pandas], [os] and [print], with the
    loop over the generator as an iteration that ends when the generator
    does. The tree says nothing of the answers: the environment may
    change while the script runs, and a walk need not end.

    The handler [h_env] answers the events from an [Env] of
    [InputParser], the generator being the list of the directories not
    listed yet. The file proves that the tree run by this handler ends,
    and ends as the program [input_main] does: the relation [runs_as]
    between a tree and a program of the monad is proved of every
    statement and composed along the structure of the script. *)

From ITree Require Import ITree ITreeFacts Events.State Events.StateFacts.
From S2P Require Import Prelude InputParser.

#[local] Open Scope Z_scope.

(** ** Events and trees *)

(** The calls of the script into its environment, with the type of their
    answers. [WalkOpen] is [os.walk(folder_path)], which makes the
    generator, and [WalkNext] asks it for its next directory. *)
Variant ioE : Type -> Type :=
| ReadExcel (name : string) : ioE (result table)
| ReadCsv (name sep : string) : ioE (result table)
| PathExists (folder_path : cell) : ioE (result bool)
| WalkOpen (folder_path : cell) : ioE unit
| WalkNext : ioE (result (option walk_entry))
| AbsPath (path : string) : ioE string
| Print (line : string) : ioE unit
| PrintError (e : pyexn) : ioE unit.

(** A statement: a tree that ends with a value or with the exception
    raised. *)
Definition tree (A : Type) : Type := itree ioE (result A).

Definition tret {A : Type} (a : A) : tree A := Ret (Ok a).

Definition traise {A : Type} (e : pyexn) : tree A := Ret (Raise e).

Definition tlift {A : Type} (r : result A) : tree A := Ret r.

Definition tbind {A B : Type} (t : tree A) (k : A -> tree B) : tree B :=
  ITree.bind t (fun r => match r with Ok a => k a | Raise e => Ret (Raise e) end).

Declare Scope tree_scope.
Delimit Scope tree_scope with tree.
Notation "x <- c ;; k" := (tbind c (fun x => k)) : tree_scope.
Notation "c ;; k" := (tbind c (fun _ => k)) : tree_scope.

(** A call that may raise, and a call that does not. *)
Definition tcall {A : Type} (e : ioE (result A)) : tree A := ITree.trigger e.

Definition tdo {A : Type} (e : ioE A) : tree A := ITree.map Ok (ITree.trigger e).

(** [try: t  except Exception as e: handler(e)] *)
Definition ttry {A : Type} (t : tree A) (handler : pyexn -> tree A) : tree A :=
  ITree.bind t (fun r =>
    match r with
    | Ok a => Ret (Ok a)
    | Raise e => if is_Exception e then handler e else Ret (Raise e)
    end).

(** [if b: t] *)
Definition twhen (b : bool) (t : tree unit) : tree unit :=
  if b then t else tret tt.

(** [for x in l: body(x)], over a list. *)
Fixpoint tfor {A : Type} (l : list A) (body : A -> tree unit) : tree unit :=
  match l with
  | [] => tret tt
  | x :: l' => tbind (body x) (fun _ => tfor l' body)
  end.

(** One round of a loop over a generator: the loop ends when the
    generator does, or with the exception that [next] or the body
    raises. *)
Definition tgen_round {A : Type} (next : tree (option A)) (body : A -> tree unit)
    : itree ioE (unit + result unit) :=
  ITree.bind next (fun r =>
    match r with
    | Raise e => Ret (inr (Raise e))
    | Ok None => Ret (inr (Ok tt))
    | Ok (Some a) =>
        ITree.bind (body a) (fun r' =>
          match r' with
          | Ok _ => Ret (inl tt)
          | Raise e => Ret (inr (Raise e))
          end)
    end).

(** [for x in generator: body(x)] *)
Definition tgen {A : Type} (next : tree (option A)) (body : A -> tree unit) : tree unit :=
  ITree.iter (fun _ : unit => tgen_round next body) tt.

(** ** The script *)

Section script.

(** [os.path.join], a function of its two strings. *)
Context (join : string -> string -> string).

(** Lines 16-21. *)
Definition read_table_tree (input : string) : tree table :=
  match choose_reader input with
  | Excel => tcall (ReadExcel input)
  | Csv => tcall (ReadCsv input ",")
  | Tsv => tcall (ReadCsv input tab)
  end.

(** Lines 32-35: the files of one directory of the walk. *)
Definition print_files_tree (scan_all : bool) (entry : walk_entry) : tree unit :=
  tfor (files entry) (fun file =>
    twhen (keeps scan_all file)
      (path <- tdo (AbsPath (join (root entry) file)) ;;
       tdo (Print path))%tree).

(** Lines 28-35: one folder of the column. *)
Definition scan_folder_tree (scan_all : bool) (folder_path : cell) : tree unit :=
  (found <- tcall (PathExists folder_path) ;;
   twhen found
     (tdo (WalkOpen folder_path) ;;
      tgen (tcall WalkNext) (print_files_tree scan_all)))%tree.

(** Lines 7-35. *)
Definition input_tree (args : InputArgs) : tree unit :=
  (df <- ttry (read_table_tree (input args))
           (fun e => (tdo (PrintError e) ;; traise (SystemExit 1))%tree) ;;
   folders <- tlift (column df (col args)) ;;
   tfor folders (scan_folder_tree (scan_all args)))%tree.

End script.

(** ** An environment that answers from functions *)

(** What the script has printed, and the directories the generator has
    not listed yet (or the exception its next step raises). *)
Record world : Type := {
  out : console;
  pending : result (list walk_entry)
}.

Definition with_out (c : console) (w : world) : world :=
  {| out := c; pending := pending w |}.

Definition with_pending (g : result (list walk_entry)) (w : world) : world :=
  {| out := out w; pending := g |}.

(** The answers of an [Env]. *)
Definition h_env (env : Env) : ioE ~> Monads.stateT world (itree void1) :=
  fun _ e w =>
    match e with
    | ReadExcel name => Ret (w, read_excel env name)
    | ReadCsv name sep => Ret (w, read_csv env name sep)
    | PathExists folder_path => Ret (w, exists_cell env folder_path)
    | WalkOpen folder_path => Ret (with_pending (walk_cell env folder_path) w, tt)
    | WalkNext =>
        match pending w with
        | Raise e => Ret (w, Raise e)
        | Ok [] => Ret (w, Ok None)
        | Ok (entry :: rest) => Ret (with_pending (Ok rest) w, Ok (Some entry))
        end
    | AbsPath path => Ret (w, abspath env path)
    | Print line => Ret (with_out (print line (out w)).1 w, tt)
    | PrintError e => Ret (with_out (print_error e (out w)).1 w, tt)
    end.

(** The world before the script runs. *)
Definition boot_world : world :=
  {| out := {| stdout := []; stderr := [] |}; pending := Ok [] |}.

(** What a world and a result show of a run. *)
Definition shown {A : Type} (x : world * result A) : console * option pyexn :=
  (out x.1, match x.2 with Ok _ => None | Raise e => Some e end).

Section runs.

Context (env : Env).

(** [runs_as G t p]: run from any world, the tree [t] ends; it ends with
    the result of the program [p] and has printed what [p] prints, and
    the generator before and after is related by [G]. *)
Definition runs_as (G : relation (result (list walk_entry))) {A : Type}
    (t : tree A) (p : prog console A) : Prop :=
  forall w : world, exists w' : world,
    interp_state (h_env env) t w ≈ Ret (w', (p (out w)).2)
    /\ out w' = (p (out w)).1
    /\ G (pending w) (pending w').

(** The generator is not touched, or may have been. *)
Definition quiet : relation (result (list walk_entry)) := eq.

Definition any : relation (result (list walk_entry)) := fun _ _ => True.

(** ** The statements *)

Section combinators.

Context (G : relation (result (list walk_entry))) `{!PreOrder G}.

Lemma runs_as_ext {A : Type} (t : tree A) (p q : prog console A) :
  (forall c, p c = q c) -> runs_as G t p -> runs_as G t q.
Proof. intros Hpq Ht w. destruct (Ht w) as (w' & H). exists w'. by rewrite <-Hpq. Qed.

Lemma runs_as_lift {A : Type} (r : result A) : runs_as G (tlift r) (lift r).
Proof.
  intros w. exists w. unfold tlift, lift. simpl.
  rewrite interp_state_ret. split; [reflexivity|split; [done|reflexivity]].
Qed.

Lemma runs_as_ret {A : Type} (a : A) : runs_as G (tret a) (pret a).
Proof. apply (runs_as_lift (Ok a)). Qed.

Lemma runs_as_raise {A : Type} (e : pyexn) : runs_as G (traise e) (raise (A := A) e).
Proof. apply (runs_as_lift (Raise e)). Qed.

Lemma runs_as_bind {A B : Type} (t : tree A) (k : A -> tree B)
    (p : prog console A) (q : A -> prog console B) :
  runs_as G t p -> (forall a, runs_as G (k a) (q a)) ->
  runs_as G (tbind t k) (pbind p q).
Proof.
  intros Ht Hk w. destruct (Ht w) as (w1 & H1 & Ho1 & G1).
  unfold tbind, pbind. destruct (p (out w)) as [c1 [a|e]]; simpl in *.
  - destruct (Hk a w1) as (w2 & H2 & Ho2 & G2). rewrite Ho1 in H2, Ho2.
    exists w2. split; [|split; [done|by trans (pending w1)]].
    by rewrite interp_state_bind, H1, bind_ret_l.
  - exists w1. split; [|done].
    rewrite interp_state_bind, H1, bind_ret_l. simpl. by rewrite interp_state_ret.
Qed.

Lemma runs_as_try {A : Type} (t : tree A) (handler : pyexn -> tree A)
    (p : prog console A) (q : pyexn -> prog console A) :
  runs_as G t p -> (forall e, runs_as G (handler e) (q e)) ->
  runs_as G (ttry t handler) (try_except p q).
Proof.
  intros Ht Hh w. destruct (Ht w) as (w1 & H1 & Ho1 & G1).
  unfold ttry, try_except. destruct (p (out w)) as [c1 [a|e]]; simpl in *.
  - exists w1. split; [|done].
    rewrite interp_state_bind, H1, bind_ret_l. simpl. by rewrite interp_state_ret.
  - destruct (is_Exception e) eqn:He.
    + destruct (Hh e w1) as (w2 & H2 & Ho2 & G2). rewrite Ho1 in H2, Ho2.
      exists w2. split; [|split; [done|by trans (pending w1)]].
      rewrite interp_state_bind, H1, bind_ret_l. simpl. by rewrite He.
    + exists w1. split; [|done].
      rewrite interp_state_bind, H1, bind_ret_l. simpl.
      by rewrite He, interp_state_ret.
Qed.

Lemma runs_as_when (b : bool) (t : tree unit) (p : prog console unit) :
  runs_as G t p -> runs_as G (twhen b t) (when b p).
Proof. intros Ht. destruct b; [done|apply runs_as_ret]. Qed.

Lemma runs_as_for {A : Type} (l : list A) (body : A -> tree unit)
    (q : A -> prog console unit) :
  (forall a, runs_as G (body a) (q a)) -> runs_as G (tfor l body) (for_each l q).
Proof.
  intros Hbody. induction l as [|a l IH]; simpl; [apply runs_as_ret|].
  by apply runs_as_bind.
Qed.

(** A statement that leaves the generator alone. *)
Lemma runs_as_quiet {A : Type} (t : tree A) (p : prog console A) :
  runs_as quiet t p -> runs_as G t p.
Proof.
  intros Ht w. destruct (Ht w) as (w' & H & Ho & Hg). exists w'.
  split; [exact H|split; [exact Ho|]]. unfold quiet in Hg. rewrite <-Hg. reflexivity.
Qed.

End combinators.

#[export] Instance quiet_preorder : PreOrder quiet.
Proof. unfold quiet. apply _. Qed.

#[export] Instance any_preorder : PreOrder any.
Proof. by split. Qed.

(** ** The calls *)

(** [run_event] runs the event at the head of the tree of the goal. *)
Ltac run_event :=
  unfold tcall, tdo, ITree.map;
  rewrite ?interp_state_bind, interp_state_trigger; cbn;
  rewrite ?bind_ret_l; cbn; rewrite ?interp_state_ret.

Lemma runs_as_exists (folder_path : cell) :
  runs_as quiet (tcall (PathExists folder_path)) (lift (exists_cell env folder_path)).
Proof. intros w. exists w. split; [by run_event|done]. Qed.

Lemma runs_as_abspath (path : string) :
  runs_as quiet (tdo (AbsPath path)) (pret (abspath env path)).
Proof. intros w. exists w. split; [by run_event|done]. Qed.

Lemma runs_as_print (line : string) : runs_as quiet (tdo (Print line)) (print line).
Proof. intros w. eexists. split; [by run_event|done]. Qed.

Lemma runs_as_print_error (e : pyexn) :
  runs_as quiet (tdo (PrintError e)) (print_error e).
Proof. intros w. eexists. split; [by run_event|done]. Qed.

Lemma runs_as_read_table (input : string) :
  runs_as quiet (read_table_tree input) (lift (read_table env input)).
Proof.
  intros w. exists w. unfold read_table_tree, read_table, lift.
  split; [|done]. destruct (choose_reader input); by run_event.
Qed.

(** ** The loop over the generator *)

(** One round of the loop of line 31, by what the generator holds. *)
Lemma gen_round_end (body : walk_entry -> tree unit) (w : world) :
  pending w = Ok [] ->
  interp_state (h_env env) (tgen_round (tcall WalkNext) body) w ≈ Ret (w, inr (Ok tt)).
Proof.
  intros Hw. unfold tgen_round, tcall.
  rewrite interp_state_bind, interp_state_trigger. cbn. rewrite Hw, bind_ret_l. cbn.
  by rewrite interp_state_ret.
Qed.

Lemma gen_round_raise (body : walk_entry -> tree unit) (w : world) (e : pyexn) :
  pending w = Raise e ->
  interp_state (h_env env) (tgen_round (tcall WalkNext) body) w ≈ Ret (w, inr (Raise e)).
Proof.
  intros Hw. unfold tgen_round, tcall.
  rewrite interp_state_bind, interp_state_trigger. cbn. rewrite Hw, bind_ret_l. cbn.
  by rewrite interp_state_ret.
Qed.

Lemma gen_round_next (body : walk_entry -> tree unit) (w w' : world)
    (entry : walk_entry) (rest : list walk_entry) (r : result unit) :
  pending w = Ok (entry :: rest) ->
  interp_state (h_env env) (body entry) (with_pending (Ok rest) w) ≈ Ret (w', r) ->
  interp_state (h_env env) (tgen_round (tcall WalkNext) body) w
  ≈ Ret (w', match r with Ok _ => inl tt | Raise e => inr (Raise e) end).
Proof.
  intros Hw Hbody. unfold tgen_round, tcall.
  rewrite interp_state_bind, interp_state_trigger. cbn. rewrite Hw, bind_ret_l. cbn.
  rewrite interp_state_bind, Hbody, bind_ret_l. cbn.
  destruct r; by rewrite interp_state_ret.
Qed.

(** The loop of [h_env] is the loop over the directories the generator
    has not listed yet. *)
Lemma gen_runs (body : walk_entry -> tree unit) (q : walk_entry -> prog console unit) :
  (forall entry, runs_as quiet (body entry) (q entry)) ->
  forall (entries : list walk_entry) (w : world),
    pending w = Ok entries ->
    exists w' : world,
      interp_state (h_env env) (tgen (tcall WalkNext) body) w
      ≈ Ret (w', (for_each entries q (out w)).2)
      /\ out w' = (for_each entries q (out w)).1.
Proof.
  intros Hbody. induction entries as [|entry rest IH]; intros w Hw; unfold tgen.
  - exists w. split; [|done].
    rewrite unfold_iter, interp_state_bind, (gen_round_end _ _ Hw), bind_ret_l. cbn.
    by rewrite interp_state_ret.
  - destruct (Hbody entry (with_pending (Ok rest) w)) as (w1 & H1 & Ho1 & Hg1).
    rewrite for_each_cons. simpl in *.
    destruct (q entry (out w)) as [c1 [[]|e]]; simpl in *.
    + destruct (IH w1 (eq_sym Hg1)) as (w2 & H2 & Ho2). rewrite Ho1 in H2, Ho2.
      exists w2. split; [|done].
      rewrite unfold_iter, interp_state_bind, (gen_round_next _ _ _ _ _ _ Hw H1), bind_ret_l.
      cbn. by rewrite interp_state_tau, tau_eutt.
    + exists w1. split; [|done].
      rewrite unfold_iter, interp_state_bind, (gen_round_next _ _ _ _ _ _ Hw H1), bind_ret_l.
      cbn. by rewrite interp_state_ret.
Qed.

(** Lines 31-35: the generator is made, then asked until it ends. *)
Lemma runs_as_walk (folder_path : cell) (body : walk_entry -> tree unit)
    (q : walk_entry -> prog console unit) :
  (forall entry, runs_as quiet (body entry) (q entry)) ->
  runs_as any (tdo (WalkOpen folder_path) ;; tgen (tcall WalkNext) body)%tree
    (entries <- lift (walk_cell env folder_path) ;; for_each entries q)%prog.
Proof.
  intros Hbody w. unfold tbind, tdo, ITree.map, pbind, lift. simpl.
  set (w0 := with_pending (walk_cell env folder_path) w).
  assert (forall t : tree unit,
    interp_state (h_env env)
      (ITree.bind (ITree.bind (ITree.trigger (WalkOpen folder_path)) (fun x => Ret (Ok x)))
         (fun r => match r with Ok _ => t | Raise e => Ret (Raise e) end)) w
    ≈ interp_state (h_env env) t w0) as Hopen.
  { intros t. rewrite bind_bind, interp_state_bind, interp_state_trigger. cbn.
    rewrite bind_ret_l. cbn. by rewrite bind_ret_l. }
  destruct (walk_cell env folder_path) as [entries|e] eqn:Hwalk.
  - destruct (gen_runs body q Hbody entries w0 eq_refl) as (w' & H & Ho).
    exists w'. by rewrite Hopen.
  - exists w0. split; [|done]. rewrite Hopen. unfold tgen.
    rewrite unfold_iter, interp_state_bind, (gen_round_raise _ w0 e eq_refl), bind_ret_l.
    cbn. by rewrite interp_state_ret.
Qed.

(** ** The script *)

Lemma runs_as_print_files (scan_all : bool) (entry : walk_entry) :
  runs_as quiet (print_files_tree (path_join env) scan_all entry)
    (for_each (files entry) (fun file =>
       when (keeps scan_all file)
         (print (abspath env (path_join env (root entry) file))))).
Proof.
  apply (runs_as_for _). intros file. apply (runs_as_when _).
  apply (runs_as_ext _ _ (path <- pret (abspath env (path_join env (root entry) file)) ;;
                            print path)%prog); [done|].
  apply (runs_as_bind _); [apply runs_as_abspath|intros path; apply runs_as_print].
Qed.

Lemma runs_as_scan_folder (scan_all : bool) (folder_path : cell) :
  runs_as any (scan_folder_tree (path_join env) scan_all folder_path)
    (scan_folder env scan_all folder_path).
Proof.
  apply (runs_as_bind _); [apply (runs_as_quiet _), runs_as_exists|].
  intros found. apply (runs_as_when _), runs_as_walk, runs_as_print_files.
Qed.

Lemma runs_as_input_main (args : InputArgs) :
  runs_as any (input_tree (path_join env) args) (input_main env args).
Proof.
  apply (runs_as_bind _).
  - apply (runs_as_try _); [apply (runs_as_quiet _), runs_as_read_table|].
    intros e. apply (runs_as_bind _); [apply (runs_as_quiet _), runs_as_print_error|].
    intros _. apply (runs_as_raise _).
  - intros df. apply (runs_as_bind _); [apply (runs_as_lift _)|].
    intros folders. apply (runs_as_for _), runs_as_scan_folder.
Qed.

(** Run against an [Env], the tree ends as the script of [InputParser]
    does. *)
Lemma input_tree_runs (args : InputArgs) :
  ITree.map shown (interp_state (h_env env) (input_tree (path_join env) args) boot_world)
  ≈ Ret (run_input_main env args).
Proof.
  destruct (runs_as_input_main args boot_world) as (w' & H & Ho & _).
  unfold ITree.map. rewrite H, bind_ret_l. unfold shown, run_input_main. simpl in *.
  rewrite Ho. by destruct (input_main env args _) as [c [[]|e]].
Qed.

End runs.

(** ** Properties of the script *)

(** Claim C14. Run against an environment of [InputParser] (the tables of
    the readers, the folders that exist, the finite walk of each folder),
    the tree of [input_parser.py] performs finitely many events and ends
    with the standard output, the standard error and the exit status
    that the script of [InputParser] computes: the lazy walk, read one
    entry at a time, prints what the walk taken as a list prints. *)
Theorem tree_runs_input_main (env : Env) (args : InputArgs) :
  ITree.map shown (interp_state (h_env env) (input_tree (path_join env) args) boot_world)
  ≈ Ret (run_input_main env args).
Proof. apply input_tree_runs. Qed.
