(* ===== verification/InputProtocol.v ===== *)
(** * InputProtocol: what [input_parser.py] asks of its environment, and when

    [InputTree] gives the script as a tree of calls. This file states the
    order of these calls as an automaton ([phase], [legal], [after]) and
    proves that the tree follows it whatever the environment answers, a
    walk that never ends included:

    - the table is read first, once, with the reader the file name calls
      for; when the reader raises an exception the error is printed and
      nothing else is asked;
    - the folders of the column are asked for in the order of the column,
      each once; a folder is walked only after [os.path.exists] said it
      exists;
    - between two steps of the generator, the files of the directory it
      gave that the filter keeps are resolved and printed, in the order of
      the listing; a line printed is the answer of [os.path.abspath] for
      the file at hand;
    - the script ends normally only when every folder has been asked for,
      and after an exception it asks nothing.

    The proof composes the rules of [Monitor] along the structure of the
    script; the loop over the generator is the rule of [ITree.iter] with
    the invariant that the generator is open and no file is pending. *)

From Paco Require Import paco.
From ITree Require Import ITree ITreeFacts Interp.Traces.
From S2P Require Import Prelude InputParser Monitor InputTree.

#[local] Open Scope Z_scope.

(** ** The automaton *)

(** Where the script is: the folders of the column it has not asked for
    yet ([rest]), and the paths of the directory at hand it has not
    printed yet ([todo]). *)
Inductive phase : Type :=
| Start
| ReadFailed (e : pyexn)
| Column (rest : list cell)
| Found (folder_path : cell) (rest : list cell)
| Listing (todo : list string) (rest : list cell)
| Resolved (line : string) (todo : list string) (rest : list cell)
| Ended.

Section protocol.

Context (join : string -> string -> string) (args : InputArgs).

(** The paths of a directory of the walk that lines 32-35 print. *)
Definition kept_paths (entry : walk_entry) : list string :=
  join (root entry) <$> filter (fun file => keeps (scan_all args) file = true) (files entry).

(** The call the script may make in a phase. *)
Definition legal (m : phase) (X : Type) (e : ioE X) : Prop :=
  match m, e with
  | Start, ReadExcel name =>
      name = input args /\ choose_reader (input args) = Excel
  | Start, ReadCsv name sep =>
      name = input args
      /\ (choose_reader (input args) = Csv /\ sep = ","
          \/ choose_reader (input args) = Tsv /\ sep = tab)
  | ReadFailed e, PrintError e' => e' = e
  | Column (folder_path :: _), PathExists p => p = folder_path
  | Found folder_path _, WalkOpen p => p = folder_path
  | Listing [] _, WalkNext => True
  | Listing (path :: _) _, AbsPath p => p = path
  | Resolved line _ _, Print l => l = line
  | _, _ => False
  end.

(** The phase after the table was read, or not. *)
Definition after_read (r : result table) : phase :=
  match r with
  | Ok df =>
      match column df (col args) with
      | Ok folders => Column folders
      | Raise _ => Ended
      end
  | Raise e => if is_Exception e then ReadFailed e else Ended
  end.

(** The phase after a call and its answer. *)
Definition after (m : phase) (X : Type) (e : ioE X) : X -> phase :=
  match e in ioE X return X -> phase with
  | ReadExcel _ | ReadCsv _ _ => fun r =>
      match m with Start => after_read r | _ => Ended end
  | PathExists _ => fun r =>
      match m, r with
      | Column (folder_path :: rest), Ok true => Found folder_path rest
      | Column (_ :: rest), Ok false => Column rest
      | _, _ => Ended
      end
  | WalkOpen _ => fun _ =>
      match m with Found _ rest => Listing [] rest | _ => Ended end
  | WalkNext => fun r =>
      match m, r with
      | Listing [] rest, Ok (Some entry) => Listing (kept_paths entry) rest
      | Listing [] rest, Ok None => Column rest
      | _, _ => Ended
      end
  | AbsPath _ => fun line =>
      match m with
      | Listing (_ :: todo) rest => Resolved line todo rest
      | _ => Ended
      end
  | Print _ => fun _ =>
      match m with Resolved _ todo rest => Listing todo rest | _ => Ended end
  | PrintError _ => fun _ => Ended
  end.

(** How a statement may end: normally in the phase [m'], or with an
    exception, after which nothing is asked. *)
Definition ends_in {A : Type} (m' : phase) (m : phase) (r : result A) : Prop :=
  match r with
  | Ok _ => m = m'
  | Raise _ => m = Ended
  end.

(** A trace of the script that the automaton accepts. *)
Definition conforms (tr : @trace ioE (result unit)) : Prop :=
  accepts legal after (ends_in (Column [])) Start tr.

(** ** Rules for statements *)

#[local] Notation "'obeys'" := (follows legal after) (only parsing).

Lemma follows_tbind {A B : Type} (Q1 : phase -> result A -> Prop)
    (Q2 : phase -> result B -> Prop) (m : phase) (t : tree A) (k : A -> tree B) :
  obeys Q1 m t ->
  (forall m' a, Q1 m' (Ok a) -> obeys Q2 m' (k a)) ->
  (forall m' e, Q1 m' (Raise e) -> Q2 m' (Raise e)) ->
  obeys Q2 m (tbind t k).
Proof.
  intros Ht Hk He. apply (follows_bind _ _ Q1); [done|].
  intros m' [a|e] Hr; [by apply Hk|by apply follows_Ret, He].
Qed.

Lemma follows_tcall {A : Type} (Q : phase -> result A -> Prop) (m : phase)
    (e : ioE (result A)) :
  legal m _ e -> (forall r, Q (after m _ e r) r) -> obeys Q m (tcall e).
Proof. apply follows_trigger. Qed.

Lemma follows_tdo {A : Type} (Q : phase -> result A -> Prop) (m : phase) (e : ioE A) :
  legal m _ e -> (forall a, Q (after m _ e a) (Ok a)) -> obeys Q m (tdo e).
Proof.
  intros He Ha. apply (follows_bind _ _ (fun m' a => Q m' (Ok a))).
  - by apply follows_trigger.
  - intros m' a Hq. by apply follows_Ret.
Qed.

(** ** The script follows the automaton *)

(** Lines 32-35, from the listing of a directory to the next step of the
    generator. *)
Lemma follows_print_files (root : string) (files : list string) (rest : list cell) :
  obeys (ends_in (Listing [] rest))
    (Listing (join root <$> filter (fun file => keeps (scan_all args) file = true) files) rest)
    (tfor files (fun file =>
       twhen (keeps (scan_all args) file)
         (path <- tdo (AbsPath (join root file)) ;; tdo (Print path))%tree)).
Proof.
  induction files as [|file files IH]; simpl; [by apply follows_Ret|].
  destruct (keeps (scan_all args) file) eqn:Hk; simpl.
  - rewrite filter_cons_True, fmap_cons by done.
    set (todo := join root <$> filter _ files) in *.
    apply (follows_tbind (ends_in (Listing todo rest))); [|by intros m' [] ->|by intros].
    apply (follows_tbind
             (fun m' r => exists line, r = Ok line /\ m' = Resolved line todo rest)).
    + apply follows_tdo; [done|]. intros line. by exists line.
    + intros m' line' (line & [= ->] & ->). by apply follows_tdo.
    + by intros m' e (line & [=] & _).
  - rewrite filter_cons_False by (by rewrite Hk).
    set (todo := join root <$> filter _ files) in *.
    apply (follows_tbind (ends_in (Listing todo rest))); [by apply follows_Ret| |by intros].
    by intros m' [] ->.
Qed.

(** One round of the loop of line 31. *)
Lemma follows_gen_round (rest : list cell) :
  obeys
    (fun m lr => match lr with
                 | inl _ => m = Listing [] rest
                 | inr r => ends_in (Column rest) m r
                 end)
    (Listing [] rest)
    (tgen_round (tcall WalkNext) (print_files_tree join (scan_all args))).
Proof.
  apply (follows_bind _ _ (fun m r => m = after (Listing [] rest) _ WalkNext r)).
  - by apply follows_tcall.
  - intros m' [[entry|]|e] ->; simpl; [|by apply follows_Ret..].
    apply (follows_bind _ _ (ends_in (Listing [] rest))).
    + apply follows_print_files.
    + intros m' [[]|e] Hm; by apply follows_Ret.
Qed.

(** Lines 28-35. *)
Lemma follows_scan_folder (folder_path : cell) (rest : list cell) :
  obeys (ends_in (Column rest)) (Column (folder_path :: rest))
    (scan_folder_tree join (scan_all args) folder_path).
Proof.
  apply (follows_tbind
           (fun m r => m = after (Column (folder_path :: rest)) _ (PathExists folder_path) r)).
  - by apply follows_tcall.
  - intros m' [|] ->; simpl; [|by apply follows_Ret].
    apply (follows_tbind (ends_in (Listing [] rest))).
    + by apply follows_tdo.
    + intros m' [] ->. apply (follows_iter _ _ (fun m _ => m = Listing [] rest)); [|done].
      intros m [] ->. apply follows_gen_round.
    + by intros.
  - by intros m' e ->.
Qed.

(** Lines 27-35. *)
Lemma follows_scan (folders : list cell) :
  obeys (ends_in (Column [])) (Column folders)
    (tfor folders (scan_folder_tree join (scan_all args))).
Proof.
  induction folders as [|folder_path rest IH]; simpl; [by apply follows_Ret|].
  apply (follows_tbind (ends_in (Column rest))); [apply follows_scan_folder| |by intros].
  by intros m' [] ->.
Qed.

(** Lines 16-21. *)
Lemma follows_read_table :
  obeys (fun m r => m = after_read r) Start (read_table_tree (input args)).
Proof.
  unfold read_table_tree.
  destruct (choose_reader (input args)) eqn:Hr; apply follows_tcall; simpl; auto.
Qed.

(** Lines 15-24. *)
Lemma follows_try_read :
  obeys
    (fun m r => match r with
                | Ok df => m = after_read (Ok df)
                | Raise _ => m = Ended
                end)
    Start
    (ttry (read_table_tree (input args))
       (fun e => (tdo (PrintError e) ;; traise (SystemExit 1))%tree)).
Proof.
  apply (follows_bind _ _ (fun m r => m = after_read r)); [apply follows_read_table|].
  intros m' [df|e] ->; [by apply follows_Ret|]. simpl.
  destruct (is_Exception e); [|by apply follows_Ret].
  apply (follows_tbind (ends_in Ended)); [by apply follows_tdo| |by intros].
  intros m' [] ->. by apply follows_Ret.
Qed.

(** The script. *)
Lemma follows_input_tree :
  obeys (ends_in (Column [])) Start (input_tree join args).
Proof.
  apply (follows_tbind _ _ _ _ _ follows_try_read); [|by intros].
  intros m' df ->. simpl. unfold tlift.
  destruct (column df (col args)) as [folders|e].
  - apply (follows_tbind (fun m r => r = Ok folders /\ m = Column folders)).
    + by apply follows_Ret.
    + intros m' a [[= ->] ->]. apply follows_scan.
    + by intros m' e [[=] _].
  - apply (follows_tbind (fun m r => r = Raise e /\ m = Ended)).
    + by apply follows_Ret.
    + by intros m' a [[=] _].
    + by intros m' e' [_ ->].
Qed.

End protocol.

(** A run of the script in which the reader raises [OSError], as a trace:
    the call, the error printed, the exit status. *)
Definition failed_read_trace : @trace ioE (result unit) :=
  TEventResponse (ReadCsv "samples.csv" ",") (Raise OSError)
    (TEventResponse (PrintError OSError) tt (TRet (Raise (SystemExit 1)))).

(** ** Properties of the interactions *)

(** Claim C15. Whatever the environment answers, and whether the walks end
    or not, every finite run of the script is accepted by the automaton:
    the table is read first and once; folders are asked for in the order
    of the column and walked only when they exist; a line printed is the
    absolute path given for a file that the directory at hand lists and
    the filter keeps, in the order of the listing; the script ends
    normally only after the last folder, and asks nothing after an
    exception. *)
Theorem script_follows_protocol (join : string -> string -> string) (args : InputArgs)
    (tr : @trace ioE (result unit)) :
  is_trace (input_tree join args) tr -> conforms join args tr.
Proof. apply follows_accepts, follows_input_tree. Qed.

Lemma script_follows_protocol_witness :
  conforms (path_join sample_env) (parse_input_args "samples.csv" None false)
    failed_read_trace.
Proof.
  apply script_follows_protocol. unfold is_trace, failed_read_trace.
  repeat (cbn; constructor).
Defined.
